(* ===== verification/_CoqProject ===== *)
-Q . S2P
Prelude.v
Prog.v
Utf8.v
Regex.v
Redact.v
Sha256.v
Json.v
K8s.v
Types.v
Effects.v
Domain.v
Fingerprint.v
BoundedMap.v
CircuitBreaker.v
Correlator.v
Config.v
Metrics.v
Controller.v
ControllerProps.v
ControllerSafety.v
ControllerOutcomes.v
Provider.v
ProviderProps.v
SelfRemediation.v
JobBuilder.v
Wiring.v
Native.v
NativeProps.v
Symptoms.v
Texts.v
Readiness.v
GitHub.v
GitHubProps.v
Watcher.v
Concurrency.v
Origin.v
System.v
Board.v
Liveness.v
Progress.v
DeepCopy.v
Boot.v
Names.v
