(* ===== verification/Prelude.v ===== *)
(** * Verification of k8s-mechanic

    ** The program
    k8s-mechanic watches a Kubernetes cluster for unhealthy workloads and lets an
    agent investigate each of them.  Its implementation is the Go program under
    src/cmd/watcher and src/internal:

    - six native providers (internal/provider/native) turn a watched object into
      a _finding_: its kind, its root owner, redacted error texts, a severity;
    - the SourceProviderReconciler (internal/provider) passes a finding through a
      chain of gates (injection, namespaces, severity, chain depth, circuit
      breaker, stabilisation window, duplicates, hierarchy, readiness) and
      creates a RemediationJob for it; it cancels the jobs of a deleted object
      and closes the sinks of a healthy one;
    - the RemediationJobReconciler (internal/controller) moves a RemediationJob
      through its life cycle: it correlates it with its peers
      (internal/correlator), limits the number of agents, builds and dispatches a
      batch/v1 Job (internal/jobbuilder), follows that Job, counts retries,
      records pull requests and deletes the job when its time to live is over;
    - internal/domain holds findings, fingerprints, severities, annotations,
      redaction and injection detection; internal/config the configuration;
      internal/readiness, internal/github and internal/sink the credentials
      checks and GitHub; cmd/watcher/main.go wires everything.

    The two reconcilers meet only in the RemediationJob objects of the API
    server; System.v runs them against one.

    ** How it is modelled
    Pure Go functions are functions.  Code with effects is a program ([prog] in
    Prog.v) over the calls of Effects.v: the API server, the clock, the random
    source, HTTP, metrics and events.  An answer is arbitrary, an error or an
    object, so a theorem about every run of a program holds for every cluster;
    what a theorem needs of the answers is stated in it ([relies]).  A create or
    a patch answers with the object the server stored.  A Go panic is an
    outcome.  State kept between calls (the first-seen map, the circuit breaker,
    caches, tokens) is passed explicitly; each operation that holds a mutex is
    one step, and the readiness cache, which releases its mutex, is a step
    relation over its two critical sections.  Integers are [Z], with the
    wrap-around of int32 and int64 written out where the code computes in them;
    times and durations are nanoseconds.  Strings are byte strings, decoded as
    UTF-8 where Go does so.  Phases are an inductive type with the values of the
    CRD's enumeration.

    ** Files
    - Prelude.v: Go's integers, times, strings and errors; shared tactics.
      Prog.v: programs, their runs, and the logics [wp], [allows], [yields] and
      [ensures].  Effects.v: the calls and their answers.
    - Utf8.v, Regex.v, Json.v, Sha256.v: the standard library as far as the code
      depends on it: UTF-8 decoding, a backtracking matcher for the built-in
      patterns, encoding/json for the structs in use, SHA-256.
    - K8s.v: the Kubernetes objects; the condition helpers of apimachinery are
      the class [ConditionLib] with its documented laws.  Types.v:
      api/v1alpha1/remediationjob_types.go.
    - Domain.v: severity.go, annotations.go, delimiter.go, correlation.go and
      provider.go of internal/domain.  Fingerprint.v: FindingFingerprint.
      Redact.v: injection.go, redact.go and cmd/redact/main.go.
    - BoundedMap.v: provider/bounded_map.go.  CircuitBreaker.v: circuitbreaker.go.
      Metrics.v: metrics.go.  Config.v: config.go.
    - Correlator.v: correlator/correlator.go and rules.go.
    - Controller.v: controller/remediationjob_controller.go, with its theorems in
      ControllerProps.v (life cycle), ControllerSafety.v (dispatch) and
      ControllerOutcomes.v (peers, time to live, metrics, when a reconcile can panic).
    - Provider.v: provider/provider.go, with its theorems in ProviderProps.v
      (admission, cancellation) and SelfRemediation.v.
    - JobBuilder.v: jobbuilder/job.go.
    - Native.v: provider/native, with its theorems in NativeProps.v, Symptoms.v
      (which objects are reported) and Texts.v (what the texts show).
    - Readiness.v: readiness, readiness/llm and readiness/sink.
    - GitHub.v and GitHubProps.v: github/token.go, sink/github and domain/sink.go.
    - Wiring.v, Watcher.v and Boot.v: cmd/watcher/main.go, with the theorems that
      need its wiring: in Wiring.v those on the controller's Jobs and panics, in
      Watcher.v those on the provider's readiness and cancellations; Boot.v also
      logging/logging.go and the scheme of api/v1alpha1.
    - DeepCopy.v: the deep copies of remediationjob_types.go, on a heap.
    - Concurrency.v: pools of programs over a shared world, with the invariant
      rule of rely-guarantee reasoning.  Origin.v: what identifies an object, and
      which calls of a reconcile can name it.  System.v: both reconcilers, the
      API server and everybody else; Board.v: its abstract specification.
    - Liveness.v: what becomes of a finding; Progress.v: what becomes of a pending
      job; Names.v: the names and labels of the created objects.

    A definition has the name of the Go function it translates; a part of a long
    function has a name of its own and a comment with its lines.

    ** What is proved
    - The system: with any number of concurrent reconciles, stale reads, lost
      replies, restarts and other clients (who create no RemediationJobs or managed
      Jobs and change no specs), there is at most one RemediationJob per
      fingerprint and one agent Job per RemediationJob, and every agent Job goes
      back to a finding of a provider.  Every step is at most one move of an
      abstract board of investigations.
    - Progress: a finding leads to a RemediationJob, an error, another attempt or
      a counted suppression whose reason holds at the times read; a pending job
      that is due gets its Job from the wired reconciler when the server cooperates
      and a slot is free.
    - Start-up: main serves only with everything wired, ends with the right code
      and retries a bounded number of times.
    - Life cycle: every write of a reconcile follows the state machine; at most
      one Job is created, behind the gate or for a primary; a job fails at most
      once; jobs live until their time to live; a pull request is counted once;
      a reconcile with a validated configuration panics only when the random source
      fails; deep copies share nothing.
    - Admission: a RemediationJob is created only for a finding of the object
      just read that passed every gate; deleting an object cancels the unfinished
      jobs of its name and namespace and only these.
    - Configuration: FromEnv returns exactly the configurations in which every
      field is what its variable allows.
    - Correlation: the groups are made of listed jobs; members agree on the
      primary; peers are suppressed before the primary dispatches.
    - Findings: objects are reported iff they are unhealthy, with the severity of
      the worst symptom and their root owner; every finding has a fingerprint;
      the hashed payload identifies namespace, kind, parent and the texts in any
      order; the watcher's own jobs get a positive chain depth.
    - Text: redacted texts have no long base64 run, and messages, those of events
      included, reach a finding only cleaned and within their limits; injections are detected in any
      context; error entries survive JSON.
    - Bounded map, circuit breaker, readiness cache, token cache: bounds,
      spacing, freshness, the latter two for any history of calls.
    - Jobs: a built Job is well-formed and carries the labels by which later
      reconciles find it; its name and labels are legal.
    - The whole: with the collaborators that [main] wires up, jobs are created
      only with credentials in place ([Watcher.v] discharges the interface
      [collaborators_quiet] that ProviderProps.v assumes of them).

    Some theorems state how the code departs from its comments and documents, for
    example [self_remediation_never_starts], [deletion_ignores_the_kind] and
    [documented_grades_differ].

    ** Bounds and fuel
    The JSON parser has fuel, one more than the bytes of its input;
    [parser_has_enough_fuel] shows that more fuel reads nothing more.  main's loop
    over ten attempts is a recursion on the attempts left.  The walk
    along owner references stops after ten steps because the code does.  Decimal
    numbers are printed and read with 20 digits, which every 64-bit number fits
    ([Atoi_itoa]).  Everything else is structural recursion.

    ** Arguments of the model
    What is not code of the repository and not modelled data is an argument: the
    RE2 compiler for extra patterns (Texts.v states what it relies on of it), the
    parser of resource quantities, the texts of errors ([error_text]), the
    condition helpers, the iteration order of maps and the result of the unstable
    sort (NativeProps.v, Symptoms.v and Texts.v each state what they rely on of it:
    that it rearranges the events, puts the newest first, looks at timestamps only).

    ** Not modelled
    Log lines that do not end the process; what controller-runtime does between
    the watches that SetupWithManager declares and the calls of Reconcile (queues,
    rate limits, requeues: System.v lets any reconcile start at any time); the
    helpers of the tests in internal/testutil; the operands of formatted error
    texts in Config.v and Boot.v; net/http, golang-jwt, zap and the Prometheus client.

    ** Plan
    Next: progress of the system of System.v under a fair schedule; the
    correlation window as a property of both reconcilers together. *)
From stdpp Require Import base list strings gmap sorting.
From Stdlib Require Import ZArith Lia Ascii.

Declare Scope go_scope.
Delimit Scope go_scope with go.

(** ** Go integers: [int32], [int64] and [int] (64 bits), as [Z] with the
    wrap-around of Go arithmetic written out. *)
Module GoInt.
Open Scope Z_scope.

Definition wrap (bits x : Z) : Z :=
  (x + 2 ^ (bits - 1)) mod 2 ^ bits - 2 ^ (bits - 1).

Definition wrap32 (x : Z) : Z := wrap 32 x.
Definition wrap64 (x : Z) : Z := wrap 64 x.

Definition max_int32 : Z := 2147483647.
Definition max_int64 : Z := 9223372036854775807.
Definition min_int64 : Z := -9223372036854775808.

Definition in_int32 (x : Z) : Prop := -2147483648 <= x <= 2147483647.
Definition in_int64 (x : Z) : Prop := min_int64 <= x <= max_int64.

Lemma wrap_small bits x :
  0 < bits -> - 2 ^ (bits - 1) <= x < 2 ^ (bits - 1) -> wrap bits x = x.
Proof.
  intros Hb Hx. unfold wrap.
  assert (2 ^ bits = 2 * 2 ^ (bits - 1)) as E.
  { rewrite <- Z.pow_succ_r by lia. f_equal. lia. }
  rewrite Z.mod_small by lia. lia.
Qed.

Lemma wrap32_small x : in_int32 x -> wrap32 x = x.
Proof. intros H. apply wrap_small; [lia|]. unfold in_int32 in H. simpl. lia. Qed.

Lemma wrap64_small x : in_int64 x -> wrap64 x = x.
Proof.
  intros H. apply wrap_small; [lia|].
  unfold in_int64, min_int64, max_int64 in H. simpl. lia.
Qed.

Lemma wrap32_range x : in_int32 (wrap32 x).
Proof.
  unfold wrap32, wrap, in_int32.
  pose proof (Z.mod_pos_bound (x + 2 ^ (32 - 1)) (2 ^ 32) ltac:(lia)) as H.
  change (2 ^ (32 - 1)) with 2147483648 in *. change (2 ^ 32) with 4294967296 in *. lia.
Qed.
End GoInt.

(** ** [time.Time] and [time.Duration]: nanoseconds.
    A [time.Time] is the number of nanoseconds since the Unix epoch, a
    [time.Duration] a 64-bit count of nanoseconds. *)
Module GoTime.
Import GoInt.
Open Scope Z_scope.

Definition second : Z := 1000000000.
Definition minute : Z := 60 * second.
Definition hour : Z := 60 * minute.
Definition day : Z := 24 * hour.

(** The zero [time.Time], January 1 of year 1, for [IsZero]. *)
Definition zero_time : Z := -62135596800 * second.
Definition IsZero (t : Z) : bool := Z.eqb t zero_time.

Definition Before (t u : Z) : bool := Z.ltb t u.
Definition After (t u : Z) : bool := Z.ltb u t.
Definition Equal (t u : Z) : bool := Z.eqb t u.
Definition Add (t d : Z) : Z := t + d.

(** [t.Sub(u)] saturates at the bounds of [Duration]. *)
Definition Sub (t u : Z) : Z := Z.max min_int64 (Z.min max_int64 (t - u)).

(** [time.Duration(n) * time.Second]: the product of two [int64]s. *)
Definition seconds (n : Z) : Z := wrap64 (n * second).

Lemma Sub_lt_iff t u d :
  in_int64 d -> min_int64 < d -> (Sub t u < d <-> t - u < d).
Proof. unfold Sub, in_int64. lia. Qed.

Lemma Sub_small t u : in_int64 (t - u) -> Sub t u = t - u.
Proof. unfold Sub, in_int64. lia. Qed.

Lemma seconds_small n : 0 <= n <= max_int32 -> seconds n = n * second.
Proof.
  intros H. apply wrap64_small.
  unfold in_int64, min_int64, max_int64, max_int32, second in *. lia.
Qed.
End GoTime.

(** ** Strings: a Go string is a sequence of bytes, [String.string]. *)
#[global] Arguments String.append !_ _ : simpl nomatch.

Module GoStr.
Open Scope string_scope.

(** Association of literals with keys, as in Go's [map[string]T] literals. *)
Fixpoint assoc {A} (k : string) (l : list (string * A)) : option A :=
  match l with
  | nil => None
  | (k', v) :: l' => if String.eqb k k' then Some v else assoc k l'
  end.

(** [m[k]] on a [map[string]int]. *)
Definition assoc_int (k : string) (l : list (string * Z)) : Z :=
  match assoc k l with Some v => v | None => 0%Z end.

(** [m[k]] on a [map[string]string]: the zero value when the key is absent. *)
Definition map_get (m : gmap string string) (k : string) : string :=
  default "" (m !! k).

(** [strings.HasPrefix]. *)
Definition HasPrefix (s pre : string) : bool := String.prefix pre s.

(** [s[:n]] of a string that has at least [n] bytes. *)
Definition take (n : nat) (s : string) : string := String.substring 0 n s.

Fixpoint drop (n : nat) (s : string) : string :=
  match n, s with
  | S n', String _ s' => drop n' s'
  | _, _ => s
  end.

(** [strings.Join]. *)
Fixpoint Join (l : list string) (sep : string) : string :=
  match l with
  | nil => ""
  | x :: nil => x
  | x :: l' => x ++ sep ++ Join l' sep
  end.

Fixpoint rev_app (s acc : string) : string :=
  match s with
  | String c s' => rev_app s' (String c acc)
  | EmptyString => acc
  end.
Definition reverse (s : string) : string := rev_app s "".

(** [strings.Split(s, sep)] for a one-byte separator. *)
Fixpoint split_go (sep : ascii) (cur s : string) : list string :=
  match s with
  | EmptyString => [reverse cur]
  | String c s' =>
      if Ascii.eqb c sep then reverse cur :: split_go sep "" s'
      else split_go sep (String c cur) s'
  end.
Definition Split (s : string) (sep : ascii) : list string := split_go sep "" s.

(** [fmt.Sprintf("%d", n)]. *)
Definition digit (n : Z) : ascii := ascii_of_nat (48 + Z.to_nat n).

Fixpoint itoa_go (fuel : nat) (n : Z) (acc : string) : string :=
  match fuel with
  | O => acc
  | S f =>
      let acc' := String (digit (n mod 10)) acc in
      if (n <? 10)%Z then acc' else itoa_go f (n / 10) acc'
  end.
Definition itoa (n : Z) : string :=
  if (n <? 0)%Z then String "-"%char (itoa_go 20 (- n) "") else itoa_go 20 n "".

(** *** Lemmas *)
Lemma append_nil_r s : s ++ "" = s.
Proof. induction s as [|c s IH]; simpl; congruence. Qed.

Lemma append_assoc s1 s2 s3 : (s1 ++ s2) ++ s3 = s1 ++ s2 ++ s3.
Proof. induction s1 as [|c s IH]; simpl; congruence. Qed.

Lemma length_append s1 s2 :
  String.length (s1 ++ s2) = (String.length s1 + String.length s2)%nat.
Proof. induction s1; simpl; congruence. Qed.

Lemma take_length n s :
  (n <= String.length s)%nat -> String.length (take n s) = n.
Proof.
  unfold take. revert n. induction s as [|c s IH]; intros [|n] H; simpl in *; try lia.
  f_equal. apply IH. lia.
Qed.

Lemma take_drop n s : take n s ++ drop n s = s.
Proof.
  unfold take. revert n. induction s as [|c s IH]; intros [|n]; simpl; try done.
  f_equal. apply IH.
Qed.

Lemma HasPrefix_spec s pre : HasPrefix s pre = true <-> exists rest, s = pre ++ rest.
Proof.
  unfold HasPrefix. split.
  - revert s. induction pre as [|c pre IH]; intros s H; [by exists s|].
    destruct s as [|c' s]; simpl in H; [done|].
    destruct (ascii_dec c c') as [->|]; [|done].
    destruct (IH _ H) as [rest ->]. by exists rest.
  - intros [rest ->]. induction pre as [|c pre IH]; simpl; [by destruct rest|].
    destruct (ascii_dec c c); done.
Qed.

(** [sort.Strings]: byte-wise order. *)
Definition sort_strings (l : list string) : list string := merge_sort String.le l.

Lemma sort_strings_perm l1 l2 : l1 ≡ₚ l2 -> sort_strings l1 = sort_strings l2.
Proof.
  intros H. unfold sort_strings.
  apply (StronglySorted_unique String.le); [apply Sorted_StronglySorted; [apply _|]..|].
  - apply Sorted_merge_sort. apply _.
  - apply Sorted_merge_sort. apply _.
  - by rewrite !merge_sort_Permutation.
Qed.

Lemma eqb_spec' s1 s2 : reflect (s1 = s2) (String.eqb s1 s2).
Proof. apply String.eqb_spec. Qed.
End GoStr.

(** ** Go errors, and results of fallible code.
    [EApi] carries the reason an API server gives (the code tests it with
    [apierrors.IsNotFound] and [apierrors.IsAlreadyExists], which look through
    [%w] wrapping); [EJoin] is [errors.Join]. *)
Module GoErr.
Inductive api_reason := NotFound | AlreadyExists | OtherReason (msg : string).

#[warnings="-register-all"]
Inductive error :=
| EApi (r : api_reason)
| EMsg (msg : string)
| EWrap (ctx : string) (e : error)
| EJoin (es : list error).

(** [apierrors.ReasonForError]: the reason of the first API status found when
    the tree of wrapped errors is walked in depth-first order. *)
Fixpoint ReasonForError (e : error) : option api_reason :=
  match e with
  | EApi r => Some r
  | EMsg _ => None
  | EWrap _ e' => ReasonForError e'
  | EJoin es =>
      (fix go (l : list error) : option api_reason :=
         match l with
         | nil => None
         | x :: l' => match ReasonForError x with Some r => Some r | None => go l' end
         end) es
  end.

Definition IsNotFound (e : error) : bool :=
  match ReasonForError e with Some NotFound => true | _ => false end.

Definition IsAlreadyExists (e : error) : bool :=
  match ReasonForError e with Some AlreadyExists => true | _ => false end.

Inductive res (A : Type) := Ok (a : A) | Err (e : error).
Arguments Ok {A} a.
Arguments Err {A} e.

Definition res_bind {A B} (r : res A) (f : A -> res B) : res B :=
  match r with Ok a => f a | Err e => Err e end.

Definition is_ok {A} (r : res A) : bool := match r with Ok _ => true | Err _ => false end.
End GoErr.

Notation "'let?' x ':=' r 'in' k" := (GoErr.res_bind r (fun x => k))
  (at level 10, x pattern, r at level 100, k at level 200) : go_scope.

(** ** Automation *)

(** Case analysis on a string comparison of the goal or of a hypothesis. *)
Ltac case_str :=
  match goal with
  | |- context [String.eqb ?a ?b] => destruct (String.eqb_spec a b)
  | H : context [String.eqb ?a ?b] |- _ => destruct (String.eqb_spec a b)
  end.

(** [lia] on goals with division and remainder by constants. *)
Ltac dlia := Z.div_mod_to_equations; lia.
