(* ===== verification/Prog.v ===== *)
(** * Effectful Go code as finite interaction programs

    A reconciler talks to the API server, the clock, GitHub, the metrics
    registry and a random source.  None of these is code of this repository, so
    a program is a finite tree of calls whose answers are left open: a theorem
    about every run of the program holds for every environment.

    [prog] is the tree (with a leaf for a Go panic), [runs] its traces, [wp] the
    unary logic used to prove facts about all traces, and [exec] the executable
    interpretation against a concrete environment. *)
From stdpp Require Import base list strings.

From S2P Require Import Prelude.

Section Prog.
Context {E : Type} {ans : E -> Type}.

Inductive prog (A : Type) : Type :=
| Ret (a : A)
| Panic (msg : string)
| Call (e : E) (k : ans e -> prog A).
Arguments Ret {A} a.
Arguments Panic {A} msg.
Arguments Call {A} e k.

Fixpoint bind {A B} (p : prog A) (f : A -> prog B) : prog B :=
  match p with
  | Ret a => f a
  | Panic m => Panic m
  | Call e k => Call e (fun r => bind (k r) f)
  end.

Definition call (e : E) : prog (ans e) := Call e Ret.

(** One call together with the answer it got. *)
Record event := Event { ev_call : E; ev_ans : ans ev_call }.

Inductive outcome (A : Type) := Done (a : A) | Panicked (msg : string).
Arguments Done {A} a.
Arguments Panicked {A} msg.

(** [runs p tr o]: with the answers in [tr], [p] ends with outcome [o]. *)
Inductive runs {A} : prog A -> list event -> outcome A -> Prop :=
| runs_ret a : runs (Ret a) [] (Done a)
| runs_panic m : runs (Panic m) [] (Panicked m)
| runs_call e k r tr o :
    runs (k r) tr o -> runs (Call e k) (Event e r :: tr) o.

(** ** The logic: [wp p Q] when [Q] holds of every run's trace and outcome. *)
Fixpoint wp {A} (p : prog A) (Q : list event -> outcome A -> Prop) : Prop :=
  match p with
  | Ret a => Q [] (Done a)
  | Panic m => Q [] (Panicked m)
  | Call e k => forall r, wp (k r) (fun tr o => Q (Event e r :: tr) o)
  end.

Lemma wp_runs {A} (p : prog A) Q :
  wp p Q <-> (forall tr o, runs p tr o -> Q tr o).
Proof.
  split.
  - intros H tr o Hr. revert Q H.
    induction Hr as [a|m|e k r tr o Hr IH]; intros Q H; [exact H|exact H|].
    exact (IH (fun tr o => Q (Event e r :: tr) o) (H r)).
  - revert Q. induction p as [a|m|e k IH]; intros Q H; simpl.
    + apply H. constructor.
    + apply H. constructor.
    + intros r. apply IH. intros tr o Hr. apply H. by constructor.
Qed.

Lemma runs_wp {A} (p : prog A) Q tr o : runs p tr o -> wp p Q -> Q tr o.
Proof. intros Hr Hw. exact (proj1 (wp_runs p Q) Hw tr o Hr). Qed.

Lemma wp_mono {A} (p : prog A) (Q Q' : list event -> outcome A -> Prop) :
  (forall tr o, Q tr o -> Q' tr o) -> wp p Q -> wp p Q'.
Proof. intros HQ. rewrite !wp_runs. eauto. Qed.

Lemma wp_bind {A B} (p : prog A) (f : A -> prog B) Q :
  wp p (fun tr o =>
    match o with
    | Done a => wp (f a) (fun tr' o' => Q (tr ++ tr') o')
    | Panicked m => Q tr (Panicked m)
    end) ->
  wp (bind p f) Q.
Proof.
  revert Q. induction p as [a|m|e k IH]; intros Q H; simpl in *.
  - exact H.
  - exact H.
  - intros r. apply IH. exact (H r).
Qed.

(** A program is a value of a terminating language: it has a run for every way
    of answering its calls. *)
Definition handler := forall e : E, ans e.

Fixpoint exec_pure {A} (h : handler) (p : prog A) : list event * outcome A :=
  match p with
  | Ret a => ([], Done a)
  | Panic m => ([], Panicked m)
  | Call e k => let '(tr, o) := exec_pure h (k (h e)) in (Event e (h e) :: tr, o)
  end.

(** Interpretation against an environment with a state. *)
Section Stateful.
Context {W : Type} (h : forall e : E, W -> ans e * W).

Fixpoint exec {A} (p : prog A) (w : W) : (list event * outcome A) * W :=
  match p with
  | Ret a => (([], Done a), w)
  | Panic m => (([], Panicked m), w)
  | Call e k =>
      let '(r, w1) := h e w in
      let '((tr, o), w2) := exec (k r) w1 in
      ((Event e r :: tr, o), w2)
  end.

Lemma exec_runs {A} (p : prog A) w tr o w' :
  exec p w = ((tr, o), w') -> runs p tr o.
Proof.
  revert w tr o w'. induction p as [a|m|e k IH]; intros w tr o w' H; simpl in H.
  - injection H as <- <- <-. constructor.
  - injection H as <- <- <-. constructor.
  - destruct (h e w) as [r w1]. destruct (exec (k r) w1) as [[tr1 o1] w2] eqn:Hx.
    injection H as <- <- <-. constructor. eapply IH, Hx.
Qed.
End Stateful.

Lemma exec_pure_runs {A} (h : handler) (p : prog A) :
  runs p (exec_pure h p).1 (exec_pure h p).2.
Proof.
  induction p as [a|m|e k IH]; simpl; [constructor..|].
  specialize (IH (h e)). destruct (exec_pure h (k (h e))) as [tr o]. by constructor.
Qed.

(** ** Predicates on the calls of a trace. *)
Definition calls (tr : list event) : list E := map ev_call tr.

Definition every (P : E -> Prop) (tr : list event) : Prop :=
  Forall (fun ev => P (ev_call ev)) tr.

Lemma every_nil P : every P [].
Proof. constructor. Qed.
Lemma every_cons P ev tr : P (ev_call ev) -> every P tr -> every P (ev :: tr).
Proof. by constructor. Qed.
Lemma every_app P tr1 tr2 : every P tr1 -> every P tr2 -> every P (tr1 ++ tr2).
Proof. apply Forall_app_2. Qed.
Lemma every_mono (P Q : E -> Prop) tr :
  (forall e, P e -> Q e) -> every P tr -> every Q tr.
Proof. intros H Htr. eapply Forall_impl; [exact Htr|]. intros ev. apply H. Qed.

(** [allows P p]: in every run, every call satisfies [P]. *)
Definition allows {A} (P : E -> Prop) (p : prog A) : Prop :=
  wp p (fun tr _ => every P tr).

Lemma allows_ret {A} P (a : A) : allows P (Ret a).
Proof. apply every_nil. Qed.
Lemma allows_panic {A} P m : allows P (@Panic A m).
Proof. apply every_nil. Qed.
Lemma allows_call {A} P e (k : ans e -> prog A) :
  P e -> (forall r, allows P (k r)) -> allows P (Call e k).
Proof.
  intros He Hk r. eapply wp_mono; [|apply Hk].
  intros tr o. by apply every_cons.
Qed.
Lemma allows_bind {A B} P (p : prog A) (f : A -> prog B) :
  allows P p -> (forall a, allows P (f a)) -> allows P (bind p f).
Proof.
  intros Hp Hf. apply wp_bind. eapply wp_mono; [|exact Hp].
  intros tr [a|m] Htr; [|exact Htr].
  eapply wp_mono; [|apply Hf]. intros tr' o. by apply every_app.
Qed.
Lemma allows_runs {A} P (p : prog A) tr o :
  allows P p -> runs p tr o -> every P tr.
Proof. intros H Hr. exact (proj1 (wp_runs p _) H tr o Hr). Qed.
Lemma allows_mono {A} (P Q : E -> Prop) (p : prog A) :
  (forall e, P e -> Q e) -> allows P p -> allows Q p.
Proof. intros H. apply wp_mono. intros tr _. by apply every_mono. Qed.

(** [yields Q p]: in every run, the program ends without a panic in a value
    satisfying [Q]. *)
Definition yields {A} (Q : A -> Prop) (p : prog A) : Prop :=
  wp p (fun _ o => match o with Done a => Q a | Panicked _ => False end).

Lemma yields_ret {A} (Q : A -> Prop) a : Q a -> yields Q (Ret a).
Proof. done. Qed.
Lemma yields_call {A} (Q : A -> Prop) e (k : ans e -> prog A) :
  (forall r, yields Q (k r)) -> yields Q (Call e k).
Proof. intros H r. apply H. Qed.
Lemma yields_mono {A} (Q Q' : A -> Prop) (p : prog A) :
  (forall a, Q a -> Q' a) -> yields Q p -> yields Q' p.
Proof. intros H. apply wp_mono. intros _ [a|m]; auto. Qed.
Lemma yields_bind {A B} (R : A -> Prop) (Q : B -> Prop) (p : prog A) (f : A -> prog B) :
  yields R p -> (forall a, R a -> yields Q (f a)) -> yields Q (bind p f).
Proof.
  intros Hp Hf. apply wp_bind. eapply wp_mono; [|exact Hp].
  intros tr [a|m] H; [|done]. eapply wp_mono; [|apply Hf, H]. by intros tr' [].
Qed.
Lemma yields_runs {A} (Q : A -> Prop) (p : prog A) tr o :
  yields Q p -> runs p tr o -> exists a, o = Done a /\ Q a.
Proof.
  intros H Hr. pose proof (proj1 (wp_runs p _) H tr o Hr) as Ho.
  destruct o as [a|m]; [by exists a|done].
Qed.

(** ** Rely and guarantee
    [ensures R P Q p]: in every run in which the environment's answers satisfy
    [R], every call satisfies [P] and the value the program ends with, if any,
    satisfies [Q]. *)
Definition relies (R : forall e, ans e -> Prop) (tr : list event) : Prop :=
  Forall (fun ev => R (ev_call ev) (ev_ans ev)) tr.

Definition anything (e : E) (r : ans e) : Prop := True.

Lemma relies_anything tr : relies anything tr.
Proof. by apply Forall_true. Qed.

Definition ensures {A} (R : forall e, ans e -> Prop) (P : E -> Prop) (Q : A -> Prop)
    (p : prog A) : Prop :=
  wp p (fun tr o =>
    relies R tr -> every P tr /\ match o with Done a => Q a | Panicked _ => True end).

Lemma ensures_ret {A} R P (Q : A -> Prop) a : Q a -> ensures R P Q (Ret a).
Proof. intros H _. split; [apply every_nil|exact H]. Qed.
Lemma ensures_panic {A} R P (Q : A -> Prop) m : ensures R P Q (Panic m).
Proof. intros _. split; [apply every_nil|exact I]. Qed.
Lemma ensures_call {A} (R : forall e, ans e -> Prop) P (Q : A -> Prop) e (k : ans e -> prog A) :
  P e -> (forall r, R e r -> ensures R P Q (k r)) -> ensures R P Q (Call e k).
Proof.
  intros He Hk r. apply wp_runs. intros tr o Hr Hrel. inversion Hrel as [|? ? HR Hrest]; subst.
  destruct (runs_wp _ _ _ _ Hr (Hk r HR) Hrest) as [Htr Ho].
  split; [by apply every_cons|done].
Qed.
Lemma ensures_bind {A B} R P (S : A -> Prop) (Q : B -> Prop) (p : prog A) (f : A -> prog B) :
  ensures R P S p -> (forall a, S a -> ensures R P Q (f a)) -> ensures R P Q (bind p f).
Proof.
  intros Hp Hf. apply wp_bind. eapply wp_mono; [|exact Hp].
  intros tr [a|m] H; [|exact H]. apply wp_runs. intros tr' o Hr Hrel.
  apply Forall_app in Hrel as [Hrel Hrel']. destruct (H Hrel) as [Htr Ha].
  destruct (runs_wp _ _ _ _ Hr (Hf a Ha) Hrel') as [Htr' Ho].
  split; [by apply every_app|done].
Qed.
Lemma ensures_mono {A} R (P P' : E -> Prop) (Q Q' : A -> Prop) (p : prog A) :
  (forall e, P e -> P' e) -> (forall a, Q a -> Q' a) -> ensures R P Q p -> ensures R P' Q' p.
Proof.
  intros HP HQ. apply wp_mono. intros tr o H Hrel. destruct (H Hrel) as [Htr Ho].
  split; [by eapply every_mono|destruct o; auto].
Qed.
Lemma ensures_runs {A} R P (Q : A -> Prop) (p : prog A) tr o :
  ensures R P Q p -> runs p tr o -> relies R tr -> every P tr.
Proof. intros H Hr Hrel. by destruct (proj1 (wp_runs p _) H tr o Hr Hrel). Qed.
Lemma exec_pure_relies {A} (R : forall e, ans e -> Prop) (h : handler) (p : prog A) :
  (forall e, R e (h e)) -> relies R (exec_pure h p).1.
Proof.
  intros HR. induction p as [a|m|e k IH]; simpl; [constructor..|].
  specialize (IH (h e)). destruct (exec_pure h (k (h e))) as [tr o].
  constructor; [apply HR|exact IH].
Qed.

Lemma ensures_allows {A} R P (p : prog A) : allows P p -> ensures R P (fun _ => True) p.
Proof. apply wp_mono. intros tr [a|m] H _; done. Qed.
End Prog.

Arguments prog {E} ans A.
Arguments Ret {E ans A} a.
Arguments Panic {E ans A} msg.
Arguments Call {E ans A} e k.
Arguments event {E} ans.
Arguments Event {E ans} ev_call ev_ans.
Arguments Done {A} a.
Arguments Panicked {A} msg.
Arguments handler {E} ans.

Notation "x <- p ;; k" := (bind p (fun x => k))
  (at level 100, p at next level, right associativity) : go_scope.
Notation "' x <- p ;; k" := (bind p (fun x => k))
  (at level 20, x pattern, p at level 99, k at level 200, only parsing) : go_scope.
Notation "p ;;; k" := (bind p (fun _ => k))
  (at level 100, right associativity) : go_scope.

Create HintDb prog discriminated.
#[export] Hint Resolve every_nil every_cons every_app : prog.
#[export] Hint Resolve allows_ret allows_panic yields_ret : prog.

(** Walk through a program whose calls are all harmless: expose calls, split
    the branches and leave the values of sub-programs unconstrained. *)
Ltac ensures_step :=
  match goal with
  | |- ensures _ _ _ (Ret _) => apply ensures_ret
  | |- ensures _ _ _ (Panic _) => apply ensures_panic
  | |- ensures _ _ _ (Call _ _) => apply ensures_call; [|intros ? ?]
  | |- ensures _ _ _ (call _) => unfold call
  | |- ensures _ _ _ (bind (call _) _) => cbn [bind call]
  | |- ensures _ _ _ (bind (bind (call _) _) _) => cbn [bind call]
  | |- ensures _ _ _ (bind (bind (Ret _) _) _) => cbn [bind]
  | |- ensures _ _ _ (bind (bind (Call _ _) _) _) => cbn [bind]
  | |- ensures _ _ _ (bind (Ret _) _) => cbn [bind]
  | |- ensures _ _ _ (bind (Call _ _) _) => cbn [bind]
  | |- ensures _ _ _ (bind (if ?b then _ else _) _) => destruct b eqn:?
  | |- ensures _ _ _ (bind (match ?x with _ => _ end) _) => destruct x eqn:?
  | |- ensures _ _ _ (if ?b then _ else _) => destruct b eqn:?
  | |- ensures _ _ _ (match ?x with _ => _ end) => destruct x eqn:?
  | |- ensures _ _ _ (let _ := _ in _) => cbv zeta
  end.

(** Walk through a program whose calls are all of the allowed kind, and leave
    the sub-programs that are not spelled out. *)
Ltac allows_steps :=
  repeat match goal with
  | |- allows _ (Ret _) => apply allows_ret
  | |- allows _ (Panic _) => apply allows_panic
  | |- allows _ (Call _ _) => apply allows_call; [first [reflexivity|done]|intros ?]
  | |- allows _ (call _) => apply allows_call; [first [reflexivity|done]|intros ?]
  | |- allows _ (bind _ _) => apply allows_bind; [|intros ?]
  | |- allows _ (if ?b then _ else _) => destruct b
  | |- allows _ (match ?x with _ => _ end) => destruct x eqn:?
  end.
