(* ===== verification/Utf8.v ===== *)
(** * Go strings as runes: unicode/utf8 and strings.TrimSpace
    [decode] splits a string the way a [range] loop or the regexp package does:
    well-formed UTF-8 sequences, and one byte at a time (as U+FFFD) where the
    bytes are not well-formed. *)
From stdpp Require Import base list strings.
From Stdlib Require Import ZArith Lia Ascii.
From S2P Require Import Prelude.
Open Scope string_scope.
Open Scope Z_scope.

(** A code point with the bytes it was read from. *)
Record rune := Rune { cp : Z; raw : string }.

Definition byte_of (a : ascii) : Z := Z.of_nat (nat_of_ascii a).
Definition RuneError : Z := 65533.

Definition in_range (lo hi x : Z) : bool := (lo <=? x) && (x <=? hi).
Definition cont (x : Z) : bool := in_range 128 191 x.

Definition valid2 (a b : Z) : bool := in_range 194 223 a && cont b.
Definition valid3 (a b c : Z) : bool :=
  in_range 224 239 a &&
  (if a =? 224 then in_range 160 191 b
   else if a =? 237 then in_range 128 159 b else cont b) && cont c.
Definition valid4 (a b c d : Z) : bool :=
  in_range 240 244 a &&
  (if a =? 240 then in_range 144 191 b
   else if a =? 244 then in_range 128 143 b else cont b) && cont c && cont d.

Fixpoint decode (s : string) : list rune :=
  match s with
  | EmptyString => []
  | String a s1 =>
      let bad := Rune RuneError (String a EmptyString) in
      if byte_of a <? 128 then Rune (byte_of a) (String a EmptyString) :: decode s1
      else match s1 with
      | EmptyString => [bad]
      | String b s2 =>
          if valid2 (byte_of a) (byte_of b) then
            Rune ((byte_of a - 192) * 64 + (byte_of b - 128))
                 (String a (String b EmptyString)) :: decode s2
          else match s2 with
          | EmptyString => bad :: decode s1
          | String c s3 =>
              if valid3 (byte_of a) (byte_of b) (byte_of c) then
                Rune ((byte_of a - 224) * 4096 + (byte_of b - 128) * 64 + (byte_of c - 128))
                     (String a (String b (String c EmptyString))) :: decode s3
              else match s3 with
              | EmptyString => bad :: decode s1
              | String d s4 =>
                  if valid4 (byte_of a) (byte_of b) (byte_of c) (byte_of d) then
                    Rune ((byte_of a - 240) * 262144 + (byte_of b - 128) * 4096
                          + (byte_of c - 128) * 64 + (byte_of d - 128))
                         (String a (String b (String c (String d EmptyString)))) :: decode s4
                  else bad :: decode s1
              end
          end
      end
  end.

Definition undecode (l : list rune) : string := String.concat "" (map raw l).

Lemma undecode_cons r l : undecode (r :: l) = (raw r ++ undecode l)%string.
Proof.
  unfold undecode. destruct l; simpl; [by rewrite GoStr.append_nil_r|done].
Qed.

Lemma undecode_app l1 l2 : undecode (l1 ++ l2) = (undecode l1 ++ undecode l2)%string.
Proof.
  induction l1 as [|r l IH]; [done|]. simpl app. rewrite !undecode_cons, IH.
  by rewrite GoStr.append_assoc.
Qed.

(** Strong induction on the length of a string. *)
Lemma string_len_ind (P : string -> Prop) :
  (forall s, (forall s', (String.length s' < String.length s)%nat -> P s') -> P s) ->
  forall s, P s.
Proof.
  intros H s. remember (String.length s) as n eqn:E. revert s E.
  induction n as [n IH] using lt_wf_ind. intros s ->. apply H. eauto.
Qed.

Ltac decode_cases :=
  repeat match goal with
  | |- context [if ?b then _ else _] => destruct b eqn:?
  | |- context [match ?s with EmptyString => _ | _ => _ end] => destruct s
  end.

Lemma undecode_decode s : undecode (decode s) = s.
Proof.
  induction s as [s IH] using string_len_ind.
  destruct s as [|a s1]; [done|]. cbn [decode]. decode_cases;
    rewrite ?undecode_cons; cbn [raw String.append]; try done;
    rewrite IH by (simpl; lia); done.
Qed.

(** *** ASCII text decodes byte by byte. *)
Fixpoint is_ascii (s : string) : bool :=
  match s with EmptyString => true | String a s' => (byte_of a <? 128) && is_ascii s' end.

Fixpoint chars (s : string) : list rune :=
  match s with
  | EmptyString => []
  | String a s' => Rune (byte_of a) (String a EmptyString) :: chars s'
  end.

Lemma decode_ascii s t : is_ascii s = true -> decode (s ++ t) = (chars s ++ decode t)%list.
Proof.
  induction s as [|a s IH]; [done|]. cbn [is_ascii]. intros [Ha Hs]%andb_true_iff.
  cbn [String.append decode chars app]. rewrite Ha. by rewrite IH.
Qed.

Lemma decode_ascii_nil s : is_ascii s = true -> decode s = chars s.
Proof.
  intros H. rewrite <- (GoStr.append_nil_r s) at 1. rewrite decode_ascii by done.
  by rewrite app_nil_r.
Qed.

(** *** A decoded rune is one ASCII byte, or bytes that are all outside ASCII. *)
Fixpoint high_bytes (s : string) : bool :=
  match s with EmptyString => true | String a s' => (128 <=? byte_of a) && high_bytes s' end.

Definition wf_rune (r : rune) : Prop :=
  (exists a, raw r = String a EmptyString /\ byte_of a < 128 /\ cp r = byte_of a) \/
  (raw r <> EmptyString /\ high_bytes (raw r) = true /\ 128 <= cp r).

Lemma wf_high r : raw r <> EmptyString -> high_bytes (raw r) = true -> 128 <= cp r -> wf_rune r.
Proof. right. done. Qed.

Lemma in_range_iff lo hi x : in_range lo hi x = true <-> lo <= x <= hi.
Proof. unfold in_range. rewrite andb_true_iff, !Z.leb_le. done. Qed.

Ltac solve_wf_high :=
  apply wf_high; cbn [raw high_bytes cp]; [done|..];
  unfold valid2, valid3, valid4, cont in *;
  repeat match goal with
  | H : _ && _ = true |- _ => apply andb_true_iff in H as [? ?]
  | H : in_range _ _ _ = true |- _ => apply in_range_iff in H
  | H : (if ?x =? ?y then _ else _) = true |- _ => destruct (Z.eqb_spec x y)
  end; rewrite ?andb_true_iff, ?Z.leb_le; try lia.

Lemma decode_wf s : Forall wf_rune (decode s).
Proof.
  induction s as [s IH] using string_len_ind.
  destruct s as [|a s1]; [by constructor|]. cbn [decode].
  destruct (byte_of a <? 128) eqn:Ha.
  { constructor; [|apply IH; simpl; lia]. left. exists a. apply Z.ltb_lt in Ha. done. }
  apply Z.ltb_ge in Ha.
  assert (wf_rune (Rune RuneError (String a EmptyString))) as Hbad.
  { apply wf_high; [done| |unfold RuneError; simpl; lia]. simpl.
    by rewrite (proj2 (Z.leb_le _ _) Ha). }
  decode_cases; constructor; first [exact Hbad|apply IH; simpl; lia|apply List.Forall_nil|solve_wf_high].
Qed.

(** ** [strings.TrimSpace]: Unicode white space at both ends. *)
Definition IsSpace (c : Z) : bool :=
  in_range 9 13 c || (c =? 32) || (c =? 133) || (c =? 160) || (c =? 5760)
  || in_range 8192 8202 c || (c =? 8232) || (c =? 8233) || (c =? 8239)
  || (c =? 8287) || (c =? 12288).

Fixpoint trim_front (l : list rune) : list rune :=
  match l with
  | r :: l' => if IsSpace (cp r) then trim_front l' else l
  | [] => []
  end.

Definition TrimSpace (s : string) : string :=
  undecode (rev (trim_front (rev (trim_front (decode s))))).

Example TrimSpace_ex : TrimSpace "  a b
 " = "a b".
Proof. reflexivity. Qed.
