(* ===== verification/Regex.v ===== *)
(** * The part of Go's regexp package the repository uses
    Patterns without anchors, over runes, with leftmost-first matching: the
    match a backtracking engine finds first.  [m] is the matcher, [matches] its
    declarative meaning, [MatchString] and [ReplaceAllString] the two methods
    the code calls. *)
From stdpp Require Import base list strings.
From Stdlib Require Import ZArith Lia Ascii.
From S2P Require Import Prelude Utf8.
Open Scope list_scope.
Open Scope Z_scope.

Inductive re :=
| Cls (f : Z -> bool)
| Eps
| Seq (r1 r2 : re)
| Alt (r1 r2 : re)
| Star (greedy : bool) (f : Z -> bool)
| Grp (r : re).

(** ** Declarative meaning *)
Inductive matches : re -> list rune -> Prop :=
| M_cls f c : f (cp c) = true -> matches (Cls f) [c]
| M_eps : matches Eps []
| M_seq r1 r2 l1 l2 : matches r1 l1 -> matches r2 l2 -> matches (Seq r1 r2) (l1 ++ l2)
| M_alt_l r1 r2 l : matches r1 l -> matches (Alt r1 r2) l
| M_alt_r r1 r2 l : matches r2 l -> matches (Alt r1 r2) l
| M_star_nil g f : matches (Star g f) []
| M_star_cons g f c l :
    f (cp c) = true -> matches (Star g f) l -> matches (Star g f) (c :: l)
| M_grp r l : matches r l -> matches (Grp r) l.

(** ** The matcher
    [cap] is the text of capture group 1, [k] what remains to be matched; the
    order of the alternatives is the priority of the match. *)
Definition orelse {X} (a b : option X) : option X :=
  match a with Some x => Some x | None => b end.

Section Matcher.
Context {X : Type}.

Fixpoint star_loop (g : bool) (f : Z -> bool) (k : list rune -> option X)
    (s : list rune) : option X :=
  match s with
  | [] => k []
  | c :: s' =>
      if f (cp c)
      then if g then orelse (star_loop g f k s') (k s)
           else orelse (k s) (star_loop g f k s')
      else k s
  end.

Fixpoint m (r : re) (s cap : list rune) (k : list rune -> list rune -> option X) : option X :=
  match r with
  | Cls f => match s with
             | c :: s' => if f (cp c) then k s' cap else None
             | [] => None
             end
  | Eps => k s cap
  | Seq a b => m a s cap (fun s' cap' => m b s' cap' k)
  | Alt a b => orelse (m a s cap k) (m b s cap k)
  | Star g f => star_loop g f (fun s' => k s' cap) s
  | Grp a => m a s cap (fun s' _ => k s' (firstn (length s - length s') s))
  end.

Lemma orelse_Some (a b : option X) x :
  orelse a b = Some x -> a = Some x \/ b = Some x.
Proof. destruct a; simpl; auto. Qed.

Lemma orelse_is_Some (a b : option X) :
  is_Some (orelse a b) <-> is_Some a \/ is_Some b.
Proof.
  destruct a; simpl; [|split; [by right|intros [[? ?]|?]; done]].
  split; [by left|]. intros _. by eexists.
Qed.

Lemma star_sound g f k s x :
  star_loop g f k s = Some x ->
  exists l s', s = l ++ s' /\ matches (Star g f) l /\ k s' = Some x.
Proof.
  induction s as [|c s IH]; simpl; intros H.
  { exists [], []. eauto using matches. }
  assert (k (c :: s) = Some x \/ (f (cp c) = true /\ star_loop g f k s = Some x)) as [Hk|[Hf Hl]].
  { destruct (f (cp c)); [|by left]. destruct g; apply orelse_Some in H; tauto. }
  - exists [], (c :: s). eauto using matches.
  - destruct (IH Hl) as (l & s' & -> & Hm & Hk). exists (c :: l), s'. eauto using matches.
Qed.

Lemma star_complete g f k l s' :
  matches (Star g f) l -> is_Some (k s') -> is_Some (star_loop g f k (l ++ s')).
Proof.
  intros Hm Hk. remember (Star g f) as r eqn:E. revert E.
  induction Hm; intros E; try discriminate; injection E as -> ->.
  - simpl. destruct s' as [|c s]; simpl; [done|].
    destruct (f (cp c)); [|done]. destruct g; apply orelse_is_Some; auto.
  - simpl. rewrite H. destruct g; apply orelse_is_Some; auto.
Qed.

(** The matcher only answers with a declarative match followed by a success of
    the continuation. *)
Lemma m_sound r s cap k x :
  m r s cap k = Some x ->
  exists l s' cap', s = l ++ s' /\ matches r l /\ k s' cap' = Some x.
Proof.
  revert s cap k. induction r as [f| |a IHa b IHb|a IHa b IHb|g f|a IHa];
    intros s cap k H; simpl in H.
  - destruct s as [|c s]; [done|]. destruct (f (cp c)) eqn:Hf; [|done].
    exists [c], s, cap. eauto using matches.
  - exists [], s, cap. eauto using matches.
  - apply IHa in H as (l1 & s1 & c1 & -> & Hm1 & H).
    apply IHb in H as (l2 & s2 & c2 & -> & Hm2 & H).
    exists (l1 ++ l2), s2, c2. rewrite app_assoc. eauto using matches.
  - apply orelse_Some in H as [H|H]; [apply IHa in H|apply IHb in H];
      destruct H as (l & s' & c & -> & Hm & H); exists l, s', c; eauto using matches.
  - apply star_sound in H as (l & s' & -> & Hm & H). by exists l, s', cap.
  - apply IHa in H as (l & s' & c & -> & Hm & H). eauto 10 using matches.
Qed.

(** It finds a match whenever there is one the continuation accepts. *)
Lemma m_complete r l s' cap k :
  matches r l -> (forall cap', is_Some (k s' cap')) -> is_Some (m r (l ++ s') cap k).
Proof.
  intros Hm. revert s' cap k.
  induction Hm as [f c Hf| |r1 r2 l1 l2 _ IH1 _ IH2|r1 r2 l _ IH|r1 r2 l _ IH
                  |g f|g f c l Hf Hm _|r l _ IH]; intros s' cap k Hk; simpl.
  - rewrite Hf. apply Hk.
  - apply Hk.
  - rewrite <- app_assoc. apply IH1. intros cap'. by apply IH2.
  - apply orelse_is_Some. left. by apply IH.
  - apply orelse_is_Some. right. by apply IH.
  - apply (star_complete g f (fun s => k s cap) [] s'); [constructor|apply Hk].
  - apply (star_complete g f (fun s => k s cap) (c :: l) s'); [by constructor|apply Hk].
  - apply IH. intros cap'. apply Hk.
Qed.
End Matcher.

(** ** [Regexp.MatchString] *)
Fixpoint search (r : re) (l : list rune) : bool :=
  match m r l [] (fun _ _ => Some tt) with
  | Some _ => true
  | None => match l with [] => false | _ :: l' => search r l' end
  end.

Definition MatchString (r : re) (s : string) : bool := search r (decode s).

Lemma search_spec r l :
  search r l = true <-> exists a b c, l = a ++ b ++ c /\ matches r b.
Proof.
  split.
  - induction l as [|x l IH]; intros H; simpl in H;
      destruct (m r _ [] _) as [u|] eqn:E; try done.
    + apply m_sound in E as (b & c & _ & Hl & Hm & _). by exists [], b, c.
    + apply m_sound in E as (b & c & _ & Hl & Hm & _). by exists [], b, c.
    + destruct (IH H) as (a & b & c & -> & Hm). by exists (x :: a), b, c.
  - intros (a & b & c & -> & Hm). induction a as [|x a IH].
    + simpl app. destruct (b ++ c) as [|y t] eqn:E; simpl;
        (assert (is_Some (m r (b ++ c) [] (fun _ _ => Some tt))) as [u Hu]
           by (apply m_complete; [done|by eauto])); rewrite E in Hu; by rewrite Hu.
    + simpl app. cbn [search]. destruct (m _ _ _ _); [done|exact IH].
Qed.

(** ** [Regexp.ReplaceAllString]
    A replacement is [${1}] (or nothing) followed by literal text.  A match that
    consumes no rune is passed over: none of the patterns below has one. *)
Record template := Template { use_group1 : bool; repl_text : string }.

Definition find_at (r : re) (l : list rune) : option (nat * list rune) :=
  m r l [] (fun s' cap => Some ((length l - length s')%nat, cap)).

Definition expand (t : template) (cap : list rune) : string :=
  ((if use_group1 t then undecode cap else "") ++ repl_text t)%string.

Fixpoint replace_runes (r : re) (t : template) (skip : nat) (l : list rune) : string :=
  match l with
  | [] => ""%string
  | c :: l' =>
      match skip with
      | S k => replace_runes r t k l'
      | O => match find_at r l with
             | Some (S n, cap) => (expand t cap ++ replace_runes r t n l')%string
             | _ => (raw c ++ replace_runes r t 0 l')%string
             end
      end
  end.

Definition ReplaceAllString (r : re) (t : template) (s : string) : string :=
  replace_runes r t 0 (decode s).

Lemma replace_no_match r t l :
  search r l = false -> replace_runes r t 0 l = undecode l.
Proof.
  induction l as [|c l IH]; [done|]. intros H.
  assert (find_at r (c :: l) = None) as Hf.
  { destruct (find_at r (c :: l)) as [[n cap]|] eqn:E; [|done].
    apply m_sound in E as (b & s' & _ & Hl & Hm & _).
    assert (search r (c :: l) = true) as Ht; [|congruence].
    apply search_spec. by exists [], b, s'. }
  cbn [replace_runes]. rewrite Hf, undecode_cons. f_equal. apply IH.
  cbn [search] in H. destruct (m r (c :: l) [] _); [done|exact H].
Qed.

(** ** Notation of patterns *)
Definition cls_of (s : string) : Z -> bool :=
  fun c => existsb (fun r => Z.eqb (cp r) c) (chars s).
Definition neg (f : Z -> bool) : Z -> bool := fun c => negb (f c).
Definition either (f g : Z -> bool) : Z -> bool := fun c => f c || g c.

(** [\s] is [\t\n\f\r ]; [\S] its complement. *)
Definition space : Z -> bool := fun c => (c =? 9) || (c =? 10) || (c =? 12) || (c =? 13) || (c =? 32).
Definition nonspace : Z -> bool := neg space.
Definition lower : Z -> bool := in_range 97 122.
Definition upper : Z -> bool := in_range 65 90.
Definition digit09 : Z -> bool := in_range 48 57.
Definition anything : Z -> bool := fun _ => true.

(** One letter under [(?i)]: simple case folding adds U+017F to s and U+212A
    to k. *)
Definition fold (c : Z) : Z -> bool := fun x =>
  (x =? c) || (lower c && (x =? c - 32)) || (upper c && (x =? c + 32))
  || (((c =? 115) || (c =? 83)) && (x =? 383))
  || (((c =? 107) || (c =? 75)) && (x =? 8490)).

Fixpoint word (fold1 : Z -> Z -> bool) (s : list rune) : re :=
  match s with
  | [] => Eps
  | [c] => Cls (fold1 (cp c))
  | c :: s' => Seq (Cls (fold1 (cp c))) (word fold1 s')
  end.
Definition lit (s : string) : re := word Z.eqb (chars s).
Definition lit_i (s : string) : re := word fold (chars s).

Definition many (f : Z -> bool) : re := Star true f.
Definition some_ (f : Z -> bool) : re := Seq (Cls f) (Star true f).
Fixpoint at_least (n : nat) (f : Z -> bool) : re :=
  match n with O => Star true f | S n' => Seq (Cls f) (at_least n' f) end.
Fixpoint exactly (n : nat) (f : Z -> bool) : re :=
  match n with O => Eps | S n' => Seq (Cls f) (exactly n' f) end.
Fixpoint at_most (n : nat) (f : Z -> bool) : re :=
  match n with O => Eps | S n' => Alt (Seq (Cls f) (at_most n' f)) Eps end.
Definition opt (r : re) : re := Alt r Eps.
Fixpoint one_of (l : list re) : re :=
  match l with [] => Cls (fun _ => false) | [r] => r | r :: l' => Alt r (one_of l') end.
Fixpoint cat (l : list re) : re :=
  match l with [] => Eps | [r] => r | r :: l' => Seq r (cat l') end.
