(* ===== verification/Sha256.v ===== *)
(** * crypto/sha256: [sha256.Sum256] and its [%x] rendering
    FIPS 180-4 on 32-bit words, executable; the only fact the rest of the
    development uses is the shape of the digest, and two published test vectors
    check the function. *)
From stdpp Require Import base list strings.
From Stdlib Require Import ZArith Lia Ascii.
From S2P Require Import Prelude.
Open Scope Z_scope.

Definition add32 (x y : Z) : Z := (x + y) mod 4294967296.
Definition rotr (n x : Z) : Z :=
  Z.lor (Z.shiftr x n) (Z.land (Z.shiftl x (32 - n)) 4294967295).

(** The constants are the first 32 fractional bits of the cube roots (the round
    constants) and of the square roots (the initial state) of the first primes. *)
Definition is_prime (n : nat) : bool :=
  forallb (fun d => negb (Nat.eqb (n mod d) 0)) (seq 2 (n - 2)).
Definition primes : list Z := map Z.of_nat (List.filter is_prime (seq 2 310)).

(** Integer cube root, from the highest of [bits] bits down. *)
Fixpoint cube_root (bits : nat) (r n : Z) : Z :=
  match bits with
  | O => r
  | S b =>
      let r' := r + 2 ^ Z.of_nat b in
      cube_root b (if r' * r' * r' <=? n then r' else r) n
  end.

Definition fraction_cbrt (p : Z) : Z := cube_root 36 0 (p * 2 ^ 96) mod 2 ^ 32.
Definition fraction_sqrt (p : Z) : Z := Z.sqrt (p * 2 ^ 64) mod 2 ^ 32.

Definition K : list Z := Eval vm_compute in map fraction_cbrt primes.

Record hash := H8 { h0 : Z; h1 : Z; h2 : Z; h3 : Z; h4 : Z; h5 : Z; h6 : Z; h7 : Z }.

Definition initial : hash := Eval vm_compute in
  match map fraction_sqrt primes with
  | a :: b :: c :: d :: e :: f :: g :: h :: _ => H8 a b c d e f g h
  | _ => H8 0 0 0 0 0 0 0 0
  end.

Fixpoint words (bs : list Z) : list Z :=
  match bs with
  | a :: b :: c :: d :: bs' => (a * 16777216 + b * 65536 + c * 256 + d) :: words bs'
  | _ => []
  end.

(** The message schedule, most recent word first. *)
Fixpoint extend (n : nat) (ws : list Z) : list Z :=
  match n with
  | O => ws
  | S n' =>
      let x := nth 14 ws 0 in
      let y := nth 1 ws 0 in
      let s0 := Z.lxor (Z.lxor (rotr 7 x) (rotr 18 x)) (Z.shiftr x 3) in
      let s1 := Z.lxor (Z.lxor (rotr 17 y) (rotr 19 y)) (Z.shiftr y 10) in
      extend n' (add32 (add32 (nth 15 ws 0) s0) (add32 (nth 6 ws 0) s1) :: ws)
  end.

Definition round (s : hash) (kw : Z * Z) : hash :=
  let '(H8 a b c d e f g h) := s in
  let S1 := Z.lxor (Z.lxor (rotr 6 e) (rotr 11 e)) (rotr 25 e) in
  let ch := Z.lxor (Z.land e f) (Z.land (Z.lxor e 4294967295) g) in
  let t1 := add32 (add32 h S1) (add32 ch (add32 kw.1 kw.2)) in
  let S0 := Z.lxor (Z.lxor (rotr 2 a) (rotr 13 a)) (rotr 22 a) in
  let maj := Z.lxor (Z.lxor (Z.land a b) (Z.land a c)) (Z.land b c) in
  H8 (add32 t1 (add32 S0 maj)) a b c (add32 d t1) e f g.

Definition block (s : hash) (bs : list Z) : hash :=
  let ws := rev (extend 48 (rev (words bs))) in
  let r := fold_left round (combine K ws) s in
  H8 (add32 (h0 s) (h0 r)) (add32 (h1 s) (h1 r)) (add32 (h2 s) (h2 r)) (add32 (h3 s) (h3 r))
     (add32 (h4 s) (h4 r)) (add32 (h5 s) (h5 r)) (add32 (h6 s) (h6 r)) (add32 (h7 s) (h7 r)).

Fixpoint blocks (n : nat) (s : hash) (bs : list Z) : hash :=
  match n with
  | O => s
  | S n' => blocks n' (block s (firstn 64 bs)) (skipn 64 bs)
  end.

Definition be_bytes (n : nat) (x : Z) : list Z :=
  map (fun i => Z.shiftr x (8 * Z.of_nat i) mod 256) (rev (seq 0 n)).

Definition pad (bs : list Z) : list Z :=
  let len := Z.of_nat (length bs) in
  bs ++ [128] ++ repeat 0 (Z.to_nat ((55 - len) mod 64)) ++ be_bytes 8 (8 * len).

Fixpoint bytes_of_string (s : string) : list Z :=
  match s with
  | EmptyString => []
  | String a s' => Z.of_nat (nat_of_ascii a) :: bytes_of_string s'
  end.

Definition Sum256 (s : string) : hash :=
  let p := pad (bytes_of_string s) in
  blocks (length p / 64) initial p.

Definition digest (h : hash) : list Z :=
  flat_map (be_bytes 4) [h0 h; h1 h; h2 h; h3 h; h4 h; h5 h; h6 h; h7 h].

(** [fmt.Sprintf("%x", digest)]: two lower-case digits for each byte. *)
Definition nibble (n : Z) : ascii :=
  ascii_of_nat (Z.to_nat (if n <=? 9 then 48 + n else 87 + n)).
Fixpoint hex (bs : list Z) : string :=
  match bs with
  | [] => EmptyString
  | b :: bs' => String (nibble (b / 16 mod 16)) (String (nibble (b mod 16)) (hex bs'))
  end.

Definition sha256_hex (s : string) : string := hex (digest (Sum256 s)).

Example sha_empty : sha256_hex "" =
  "e3b0c44298fc1c149afbf4c8996fb92427ae41e4649b934ca495991b7852b855".
Proof. vm_compute. reflexivity. Qed.
Example sha_abc : sha256_hex "abc" =
  "ba7816bf8f01cfea414140de5dae2223b00361a396177a9cb410ff61f20015ad".
Proof. vm_compute. reflexivity. Qed.
Example sha_two_blocks :
  sha256_hex "abcdbcdecdefdefgefghfghighijhijkijkljklmklmnlmnomnopnopq" =
  "248d6a61d20638b8e5c026930c3e6039a33ce45964ff2167f6ecedd419db06c1".
Proof. vm_compute. reflexivity. Qed.

Lemma hex_length bs : String.length (hex bs) = (2 * length bs)%nat.
Proof. induction bs as [|b bs IH]; simpl; [done|]. rewrite IH. lia. Qed.

Lemma sha256_hex_length s : String.length (sha256_hex s) = 64%nat.
Proof. unfold sha256_hex. rewrite hex_length. reflexivity. Qed.

Definition is_hex_digit (c : ascii) : bool :=
  let n := Z.of_nat (nat_of_ascii c) in
  ((48 <=? n) && (n <=? 57)) || ((97 <=? n) && (n <=? 102)).
Fixpoint all_hex (s : string) : bool :=
  match s with EmptyString => true | String c s' => is_hex_digit c && all_hex s' end.

Lemma nibble_hex n : 0 <= n < 16 -> is_hex_digit (nibble n) = true.
Proof.
  intros H. assert (exists k, (k < 16)%nat /\ n = Z.of_nat k) as (k & Hk & ->).
  { exists (Z.to_nat n). lia. }
  do 16 (destruct k as [|k]; [reflexivity|]). lia.
Qed.

Lemma hex_all_hex bs : all_hex (hex bs) = true.
Proof.
  induction bs as [|b bs IH]; simpl; [done|].
  rewrite !nibble_hex, IH by dlia. done.
Qed.

Lemma sha256_hex_all s : all_hex (sha256_hex s) = true.
Proof. apply hex_all_hex. Qed.
