(* ===== verification/Json.v ===== *)
(** * encoding/json as the repository uses it
    [json.Marshal] of a slice of [{Text string `json:text`}], the encoder with
    [SetEscapeHTML(false)] on the fingerprint payload, and [json.Unmarshal] into
    a slice of the same struct: a parser of the whole JSON grammar with Go's
    handling of escapes, surrogates, invalid UTF-8, unknown fields, field-name
    folding and type mismatches. *)
From stdpp Require Import base list strings sorting.
From Stdlib Require Import ZArith Lia Ascii.
From S2P Require Import Prelude Utf8.
Import GoStr.
Open Scope list_scope.
Open Scope string_scope.
Open Scope Z_scope.

Definition dq : string := String "034" EmptyString.
Definition bs : string := String "092" EmptyString.

(** ** Writing *)
Definition hexd (n : Z) : string :=
  String (ascii_of_nat (Z.to_nat (if n <=? 9 then 48 + n else 87 + n))) EmptyString.

(** A byte that is not part of a well-formed sequence. *)
Definition invalid (r : rune) : bool :=
  (cp r =? RuneError) && Nat.eqb (String.length (raw r)) 1.

Definition enc_rune (html : bool) (r : rune) : string :=
  let c := cp r in
  if c <? 128 then
    if c =? 34 then bs ++ dq
    else if c =? 92 then bs ++ bs
    else if c =? 8 then bs ++ "b"
    else if c =? 12 then bs ++ "f"
    else if c =? 10 then bs ++ "n"
    else if c =? 13 then bs ++ "r"
    else if c =? 9 then bs ++ "t"
    else if (c <? 32) || (html && ((c =? 60) || (c =? 62) || (c =? 38)))
    then bs ++ "u00" ++ hexd (c / 16) ++ hexd (c mod 16)
    else raw r
  else if invalid r then bs ++ "ufffd"
  else if c =? 8232 then bs ++ "u2028"
  else if c =? 8233 then bs ++ "u2029"
  else raw r.

Definition enc_runes (html : bool) (l : list rune) : string :=
  String.concat "" (map (enc_rune html) l).

Definition enc_string (html : bool) (s : string) : string :=
  dq ++ enc_runes html (decode s) ++ dq.

(** [json.Marshal(errors)]: a nil slice is [null]. *)
Definition enc_entry (t : string) : string :=
  "{" ++ dq ++ "text" ++ dq ++ ":" ++ enc_string true t ++ "}".

Definition MarshalEntries (texts : list string) : string :=
  match texts with
  | [] => "null"
  | _ => "[" ++ Join (map enc_entry texts) "," ++ "]"
  end.

(** ** Reading *)
Inductive json :=
| JNull
| JBool (b : bool)
| JNum
| JStr (s : string)
| JArr (l : list json)
| JObj (l : list (string * json)).

(** UTF-8 encoding of a code point below 0x110000. *)
Definition b2s (n : Z) : string := String (ascii_of_nat (Z.to_nat n)) EmptyString.
Definition enc_cp (c : Z) : string :=
  if c <? 128 then b2s c
  else if c <? 2048 then b2s (192 + c / 64) ++ b2s (128 + c mod 64)
  else if c <? 65536 then
    b2s (224 + c / 4096) ++ b2s (128 + c / 64 mod 64) ++ b2s (128 + c mod 64)
  else b2s (240 + c / 262144) ++ b2s (128 + c / 4096 mod 64)
       ++ b2s (128 + c / 64 mod 64) ++ b2s (128 + c mod 64).

Definition replacement : string := enc_cp RuneError.
Definition clean (r : rune) : string := if invalid r then replacement else raw r.

Definition hexval (c : Z) : option Z :=
  if in_range 48 57 c then Some (c - 48)
  else if in_range 97 102 c then Some (c - 87)
  else if in_range 65 70 c then Some (c - 55)
  else None.
Definition hex4 (a b c d : rune) : option Z :=
  match hexval (cp a), hexval (cp b), hexval (cp c), hexval (cp d) with
  | Some w, Some x, Some y, Some z => Some (w * 4096 + x * 256 + y * 16 + z)
  | _, _, _, _ => None
  end.

Definition is_surrogate (c : Z) : bool := in_range 55296 57343 c.
Definition pair (hi lo : Z) : option Z :=
  if in_range 55296 56319 hi && in_range 56320 57343 lo
  then Some ((hi - 55296) * 1024 + (lo - 56320) + 65536) else None.

Definition escape (c : Z) : option string :=
  if (c =? 34) || (c =? 92) || (c =? 47) then Some (b2s c)
  else if c =? 98 then Some (b2s 8)
  else if c =? 102 then Some (b2s 12)
  else if c =? 110 then Some (b2s 10)
  else if c =? 114 then Some (b2s 13)
  else if c =? 116 then Some (b2s 9)
  else None.

Definition prepend (s : string) (o : option (string * list rune)) : option (string * list rune) :=
  match o with Some (t, l) => Some (s ++ t, l) | None => None end.

(** The body of a string literal, after its opening quote. *)
Fixpoint p_str (l : list rune) : option (string * list rune) :=
  match l with
  | [] => None
  | r :: l1 =>
      if cp r =? 34 then Some (EmptyString, l1)
      else if cp r =? 92 then
        match l1 with
        | e :: l2 =>
            match escape (cp e) with
            | Some s => prepend s (p_str l2)
            | None =>
                if cp e =? 117 then
                  match l2 with
                  | a :: b :: c :: d :: l3 =>
                      match hex4 a b c d with
                      | None => None
                      | Some u =>
                          if is_surrogate u then
                            match l3 with
                            | x :: y :: a' :: b' :: c' :: d' :: l4 =>
                                if (cp x =? 92) && (cp y =? 117) then
                                  match hex4 a' b' c' d' with
                                  | Some u' =>
                                      match pair u u' with
                                      | Some w => prepend (enc_cp w) (p_str l4)
                                      | None => prepend replacement (p_str l3)
                                      end
                                  | None => prepend replacement (p_str l3)
                                  end
                                else prepend replacement (p_str l3)
                            | _ => prepend replacement (p_str l3)
                            end
                          else prepend (enc_cp u) (p_str l3)
                      end
                  | _ => None
                  end
                else None
            end
        | [] => None
        end
      else if cp r <? 32 then None
      else prepend (clean r) (p_str l1)
  end.

Definition is_ws (c : Z) : bool := (c =? 32) || (c =? 9) || (c =? 13) || (c =? 10).
Fixpoint ws (l : list rune) : list rune :=
  match l with r :: l' => if is_ws (cp r) then ws l' else l | [] => [] end.

Definition is_digit (c : Z) : bool := in_range 48 57 c.
Fixpoint digits (l : list rune) : list rune :=
  match l with r :: l' => if is_digit (cp r) then digits l' else l | [] => [] end.
Definition digits1 (l : list rune) : option (list rune) :=
  match l with r :: l' => if is_digit (cp r) then Some (digits l') else None | [] => None end.

(** Numbers: an optional minus, an integer part without leading zeros, an
    optional fraction and an optional exponent. *)
Definition p_exp (l : list rune) : option (list rune) :=
  match l with
  | e :: l1 =>
      if (cp e =? 101) || (cp e =? 69) then
        match l1 with
        | s :: l2 => if (cp s =? 43) || (cp s =? 45) then digits1 l2 else digits1 l1
        | [] => None
        end
      else Some l
  | [] => Some l
  end.
Definition p_frac (l : list rune) : option (list rune) :=
  match l with
  | p :: l1 => if cp p =? 46 then match digits1 l1 with Some l2 => p_exp l2 | None => None end
               else p_exp l
  | [] => Some l
  end.
Definition p_num (l : list rune) : option (list rune) :=
  match (match l with r :: l1 => if cp r =? 45 then l1 else l | [] => l end) with
  | d :: l1 => if cp d =? 48 then p_frac l1
               else if is_digit (cp d) then p_frac (digits l1) else None
  | [] => None
  end.

Fixpoint p_lit (w : list rune) (l : list rune) : option (list rune) :=
  match w, l with
  | [], _ => Some l
  | a :: w', b :: l' => if cp a =? cp b then p_lit w' l' else None
  | _ :: _, [] => None
  end.

Definition maxNestingDepth : Z := 10000.

(** Values; the fuel bounds the depth of the calls.  A value of [n] runes needs
    fuel [n] at most ([parser_frugal] below), so the number of bytes is enough:
    more fuel parses nothing more. *)
Fixpoint p_value (fuel : nat) (depth : Z) (l : list rune) {struct fuel} :
    option (json * list rune) :=
  match fuel with
  | O => None
  | S f =>
      match ws l with
      | [] => None
      | r :: l1 =>
          let c := cp r in
          if c =? 34 then match p_str l1 with Some (s, l2) => Some (JStr s, l2) | None => None end
          else if c =? 91 then
            if maxNestingDepth <=? depth then None else
            match ws l1 with
            | x :: l2 => if cp x =? 93 then Some (JArr [], l2)
                         else match p_elems f (depth + 1) l1 with
                              | Some (es, l3) => Some (JArr es, l3) | None => None end
            | [] => None
            end
          else if c =? 123 then
            if maxNestingDepth <=? depth then None else
            match ws l1 with
            | x :: l2 => if cp x =? 125 then Some (JObj [], l2)
                         else match p_members f (depth + 1) l1 with
                              | Some (ms, l3) => Some (JObj ms, l3) | None => None end
            | [] => None
            end
          else if c =? 116 then
            match p_lit (chars "rue") l1 with Some l2 => Some (JBool true, l2) | None => None end
          else if c =? 102 then
            match p_lit (chars "alse") l1 with Some l2 => Some (JBool false, l2) | None => None end
          else if c =? 110 then
            match p_lit (chars "ull") l1 with Some l2 => Some (JNull, l2) | None => None end
          else match p_num (r :: l1) with Some l2 => Some (JNum, l2) | None => None end
      end
  end
with p_elems (fuel : nat) (depth : Z) (l : list rune) {struct fuel} :
    option (list json * list rune) :=
  match fuel with
  | O => None
  | S f =>
      match p_value f depth l with
      | None => None
      | Some (v, l1) =>
          match ws l1 with
          | x :: l2 =>
              if cp x =? 44 then
                match p_elems f depth l2 with
                | Some (vs, l3) => Some (v :: vs, l3) | None => None end
              else if cp x =? 93 then Some ([v], l2) else None
          | [] => None
          end
      end
  end
with p_members (fuel : nat) (depth : Z) (l : list rune) {struct fuel} :
    option (list (string * json) * list rune) :=
  match fuel with
  | O => None
  | S f =>
      match ws l with
      | q :: l1 =>
          if cp q =? 34 then
            match p_str l1 with
            | None => None
            | Some (key, l2) =>
                match ws l2 with
                | x :: l3 =>
                    if cp x =? 58 then
                      match p_value f depth l3 with
                      | None => None
                      | Some (v, l4) =>
                          match ws l4 with
                          | y :: l5 =>
                              if cp y =? 44 then
                                match p_members f depth l5 with
                                | Some (ms, l6) => Some ((key, v) :: ms, l6) | None => None end
                              else if cp y =? 125 then Some ([(key, v)], l5) else None
                          | [] => None
                          end
                      end
                    else None
                | [] => None
                end
            end
          else None
      | [] => None
      end
  end.

Definition parse (s : string) : option json :=
  let l := decode s in
  match p_value (S (String.length s)) 0 l with
  | Some (v, rest) => match ws rest with [] => Some v | _ :: _ => None end
  | None => None
  end.

(** Field names match up to simple case folding: ASCII letters, and the long s
    and the Kelvin sign, which fold to s and k. *)
Definition fold_cp (c : Z) : Z :=
  if in_range 65 90 c then c + 32
  else if c =? 383 then 115
  else if c =? 8490 then 107
  else c.
Definition same_name (k name : string) : bool :=
  bool_decide (map (fun r => fold_cp (cp r)) (decode k) = map (fun r => fold_cp (cp r)) (decode name)).

(** The string field [name] of a struct; [None] is a type mismatch, reported at
    the end. *)
Fixpoint dec_fields (name acc : string) (ms : list (string * json)) : option string :=
  match ms with
  | [] => Some acc
  | (k, v) :: ms' =>
      if same_name k name then
        match v with
        | JStr s => dec_fields name s ms'
        | JNull => dec_fields name acc ms'
        | _ => None
        end
      else dec_fields name acc ms'
  end.

Definition dec_struct (name : string) (v : json) : option string :=
  match v with
  | JObj ms => dec_fields name EmptyString ms
  | JNull => Some EmptyString
  | _ => None
  end.

(** One element of the slice. *)
Definition dec_entry (v : json) : option string := dec_struct "text" v.

(** [json.NewDecoder(r).Decode] into a struct with the one string field [name]:
    the first value of the stream, whatever follows it. *)
Definition DecodeField (name s : string) : option string :=
  match p_value (S (String.length s)) 0 (decode s) with
  | Some (v, _) => dec_struct name v
  | None => None
  end.

Fixpoint dec_entries (l : list json) : option (list string) :=
  match l with
  | [] => Some []
  | v :: l' => match dec_entry v, dec_entries l' with
               | Some t, Some ts => Some (t :: ts) | _, _ => None end
  end.

Definition UnmarshalEntries (s : string) : option (list string) :=
  match parse s with
  | Some JNull => Some []
  | Some (JArr l) => dec_entries l
  | _ => None
  end.

Example json_1 : UnmarshalEntries (MarshalEntries ["a<b"; "c" ++ dq ++ "d"; "é"])
  = Some ["a<b"; "c" ++ dq ++ "d"; "é"].
Proof. vm_compute. reflexivity. Qed.
Example json_2 : UnmarshalEntries
  (" [ {" ++ dq ++ "TEXT" ++ dq ++ " : " ++ dq ++ bs ++ "ud83d" ++ bs ++ "ude00" ++ dq
   ++ ", " ++ dq ++ "n" ++ dq ++ ":[1,-2.5e+3,{}]} , null ]") = Some ["😀"; ""].
Proof. vm_compute. reflexivity. Qed.
Example json_3 : UnmarshalEntries "{}" = None.
Proof. vm_compute. reflexivity. Qed.
Example json_5 : DecodeField "state"
  ("{" ++ dq ++ "STAT" ++ dq ++ ":1, " ++ dq ++ "ſtate" ++ dq ++ ":" ++ dq ++ "closed" ++ dq ++ "} tail")
  = Some "closed".
Proof. vm_compute. reflexivity. Qed.
Example json_4 : UnmarshalEntries "[}" = None.
Proof. vm_compute. reflexivity. Qed.

(** ** Round trip: what [Marshal] writes, [Unmarshal] reads back, with invalid
    bytes replaced by U+FFFD. *)
Definition sanitize (s : string) : string := String.concat "" (map clean (decode s)).

Definition good_rune (r : rune) : Prop :=
  raw r = enc_cp (cp r) /\ forall t, decode (raw r ++ t) = r :: decode t.

Lemma byte_of_b2s a n : byte_of a = n -> b2s n = String a EmptyString.
Proof. intros <-. unfold b2s, byte_of. by rewrite Nat2Z.id, ascii_nat_embedding. Qed.

Lemma byte_of_range a : 0 <= byte_of a < 256.
Proof. unfold byte_of. pose proof (nat_ascii_bounded a). lia. Qed.

Ltac bytes_arith :=
  unfold valid2, valid3, valid4, cont in *;
  repeat match goal with
  | H : _ && _ = true |- _ => apply andb_true_iff in H as [? ?]
  | H : in_range _ _ _ = true |- _ => apply in_range_iff in H
  | H : (if ?x =? ?y then _ else _) = true |- _ => destruct (Z.eqb_spec x y)
  end.

Lemma enc_cp_1 a : byte_of a < 128 -> enc_cp (byte_of a) = String a EmptyString.
Proof.
  intros H. unfold enc_cp. rewrite (proj2 (Z.ltb_lt _ _)) by lia. by apply byte_of_b2s.
Qed.

Lemma enc_cp_2 a b : valid2 (byte_of a) (byte_of b) = true ->
  enc_cp ((byte_of a - 192) * 64 + (byte_of b - 128)) = String a (String b EmptyString).
Proof.
  intros H. bytes_arith. unfold enc_cp.
  rewrite (proj2 (Z.ltb_ge _ _)), (proj2 (Z.ltb_lt _ _)) by lia.
  rewrite (byte_of_b2s a), (byte_of_b2s b) by dlia. done.
Qed.

Lemma enc_cp_3 a b c : valid3 (byte_of a) (byte_of b) (byte_of c) = true ->
  enc_cp ((byte_of a - 224) * 4096 + (byte_of b - 128) * 64 + (byte_of c - 128))
  = String a (String b (String c EmptyString)).
Proof.
  intros H. bytes_arith; unfold enc_cp;
    (rewrite !(proj2 (Z.ltb_ge _ _)), (proj2 (Z.ltb_lt _ _)) by lia);
    rewrite (byte_of_b2s a), (byte_of_b2s b), (byte_of_b2s c) by dlia; done.
Qed.

Lemma enc_cp_4 a b c d : valid4 (byte_of a) (byte_of b) (byte_of c) (byte_of d) = true ->
  enc_cp ((byte_of a - 240) * 262144 + (byte_of b - 128) * 4096
          + (byte_of c - 128) * 64 + (byte_of d - 128))
  = String a (String b (String c (String d EmptyString))).
Proof.
  intros H. bytes_arith; unfold enc_cp; (rewrite !(proj2 (Z.ltb_ge _ _)) by lia);
    rewrite (byte_of_b2s a), (byte_of_b2s b), (byte_of_b2s c), (byte_of_b2s d) by dlia; done.
Qed.

Lemma decode_good s : Forall (fun r => invalid r = true \/ good_rune r) (decode s).
Proof.
  induction s as [s IH] using string_len_ind.
  destruct s as [|a s1]; [by constructor|]. cbn [decode].
  assert (invalid (Rune RuneError (String a EmptyString)) = true) as Hbad by reflexivity.
  decode_cases; constructor;
    first [apply IH; simpl; lia|apply List.Forall_nil|left; exact Hbad|right].
  all: split; cbn [raw cp];
    [symmetry; first [by apply enc_cp_4|by apply enc_cp_3|by apply enc_cp_2
                     |by apply enc_cp_1, Z.ltb_lt]|].
  all: intros t; cbn [String.append decode];
    repeat match goal with H : ?x = _ |- context [if ?x then _ else _] => rewrite H end; done.
Qed.

Lemma prepend_compose s1 s2 o : prepend s1 (prepend s2 o) = prepend (s1 ++ s2) o.
Proof. destruct o as [[t l]|]; simpl; [by rewrite append_assoc|done]. Qed.

(** Reading the encoding of one rune gives the rune back. *)
Lemma p_str_enc_ascii html a t :
  byte_of a < 128 ->
  p_str (decode (enc_rune html (Rune (byte_of a) (String a EmptyString)) ++ t))
  = prepend (String a EmptyString) (p_str (decode t)).
Proof.
  intros H. destruct a as [[] [] [] [] [] [] [] []];
    try (exfalso; unfold byte_of in H; vm_compute in H; congruence);
    destruct html; reflexivity.
Qed.

Lemma p_str_enc_rune html r t :
  wf_rune r -> invalid r = true \/ good_rune r ->
  p_str (decode (enc_rune html r ++ t)) = prepend (clean r) (p_str (decode t)).
Proof.
  intros Hwf Hg. destruct Hwf as [(a & Hr & Ha & Hc)|(_ & _ & Hc)].
  - destruct r as [c w]. cbn [raw cp] in *. subst. rewrite p_str_enc_ascii by done.
    unfold clean, invalid. cbn [raw cp].
    rewrite (proj2 (Z.eqb_neq _ _)) by (unfold RuneError; lia). done.
  - unfold enc_rune. rewrite (proj2 (Z.ltb_ge _ _)) by lia.
    destruct (invalid r) eqn:Hi; [unfold clean; rewrite Hi; reflexivity|].
    destruct Hg as [Hg|[Hraw Hdec]]; [congruence|].
    unfold clean. rewrite Hi, Hraw.
    destruct (Z.eqb_spec (cp r) 8232) as [->|]; [reflexivity|].
    destruct (Z.eqb_spec (cp r) 8233) as [->|]; [reflexivity|].
    rewrite <- Hraw, Hdec. cbn [p_str].
    rewrite !(proj2 (Z.eqb_neq _ _)), (proj2 (Z.ltb_ge _ _)) by lia.
    unfold clean. by rewrite Hi.
Qed.

Lemma p_str_enc_runes html l t :
  Forall wf_rune l -> Forall (fun r => invalid r = true \/ good_rune r) l ->
  p_str (decode (enc_runes html l ++ dq ++ t))
  = Some (String.concat "" (map clean l), decode t).
Proof.
  intros Hw Hg. induction l as [|r l IH]; [reflexivity|].
  inversion Hw; inversion Hg; subst. unfold enc_runes in *. cbn [map].
  assert (forall x k, String.concat "" (x :: k) = x ++ String.concat "" k) as Hcat.
  { intros x [|y k]; simpl; [by rewrite append_nil_r|done]. }
  rewrite !Hcat, append_assoc, p_str_enc_rune by done. rewrite IH by done. done.
Qed.

Lemma p_str_enc_string html s t :
  p_str (decode (enc_runes html (decode s) ++ dq ++ t)) = Some (sanitize s, decode t).
Proof. apply p_str_enc_runes; [apply decode_wf|apply decode_good]. Qed.

Definition entry_prefix : string := "{" ++ dq ++ "text" ++ dq ++ ":" ++ dq.

Lemma p_entry f d l v rest :
  d < maxNestingDepth ->
  p_str l = Some (v, rest) -> (exists r l', rest = r :: l' /\ cp r = 125) ->
  p_value (S (S (S f))) d (chars entry_prefix ++ l)%list
  = Some (JObj [("text", JStr v)], tail rest).
Proof.
  intros Hd Hl (r & l' & -> & Hr).
  let e := eval vm_compute in (chars entry_prefix) in change (chars entry_prefix) with e.
  cbn -[Z.leb maxNestingDepth p_str].
  rewrite (proj2 (Z.leb_gt _ _) Hd). cbn -[maxNestingDepth].
  rewrite Hl. cbn [ws]. rewrite Hr. change (is_ws 125) with false. cbv iota.
  rewrite Hr. reflexivity.
Qed.

Lemma p_enc_entry f d t rest :
  d < maxNestingDepth ->
  p_value (S (S (S f))) d (decode (enc_entry t ++ rest))
  = Some (JObj [("text", JStr (sanitize t))], decode rest).
Proof.
  intros Hd.
  assert (enc_entry t ++ rest
          = entry_prefix ++ enc_runes true (decode t) ++ dq ++ "}" ++ rest) as ->.
  { unfold enc_entry, enc_string, entry_prefix. by rewrite !append_assoc. }
  rewrite decode_ascii by reflexivity.
  erewrite p_entry; [|done|apply p_str_enc_string|by repeat econstructor]. done.
Qed.

Definition entry_json (t : string) : json := JObj [("text", JStr (sanitize t))].

Lemma p_entries f d t ts rest :
  d < maxNestingDepth ->
  p_elems (length ts + 4 + f) d (decode (Join (map enc_entry (t :: ts)) "," ++ "]" ++ rest))
  = Some (map entry_json (t :: ts), decode rest).
Proof.
  intros Hd. revert t f. induction ts as [|u ts IH]; intros t f.
  - cbn [map Join length Nat.add p_elems]. rewrite p_enc_entry by done. reflexivity.
  - replace (length (u :: ts) + 4 + f)%nat with (S (length ts + 4 + f)) by (simpl; lia).
    cbn [p_elems]. replace (length ts + 4 + f)%nat with (S (S (S (length ts + 1 + f)))) by lia.
    change (Join (map enc_entry (t :: u :: ts)) ",")
      with (enc_entry t ++ "," ++ Join (map enc_entry (u :: ts)) ",").
    rewrite append_assoc, p_enc_entry by done.
    replace (S (S (S (length ts + 1 + f)))) with (length ts + 4 + f)%nat by lia.
    rewrite append_assoc. specialize (IH u f).
    assert (forall x, decode ("," ++ x) = Rune 44 "," :: decode x) as -> by reflexivity.
    cbn [ws cp]. change (is_ws 44) with false. change (44 =? 44) with true. cbv iota.
    by rewrite IH.
Qed.

Lemma dec_entry_json ts : dec_entries (map entry_json ts) = Some (map sanitize ts).
Proof. induction ts as [|t ts IH]; [done|]. cbn [map dec_entries]. by rewrite IH. Qed.

Lemma join_entries_length ts :
  (length ts * 10 <= String.length (Join (map enc_entry ts) ","))%nat.
Proof.
  assert (forall t, (10 <= String.length (enc_entry t))%nat) as H.
  { intros t. unfold enc_entry, enc_string. rewrite !length_append. simpl. lia. }
  induction ts as [|t ts IH]; [done|]. pose proof (H t).
  destruct ts as [|u ts]; [cbn [length map Join]; lia|].
  change (Join (map enc_entry (t :: u :: ts)) ",")
    with (enc_entry t ++ "," ++ Join (map enc_entry (u :: ts)) ",").
  rewrite !length_append. cbn [length] in *. lia.
Qed.

Lemma enc_entry_head t rest : exists r l, decode (enc_entry t ++ rest) = r :: l /\ cp r = 123.
Proof. unfold enc_entry. rewrite append_assoc. by repeat econstructor. Qed.

Lemma marshal_unmarshal_entries texts :
  UnmarshalEntries (MarshalEntries texts) = Some (map sanitize texts).
Proof.
  destruct texts as [|t ts]; [reflexivity|].
  unfold UnmarshalEntries, MarshalEntries, parse.
  set (body := Join (map enc_entry (t :: ts)) "," ++ "]").
  assert (decode ("[" ++ body) = Rune 91 "[" :: decode body) as -> by reflexivity.
  assert (exists f, String.length ("[" ++ body) = (length ts + 4 + f)%nat) as [f ->].
  { pose proof (join_entries_length (t :: ts)) as Hj. exists (String.length body - length ts - 3)%nat.
    assert (String.length (Join (map enc_entry (t :: ts)) ",") <= String.length body)%nat
      by (unfold body; rewrite length_append; lia).
    change (String.length ("[" ++ body)) with (S (String.length body)).
    cbn [length] in Hj. lia. }
  assert (exists r l, decode body = r :: l /\ cp r = 123) as (r & l & Hd & Hr).
  { unfold body. destruct ts as [|u ts]; cbn [map Join]; rewrite ?append_assoc;
      apply enc_entry_head. }
  pose proof (p_entries f 1 t ts "" ltac:(unfold maxNestingDepth; lia)) as Hp.
  change ("]" ++ "") with "]" in Hp. fold body in Hp.
  cbn [p_value ws cp]. change (is_ws 91) with false. cbv iota. cbn [Z.eqb Pos.eqb].
  change (maxNestingDepth <=? 0) with false. cbv iota.
  rewrite Hd in *. cbn [ws]. rewrite Hr. change (is_ws 123) with false. cbv iota. rewrite Hr.
  change (0 + 1) with 1. rewrite Hp. cbn [decode ws]. apply dec_entry_json.
Qed.

(** C37: Unmarshalling the JSON of a list of error entries gives back the texts, with
    invalid UTF-8 replaced. *)
Theorem marshal_unmarshal_roundtrip texts :
  UnmarshalEntries (MarshalEntries texts) = Some (map sanitize texts).
Proof. apply marshal_unmarshal_entries. Qed.

(** ** The fuel is enough
    A value that some fuel parses from [n] runes is parsed with fuel [n]. *)
Ltac by_length := cbn [List.length] in *; lia.

Lemma ws_length l : (List.length (ws l) <= List.length l)%nat.
Proof. induction l as [|r l IH]; cbn [ws]; [done|]. destruct (is_ws _); by_length. Qed.
Lemma ws_cons l r l1 : ws l = r :: l1 -> (S (List.length l1) <= List.length l)%nat.
Proof. intros H. pose proof (ws_length l). rewrite H in *. by_length. Qed.

Lemma prepend_inv s o t l : prepend s o = Some (t, l) -> exists t', o = Some (t', l).
Proof. destruct o as [[t' l']|]; [|done]. intros [= _ <-]. by exists t'. Qed.

Lemma p_str_length n : forall l s rest, (List.length l <= n)%nat ->
  p_str l = Some (s, rest) -> (S (List.length rest) <= List.length l)%nat.
Proof.
  induction n as [|n IH]; intros l s rest Hn; (destruct l as [|r l1]; [done|]); [by_length|].
  cbn [p_str]. intros H.
  repeat (case_match; try discriminate H); simplify_eq; try by_length;
  apply prepend_inv in H as (t' & H); apply IH in H; by_length.
Qed.

Lemma digits_length l : (List.length (digits l) <= List.length l)%nat.
Proof. induction l as [|r l IH]; cbn [digits]; [done|]. destruct (is_digit _); by_length. Qed.
Lemma digits1_length l rest : digits1 l = Some rest -> (S (List.length rest) <= List.length l)%nat.
Proof.
  destruct l as [|r l]; cbn [digits1]; [done|]. destruct (is_digit _); [|done]. intros [= <-].
  pose proof (digits_length l). by_length.
Qed.
Lemma p_exp_length l rest : p_exp l = Some rest -> (List.length rest <= List.length l)%nat.
Proof.
  unfold p_exp. intros H. repeat (case_match; try discriminate H); simplify_eq; try by_length;
    apply digits1_length in H; by_length.
Qed.
Lemma p_frac_length l rest : p_frac l = Some rest -> (List.length rest <= List.length l)%nat.
Proof.
  unfold p_frac. intros H. destruct l as [|p l1]; [by simplify_eq|].
  destruct (cp p =? 46); [|by apply p_exp_length].
  destruct (digits1 l1) as [l2|] eqn:E; [|done]. apply digits1_length in E. apply p_exp_length in H. by_length.
Qed.
Lemma p_num_length l rest : p_num l = Some rest -> (S (List.length rest) <= List.length l)%nat.
Proof.
  unfold p_num. intros H.
  assert (exists l0, (List.length l0 <= List.length l)%nat /\
    (match l with r :: l1 => if cp r =? 45 then l1 else l | [] => l end) = l0) as (l0 & Hl & E).
  { destruct l as [|r l1]; [by exists []|]. destruct (cp r =? 45); eexists; (split; [|done]); by_length. }
  rewrite E in H. destruct l0 as [|d l1]; [done|]. pose proof (digits_length l1).
  destruct (cp d =? 48); [|destruct (is_digit _); [|done]]; apply p_frac_length in H; by_length.
Qed.
Lemma p_lit_length w l rest : p_lit w l = Some rest -> (List.length rest <= List.length l)%nat.
Proof.
  revert l. induction w as [|a w IH]; intros l H; [by injection H as ->|].
  destruct l as [|b l]; cbn [p_lit] in H; [done|]. destruct (_ =? _); [|done]. apply IH in H. by_length.
Qed.

(** [p] consumes input, and its result needs no more fuel than the runes it consumes. *)
Definition frugal {A} (p : nat -> Z -> list rune -> option (A * list rune)) (f : nat) : Prop :=
  forall d l v rest, p f d l = Some (v, rest) ->
    (S (List.length rest) <= List.length l)%nat /\
    forall f', (List.length l - List.length rest <= f')%nat -> p f' d l = Some (v, rest).

Lemma value_frugal f : frugal p_elems f -> frugal p_members f -> frugal p_value (S f).
Proof.
  intros He Hm d l v rest H. cbn [p_value] in H.
  destruct (ws l) as [|r l1] eqn:Ew; [done|]. pose proof (ws_cons _ _ _ Ew) as Hw.
  assert ((S (List.length rest) <= List.length (r :: l1))%nat /\
    forall f', (List.length (r :: l1) - List.length rest <= S f')%nat -> p_value (S f') d l = Some (v, rest)) as [H1 H2].
  2: { split; [by_length|]. intros [|f'] Hf; [by_length|]. apply H2. by_length. }
  cbn [p_value]. rewrite Ew.
  destruct (cp r =? 34).
  { destruct (p_str l1) as [[s l2]|] eqn:Es; [|done]. simplify_eq.
    apply (p_str_length _ _ _ _ (le_n _)) in Es. split; [by_length|done]. }
  destruct (cp r =? 91).
  { destruct (maxNestingDepth <=? d); [done|]. destruct (ws l1) as [|x l2] eqn:Ex; [done|].
    pose proof (ws_cons _ _ _ Ex). destruct (cp x =? 93); [simplify_eq; split; [by_length|done]|].
    destruct (p_elems f (d + 1) l1) as [[es l3]|] eqn:Ee; [|done]. simplify_eq.
    apply He in Ee as [Hl Hf']. split; [by_length|]. intros f' Hf. rewrite Hf' by by_length. done. }
  destruct (cp r =? 123).
  { destruct (maxNestingDepth <=? d); [done|]. destruct (ws l1) as [|x l2] eqn:Ex; [done|].
    pose proof (ws_cons _ _ _ Ex). destruct (cp x =? 125); [simplify_eq; split; [by_length|done]|].
    destruct (p_members f (d + 1) l1) as [[es l3]|] eqn:Ee; [|done]. simplify_eq.
    apply Hm in Ee as [Hl Hf']. split; [by_length|]. intros f' Hf. rewrite Hf' by by_length. done. }
  repeat (case_match; try discriminate H); simplify_eq;
    match goal with
    | E : p_lit _ _ = Some _ |- _ => apply p_lit_length in E
    | E : p_num _ = Some _ |- _ => apply p_num_length in E
    end; (split; [by_length|done]).
Qed.

Lemma elems_frugal f : frugal p_value f -> frugal p_elems f -> frugal p_elems (S f).
Proof.
  intros Hv He d l v rest H. cbn [p_elems] in H.
  destruct (p_value f d l) as [[x l1]|] eqn:Ev; [|done]. apply Hv in Ev as [Hl Hf].
  destruct (ws l1) as [|y l2] eqn:Ew; [done|]. pose proof (ws_cons _ _ _ Ew).
  destruct (cp y =? 44) eqn:Ec.
  - destruct (p_elems f d l2) as [[vs l3]|] eqn:Ee; [|done]. simplify_eq. apply He in Ee as [Hl3 Hf3].
    split; [by_length|]. intros [|f'] Hn; [by_length|]. cbn [p_elems].
    rewrite Hf, Ew, Ec, Hf3 by by_length. done.
  - destruct (cp y =? 93) eqn:Eb; [|done]. simplify_eq. split; [by_length|].
    intros [|f'] Hn; [by_length|]. cbn [p_elems]. by rewrite Hf, Ew, Ec, Eb by by_length.
Qed.

Lemma members_frugal f : frugal p_value f -> frugal p_members f -> frugal p_members (S f).
Proof.
  intros Hv He d l v rest H. cbn [p_members] in H.
  destruct (ws l) as [|q l1] eqn:Ew; [done|]. pose proof (ws_cons _ _ _ Ew).
  destruct (cp q =? 34) eqn:Eq; [|done]. destruct (p_str l1) as [[key l2]|] eqn:Es; [|done].
  pose proof (p_str_length _ _ _ _ (le_n _) Es). destruct (ws l2) as [|x l3] eqn:Ex; [done|].
  pose proof (ws_cons _ _ _ Ex). destruct (cp x =? 58) eqn:Ec; [|done].
  destruct (p_value f d l3) as [[w l4]|] eqn:Ev; [|done]. apply Hv in Ev as [Hl Hf].
  destruct (ws l4) as [|y l5] eqn:Ey; [done|]. pose proof (ws_cons _ _ _ Ey).
  destruct (cp y =? 44) eqn:Em.
  - destruct (p_members f d l5) as [[ms l6]|] eqn:Ee; [|done]. simplify_eq. apply He in Ee as [Hl6 Hf6].
    split; [by_length|]. intros [|f'] Hn; [by_length|]. cbn [p_members].
    rewrite Ew, Eq, Es, Ex, Ec, Hf, Ey, Em, Hf6 by by_length. done.
  - destruct (cp y =? 125) eqn:Eb; [|done]. simplify_eq. split; [by_length|].
    intros [|f'] Hn; [by_length|]. cbn [p_members].
    by rewrite Ew, Eq, Es, Ex, Ec, Hf, Ey, Em, Eb by by_length.
Qed.

Lemma parser_frugal f : frugal p_value f /\ frugal p_elems f /\ frugal p_members f.
Proof.
  induction f as [|f (Hv & He & Hm)]; [by repeat split|].
  auto using value_frugal, elems_frugal, members_frugal.
Qed.

Lemma decode_length s : (List.length (decode s) <= String.length s)%nat.
Proof.
  rewrite <- (undecode_decode s) at 2. pose proof (decode_wf s) as H.
  induction H as [|r l Hr _ IH]; [done|]. rewrite undecode_cons, length_append. cbn [List.length].
  assert (raw r <> EmptyString) as Hne by (destruct Hr as [(a & -> & _)|[? _]]; done).
  destruct (raw r); [done|]. cbn [String.length]. lia.
Qed.

(** The fuel of [parse] and [DecodeField] is enough: what any amount of fuel reads
    from a text is read with it. *)
Theorem parser_has_enough_fuel s f v rest :
  p_value f 0 (decode s) = Some (v, rest) -> p_value (S (String.length s)) 0 (decode s) = Some (v, rest).
Proof.
  intros H. destruct (parser_frugal f) as [Hv _]. apply Hv in H as [_ H]. apply H.
  pose proof (decode_length s). lia.
Qed.
