(* ===== verification/K8s.v ===== *)
(** * Kubernetes objects
    The fields of the Kubernetes API structs (k8s.io/api, apimachinery) that the
    repository reads or writes, as records.  They are data only: the behaviour
    of the API server and of the client library is never defined here. *)
From stdpp Require Import base list strings gmap.
From Stdlib Require Import ZArith.
From S2P Require Import Prelude.
Open Scope Z_scope.

(** ** metav1 *)
Record OwnerReference := {
  ref_APIVersion : string;
  ref_Kind : string;
  ref_Name : string;
  ref_UID : string;
  ref_Controller : option bool;
  ref_BlockOwnerDeletion : option bool }.

Record ObjectMeta := {
  meta_Name : string;
  meta_Namespace : string;
  meta_UID : string;
  meta_Labels : gmap string string;
  meta_Annotations : gmap string string;
  meta_CreationTimestamp : Z;
  meta_Generation : Z;
  meta_OwnerReferences : list OwnerReference }.

Inductive ConditionStatus := ConditionTrue | ConditionFalse | ConditionUnknown.

#[global] Instance ConditionStatus_eq_dec : EqDecision ConditionStatus.
Proof. solve_decision. Defined.

Definition status_eqb (a b : ConditionStatus) : bool := bool_decide (a = b).

(** [metav1.Condition]; the condition structs of core, apps and batch share its
    shape as far as the repository reads them. *)
Record Condition := {
  cond_Type : string;
  cond_Status : ConditionStatus;
  cond_Reason : string;
  cond_Message : string;
  cond_LastTransitionTime : Z }.

#[global] Instance Condition_eq_dec : EqDecision Condition.
Proof. solve_decision. Defined.

(** ** Pods and pod templates *)
Record SecretKeySelector := { sks_Name : string; sks_Key : string }.

Record EnvVar := {
  env_Name : string;
  env_Value : string;
  env_SecretKeyRef : option SecretKeySelector }.

Record VolumeMount := {
  vm_Name : string;
  vm_MountPath : string;
  vm_ReadOnly : bool }.

Record ConfigMapProjection := { cmp_Name : string; cmp_Items : list (string * string) }.

(** At most one source of a volume is set. *)
Inductive VolumeSource :=
| EmptyDir
| Projected (sources : list ConfigMapProjection)
| SecretVolume (secretName : string)
| PersistentVolumeClaimVolume (claimName : string)
| OtherVolume (kind : string).

Record Volume := { vol_Name : string; vol_Source : VolumeSource }.

Record SecurityContext := {
  sc_ReadOnlyRootFilesystem : option bool;
  sc_RunAsNonRoot : option bool;
  sc_AllowPrivilegeEscalation : option bool;
  sc_CapabilitiesDrop : list string }.

(** A parsed [resource.Quantity], kept as the text it was parsed from. *)
Record Quantity := { quantity_text : string }.

Record ResourceRequirements := {
  rr_Requests : gmap string Quantity;
  rr_Limits : gmap string Quantity }.

Record Container := {
  ctr_Name : string;
  ctr_Image : string;
  ctr_Command : list string;
  ctr_Args : list string;
  ctr_Env : list EnvVar;
  ctr_VolumeMounts : list VolumeMount;
  ctr_Resources : ResourceRequirements;
  ctr_SecurityContext : SecurityContext }.

Record PodSpec := {
  ps_NodeName : string;
  ps_ServiceAccountName : string;
  ps_RestartPolicy : string;
  ps_RunAsNonRoot : option bool;
  ps_RunAsUser : option Z;
  ps_InitContainers : list Container;
  ps_Containers : list Container;
  ps_Volumes : list Volume }.

Record StateWaiting := { wait_Reason : string; wait_Message : string }.
Record StateTerminated := {
  term_ExitCode : Z; term_Reason : string; term_Message : string }.
Record ContainerState := {
  state_Waiting : option StateWaiting;
  state_Terminated : option StateTerminated }.
Record ContainerStatus := {
  cs_Name : string;
  cs_State : ContainerState;
  cs_LastTerminationState : ContainerState;
  cs_RestartCount : Z }.

Record Pod := {
  pod_Meta : ObjectMeta;
  pod_Spec : PodSpec;
  pod_Phase : string;
  pod_Conditions : list Condition;
  pod_ContainerStatuses : list ContainerStatus;
  pod_InitContainerStatuses : list ContainerStatus }.

(** ** Workloads *)
Record Deployment := {
  dep_Meta : ObjectMeta;
  dep_SpecReplicas : option Z;
  dep_StatusReplicas : Z;
  dep_ReadyReplicas : Z;
  dep_Conditions : list Condition }.

Record StatefulSet := {
  sts_Meta : ObjectMeta;
  sts_SpecReplicas : option Z;
  sts_ReadyReplicas : Z;
  sts_ObservedGeneration : Z;
  sts_Conditions : list Condition }.

Record PersistentVolumeClaim := { pvc_Meta : ObjectMeta; pvc_Phase : string }.

Record Node := { node_Meta : ObjectMeta; node_Conditions : list Condition }.

Record JobSpec := {
  js_BackoffLimit : option Z;
  js_ActiveDeadlineSeconds : option Z;
  js_TTLSecondsAfterFinished : option Z;
  js_Template : PodSpec }.

Record JobStatus := {
  js_Active : Z;
  js_Succeeded : Z;
  js_Failed : Z;
  js_CompletionTime : option Z;
  js_Conditions : list Condition }.

Record Job := {
  job_Meta : ObjectMeta;
  job_Spec : JobSpec;
  job_Status : JobStatus }.

Record ConfigMap := { cm_Meta : ObjectMeta; cm_Data : gmap string string }.
Record Secret := { secret_Meta : ObjectMeta; secret_Data : gmap string string }.
Record NamespaceObj := { ns_Meta : ObjectMeta }.

Record EventObj := {
  event_InvolvedName : string;
  event_InvolvedKind : string;
  event_Reason : string;
  event_Message : string;
  event_LastTimestamp : Z }.

(** Any watched object, as a [client.Object] holds it. *)
Inductive Object :=
| ObjPod (p : Pod)
| ObjDeployment (d : Deployment)
| ObjStatefulSet (s : StatefulSet)
| ObjPVC (p : PersistentVolumeClaim)
| ObjNode (n : Node)
| ObjJob (j : Job).

Definition obj_Meta (o : Object) : ObjectMeta :=
  match o with
  | ObjPod p => pod_Meta p
  | ObjDeployment d => dep_Meta d
  | ObjStatefulSet s => sts_Meta s
  | ObjPVC p => pvc_Meta p
  | ObjNode n => node_Meta n
  | ObjJob j => job_Meta j
  end.

(** ** Helpers of k8s.io/apimachinery/pkg/api/meta.
    The library's functions are an interface; [ConditionLaws] states what their
    documentation promises. *)
Class ConditionLib := {
  SetStatusCondition : list Condition -> Condition -> list Condition;
  IsStatusConditionTrue : list Condition -> string -> bool }.

Class ConditionLaws (L : ConditionLib) : Prop := {
  set_true : forall cs c,
    IsStatusConditionTrue (SetStatusCondition cs c) (cond_Type c)
    = status_eqb (cond_Status c) ConditionTrue;
  set_other : forall cs c t, t <> cond_Type c ->
    IsStatusConditionTrue (SetStatusCondition cs c) t = IsStatusConditionTrue cs t;
  empty_true : forall t, IsStatusConditionTrue [] t = false }.

(** An implementation that meets the documentation, used to evaluate examples. *)
Module ListConditions.
Fixpoint set (cs : list Condition) (c : Condition) : list Condition :=
  match cs with
  | nil => [c]
  | x :: cs' =>
      if String.eqb (cond_Type x) (cond_Type c) then
        {| cond_Type := cond_Type c; cond_Status := cond_Status c;
           cond_Reason := cond_Reason c; cond_Message := cond_Message c;
           cond_LastTransitionTime :=
             if bool_decide (cond_Status x = cond_Status c)
             then cond_LastTransitionTime x else cond_LastTransitionTime c |} :: cs'
      else x :: set cs' c
  end.

Fixpoint is_true (cs : list Condition) (t : string) : bool :=
  match cs with
  | nil => false
  | x :: cs' => if String.eqb (cond_Type x) t then status_eqb (cond_Status x) ConditionTrue
                else is_true cs' t
  end.

#[export] Instance lib : ConditionLib :=
  {| SetStatusCondition := set; IsStatusConditionTrue := is_true |}.

#[export] Instance laws : ConditionLaws lib.
Proof.
  split; simpl.
  - intros cs c. induction cs as [|x cs IH]; simpl.
    + by rewrite String.eqb_refl.
    + destruct (String.eqb (cond_Type x) (cond_Type c)) eqn:E; simpl.
      * by rewrite String.eqb_refl.
      * by rewrite E.
  - intros cs c t Ht. induction cs as [|x cs IH]; simpl.
    + by rewrite (proj2 (String.eqb_neq _ _)) by congruence.
    + destruct (String.eqb (cond_Type x) (cond_Type c)) eqn:E; simpl.
      * apply String.eqb_eq in E. rewrite E.
        by rewrite (proj2 (String.eqb_neq _ _)) by congruence.
      * by rewrite IH.
  - done.
Qed.
End ListConditions.
