(* ===== verification/Types.v ===== *)
(** * api/v1alpha1: the RemediationJob resource
    Phases, spec, status and the whole object of
    src/api/v1alpha1/remediationjob_types.go, with the field updates the
    controllers perform. *)
From stdpp Require Import base list strings gmap.
From Stdlib Require Import ZArith.
From S2P Require Import Prelude K8s.
Open Scope Z_scope.
Open Scope string_scope.

(** [RemediationJobPhase]; [PhaseNone] is the blank phase of a fresh object. The
    CRD's enum validation admits no other string. *)
Inductive RemediationJobPhase :=
| PhaseNone
| PhasePending
| PhaseDispatched
| PhaseRunning
| PhaseSucceeded
| PhaseFailed
| PhaseCancelled
| PhasePermanentlyFailed
| PhaseSuppressed.

#[global] Instance phase_eq_dec : EqDecision RemediationJobPhase.
Proof. solve_decision. Defined.

Definition phase_eqb (a b : RemediationJobPhase) : bool := bool_decide (a = b).

Definition phase_string (p : RemediationJobPhase) : string :=
  match p with
  | PhaseNone => ""
  | PhasePending => "Pending"
  | PhaseDispatched => "Dispatched"
  | PhaseRunning => "Running"
  | PhaseSucceeded => "Succeeded"
  | PhaseFailed => "Failed"
  | PhaseCancelled => "Cancelled"
  | PhasePermanentlyFailed => "PermanentlyFailed"
  | PhaseSuppressed => "Suppressed"
  end.

Definition ConditionJobDispatched := "JobDispatched".
Definition ConditionJobComplete := "JobComplete".
Definition ConditionJobFailed := "JobFailed".
Definition ConditionPermanentlyFailed := "PermanentlyFailed".
Definition ConditionCorrelationSuppressed := "CorrelationSuppressed".
Definition ConditionPRRecorded := "PRRecorded".

Record ResultRef := { rr_Name : string; rr_Namespace : string }.

Record FindingSpec := {
  fs_Kind : string;
  fs_Name : string;
  fs_Namespace : string;
  fs_ParentObject : string;
  fs_Errors : string;
  fs_Details : string;
  fs_ChainDepth : Z }.

Record RemediationJobSpec := {
  spec_SourceResultRef : ResultRef;
  spec_Fingerprint : string;
  spec_SourceType : string;
  spec_SinkType : string;
  spec_Finding : FindingSpec;
  spec_GitOpsRepo : string;
  spec_GitOpsManifestRoot : string;
  spec_AgentImage : string;
  spec_AgentSA : string;
  spec_MaxRetries : Z;
  spec_Severity : string }.

Record SinkRef := {
  sink_Type : string;
  sink_URL : string;
  sink_Number : Z;
  sink_Repo : string }.

Record RemediationJobStatus := {
  st_Phase : RemediationJobPhase;
  st_JobRef : string;
  st_PRRef : string;
  st_DispatchedAt : option Z;
  st_CompletedAt : option Z;
  st_Message : string;
  st_RetryCount : Z;
  st_Conditions : list Condition;
  st_CorrelationGroupID : string;
  st_SinkRef : SinkRef;
  st_PRMerged : bool;
  st_PRMergedAt : option Z }.

Record RemediationJob := {
  rj_Meta : ObjectMeta;
  rj_Spec : RemediationJobSpec;
  rj_Status : RemediationJobStatus }.

#[global] Instance FindingSpec_eq_dec : EqDecision FindingSpec.
Proof. solve_decision. Defined.

(** ** Accessors used throughout *)
Definition rj_Name (r : RemediationJob) := meta_Name (rj_Meta r).
Definition rj_Namespace (r : RemediationJob) := meta_Namespace (rj_Meta r).
Definition rj_UID (r : RemediationJob) := meta_UID (rj_Meta r).
Definition rj_Labels (r : RemediationJob) := meta_Labels (rj_Meta r).
Definition rj_Annotations (r : RemediationJob) := meta_Annotations (rj_Meta r).
Definition rj_Created (r : RemediationJob) := meta_CreationTimestamp (rj_Meta r).
Definition rj_Finding (r : RemediationJob) := spec_Finding (rj_Spec r).
Definition rj_Phase (r : RemediationJob) := st_Phase (rj_Status r).
Definition rj_URL (r : RemediationJob) := sink_URL (st_SinkRef (rj_Status r)).

(** ** Field updates of the status and of the labels *)
Definition empty_SinkRef : SinkRef :=
  {| sink_Type := ""; sink_URL := ""; sink_Number := 0; sink_Repo := "" |}.

Definition empty_Status : RemediationJobStatus :=
  {| st_Phase := PhaseNone; st_JobRef := ""; st_PRRef := ""; st_DispatchedAt := None;
     st_CompletedAt := None; st_Message := ""; st_RetryCount := 0; st_Conditions := [];
     st_CorrelationGroupID := ""; st_SinkRef := empty_SinkRef; st_PRMerged := false;
     st_PRMergedAt := None |}.

Definition upd (f : RemediationJobStatus -> RemediationJobStatus) (r : RemediationJob) :
    RemediationJob :=
  {| rj_Meta := rj_Meta r; rj_Spec := rj_Spec r; rj_Status := f (rj_Status r) |}.

Definition st_with_Phase (p : RemediationJobPhase) (s : RemediationJobStatus) :=
  {| st_Phase := p; st_JobRef := st_JobRef s; st_PRRef := st_PRRef s;
     st_DispatchedAt := st_DispatchedAt s; st_CompletedAt := st_CompletedAt s;
     st_Message := st_Message s; st_RetryCount := st_RetryCount s;
     st_Conditions := st_Conditions s; st_CorrelationGroupID := st_CorrelationGroupID s;
     st_SinkRef := st_SinkRef s; st_PRMerged := st_PRMerged s;
     st_PRMergedAt := st_PRMergedAt s |}.

Definition st_with_JobRef (n : string) (s : RemediationJobStatus) :=
  {| st_Phase := st_Phase s; st_JobRef := n; st_PRRef := st_PRRef s;
     st_DispatchedAt := st_DispatchedAt s; st_CompletedAt := st_CompletedAt s;
     st_Message := st_Message s; st_RetryCount := st_RetryCount s;
     st_Conditions := st_Conditions s; st_CorrelationGroupID := st_CorrelationGroupID s;
     st_SinkRef := st_SinkRef s; st_PRMerged := st_PRMerged s;
     st_PRMergedAt := st_PRMergedAt s |}.

Definition st_with_DispatchedAt (t : option Z) (s : RemediationJobStatus) :=
  {| st_Phase := st_Phase s; st_JobRef := st_JobRef s; st_PRRef := st_PRRef s;
     st_DispatchedAt := t; st_CompletedAt := st_CompletedAt s;
     st_Message := st_Message s; st_RetryCount := st_RetryCount s;
     st_Conditions := st_Conditions s; st_CorrelationGroupID := st_CorrelationGroupID s;
     st_SinkRef := st_SinkRef s; st_PRMerged := st_PRMerged s;
     st_PRMergedAt := st_PRMergedAt s |}.

Definition st_with_CompletedAt (t : option Z) (s : RemediationJobStatus) :=
  {| st_Phase := st_Phase s; st_JobRef := st_JobRef s; st_PRRef := st_PRRef s;
     st_DispatchedAt := st_DispatchedAt s; st_CompletedAt := t;
     st_Message := st_Message s; st_RetryCount := st_RetryCount s;
     st_Conditions := st_Conditions s; st_CorrelationGroupID := st_CorrelationGroupID s;
     st_SinkRef := st_SinkRef s; st_PRMerged := st_PRMerged s;
     st_PRMergedAt := st_PRMergedAt s |}.

Definition st_with_Message (m : string) (s : RemediationJobStatus) :=
  {| st_Phase := st_Phase s; st_JobRef := st_JobRef s; st_PRRef := st_PRRef s;
     st_DispatchedAt := st_DispatchedAt s; st_CompletedAt := st_CompletedAt s;
     st_Message := m; st_RetryCount := st_RetryCount s;
     st_Conditions := st_Conditions s; st_CorrelationGroupID := st_CorrelationGroupID s;
     st_SinkRef := st_SinkRef s; st_PRMerged := st_PRMerged s;
     st_PRMergedAt := st_PRMergedAt s |}.

Definition st_with_RetryCount (n : Z) (s : RemediationJobStatus) :=
  {| st_Phase := st_Phase s; st_JobRef := st_JobRef s; st_PRRef := st_PRRef s;
     st_DispatchedAt := st_DispatchedAt s; st_CompletedAt := st_CompletedAt s;
     st_Message := st_Message s; st_RetryCount := n;
     st_Conditions := st_Conditions s; st_CorrelationGroupID := st_CorrelationGroupID s;
     st_SinkRef := st_SinkRef s; st_PRMerged := st_PRMerged s;
     st_PRMergedAt := st_PRMergedAt s |}.

Definition st_with_Conditions (cs : list Condition) (s : RemediationJobStatus) :=
  {| st_Phase := st_Phase s; st_JobRef := st_JobRef s; st_PRRef := st_PRRef s;
     st_DispatchedAt := st_DispatchedAt s; st_CompletedAt := st_CompletedAt s;
     st_Message := st_Message s; st_RetryCount := st_RetryCount s;
     st_Conditions := cs; st_CorrelationGroupID := st_CorrelationGroupID s;
     st_SinkRef := st_SinkRef s; st_PRMerged := st_PRMerged s;
     st_PRMergedAt := st_PRMergedAt s |}.

Definition st_with_GroupID (g : string) (s : RemediationJobStatus) :=
  {| st_Phase := st_Phase s; st_JobRef := st_JobRef s; st_PRRef := st_PRRef s;
     st_DispatchedAt := st_DispatchedAt s; st_CompletedAt := st_CompletedAt s;
     st_Message := st_Message s; st_RetryCount := st_RetryCount s;
     st_Conditions := st_Conditions s; st_CorrelationGroupID := g;
     st_SinkRef := st_SinkRef s; st_PRMerged := st_PRMerged s;
     st_PRMergedAt := st_PRMergedAt s |}.

Definition st_with_Merged (b : bool) (t : option Z) (s : RemediationJobStatus) :=
  {| st_Phase := st_Phase s; st_JobRef := st_JobRef s; st_PRRef := st_PRRef s;
     st_DispatchedAt := st_DispatchedAt s; st_CompletedAt := st_CompletedAt s;
     st_Message := st_Message s; st_RetryCount := st_RetryCount s;
     st_Conditions := st_Conditions s; st_CorrelationGroupID := st_CorrelationGroupID s;
     st_SinkRef := st_SinkRef s; st_PRMerged := b; st_PRMergedAt := t |}.

(** [rjob.Status.F = v] on the whole object. *)
Definition set_Phase p := upd (st_with_Phase p).
Definition set_JobRef n := upd (st_with_JobRef n).
Definition set_DispatchedAt t := upd (st_with_DispatchedAt t).
Definition set_CompletedAt t := upd (st_with_CompletedAt t).
Definition set_Message m := upd (st_with_Message m).
Definition set_RetryCount n := upd (st_with_RetryCount n).
Definition set_GroupID g := upd (st_with_GroupID g).
Definition set_Merged b t := upd (st_with_Merged b t).

(** [apimeta.SetStatusCondition(&rjob.Status.Conditions, c)]. *)
Definition set_Condition `{ConditionLib} (c : Condition) :=
  upd (fun s => st_with_Conditions (SetStatusCondition (st_Conditions s) c) s).

(** [rjob.Labels[k] = v], the map being allocated when it is nil. *)
Definition set_Label (k v : string) (r : RemediationJob) : RemediationJob :=
  let m := rj_Meta r in
  {| rj_Meta := {| meta_Name := meta_Name m; meta_Namespace := meta_Namespace m;
                   meta_UID := meta_UID m; meta_Labels := <[k := v]> (meta_Labels m);
                   meta_Annotations := meta_Annotations m;
                   meta_CreationTimestamp := meta_CreationTimestamp m;
                   meta_Generation := meta_Generation m;
                   meta_OwnerReferences := meta_OwnerReferences m |};
     rj_Spec := rj_Spec r; rj_Status := rj_Status r |}.

(** The phases in which an investigation is over. *)
Definition terminal (p : RemediationJobPhase) : bool :=
  match p with
  | PhaseSucceeded | PhaseFailed | PhaseCancelled | PhasePermanentlyFailed
  | PhaseSuppressed => true
  | _ => false
  end.
