(* ===== verification/Effects.v ===== *)
(** * The environment of the watcher
    Every interaction of the repository's code with something outside it: the
    API server (through controller-runtime's client), the clock, the random
    source, GitHub (through net/http and golang-jwt), the Prometheus registry,
    the event recorder and the cancellation of the context.  [NewRequest] is
    net/http's, which refuses a URL it cannot parse.  An answer is arbitrary: an
    error, or an object.  A patch or a create answers with the object as the
    server stored it, which is what the client decodes into the pointer it was
    given. *)
From stdpp Require Import base list strings gmap.
From Stdlib Require Import ZArith.
From S2P Require Import Prelude Prog K8s Types.
Import GoErr.
Open Scope Z_scope.

(** Counters and gauges of internal/metrics. *)
Inductive metric :=
| FindingsDispatched (kind severity : string)
| FindingsSuppressed (reason : string)
| AgentJobsActive (n : Z)
| AgentJobsPending (n : Z)
| AgentJobDuration (fingerprint outcome : string) (nanoseconds : Z)
| PRsOpened
| PRsClosed
| CircuitBreakerActivations.

Inductive eventtype := EventNormal | EventWarning.

(** The request of an HTTP exchange and its response. *)
Record http_request := {
  rq_Method : string;
  rq_URL : string;
  rq_Headers : list (string * string);
  rq_Body : string }.
Record http_response := { rs_Status : Z; rs_Body : string }.

Inductive req : Type :=
| Now
| RandRead (n : nat)
(* RemediationJob *)
| GetRJob (ns name : string)
| ListRJobs (ns : string) (labels : list (string * string))
| CreateRJob (obj : RemediationJob)
| StatusPatchRJob (obj base : RemediationJob)
| PatchRJob (obj base : RemediationJob)
| DeleteRJob (obj : RemediationJob)
(* batch/v1 Job *)
| GetJob (ns name : string)
| ListJobs (ns : string) (labels : list (string * string))
| CreateJob (obj : Job)
(* other objects *)
| GetConfigMap (ns name : string)
| DeleteConfigMap (obj : ConfigMap)
| GetPod (ns name : string)
| GetNamespace (name : string)
| GetSecret (ns name : string)
| GetOwner (kind ns name : string)
| GetObject (kind ns name : string)
| ListEvents (ns : string)
(* GitHub *)
| SignJWT (issuer : string) (issuedAt expiresAt : Z)
| NewRequest (method url : string)
| HTTPDo (r : http_request)
(* the context of a reconcile *)
| CtxErr
(* observability *)
| Metric (m : metric)
| RecordEvent (t : eventtype) (reason message : string).

Definition answer (e : req) : Type :=
  match e with
  | Now => Z
  | RandRead n => option (list Byte.byte)
  | GetRJob _ _ => res RemediationJob
  | ListRJobs _ _ => res (list RemediationJob)
  | CreateRJob _ => res RemediationJob
  | StatusPatchRJob _ _ => res RemediationJob
  | PatchRJob _ _ => res RemediationJob
  | DeleteRJob _ => res unit
  | GetJob _ _ => res Job
  | ListJobs _ _ => res (list Job)
  | CreateJob _ => res Job
  | GetConfigMap _ _ => res ConfigMap
  | DeleteConfigMap _ => res unit
  | GetPod _ _ => res Pod
  | GetNamespace _ => res NamespaceObj
  | GetSecret _ _ => res Secret
  | GetOwner _ _ _ => res (list OwnerReference)
  | GetObject _ _ _ => res Object
  | ListEvents _ => res (list EventObj)
  | SignJWT _ _ _ => res string
  | NewRequest _ _ => res unit
  | HTTPDo _ => res http_response
  | CtxErr => option error
  | Metric _ => unit
  | RecordEvent _ _ _ => unit
  end.

Abbreviation io := (prog answer).
Abbreviation trace := (list (event answer)).

(** [ctrl.Result]. *)
Record Result := { Requeue : bool; RequeueAfter : Z }.
Definition no_requeue : Result := {| Requeue := false; RequeueAfter := 0 |}.
Definition requeue_now : Result := {| Requeue := true; RequeueAfter := 0 |}.
Definition requeue_after (d : Z) : Result := {| Requeue := false; RequeueAfter := d |}.

(** What a reconcile returns. *)
Abbreviation reconciled := (res Result).

Open Scope go_scope.
Definition now : io Z := call Now.
Definition metric_inc (m : metric) : io unit := call (Metric m).

(** The writes a reconciler can make to the cluster. *)
Definition writes (e : req) : bool :=
  match e with
  | CreateRJob _ | StatusPatchRJob _ _ | PatchRJob _ _ | DeleteRJob _
  | CreateJob _ | DeleteConfigMap _ => true
  | _ => false
  end.

Definition only_reads (e : req) : Prop := writes e = false.

Definition creates_job (e : req) : bool :=
  match e with CreateJob _ => true | _ => false end.

Definition creates_rjob (e : req) : bool :=
  match e with CreateRJob _ => true | _ => false end.

(** The clock readings of a trace, in order. *)
Definition clock_of (ev : event answer) : option Z :=
  match ev with
  | Event e r =>
      match e return answer e -> option Z with
      | Now => fun t => Some t
      | _ => fun _ => None
      end r
  end.
Definition clocks (tr : trace) : list Z := omap clock_of tr.

Lemma clocks_app tr1 tr2 : clocks (tr1 ++ tr2) = (clocks tr1 ++ clocks tr2)%list.
Proof. apply omap_app. Qed.

(** An environment that answers every cluster and network request with
    [NotFound], reads the clock as [t] and has no randomness: a base for
    evaluating programs on concrete inputs. *)
Definition offline (t : Z) : handler answer := fun e =>
  match e return answer e with
  | Now => t
  | RandRead _ => None
  | Metric _ => tt
  | RecordEvent _ _ _ => tt
  | GetRJob _ _ | CreateRJob _ | StatusPatchRJob _ _ | PatchRJob _ _ => Err (EApi NotFound)
  | ListRJobs _ _ => Err (EApi NotFound)
  | DeleteRJob _ | DeleteConfigMap _ => Err (EApi NotFound)
  | GetJob _ _ | CreateJob _ => Err (EApi NotFound)
  | ListJobs _ _ => Err (EApi NotFound)
  | GetConfigMap _ _ => Err (EApi NotFound)
  | GetPod _ _ => Err (EApi NotFound)
  | GetNamespace _ => Err (EApi NotFound)
  | GetSecret _ _ => Err (EApi NotFound)
  | GetOwner _ _ _ => Err (EApi NotFound)
  | GetObject _ _ _ => Err (EApi NotFound)
  | ListEvents _ => Err (EApi NotFound)
  | SignJWT _ _ _ => Err (EApi NotFound)
  | NewRequest _ _ => Ok tt
  | HTTPDo _ => Err (EApi NotFound)
  | CtxErr => None
  end.
