(* ===== verification/Fingerprint.v ===== *)
(** * FindingFingerprint (src/internal/domain/provider.go)
    The deduplication key of a finding: SHA-256 of a JSON payload with the
    namespace, the kind, the parent and the sorted error texts. *)
From stdpp Require Import base list strings sorting.
From Stdlib Require Import ZArith Lia Ascii.
From S2P Require Import Prelude Utf8 Json Sha256 Domain.
Import GoErr GoStr.
Open Scope list_scope.
Open Scope string_scope.

Definition key (k : string) : string := dq ++ k ++ dq ++ ":".

(** The payload as [Encoder.Encode] writes it, newline included. *)
Definition encode_payload (namespace kind parentObject : string) (errorTexts : list string) :
    string :=
  "{" ++ key "namespace" ++ enc_string false namespace ++ ","
      ++ key "kind" ++ enc_string false kind ++ ","
      ++ key "parentObject" ++ enc_string false parentObject ++ ","
      ++ key "errorTexts" ++ "[" ++ Join (map (enc_string false) errorTexts) "," ++ "]}"
      ++ String "010" EmptyString.

Definition finding_texts (f : Finding) : option (list string) :=
  if String.eqb (f_Errors f) "" then Some [] else UnmarshalEntries (f_Errors f).

Definition payload_of (f : Finding) (texts : list string) : string :=
  encode_payload (f_Namespace f) (f_Kind f) (f_ParentObject f) (sort_strings texts).

Definition FindingFingerprint (f : Finding) : res string :=
  match finding_texts f with
  | None => Err (EMsg "FindingFingerprint: malformed errors JSON")
  | Some texts => Ok (sha256_hex (payload_of f texts))
  end.

(** ** Properties *)
(** A fingerprint is 64 lower-case hexadecimal digits. *)
Theorem fingerprint_shape f fp :
  FindingFingerprint f = Ok fp -> String.length fp = 64%nat /\ all_hex fp = true.
Proof.
  unfold FindingFingerprint. destruct (finding_texts f); [|done]. intros [= <-].
  split; [apply sha256_hex_length|apply sha256_hex_all].
Qed.

Lemma fingerprint_shape_witness :
  exists fp, String.length fp = 64%nat /\ all_hex fp = true.
Proof.
  eexists. eapply (fingerprint_shape
    {| f_Kind := "Pod"; f_Name := "p"; f_Namespace := "ns"; f_ParentObject := "Deployment/d";
       f_Errors := ""; f_Details := ""; f_Severity := "high"; f_ChainDepth := 0%Z;
       f_NodeName := "" |}).
  reflexivity.
Defined.

(** A finding whose errors were serialised by a provider. *)
Definition finding_of (kind name ns parent : string) (texts : list string) (sev : string) : Finding :=
  {| f_Kind := kind; f_Name := name; f_Namespace := ns; f_ParentObject := parent;
     f_Errors := MarshalEntries texts; f_Details := ""; f_Severity := sev; f_ChainDepth := 0;
     f_NodeName := "" |}.

Lemma marshal_nonempty texts : MarshalEntries texts <> "".
Proof. by destruct texts. Qed.

Lemma finding_texts_marshal f texts :
  f_Errors f = MarshalEntries texts -> finding_texts f = Some (map sanitize texts).
Proof.
  intros H. unfold finding_texts. rewrite H, marshal_unmarshal_entries.
  by rewrite (proj2 (String.eqb_neq _ _) (marshal_nonempty texts)).
Qed.

(** Two findings of the same namespace, kind and parent whose error texts are
    permutations of each other have the same fingerprint. *)
Theorem fingerprint_ignores_order f g texts texts' :
  f_Errors f = MarshalEntries texts -> f_Errors g = MarshalEntries texts' -> texts ≡ₚ texts' ->
  f_Namespace f = f_Namespace g -> f_Kind f = f_Kind g -> f_ParentObject f = f_ParentObject g ->
  exists fp, FindingFingerprint f = Ok fp /\ FindingFingerprint g = Ok fp.
Proof.
  intros Hf Hg Hp Hns Hk Hpar. unfold FindingFingerprint, payload_of.
  rewrite (finding_texts_marshal f texts Hf), (finding_texts_marshal g texts' Hg).
  rewrite Hns, Hk, Hpar, (sort_strings_perm (map sanitize texts) (map sanitize texts')).
  - eauto.
  - by apply Permutation_map.
Qed.

Lemma fingerprint_ignores_order_witness :
  let f ts := finding_of "Pod" "p" "ns" "Deployment/d" ts "high" in
  exists fp, FindingFingerprint (f ["a"; "b"]) = Ok fp /\ FindingFingerprint (f ["b"; "a"]) = Ok fp.
Proof.
  intros f. apply (fingerprint_ignores_order _ _ ["a"; "b"] ["b"; "a"]); try reflexivity.
  apply perm_swap.
Defined.

Lemma append_inj_l s t1 t2 : s ++ t1 = s ++ t2 -> t1 = t2.
Proof. induction s as [|c s IH]; simpl; [done|]. intros [= H]. auto. Qed.

Lemma enc_string_inj s1 s2 t1 t2 :
  enc_string false s1 ++ t1 = enc_string false s2 ++ t2 ->
  sanitize s1 = sanitize s2 /\ t1 = t2.
Proof.
  unfold enc_string. rewrite !append_assoc. intros H%append_inj_l.
  apply (f_equal decode), (f_equal p_str) in H. rewrite !p_str_enc_string in H.
  injection H as Hs Ht. split; [done|].
  by rewrite <- (undecode_decode t1), Ht, undecode_decode.
Qed.

Lemma join_cons x l rest :
  Join (x :: l) "," ++ "]}" ++ rest
  = x ++ (match l with [] => "]}" ++ rest | _ => "," ++ Join l "," ++ "]}" ++ rest end).
Proof. destruct l; simpl Join; by rewrite ?append_assoc. Qed.

Lemma join_inj l1 l2 rest :
  Join (map (enc_string false) l1) "," ++ "]}" ++ rest
  = Join (map (enc_string false) l2) "," ++ "]}" ++ rest ->
  map sanitize l1 = map sanitize l2.
Proof.
  revert l2. induction l1 as [|x l1 IH]; intros [|y l2] H; [done|..].
  - cbn [map] in H. rewrite join_cons in H. discriminate.
  - cbn [map] in H. rewrite join_cons in H. discriminate.
  - cbn [map] in *. rewrite !join_cons in H. apply enc_string_inj in H as [Hs Ht].
    rewrite Hs. f_equal. apply IH.
    destruct l1 as [|x' l1], l2 as [|y' l2]; cbn [map] in *; [done|discriminate..|].
    by apply append_inj_l in Ht.
Qed.

(** The payload determines what it is made of. *)
Lemma encode_payload_inj ns k p ts ns' k' p' ts' :
  encode_payload ns k p ts = encode_payload ns' k' p' ts' ->
  sanitize ns = sanitize ns' /\ sanitize k = sanitize k' /\ sanitize p = sanitize p' /\
  map sanitize ts = map sanitize ts'.
Proof.
  unfold encode_payload. intros H%append_inj_l%append_inj_l.
  apply enc_string_inj in H as [Hns H%append_inj_l%append_inj_l].
  apply enc_string_inj in H as [Hk H%append_inj_l%append_inj_l].
  apply enc_string_inj in H as [Hp H%append_inj_l%append_inj_l%append_inj_l].
  repeat split; try done. eapply join_inj, H.
Qed.

(** *** Cleaned text is clean *)
Lemma concat_cons x l : String.concat "" (x :: l) = x ++ String.concat "" l.
Proof. destruct l; cbn; [by rewrite append_nil_r|done]. Qed.

Lemma sanitize_clean r t :
  invalid r = true \/ good_rune r -> sanitize (clean r ++ t) = clean r ++ sanitize t.
Proof.
  intros Hr. unfold sanitize, clean at 2 3. destruct (invalid r) eqn:E.
  { change (decode (replacement ++ t)) with (Rune 65533 replacement :: decode t). cbn [map].
    by rewrite concat_cons. }
  destruct Hr as [?|[_ Hdec]]; [congruence|]. rewrite Hdec. cbn [map].
  rewrite concat_cons. unfold clean at 1. by rewrite E.
Qed.

Lemma sanitize_idem s : sanitize (sanitize s) = sanitize s.
Proof.
  unfold sanitize at 2 3. pose proof (decode_good s) as H. induction H as [|r l Hr _ IH]; [done|].
  cbn [map]. rewrite concat_cons, sanitize_clean, IH by done. done.
Qed.

Lemma sort_sanitized l : map sanitize (sort_strings (map sanitize l)) = sort_strings (map sanitize l).
Proof.
  assert (Forall (fun s => sanitize s = s) (sort_strings (map sanitize l))) as H.
  { unfold sort_strings. rewrite merge_sort_Permutation. apply Forall_map, Forall_true. intros s. apply sanitize_idem. }
  induction H as [|x k Hx _ IH]; [done|]. cbn [map]. by rewrite Hx, IH.
Qed.

(** Names that are valid UTF-8, as those of Kubernetes objects are. *)
Record clean_names (f : Finding) : Prop := {
  cn_namespace : sanitize (f_Namespace f) = f_Namespace f;
  cn_kind : sanitize (f_Kind f) = f_Kind f;
  cn_parent : sanitize (f_ParentObject f) = f_ParentObject f }.

(** Two findings about the same problem: the same namespace, kind and parent, and the
    same error texts in any order. *)
Record same_problem (f g : Finding) (texts texts' : list string) : Prop := {
  sp_namespace : f_Namespace f = f_Namespace g;
  sp_kind : f_Kind f = f_Kind g;
  sp_parent : f_ParentObject f = f_ParentObject g;
  sp_texts : map sanitize texts ≡ₚ map sanitize texts' }.

(** C38: For findings with serialised error texts and valid UTF-8 names,
    FindingFingerprint is the SHA-256 of a payload, and two payloads are equal exactly
    when namespace, kind and parent object are equal and the error texts are the same
    up to their order and the replacement of invalid UTF-8; name, severity and details
    make no difference. *)
Theorem payload_identifies_the_problem f g texts texts' :
  f_Errors f = MarshalEntries texts -> f_Errors g = MarshalEntries texts' ->
  clean_names f -> clean_names g ->
  FindingFingerprint f = Ok (sha256_hex (payload_of f (map sanitize texts))) /\
  FindingFingerprint g = Ok (sha256_hex (payload_of g (map sanitize texts'))) /\
  (payload_of f (map sanitize texts) = payload_of g (map sanitize texts') <-> same_problem f g texts texts').
Proof.
  intros Hf Hg [Fn Fk Fp] [Gn Gk Gp]. unfold FindingFingerprint.
  rewrite (finding_texts_marshal f texts Hf), (finding_texts_marshal g texts' Hg). split_and!; [done..|].
  unfold payload_of. split.
  - intros (Hn & Hk & Hp & Ht)%encode_payload_inj. rewrite !sort_sanitized in Ht. split; [congruence..|].
    rewrite <- (merge_sort_Permutation String.le (map sanitize texts)),
      <- (merge_sort_Permutation String.le (map sanitize texts')). unfold sort_strings in Ht. by rewrite Ht.
  - intros [-> -> -> Ht]. by rewrite (sort_strings_perm _ _ Ht).
Qed.

(** Another name, severity and order of the texts make no difference; another kind does. *)
Lemma payload_identifies_the_problem_witness :
  let f := finding_of "Pod" "web-1" "ns" "Deployment/web" ["a"; "b"] "high" in
  let g := finding_of "Pod" "web-2" "ns" "Deployment/web" ["b"; "a"] "low" in
  let h := finding_of "Deployment" "web" "ns" "Deployment/web" ["a"; "b"] "high" in
  payload_of f (map sanitize ["a"; "b"]) = payload_of g (map sanitize ["b"; "a"]) /\
  payload_of f (map sanitize ["a"; "b"]) <> payload_of h (map sanitize ["a"; "b"]).
Proof.
  intros f g h. split.
  - apply (payload_identifies_the_problem f g); try reflexivity; [split; reflexivity..|].
    split; [reflexivity..|]. apply perm_swap.
  - intros [_ Hk _ _]%(payload_identifies_the_problem f h ["a"; "b"] ["a"; "b"]); [discriminate Hk|reflexivity..| |];
      split; reflexivity.
Defined.
