(* ===== verification/BoundedMap.v ===== *)
(** * BoundedMap (src/internal/provider/bounded_map.go)
    The first-seen timestamps of fingerprints: a map with a size limit, eviction
    of the oldest entry and TTL clean-up.  Methods run under the map's mutex, so
    each is one atomic step; the clock is read through the environment exactly
    where the code calls [time.Now] or [time.Since]. *)
From stdpp Require Import base list strings gmap fin_maps.
From Stdlib Require Import ZArith Lia.
From S2P Require Import Prelude Prog K8s Types Effects.
Import GoTime.
Open Scope Z_scope.
Open Scope go_scope.

Record BoundedMap := {
  bm_data : gmap string Z;
  bm_maxSize : Z;
  bm_ttl : Z;
  bm_lastCleanup : Z;
  bm_cleanupInterval : Z }.

Definition with_data (d : gmap string Z) (m : BoundedMap) : BoundedMap :=
  {| bm_data := d; bm_maxSize := bm_maxSize m; bm_ttl := bm_ttl m;
     bm_lastCleanup := bm_lastCleanup m; bm_cleanupInterval := bm_cleanupInterval m |}.
Definition with_lastCleanup (t : Z) (m : BoundedMap) : BoundedMap :=
  {| bm_data := bm_data m; bm_maxSize := bm_maxSize m; bm_ttl := bm_ttl m;
     bm_lastCleanup := t; bm_cleanupInterval := bm_cleanupInterval m |}.

Definition NewBoundedMap (maxSize ttl cleanupInterval : Z) : io BoundedMap :=
  let cleanupInterval :=
    if cleanupInterval <=? 0 then (if 0 <? ttl then Z.quot ttl 2 else 5 * minute)
    else cleanupInterval in
  t <- now ;;
  Ret {| bm_data := ∅; bm_maxSize := maxSize; bm_ttl := ttl; bm_lastCleanup := t;
         bm_cleanupInterval := cleanupInterval |}.

Definition Len (m : BoundedMap) : Z := Z.of_nat (size (bm_data m)).

Definition needsCleanup (m : BoundedMap) : io bool :=
  if bm_ttl m <=? 0 then Ret false
  else t <- now ;; Ret (bm_cleanupInterval m <? Sub t (bm_lastCleanup m)).

Definition expire (cutoff : Z) (d : gmap string Z) : gmap string Z :=
  filter (fun kv => ~ (kv.2 < cutoff)) d.

Definition cleanupIfNeeded (m : BoundedMap) : io BoundedMap :=
  b <- needsCleanup m ;;
  if negb b then Ret m
  else
    m1 <- (if 0 <? bm_ttl m
           then t <- now ;; Ret (with_data (expire (Add t (- bm_ttl m)) (bm_data m)) m)
           else Ret m) ;;
    t <- now ;;
    Ret (with_lastCleanup t m1).

(** The scan for the oldest entry, over the entries in iteration order. *)
Fixpoint oldest (acc : option (string * Z)) (l : list (string * Z)) : option (string * Z) :=
  match l with
  | [] => acc
  | (k, v) :: l' =>
      match acc with
      | None => oldest (Some (k, v)) l'
      | Some (_, t) => if Before v t then oldest (Some (k, v)) l' else oldest acc l'
      end
  end.

Section Order.
(** Go leaves the iteration order of a map unspecified: [order] is the order of
    one iteration, any permutation of the entries. *)
Context (order : gmap string Z -> list (string * Z)).

Definition SetWithTime (key : string) (timestamp : Z) (m0 : BoundedMap) : io (BoundedMap * bool) :=
  m <- cleanupIfNeeded m0 ;;
  if (0 <? bm_maxSize m) && (bm_maxSize m <=? Len m) then
    match bm_data m !! key with
    | Some _ => Ret (with_data (<[key := timestamp]> (bm_data m)) m, true)
    | None =>
        match oldest None (order (bm_data m)) with
        | Some (oldestKey, _) =>
            Ret (with_data (<[key := timestamp]> (delete oldestKey (bm_data m))) m, true)
        | None => Ret (m, false)
        end
    end
  else Ret (with_data (<[key := timestamp]> (bm_data m)) m, true).

Definition Set_ (key : string) (m : BoundedMap) : io (BoundedMap * bool) :=
  t <- now ;; SetWithTime key t m.

Definition Keys (m : BoundedMap) : list string := map fst (order (bm_data m)).
End Order.

Definition Get (key : string) (m : BoundedMap) : io (option Z) :=
  b <- needsCleanup m ;;
  if b && (0 <? bm_ttl m) then
    match bm_data m !! key with
    | Some ts => t <- now ;; Ret (if bm_ttl m <? Sub t ts then None else Some ts)
    | None => Ret None
    end
  else Ret (bm_data m !! key).

Definition Delete (key : string) (m : BoundedMap) : BoundedMap :=
  with_data (delete key (bm_data m)) m.

Definition Clear (m : BoundedMap) : io BoundedMap :=
  t <- now ;; Ret (with_lastCleanup t (with_data ∅ m)).

Definition Cleanup (m : BoundedMap) : io BoundedMap := cleanupIfNeeded m.

Definition Copy (m : BoundedMap) : gmap string Z := bm_data m.

Definition SetForTest (key : string) (timestamp : Z) (m : BoundedMap) : io BoundedMap :=
  t <- now ;; Ret (with_lastCleanup t (with_data (<[key := timestamp]> (bm_data m)) m)).

(** ** Properties *)
Definition bounded (m : BoundedMap) : Prop := 0 < bm_maxSize m -> Len m <= bm_maxSize m.

Lemma expire_size c (d : gmap string Z) : (size (expire c d) <= size d)%nat.
Proof. apply map_size_filter. Qed.

Lemma cleanup_yields (m : BoundedMap) :
  yields (fun m' => bm_maxSize m' = bm_maxSize m /\ bm_ttl m' = bm_ttl m /\
                    (bm_data m' = bm_data m \/ exists c, bm_data m' = expire c (bm_data m)))
    (cleanupIfNeeded m).
Proof.
  unfold cleanupIfNeeded, needsCleanup.
  unfold yields. destruct (bm_ttl m <=? 0); simpl; [auto|]. intros t.
  destruct (bm_cleanupInterval m <? _); simpl; [|auto].
  destruct (0 <? bm_ttl m); simpl; [intros t2 t3; eauto|intros t3; auto].
Qed.

Lemma expire_lookup c (d : gmap string Z) k v :
  expire c d !! k = Some v <-> d !! k = Some v /\ c <= v.
Proof. unfold expire. rewrite map_lookup_filter_Some. simpl. intuition lia. Qed.

(** The entries that survive a clean-up are entries of the map, and an entry
    that does not survive is older than every survivor. *)
Definition cleaned (d d' : gmap string Z) : Prop :=
  d' ⊆ d /\
  forall k v k' v', d !! k = Some v -> d' !! k = None -> d' !! k' = Some v' -> v <= v'.

Lemma cleaned_of d d' : d' = d \/ (exists c, d' = expire c d) -> cleaned d d'.
Proof.
  intros [->|[c ->]]; [split; [done|intros; congruence]|].
  split; [apply map_filter_subseteq|]. intros k v k' v' Hk Hn Hk'.
  apply expire_lookup in Hk' as [_ Hk'].
  destruct (decide (c <= v)); [|lia]. exfalso.
  assert (expire c d !! k = Some v) by (by apply expire_lookup). congruence.
Qed.

Lemma oldest_Some acc l :
  (acc = None -> l <> []) -> exists k v, oldest acc l = Some (k, v).
Proof.
  revert acc. induction l as [|[k v] l IH]; intros acc H; simpl.
  - destruct acc as [[k v]|]; [eauto|]. by destruct H.
  - destruct acc as [[k' t]|]; [destruct (Before v t)|]; by apply IH.
Qed.

Lemma oldest_min acc l k v :
  oldest acc l = Some (k, v) ->
  ((k, v) ∈ l \/ acc = Some (k, v)) /\
  (forall k' v', (k', v') ∈ l \/ acc = Some (k', v') -> v <= v').
Proof.
  revert acc. induction l as [|[k1 v1] l IH]; intros acc H; simpl in H.
  - subst. split; [by right|]. intros k' v' [H'|H']; [by apply not_elem_of_nil in H'|].
    injection H' as -> ->. lia.
  - destruct acc as [[k2 t]|].
    + unfold Before in H. destruct (Z.ltb_spec v1 t); apply IH in H as [Hin Hmin].
      * split; [left; destruct Hin as [?|[= -> ->]]; set_solver|].
        intros k' v' [Hin'|[= -> ->]]; [|specialize (Hmin k1 v1 (or_intror eq_refl)); lia].
        apply elem_of_cons in Hin' as [[= -> ->]|Hin']; [apply (Hmin k1 v1); by right|].
        eapply Hmin. by left.
      * split; [destruct Hin as [?|?]; [left; set_solver|by right]|].
        intros k' v' [Hin'|[= -> ->]]; [|apply (Hmin k' v'); by right].
        apply elem_of_cons in Hin' as [[= -> ->]|Hin'];
          [specialize (Hmin k2 t (or_intror eq_refl)); lia|]. eapply Hmin. by left.
    + apply IH in H as [Hin Hmin]. split; [left; destruct Hin as [?|[= -> ->]]; set_solver|].
      intros k' v' [Hin'|?]; [|done].
      apply elem_of_cons in Hin' as [[= -> ->]|Hin']; [apply (Hmin k1 v1); by right|].
      eapply Hmin. by left.
Qed.

Section SetProps.
Context (order : gmap string Z -> list (string * Z)).
Hypothesis order_perm : forall d, order d ≡ₚ map_to_list d.

(** What a [SetWithTime] may do to the entries [d] left by the clean-up: insert,
    or evict one entry that no other is older than and insert. *)
Inductive set_result (key : string) (ts : Z) (d : gmap string Z) : gmap string Z -> Prop :=
| set_insert : set_result key ts d (<[key := ts]> d)
| set_evict k v :
    d !! key = None -> d !! k = Some v ->
    (forall k' v', d !! k' = Some v' -> v <= v') ->
    set_result key ts d (<[key := ts]> (delete k d)).

Lemma SetWithTime_yields key ts m :
  yields (fun '(m', ok) =>
    ok = true /\ bm_maxSize m' = bm_maxSize m /\ bm_ttl m' = bm_ttl m /\
    exists d, cleaned (bm_data m) d /\ set_result key ts d (bm_data m') /\
              (0 < bm_maxSize m -> Z.of_nat (size d) <= bm_maxSize m ->
               Z.of_nat (size (bm_data m')) <= bm_maxSize m))
    (SetWithTime order key ts m).
Proof using order_perm.
  unfold SetWithTime. eapply yields_bind; [apply cleanup_yields|].
  intros m1 (Hmax & Httl & Hsub%cleaned_of). rewrite Hmax.
  destruct (Z.ltb_spec 0 (bm_maxSize m)) as [H0|H0]; cbn [andb].
  2: { apply yields_ret. repeat split; try done. exists (bm_data m1).
       split; [exact Hsub|split; [constructor|lia]]. }
  destruct (Z.leb_spec (bm_maxSize m) (Len m1)) as [Hfull|Hroom].
  2: { apply yields_ret. repeat split; try done. exists (bm_data m1).
       split; [exact Hsub|split; [constructor|]]. intros _ _. unfold Len in Hroom. simpl.
       destruct (bm_data m1 !! key) eqn:E.
       - rewrite map_size_insert_Some by (by rewrite E). lia.
       - rewrite map_size_insert_None by done. lia. }
  destruct (bm_data m1 !! key) as [old|] eqn:E.
  { apply yields_ret. repeat split; try done. exists (bm_data m1).
    split; [exact Hsub|split; [constructor|]]. simpl. intros _ ?.
    by rewrite map_size_insert_Some by (by rewrite E). }
  destruct (oldest_Some None (order (bm_data m1))) as (k & v & Ho).
  { intros _ Hn. pose proof (order_perm (bm_data m1)) as Hp. rewrite Hn in Hp.
    apply Permutation_nil, map_to_list_empty_iff in Hp.
    unfold Len in Hfull. rewrite Hp, map_size_empty in Hfull. simpl in Hfull. lia. }
  rewrite Ho. apply yields_ret. apply oldest_min in Ho as [[Hin|?] Hmin]; [|done].
  rewrite order_perm, elem_of_map_to_list in Hin.
  repeat split; try done. exists (bm_data m1). split; [exact Hsub|]. split.
  - apply set_evict with v; [done|done|]. intros k' v' H'. apply (Hmin k'). left.
    by rewrite order_perm, elem_of_map_to_list.
  - intros _ Hs. simpl. rewrite map_size_insert_None by (rewrite lookup_delete_None; by right).
    rewrite map_size_delete, Hin. simpl.
    assert (size (bm_data m1) <> 0%nat); [|lia].
    intros Hz. apply map_size_empty_inv in Hz. rewrite Hz in Hin. done.
Qed.
End SetProps.

Lemma cleaned_size d d' : cleaned d d' -> (size d' <= size d)%nat.
Proof. intros [H _]. by apply map_subseteq_size. Qed.

Section Claims.
Context (order : gmap string Z -> list (string * Z)).
Hypothesis order_perm : forall d, order d ≡ₚ map_to_list d.

(** C39: SetWithTime always succeeds, keeps the map within its maximum size, stores
    the entry and changes no other entry other than by removing it, whatever order the
    map is iterated in. *)
Theorem set_keeps_bound key ts m :
  bounded m ->
  yields (fun '(m', ok) =>
    ok = true /\ bounded m' /\ bm_data m' !! key = Some ts /\
    forall k v, k <> key -> bm_data m' !! k = Some v -> bm_data m !! k = Some v)
    (SetWithTime order key ts m).
Proof using order_perm.
  intros Hb. eapply yields_mono; [|apply SetWithTime_yields, order_perm].
  intros [m' ok] (-> & Hmax & _ & d & Hc & Hres & Hsize). split; [done|]. split.
  { unfold bounded in *. rewrite Hmax. intros H0. apply Hsize; [done|].
    pose proof (cleaned_size _ _ Hc). unfold Len in Hb. specialize (Hb H0). lia. }
  destruct Hc as [Hsub _]. destruct Hres as [|k0 v0]; (split; [apply lookup_insert_eq|]);
    intros k v Hne; rewrite lookup_insert_ne by done.
  - intros H'. eapply lookup_weaken, Hsub. exact H'.
  - rewrite lookup_delete_Some. intros [_ H']. eapply lookup_weaken, Hsub. exact H'.
Qed.

(** An entry that SetWithTime drops is at most as recent as every other entry it
    keeps. *)
Theorem set_drops_only_oldest key ts m :
  yields (fun '(m', _) =>
    forall k v k' v', bm_data m !! k = Some v -> bm_data m' !! k = None ->
      k' <> key -> bm_data m' !! k' = Some v' -> v <= v')
    (SetWithTime order key ts m).
Proof using order_perm.
  eapply yields_mono; [|apply SetWithTime_yields, order_perm].
  intros [m' ok] (_ & _ & _ & d & [Hsub Hold] & Hres & _) k v k' v' Hk Hn Hne Hk'.
  assert (k <> key) as Hkey by (intros ->; by destruct Hres; rewrite lookup_insert_eq in Hn).
  destruct Hres as [|k0 v0 Hfree Hk0 Hmin].
  - rewrite lookup_insert_ne in Hn, Hk' by done. eauto.
  - rewrite lookup_insert_ne in Hn, Hk' by done.
    rewrite lookup_delete_Some in Hk'. destruct Hk' as [_ Hk'].
    apply lookup_delete_None in Hn as [<-|Hn]; [|eauto].
    rewrite (lookup_weaken _ _ _ _ Hk0 Hsub) in Hk. injection Hk as <-. eauto.
Qed.
End Claims.

(** A full map of two entries, on which the witnesses below evaluate. *)
Definition full_map : BoundedMap :=
  {| bm_data := {[ "a" := 10; "b" := 20 ]}; bm_maxSize := 2; bm_ttl := 0;
     bm_lastCleanup := 0; bm_cleanupInterval := minute |}.

Lemma set_keeps_bound_witness :
  bounded full_map /\
  yields (fun '(m', ok) =>
    ok = true /\ bounded m' /\ bm_data m' !! "c" = Some 30 /\
    forall k v, k <> "c" -> bm_data m' !! k = Some v -> bm_data full_map !! k = Some v)
    (SetWithTime map_to_list "c" 30 full_map).
Proof.
  assert (bounded full_map) as Hb by (intros _; vm_compute; discriminate).
  split; [exact Hb|].
  apply (set_keeps_bound map_to_list (fun d => Permutation_refl _) "c" 30 full_map Hb).
Defined.

Lemma set_drops_only_oldest_witness :
  (exec_pure (offline 0) (SetWithTime map_to_list "c" 30 full_map)).2 =
    Done (with_data {[ "b" := 20; "c" := 30 ]} full_map, true) /\
  yields (fun '(m', _) =>
    forall k v k' v', bm_data full_map !! k = Some v -> bm_data m' !! k = None ->
      k' <> "c" -> bm_data m' !! k' = Some v' -> v <= v')
    (SetWithTime map_to_list "c" 30 full_map).
Proof.
  split; [vm_compute; reflexivity|].
  apply (set_drops_only_oldest map_to_list (fun d => Permutation_refl _) "c" 30 full_map).
Defined.

Lemma Get_wp key m ts :
  bm_data m !! key = Some ts ->
  wp (Get key m) (fun tr o =>
    match o with
    | Done r => r = Some ts \/ (r = None /\ Exists (fun t => bm_ttl m < Sub t ts) (clocks tr))
    | Panicked _ => False
    end).
Proof.
  intros Hk. unfold Get, needsCleanup.
  destruct (bm_ttl m <=? 0); simpl; [by left|]. intros t.
  destruct (bm_cleanupInterval m <? _); simpl; [|by left].
  destruct (0 <? bm_ttl m); simpl; [|by left]. rewrite Hk. simpl. intros t2.
  destruct (Z.ltb_spec (bm_ttl m) (Sub t2 ts)); [right|by left].
  split; [done|]. apply Exists_cons_tl, Exists_cons_hd. done.
Qed.

(** Get after SetWithTime returns the stored timestamp as long as no clock reading is
    more than the TTL after it. *)
Theorem get_after_set order key ts m tr o :
  (forall d, order d ≡ₚ map_to_list d) ->
  runs ('(m', _) <- SetWithTime order key ts m ;; Get key m') tr o ->
  Forall (fun t => Sub t ts <= bm_ttl m) (clocks tr) ->
  o = Done (Some ts).
Proof.
  intros Hord Hr Hclk.
  assert (wp ('(m', _) <- SetWithTime order key ts m ;; Get key m') (fun tr o =>
    match o with
    | Done r => r = Some ts \/ Exists (fun t => bm_ttl m < Sub t ts) (clocks tr)
    | Panicked _ => False
    end)) as Hwp.
  { apply wp_bind. eapply wp_mono; [|apply (SetWithTime_yields order Hord key ts m)].
    intros tr1 [[m' ok]|]; [|done]. intros (_ & _ & Httl & d & _ & Hres & _).
    eapply wp_mono; [|apply Get_wp with (ts := ts)].
    - intros tr2 [r|]; [|done]. rewrite Httl, clocks_app.
      intros [?|[_ H]]; [by left|right]. apply Exists_app. by right.
    - destruct Hres; apply lookup_insert_eq. }
  pose proof (proj1 (wp_runs _ _) Hwp tr o Hr) as H. destruct o as [r|]; [|done].
  destruct H as [->|H]; [done|]. exfalso.
  apply Exists_exists in H as (t & Hin & Ht). rewrite Forall_forall in Hclk.
  specialize (Hclk t Hin). lia.
Qed.

Lemma get_after_set_witness :
  (exec_pure (offline 30)
     ('(m', _) <- SetWithTime map_to_list "c" 30 full_map ;; Get "c" m')).2
  = Done (Some 30).
Proof.
  apply (get_after_set map_to_list "c" 30 full_map
           (exec_pure (offline 30)
              ('(m', _) <- SetWithTime map_to_list "c" 30 full_map ;; Get "c" m')).1).
  - intros d. reflexivity.
  - apply exec_pure_runs.
  - vm_compute. constructor.
Defined.
