(* ===== verification/CircuitBreaker.v ===== *)
(** * CircuitBreaker (src/internal/circuitbreaker/circuitbreaker.go)
    The cooldown between self-remediations.  [ShouldAllow] runs under a mutex;
    it reads the clock once to measure the elapsed time and once more to stamp
    an allowed attempt. *)
From stdpp Require Import base list strings.
From Stdlib Require Import ZArith Lia Sorted.
From S2P Require Import Prelude Prog K8s Types Effects.
Import GoTime GoInt.
Open Scope Z_scope.
Open Scope go_scope.

Record CircuitBreaker := { cb_cooldown : Z; cb_lastAllowed : Z }.

Definition New (cooldown : Z) : CircuitBreaker :=
  {| cb_cooldown := cooldown; cb_lastAllowed := zero_time |}.

Definition allow (cb : CircuitBreaker) : io (CircuitBreaker * (bool * Z)) :=
  t <- now ;;
  Ret ({| cb_cooldown := cb_cooldown cb; cb_lastAllowed := t |}, (true, 0)).

Definition ShouldAllow (cb : CircuitBreaker) : io (CircuitBreaker * (bool * Z)) :=
  if negb (IsZero (cb_lastAllowed cb)) then
    t <- now ;;
    let elapsed := Sub t (cb_lastAllowed cb) in
    if elapsed <? cb_cooldown cb then Ret (cb, (false, wrap64 (cb_cooldown cb - elapsed)))
    else allow cb
  else allow cb.

(** The times stamped by [n] successive calls that were allowed. *)
Fixpoint attempts (n : nat) (cb : CircuitBreaker) : io (list Z) :=
  match n with
  | O => Ret []
  | S n' =>
      '(cb', (allowed, _)) <- ShouldAllow cb ;;
      ts <- attempts n' cb' ;;
      Ret (if allowed then cb_lastAllowed cb' :: ts else ts)
  end.

(** ** Properties *)

(** The clock never goes back, and is past the zero time. *)
Definition monotone (t0 : Z) (ts : list Z) : Prop := Sorted Z.le (t0 :: ts).

(** Consecutive elements at least [d] apart. *)
Definition spaced (d : Z) : list Z -> Prop := Sorted (fun a b => a + d <= b).

Lemma monotone_cons t0 t ts : monotone t0 (t :: ts) -> t0 <= t /\ monotone t ts.
Proof. intros H. inversion H as [|? ? Hs Hh]; subst. inversion Hh; subst. done. Qed.

Lemma monotone_weaken t0 t1 ts : t0 <= t1 -> monotone t1 ts -> monotone t0 ts.
Proof.
  intros Hle H. inversion H as [|? ? Hs Hh]; subst. constructor; [done|].
  destruct Hh; constructor. lia.
Qed.

(** Once a stamp exists, later stamps are a cooldown away from it. *)
Definition well_spaced (cb : CircuitBreaker) (ts : list Z) : Prop :=
  spaced (cb_cooldown cb) ts /\
  (cb_lastAllowed cb <> zero_time ->
   HdRel (fun a b => a + cb_cooldown cb <= b) (cb_lastAllowed cb) ts).

Definition spacing (cb : CircuitBreaker) (t0 : Z) (tr : trace) (o : outcome (list Z)) : Prop :=
  match o with
  | Done ts => monotone t0 (clocks tr) -> well_spaced cb ts
  | Panicked _ => True
  end.

Lemma attempts_allow_wp (next : CircuitBreaker -> io (list Z)) cb t1 :
  zero_time < t1 ->
  (cb_lastAllowed cb <> zero_time -> cb_cooldown cb <= Sub t1 (cb_lastAllowed cb)) ->
  (forall t2, zero_time < t2 ->
     let cb2 := {| cb_cooldown := cb_cooldown cb; cb_lastAllowed := t2 |} in
     wp (next cb2) (spacing cb2 t2)) ->
  0 < cb_cooldown cb ->
  wp ('(cb', (allowed, _)) <- allow cb ;; ts <- next cb' ;;
      Ret (if allowed : bool then cb_lastAllowed cb' :: ts else ts))
    (spacing cb t1).
Proof.
  intros Hz Hel Hnext Hc. unfold allow. simpl. intros t2. apply wp_bind.
  destruct (decide (zero_time < t2)) as [Ht2|Ht2].
  - eapply wp_mono; [|exact (Hnext t2 Ht2)].
    intros tr [ts|m]; [|done]. simpl. rewrite app_nil_r.
    intros Hts [H12 Hmon]%monotone_cons. destruct (Hts Hmon) as [Hs Hh]. simpl in Hs, Hh.
    split; [constructor; [done|]; apply Hh; lia|].
    intros Hne. constructor. specialize (Hel Hne). unfold Sub, min_int64 in Hel. lia.
  - apply wp_runs. intros tr [ts|m] _; simpl; [|done].
    intros [H12 _]%monotone_cons. lia.
Qed.

Lemma attempts_wp n cb t0 :
  0 < cb_cooldown cb -> zero_time < t0 ->
  cb_lastAllowed cb = zero_time \/ (zero_time < cb_lastAllowed cb <= t0) ->
  wp (attempts n cb) (spacing cb t0).
Proof.
  intros Hc. revert cb t0 Hc. induction n as [|n IH]; intros cb t0 Hc Hz Hla.
  { simpl. intros _. split; [constructor|intros _; constructor]. }
  cbn [attempts]. unfold ShouldAllow, IsZero.
  assert (forall t2, zero_time < t2 ->
    let cb2 := {| cb_cooldown := cb_cooldown cb; cb_lastAllowed := t2 |} in
    wp (attempts n cb2) (spacing cb2 t2)) as Hnext.
  { intros t2 Ht2. apply IH; simpl; [done|done|right; lia]. }
  destruct (Z.eqb_spec (cb_lastAllowed cb) zero_time) as [E|E]; cbn [negb].
  { apply attempts_allow_wp; done. }
  destruct Hla as [?|Hla]; [done|]. cbn [now call bind]. intros t1.
  destruct (Z.ltb_spec (Sub t1 (cb_lastAllowed cb)) (cb_cooldown cb)) as [Hlt|Hge].
  - cbn [bind]. apply wp_bind.
    destruct (decide (zero_time < t1 /\ cb_lastAllowed cb <= t1)) as [Ht1|Ht1].
    + eapply wp_mono; [|apply (IH cb t1); [done|lia|right; lia]].
      intros tr [ts|m]; [|done]. simpl. rewrite app_nil_r.
      intros Hts [_ Hmon]%monotone_cons. by apply Hts.
    + apply wp_runs. intros tr [ts|m] _; simpl; [|done].
      intros [H12 _]%monotone_cons. lia.
  - destruct (decide (zero_time < t1)) as [Ht1|Ht1].
    + eapply wp_mono; [|apply attempts_allow_wp with (t1 := t1); done].
      intros tr [ts|m]; [|done]. simpl. intros Hts [_ Hmon]%monotone_cons. by apply Hts.
    + apply wp_runs. intros tr [ts|m] _; simpl; [|done].
      intros [H12 _]%monotone_cons. lia.
Qed.

Lemma attempts_no_panic n cb : yields (fun _ => True) (attempts n cb).
Proof.
  revert cb. induction n as [|n IH]; intros cb; [done|]. cbn [attempts].
  apply yields_bind with (fun _ => True).
  - unfold ShouldAllow, allow. destruct (negb _); [intros t; simpl|by intros t].
    destruct (_ <? _); [done|by intros t2].
  - intros [cb' [allowed d]] _. by apply yields_bind with (fun _ => True).
Qed.

(** Under a clock that does not go back, the times at which the circuit breaker allows
    an attempt are pairwise at least the cooldown apart. *)
Theorem allowed_attempts_are_spaced n cooldown t0 tr o :
  0 < cooldown -> zero_time < t0 ->
  runs (attempts n (New cooldown)) tr o -> monotone t0 (clocks tr) ->
  exists ts, o = Done ts /\ spaced cooldown ts.
Proof.
  intros Hc Hz Hr Hm.
  destruct (yields_runs _ _ _ _ (attempts_no_panic _ _) Hr) as (ts & -> & _).
  exists ts. split; [done|].
  pose proof (attempts_wp n (New cooldown) t0 Hc Hz (or_introl eq_refl)) as Hwp.
  rewrite wp_runs in Hwp. by apply (Hwp _ _ Hr).
Qed.

(** Three attempts against a clock that always reads one hour: the first is
    allowed, the two others are refused. *)
Lemma allowed_attempts_are_spaced_witness :
  (exec_pure (offline hour) (attempts 3 (New minute))).2 = Done [hour] /\
  exists ts, (exec_pure (offline hour) (attempts 3 (New minute))).2 = Done ts /\
             spaced minute ts.
Proof.
  split; [vm_compute; reflexivity|].
  apply (allowed_attempts_are_spaced 3 minute hour
           (exec_pure (offline hour) (attempts 3 (New minute))).1).
  - vm_compute; reflexivity.
  - vm_compute; reflexivity.
  - apply exec_pure_runs.
  - vm_compute clocks. repeat constructor; vm_compute; discriminate.
Defined.
