(* ===== verification/Correlator.v ===== *)
(** * The correlator (src/internal/correlator/{rules,correlator}.go)
    Grouping of pending RemediationJobs that share a root cause.  Each rule
    looks at one candidate and its peers; [Correlator.Evaluate] takes the first
    rule that matches and computes the group's findings and members.

    [RuleSound] is the contract of a rule, [Evaluate] is verified against it
    and every production rule discharges it. *)
From stdpp Require Import base list strings gmap sorting.
From Stdlib Require Import ZArith Lia.
From S2P Require Import Prelude Prog K8s Types Effects Domain.
Import GoErr GoStr GoTime.
Open Scope list_scope.
Open Scope Z_scope.
Open Scope go_scope.

Definition kindRank (kind : string) : Z := KindHierarchyRank kind.
Definition job_rank (r : RemediationJob) : Z := kindRank (fs_Kind (rj_Finding r)).

(** One iteration of [selectPrimary]'s loop. *)
Definition select_step (primary p : RemediationJob) : RemediationJob :=
  let pr := job_rank p in
  let cr := job_rank primary in
  if cr <? pr then p
  else if (pr =? cr) && Before (rj_Created p) (rj_Created primary) then p
  else if (pr =? cr) && Equal (rj_Created p) (rj_Created primary)
          && String.ltb (rj_Name p) (rj_Name primary) then p
  else primary.

Definition selectPrimary (candidate : RemediationJob) (matched : list RemediationJob) :
    RemediationJob :=
  fold_left select_step matched candidate.

(** ** SameNamespaceParentRule *)
Definition isParentPrefix (a b : string) : bool :=
  String.eqb a b || HasPrefix a (b ++ "-")%string.

Definition same_parent (candidate p : RemediationJob) : bool :=
  let cParent := fs_ParentObject (rj_Finding candidate) in
  let pParent := fs_ParentObject (rj_Finding p) in
  if String.eqb (rj_UID p) (rj_UID candidate) then false
  else if negb (String.eqb (fs_Namespace (rj_Finding p)) (fs_Namespace (rj_Finding candidate)))
       then false
  else if String.eqb cParent "" || String.eqb pParent "" then false
  else isParentPrefix cParent pParent || isParentPrefix pParent cParent.

Definition SameNamespaceParent_Evaluate (candidate : RemediationJob)
    (peers : list RemediationJob) : io (res CorrelationResult) :=
  match List.filter (same_parent candidate) peers with
  | [] => Ret (Ok no_correlation)
  | matched =>
      let primary := selectPrimary candidate matched in
      g <- NewCorrelationGroupID ;;
      Ret (Ok {| cr_Matched := true; cr_GroupID := g; cr_PrimaryUID := rj_UID primary;
                 cr_Reason := "same-namespace-parent-prefix";
                 cr_MatchedUIDs := rj_UID candidate :: map rj_UID matched |})
  end.

Definition SameNamespaceParentRule : CorrelationRule :=
  {| rule_Name := "SameNamespaceParent"; rule_Evaluate := SameNamespaceParent_Evaluate |}.

(** ** PVCPodRule *)
Definition podClaimNames (pod : Pod) : gset string :=
  list_to_set (omap (fun v => match vol_Source v with
                              | PersistentVolumeClaimVolume claim => Some claim
                              | _ => None
                              end) (ps_Volumes (pod_Spec pod))).

(** The comparison of the [sort.Slice] call. *)
Definition age_less (a b : RemediationJob) : bool :=
  if Equal (rj_Created a) (rj_Created b) then String.ltb (rj_Name a) (rj_Name b)
  else Before (rj_Created a) (rj_Created b).
Definition age_le (a b : RemediationJob) : Prop := age_less b a = false.
#[global] Instance age_le_dec : RelDecision age_le.
Proof. intros a b. unfold age_le. apply _. Defined.

(** [sort.Slice] leaves the order of equal elements open; the names of the jobs
    of one namespace are distinct, so no two elements are equal. *)
Definition sort_by_age : list RemediationJob -> list RemediationJob := merge_sort age_le.

Definition evaluatePodCandidate (candidate : RemediationJob) (peers : list RemediationJob) :
    io (res CorrelationResult) :=
  let ns := fs_Namespace (rj_Finding candidate) in
  let podName := fs_Name (rj_Finding candidate) in
  match List.filter (fun p => String.eqb (fs_Kind (rj_Finding p)) "PersistentVolumeClaim"
                              && String.eqb (fs_Namespace (rj_Finding p)) ns) peers with
  | [] => Ret (Ok no_correlation)
  | pvcPeers =>
      r <- call (GetPod ns podName) ;;
      match r with
      | Err e => if IsNotFound e then Ret (Ok no_correlation) else Ret (Err e)
      | Ok pod =>
          let claimNames := podClaimNames pod in
          let matchedPVCs :=
            List.filter (fun p => bool_decide (fs_Name (rj_Finding p) ∈ claimNames)) pvcPeers in
          match sort_by_age matchedPVCs with
          | [] => Ret (Ok no_correlation)
          | primary :: rest =>
              g <- NewCorrelationGroupID ;;
              Ret (Ok {| cr_Matched := true; cr_GroupID := g; cr_PrimaryUID := rj_UID primary;
                         cr_Reason := "pvc-pod-volume-reference";
                         cr_MatchedUIDs := rj_UID candidate :: map rj_UID (primary :: rest) |})
          end
      end
  end.

(** The loop over the pod peers: every pod is read, in order. *)
Fixpoint pods_mounting (ns pvcName : string) (peers : list RemediationJob) :
    io (res (list RemediationJob)) :=
  match peers with
  | [] => Ret (Ok [])
  | p :: rest =>
      if negb (String.eqb (fs_Kind (rj_Finding p)) "Pod")
         || negb (String.eqb (fs_Namespace (rj_Finding p)) ns)
      then pods_mounting ns pvcName rest
      else
        r <- call (GetPod ns (fs_Name (rj_Finding p))) ;;
        match r with
        | Err e => if IsNotFound e then pods_mounting ns pvcName rest else Ret (Err e)
        | Ok pod =>
            tl <- pods_mounting ns pvcName rest ;;
            Ret (if bool_decide (pvcName ∈ podClaimNames pod)
                 then (let? l := tl in Ok (p :: l)) else tl)
        end
  end.

Definition evaluatePVCCandidate (candidate : RemediationJob) (peers : list RemediationJob) :
    io (res CorrelationResult) :=
  let ns := fs_Namespace (rj_Finding candidate) in
  let pvcName := fs_Name (rj_Finding candidate) in
  r <- pods_mounting ns pvcName peers ;;
  match r with
  | Err e => Ret (Err e)
  | Ok [] => Ret (Ok no_correlation)
  | Ok matchedPods =>
      g <- NewCorrelationGroupID ;;
      Ret (Ok {| cr_Matched := true; cr_GroupID := g; cr_PrimaryUID := rj_UID candidate;
                 cr_Reason := "pvc-pod-volume-reference";
                 cr_MatchedUIDs := rj_UID candidate :: map rj_UID matchedPods |})
  end.

Definition PVCPod_Evaluate (candidate : RemediationJob) (peers : list RemediationJob) :
    io (res CorrelationResult) :=
  if String.eqb (fs_Kind (rj_Finding candidate)) "Pod" then evaluatePodCandidate candidate peers
  else if String.eqb (fs_Kind (rj_Finding candidate)) "PersistentVolumeClaim"
       then evaluatePVCCandidate candidate peers
  else Ret (Ok no_correlation).

Definition PVCPodRule : CorrelationRule :=
  {| rule_Name := "PVCPod"; rule_Evaluate := PVCPod_Evaluate |}.

(** ** MultiPodSameNodeRule *)
Definition job_node (r : RemediationJob) : string := map_get (rj_Annotations r) NodeNameAnnotation.

Definition count_node (nodeCount : gmap string Z) (r : RemediationJob) : gmap string Z :=
  if negb (String.eqb (fs_Kind (rj_Finding r)) "Pod") then nodeCount
  else if String.eqb (job_node r) "" then nodeCount
  else <[job_node r := default 0 (nodeCount !! job_node r) + 1]> nodeCount.

(** The iteration over the map [nodeCount] may take any order: its result is
    sorted. *)
Definition qualifyingNodes (threshold : Z) (all : list RemediationJob) : list string :=
  sort_strings
    (map fst (List.filter (fun kv => threshold <=? kv.2)
                (map_to_list (fold_left count_node all ∅)))).

Definition on_node (nodeName : string) (r : RemediationJob) : bool :=
  String.eqb (fs_Kind (rj_Finding r)) "Pod" && String.eqb (job_node r) nodeName.

Definition oldest_step (primary p : RemediationJob) : RemediationJob :=
  if Before (rj_Created p) (rj_Created primary) then p
  else if Equal (rj_Created primary) (rj_Created p) && String.ltb (rj_Name p) (rj_Name primary)
       then p
  else primary.

Definition MultiPodSameNode_Evaluate (threshold : Z) (candidate : RemediationJob)
    (peers : list RemediationJob) : io (res CorrelationResult) :=
  if threshold <=? 0 then
    Ret (Err (EMsg ("MultiPodSameNodeRule: Threshold must be > 0, got " ++ itoa threshold)%string))
  else
    let all := candidate :: peers in
    match qualifyingNodes threshold all with
    | [] => Ret (Ok no_correlation)
    | nodeName :: _ =>
        match List.filter (on_node nodeName) all with
        | [] => Panic "index out of range [0] with length 0"
        | first :: rest =>
            let primary := fold_left oldest_step rest first in
            g <- NewCorrelationGroupID ;;
            Ret (Ok {| cr_Matched := true; cr_GroupID := g; cr_PrimaryUID := rj_UID primary;
                       cr_Reason := "multi-pod-same-node";
                       cr_MatchedUIDs := map rj_UID (first :: rest) |})
        end
    end.

Definition MultiPodSameNodeRule (threshold : Z) : CorrelationRule :=
  {| rule_Name := "MultiPodSameNode"; rule_Evaluate := MultiPodSameNode_Evaluate threshold |}.

(** ** Correlator *)
Record CorrelationGroup := {
  cg_GroupID : string;
  cg_PrimaryUID : string;
  cg_CorrelatedUIDs : list string;
  cg_Rule : string;
  cg_AllFindings : list FindingSpec }.

Record Correlator := { Rules : list CorrelationRule }.

(** The group built from the result of the rule that matched. *)
Definition build_group (name : string) (result : CorrelationResult)
    (candidate : RemediationJob) (peers : list RemediationJob) : CorrelationGroup :=
  let not_primary u := negb (String.eqb u (cr_PrimaryUID result)) in
  match cr_MatchedUIDs result with
  | _ :: _ =>
      let matchedSet u := bool_decide (u ∈ cr_MatchedUIDs result) in
      {| cg_GroupID := cr_GroupID result; cg_PrimaryUID := cr_PrimaryUID result; cg_Rule := name;
         cg_AllFindings :=
           (if matchedSet (rj_UID candidate) && not_primary (rj_UID candidate)
            then [rj_Finding candidate] else [])
           ++ map rj_Finding
                (List.filter (fun p => matchedSet (rj_UID p) && not_primary (rj_UID p)) peers);
         cg_CorrelatedUIDs := List.filter not_primary (cr_MatchedUIDs result) |}
  | [] =>
      let keep_candidate := not_primary (rj_UID candidate) in
      let kept := List.filter (fun p => not_primary (rj_UID p)) peers in
      {| cg_GroupID := cr_GroupID result; cg_PrimaryUID := cr_PrimaryUID result; cg_Rule := name;
         cg_AllFindings :=
           (if keep_candidate then [rj_Finding candidate] else []) ++ map rj_Finding kept;
         cg_CorrelatedUIDs :=
           (if keep_candidate then [rj_UID candidate] else []) ++ map rj_UID kept |}
  end.

Fixpoint evaluate_rules (rules : list CorrelationRule) (candidate : RemediationJob)
    (peers : list RemediationJob) : io (res (option CorrelationGroup)) :=
  match rules with
  | [] => Ret (Ok None)
  | rule :: rest =>
      r <- rule_Evaluate rule candidate peers ;;
      match r with
      | Err e => Ret (Err (EWrap ("correlator: rule " ++ rule_Name rule ++ ": ")%string e))
      | Ok result =>
          if negb (cr_Matched result) then evaluate_rules rest candidate peers
          else Ret (Ok (Some (build_group (rule_Name rule) result candidate peers)))
      end
  end.

(** [(group, found, err)]: [Ok None] is [(CorrelationGroup{}, false, nil)]. *)
Definition Evaluate (c : Correlator) : RemediationJob -> list RemediationJob ->
    io (res (option CorrelationGroup)) := evaluate_rules (Rules c).

(** The rules [buildCorrelator] (src/cmd/watcher/main.go) installs, in priority
    order. *)
Definition production_rules (threshold : Z) : list CorrelationRule :=
  [PVCPodRule; SameNamespaceParentRule; MultiPodSameNodeRule threshold].

(** ** The choice of the primary
    All three rules choose the least job of an order: rank first (higher
    wins), then age, then name. *)
Section Choice.
Context {A : Type} (better : A -> A -> bool).
Hypothesis better_irrefl : forall a, better a a = false.
Hypothesis better_trans : forall a b c, better b a = false -> better c b = false -> better c a = false.
Hypothesis better_asym : forall a b, better a b = true -> better b a = false.

Definition choose (a p : A) : A := if better p a then p else a.

Lemma choose_spec l a :
  fold_left choose l a ∈ a :: l /\ forall x, x ∈ a :: l -> better x (fold_left choose l a) = false.
Proof using better_irrefl better_trans better_asym.
  revert a. induction l as [|y l IH]; intros a; simpl.
  - split; [set_solver|]. intros x Hx. assert (x = a) as -> by set_solver. done.
  - destruct (IH (choose a y)) as [Hin Hmin]. unfold choose in *. split.
    + destruct (better y a); set_solver.
    + intros x Hx. destruct (better y a) eqn:E.
      * rewrite !elem_of_cons in Hx. destruct Hx as [->|Hx]; [|apply Hmin; set_solver].
        apply better_trans with y; [apply Hmin; set_solver|by apply better_asym].
      * rewrite !elem_of_cons in Hx.
        destruct Hx as [->|[->|Hx]]; [apply Hmin; set_solver| |apply Hmin; set_solver].
        apply better_trans with a; [apply Hmin; set_solver|done].
Qed.

Lemma choose_unique l1 a1 l2 a2 :
  a1 :: l1 ≡ₚ a2 :: l2 ->
  (forall x y, x ∈ a1 :: l1 -> y ∈ a1 :: l1 ->
     better x y = false -> better y x = false -> x = y) ->
  fold_left choose l1 a1 = fold_left choose l2 a2.
Proof using better_irrefl better_trans better_asym.
  intros Hp Hanti. destruct (choose_spec l1 a1) as [Hin1 Hmin1].
  destruct (choose_spec l2 a2) as [Hin2 Hmin2].
  apply Hanti; [done|by rewrite Hp|apply Hmin2; by rewrite <- Hp|apply Hmin1; by rewrite Hp].
Qed.
End Choice.

Lemma ltb_leb s t : String.ltb s t = negb (String.leb t s).
Proof.
  unfold String.ltb, String.leb. rewrite (String.compare_antisym t s).
  by destruct (String.compare s t).
Qed.

Lemma ltb_false s t : String.ltb s t = false <-> String.le t s.
Proof.
  rewrite ltb_leb, negb_false_iff. unfold String.le. by destruct (String.leb t s).
Qed.

Lemma ltb_true s t : String.ltb s t = true -> String.le s t.
Proof.
  rewrite ltb_leb, negb_true_iff. unfold String.le. intros H.
  destruct (String.leb_total s t) as [->|E]; [done|congruence].
Qed.

(** [p] is preferred to [q] as a primary. *)
Definition outranks (p q : RemediationJob) : bool :=
  (job_rank q <? job_rank p) ||
  ((job_rank p =? job_rank q) && age_less p q).

Lemma age_less_spec a b :
  age_less a b = true <->
  rj_Created a < rj_Created b \/
  (rj_Created a = rj_Created b /\ String.ltb (rj_Name a) (rj_Name b) = true).
Proof.
  unfold age_less, Equal, Before. destruct (Z.eqb_spec (rj_Created a) (rj_Created b)).
  - intuition lia.
  - rewrite Z.ltb_lt. intuition lia.
Qed.

Lemma age_less_false a b :
  age_less a b = false <->
  rj_Created b < rj_Created a \/
  (rj_Created a = rj_Created b /\ String.le (rj_Name b) (rj_Name a)).
Proof.
  unfold age_less, Equal, Before. destruct (Z.eqb_spec (rj_Created a) (rj_Created b)).
  - rewrite ltb_false. intuition lia.
  - rewrite Z.ltb_ge. intuition lia.
Qed.

Lemma outranks_spec p q :
  outranks p q = true <->
  job_rank q < job_rank p \/ (job_rank p = job_rank q /\ age_less p q = true).
Proof. unfold outranks. rewrite orb_true_iff, andb_true_iff, Z.ltb_lt, Z.eqb_eq. done. Qed.

Lemma outranks_false p q :
  outranks p q = false <->
  job_rank p < job_rank q \/ (job_rank p = job_rank q /\ age_less p q = false).
Proof.
  unfold outranks. rewrite orb_false_iff, andb_false_iff, Z.ltb_ge, Z.eqb_neq.
  destruct (age_less p q); intuition lia.
Qed.

Lemma age_less_irrefl a : age_less a a = false.
Proof. apply age_less_false. by right. Qed.
Lemma age_less_asym a b : age_less a b = true -> age_less b a = false.
Proof. rewrite age_less_spec, age_less_false. intuition eauto using ltb_true. Qed.
Lemma age_less_trans a b c :
  age_less b a = false -> age_less c b = false -> age_less c a = false.
Proof.
  rewrite !age_less_false. intros [?|[? H1]] [?|[? H2]]; [left; lia..|].
  right. split; [lia|]. by etrans.
Qed.
Lemma outranks_irrefl a : outranks a a = false.
Proof. apply outranks_false. right. split; [done|apply age_less_irrefl]. Qed.
Lemma outranks_asym a b : outranks a b = true -> outranks b a = false.
Proof. rewrite outranks_spec, outranks_false. intuition eauto using age_less_asym. Qed.
Lemma outranks_trans a b c :
  outranks b a = false -> outranks c b = false -> outranks c a = false.
Proof.
  rewrite !outranks_false. intros [?|[? H1]] [?|[? H2]]; [left; lia..|].
  right. split; [lia|]. by eapply age_less_trans.
Qed.

Lemma age_less_anti a b :
  age_less a b = false -> age_less b a = false -> rj_Name a = rj_Name b.
Proof.
  rewrite !age_less_false. intros [?|[? H1]] [?|[? H2]]; try lia.
  by apply (anti_symm String.le).
Qed.

Lemma outranks_anti a b :
  outranks a b = false -> outranks b a = false -> rj_Name a = rj_Name b.
Proof.
  rewrite !outranks_false. intros [?|[? H1]] [?|[? H2]]; try lia. by apply age_less_anti.
Qed.

Lemma select_step_choose a p : select_step a p = choose outranks a p.
Proof.
  unfold select_step, choose, outranks, age_less, Equal, Before.
  destruct (Z.ltb_spec (job_rank a) (job_rank p)); [done|].
  destruct (Z.eqb_spec (job_rank p) (job_rank a)); [|done]. cbn [andb orb].
  destruct (Z.eqb_spec (rj_Created p) (rj_Created a)) as [->|].
  - by rewrite Z.ltb_irrefl.
  - by destruct (_ <? _).
Qed.

Lemma oldest_step_choose a p : oldest_step a p = choose age_less a p.
Proof.
  unfold oldest_step, choose, age_less, Equal, Before.
  rewrite (Z.eqb_sym (rj_Created a)).
  destruct (Z.eqb_spec (rj_Created p) (rj_Created a)) as [->|].
  - by rewrite Z.ltb_irrefl.
  - by destruct (_ <? _).
Qed.

Lemma fold_left_ext {A B} (f g : A -> B -> A) l a :
  (forall a b, f a b = g a b) -> fold_left f l a = fold_left g l a.
Proof. intros H. revert a. induction l as [|b l IH]; intros a; simpl; [done|]. by rewrite H, IH. Qed.

Lemma selectPrimary_spec c l :
  selectPrimary c l ∈ c :: l /\ forall x, x ∈ c :: l -> outranks x (selectPrimary c l) = false.
Proof.
  unfold selectPrimary. rewrite (fold_left_ext _ _ l c select_step_choose).
  apply choose_spec; eauto using outranks_irrefl, outranks_asym, outranks_trans.
Qed.

Lemma NoDup_name_eq (l : list RemediationJob) x y :
  NoDup (map rj_Name l) -> x ∈ l -> y ∈ l -> rj_Name x = rj_Name y -> x = y.
Proof.
  induction l as [|z l IH]; simpl; [set_solver|].
  rewrite NoDup_cons. intros [Hz Hnd] Hx Hy E. rewrite elem_of_cons in Hx, Hy.
  destruct Hx as [->|Hx], Hy as [->|Hy]; [done|..|by apply IH].
  - destruct Hz. rewrite E. by apply list_elem_of_fmap_2.
  - destruct Hz. rewrite <- E. by apply list_elem_of_fmap_2.
Qed.

(** C12: Whichever member of a group of distinctly named jobs runs the election, and
    in whatever order the others are listed, selectPrimary picks the same job, and no
    member outranks it. *)
Theorem members_elect_the_same_primary c l c' l' :
  c :: l ≡ₚ c' :: l' -> NoDup (map rj_Name (c :: l)) ->
  selectPrimary c l = selectPrimary c' l' /\
  (forall x, x ∈ c :: l -> outranks x (selectPrimary c l) = false).
Proof.
  intros Hp Hnd. split; [|apply selectPrimary_spec].
  unfold selectPrimary. rewrite !(fold_left_ext _ _ _ _ select_step_choose).
  apply choose_unique; eauto using outranks_irrefl, outranks_asym, outranks_trans.
  intros x y Hx Hy H1 H2. eapply NoDup_name_eq; eauto using outranks_anti.
Qed.

(** ** The contract of a rule
    On a match, the primary is a member of the group and the members are the
    candidate or peers; a rule panics only when the random source fails, and
    returns an error only when the API server failed to serve a pod. *)
Definition rand_failed (tr : trace) : Prop := exists n, Event (RandRead n) None ∈ tr.
Definition pod_read_failed (tr : trace) : Prop :=
  exists ns n e, Event (GetPod ns n) (Err e) ∈ tr /\ IsNotFound e = false.

Definition result_sound (candidate : RemediationJob) (peers : list RemediationJob)
    (r : CorrelationResult) : Prop :=
  cr_Matched r = true ->
  cr_PrimaryUID r ∈ cr_MatchedUIDs r /\
  (forall u, u ∈ cr_MatchedUIDs r -> exists j, j ∈ candidate :: peers /\ rj_UID j = u).

Definition sound_outcome {A} (P : A -> Prop) (tr : trace) (o : outcome (res A)) : Prop :=
  match o with
  | Done (Ok a) => P a
  | Done (Err _) => pod_read_failed tr
  | Panicked _ => rand_failed tr
  end.

Class RuleSound (rule : CorrelationRule) : Prop :=
  rule_sound : forall candidate peers,
    wp (rule_Evaluate rule candidate peers) (sound_outcome (result_sound candidate peers)).

Lemma wp_group_id {A} (k : string -> A) (P : A -> Prop) :
  (forall g, P (k g)) ->
  wp (g <- NewCorrelationGroupID ;; Ret (Ok (k g))) (sound_outcome P).
Proof.
  intros H [bs|]; simpl; [apply H|]. exists 6%nat. set_solver.
Qed.

Lemma rand_failed_cons ev tr : rand_failed tr -> rand_failed (ev :: tr).
Proof. intros [n H]. exists n. set_solver. Qed.
Lemma rand_failed_app tr1 tr2 : rand_failed tr2 -> rand_failed (tr1 ++ tr2).
Proof. intros [n H]. exists n. set_solver. Qed.

Lemma pod_read_failed_app tr1 tr2 :
  pod_read_failed tr1 \/ pod_read_failed tr2 -> pod_read_failed (tr1 ++ tr2).
Proof. intros [(ns & n & e & H & He)|(ns & n & e & H & He)]; exists ns, n, e; set_solver. Qed.
Lemma pod_read_failed_cons ev tr : pod_read_failed tr -> pod_read_failed (ev :: tr).
Proof. intros H. apply (pod_read_failed_app [ev]). by right. Qed.
Lemma pod_read_failed_here ns n e tr :
  IsNotFound e = false -> pod_read_failed (Event (GetPod ns n) (Err e) :: tr).
Proof. intros H. exists ns, n, e. set_solver. Qed.

Lemma sound_cons {A} (P : A -> Prop) ev tr o :
  sound_outcome P tr o -> sound_outcome P (ev :: tr) o.
Proof. destruct o as [[a|e]|m]; simpl; eauto using rand_failed_cons, pod_read_failed_cons. Qed.
Lemma sound_app {A} (P : A -> Prop) tr1 tr2 o :
  sound_outcome P tr2 o -> sound_outcome P (tr1 ++ tr2) o.
Proof. destruct o as [[a|e]|m]; simpl; eauto using rand_failed_app, pod_read_failed_app. Qed.

Lemma no_correlation_sound c l : result_sound c l no_correlation.
Proof. discriminate. Qed.

Lemma matched_uids_sound c l ms u :
  (forall j, j ∈ ms -> j ∈ c :: l) -> u ∈ map rj_UID ms -> exists j, j ∈ c :: l /\ rj_UID j = u.
Proof. intros Hsub Hu. apply list_elem_of_fmap in Hu as (j & -> & Hj). eauto. Qed.

Lemma filter_sub {A} (f : A -> bool) l x : x ∈ List.filter f l -> x ∈ l /\ f x = true.
Proof. rewrite !list_elem_of_In. apply filter_In. Qed.

#[global] Instance SameNamespaceParent_sound : RuleSound SameNamespaceParentRule.
Proof.
  intros c l. simpl. unfold SameNamespaceParent_Evaluate.
  destruct (List.filter (same_parent c) l) as [|m ms] eqn:E; [apply no_correlation_sound|].
  apply wp_group_id. intros g _. split.
  - cbn [cr_PrimaryUID cr_MatchedUIDs].
    apply (list_elem_of_fmap_2 rj_UID (c :: m :: ms)), (selectPrimary_spec c (m :: ms)).
  - intros u. apply (matched_uids_sound c l (c :: m :: ms)).
    intros j Hj. apply elem_of_cons in Hj as [->|Hj]; [set_solver|].
    rewrite <- E in Hj. apply filter_sub in Hj as [Hj _]. set_solver.
Qed.

Lemma wp_pods_mounting ns pvc peers :
  wp (pods_mounting ns pvc peers)
    (fun tr o => match o with
     | Done (Ok ms) => forall j, j ∈ ms -> j ∈ peers
     | Done (Err _) => pod_read_failed tr
     | Panicked _ => False
     end).
Proof.
  induction peers as [|p peers IH]; cbn [pods_mounting]; [simpl; set_solver|].
  destruct (_ || _).
  { eapply wp_mono; [|exact IH]. intros tr [[ms|e]|m]; set_solver. }
  intros [pod|e]; cbn [bind]; [|destruct (IsNotFound e) eqn:He].
  - apply wp_bind. eapply wp_mono; [|exact IH].
    intros tr [[ms|e]|m] H; [case_bool_decide; simpl; set_solver| |done].
    case_bool_decide; simpl; rewrite app_nil_r; by apply pod_read_failed_cons.
  - eapply wp_mono; [|exact IH]. intros tr [[ms|e']|m]; [set_solver|apply pod_read_failed_cons|done].
  - by apply pod_read_failed_here.
Qed.

Lemma evaluatePod_sound c l :
  wp (evaluatePodCandidate c l) (sound_outcome (result_sound c l)).
Proof.
  unfold evaluatePodCandidate.
  destruct (List.filter _ l) as [|q qs] eqn:E; [apply no_correlation_sound|].
  intros [pod|e]; cbn [bind];
    [|destruct (IsNotFound e) eqn:He; [apply no_correlation_sound|by apply pod_read_failed_here]].
  destruct (sort_by_age _) as [|m ms] eqn:Es; [apply no_correlation_sound|].
  cbn [bind]. eapply wp_mono; [intros tr o; apply sound_cons|].
  apply wp_group_id. intros g _. split; [simpl; set_solver|].
  intros u. apply (matched_uids_sound c l (c :: m :: ms)).
  intros j Hj. apply elem_of_cons in Hj as [->|Hj]; [set_solver|].
  rewrite <- Es in Hj. unfold sort_by_age in Hj. rewrite merge_sort_Permutation in Hj.
  apply filter_sub in Hj as [Hj _]. rewrite <- E in Hj. apply filter_sub in Hj as [Hj _].
  set_solver.
Qed.

Lemma evaluatePVC_sound c l :
  wp (evaluatePVCCandidate c l) (sound_outcome (result_sound c l)).
Proof.
  unfold evaluatePVCCandidate. apply wp_bind. eapply wp_mono; [|apply wp_pods_mounting].
  intros tr [[[|m ms]|e]|p] H;
    [apply no_correlation_sound| |simpl; rewrite app_nil_r; exact H|done].
  eapply wp_mono; [intros tr' o; apply sound_app|].
  apply wp_group_id. intros g _. split; [simpl; set_solver|].
  intros u. apply (matched_uids_sound c l (c :: m :: ms)). set_solver.
Qed.

#[global] Instance PVCPod_sound : RuleSound PVCPodRule.
Proof.
  intros c l. simpl. unfold PVCPod_Evaluate.
  destruct (String.eqb _ "Pod"); [apply evaluatePod_sound|].
  destruct (String.eqb _ _); [apply evaluatePVC_sound|apply no_correlation_sound].
Qed.

(** A node that qualifies has pods: the counters count the jobs the rule then
    collects. *)
Definition node_total (all : list RemediationJob) (n : string) : Z :=
  Z.of_nat (List.length (List.filter (on_node n) all)).

Lemma count_node_lookup all nc n :
  n <> "" ->
  default 0 (fold_left count_node all nc !! n) = default 0 (nc !! n) + node_total all n.
Proof.
  intros Hn. revert nc. unfold node_total.
  induction all as [|r all IH]; intros nc; simpl; [lia|]. rewrite IH.
  unfold count_node, on_node. destruct (String.eqb (fs_Kind _) "Pod"); simpl; [|done].
  destruct (String.eqb_spec (job_node r) n) as [<-|Hne].
  - rewrite (proj2 (String.eqb_neq _ _) Hn), lookup_insert_eq. simpl. lia.
  - destruct (String.eqb (job_node r) ""); [done|]. by rewrite lookup_insert_ne.
Qed.

Lemma count_node_some all nc n v :
  fold_left count_node all nc !! n = Some v ->
  nc !! n = None -> n <> "" /\ v = node_total all n.
Proof.
  intros H Hnc. assert (n <> "") as Hn.
  { revert nc H Hnc.
    induction all as [|r all IH]; intros nc H Hnc; simpl in H; [congruence|].
    unfold count_node in H at 2. destruct (negb _); [eauto|].
    destruct (String.eqb_spec (job_node r) "") as [?|Hne]; [eauto|].
    destruct (decide (job_node r = n)) as [<-|?]; [done|].
    eapply IH; [exact H|]. by rewrite lookup_insert_ne. }
  split; [done|]. pose proof (count_node_lookup all nc n Hn) as E.
  rewrite H, Hnc in E. simpl in E. lia.
Qed.

Lemma count_node_dom all n v :
  n <> "" -> v = node_total all n -> 0 < v -> fold_left count_node all ∅ !! n = Some v.
Proof.
  intros Hn -> Hv. pose proof (count_node_lookup all ∅ n Hn) as E.
  rewrite lookup_empty in E. destruct (fold_left count_node all ∅ !! n); simpl in E; [f_equal|]; lia.
Qed.

Lemma qualifyingNodes_spec t all n :
  0 < t -> (n ∈ qualifyingNodes t all <-> (n <> "" /\ t <= node_total all n)).
Proof.
  intros Ht. unfold qualifyingNodes, sort_strings. rewrite merge_sort_Permutation.
  rewrite list_elem_of_fmap. split.
  - intros ([n' v] & -> & Hin). apply filter_sub in Hin as [Hin Hv].
    apply elem_of_map_to_list in Hin. apply count_node_some in Hin as [Hn ->]; [|done].
    simpl in *. split; [done|]. by apply Z.leb_le.
  - intros [Hn Hv]. exists (n, node_total all n). split; [done|].
    apply list_elem_of_In, filter_In. split; [|by apply Z.leb_le].
    apply list_elem_of_In, elem_of_map_to_list, count_node_dom; [done|done|lia].
Qed.

Lemma oldest_fold_spec a l :
  fold_left oldest_step l a ∈ a :: l /\
  forall x, x ∈ a :: l -> age_less x (fold_left oldest_step l a) = false.
Proof.
  rewrite (fold_left_ext _ _ l a oldest_step_choose).
  apply choose_spec; eauto using age_less_irrefl, age_less_asym, age_less_trans.
Qed.

Lemma MultiPodSameNode_sound t : 0 < t -> RuleSound (MultiPodSameNodeRule t).
Proof.
  intros Ht c l. simpl. unfold MultiPodSameNode_Evaluate.
  rewrite (proj2 (Z.leb_gt t 0) Ht).
  destruct (qualifyingNodes t (c :: l)) as [|n ns] eqn:E; [apply no_correlation_sound|].
  destruct (List.filter (on_node n) (c :: l)) as [|m ms] eqn:Ef.
  { exfalso. assert (n ∈ qualifyingNodes t (c :: l)) as Hn by (rewrite E; set_solver).
    apply qualifyingNodes_spec in Hn as [_ Hn]; [|done].
    unfold node_total in Hn. rewrite Ef in Hn. simpl in Hn. lia. }
  apply wp_group_id. intros g _. split.
  - cbn [cr_PrimaryUID cr_MatchedUIDs].
    apply (list_elem_of_fmap_2 rj_UID (m :: ms)), oldest_fold_spec.
  - intros u. apply (matched_uids_sound c l (m :: ms)).
    intros j Hj. rewrite <- Ef in Hj. by apply filter_sub in Hj as [Hj _].
Qed.

Lemma production_rules_sound t : 0 < t -> Forall RuleSound (production_rules t).
Proof. intros Ht. repeat constructor; try apply _. by apply MultiPodSameNode_sound. Qed.

(** A rule only reads pods and draws random bytes. *)
Definition rule_call (e : req) : Prop :=
  match e with GetPod _ _ | RandRead _ => True | _ => False end.

Class RuleReadOnly (rule : CorrelationRule) : Prop :=
  rule_read_only : forall candidate peers, allows rule_call (rule_Evaluate rule candidate peers).

Ltac read_only :=
  repeat match goal with
  | |- allows _ (Ret _) => apply allows_ret
  | |- allows _ (Panic _) => apply allows_panic
  | |- allows _ (Call _ _) => apply allows_call; [exact I|intros ?]
  | |- allows _ (bind _ _) => apply allows_bind; [|intros ?]
  | |- allows _ NewCorrelationGroupID => apply allows_call; [exact I|intros ?]
  | |- allows _ (call _) => apply allows_call; [exact I|intros ?]
  | |- allows _ (if ?b then _ else _) => destruct b
  | |- allows _ (match ?x with _ => _ end) => destruct x
  end.

#[global] Instance SameNamespaceParent_ro : RuleReadOnly SameNamespaceParentRule.
Proof. intros c l. simpl. unfold SameNamespaceParent_Evaluate. read_only. Qed.

Lemma pods_mounting_ro ns pvc peers : allows rule_call (pods_mounting ns pvc peers).
Proof. induction peers as [|p peers IH]; cbn [pods_mounting]; read_only; exact IH. Qed.

#[global] Instance PVCPod_ro : RuleReadOnly PVCPodRule.
Proof.
  intros c l. simpl. unfold PVCPod_Evaluate, evaluatePodCandidate, evaluatePVCCandidate.
  read_only. apply pods_mounting_ro.
Qed.

#[global] Instance MultiPodSameNode_ro t : RuleReadOnly (MultiPodSameNodeRule t).
Proof. intros c l. simpl. unfold MultiPodSameNode_Evaluate. cbv zeta. read_only. Qed.

Lemma production_rules_ro t : Forall RuleReadOnly (production_rules t).
Proof. repeat constructor; apply _. Qed.

Lemma evaluate_rules_ro rules c l :
  Forall RuleReadOnly rules -> allows rule_call (evaluate_rules rules c l).
Proof.
  induction 1 as [|rule rules Hr _ IH]; cbn [evaluate_rules]; [apply allows_ret|].
  apply allows_bind; [apply rule_read_only|]. intros [res|e]; [|apply allows_ret].
  destruct (negb _); [exact IH|apply allows_ret].
Qed.

(** ** Groups *)
Definition in_group (g : CorrelationGroup) (j : RemediationJob) : bool :=
  bool_decide (rj_UID j ∈ cg_CorrelatedUIDs g).

(** The group holds the findings of exactly its non-primary members. *)
Definition coherent (g : CorrelationGroup) (candidate : RemediationJob)
    (peers : list RemediationJob) : Prop :=
  (cg_PrimaryUID g ∉ cg_CorrelatedUIDs g) /\
  cg_AllFindings g = map rj_Finding (List.filter (in_group g) (candidate :: peers)).

(** The members of the group are jobs the rule was given. *)
Definition inhabited_group (g : CorrelationGroup) (candidate : RemediationJob)
    (peers : list RemediationJob) : Prop :=
  forall u, u = cg_PrimaryUID g \/ u ∈ cg_CorrelatedUIDs g ->
  exists j, j ∈ candidate :: peers /\ rj_UID j = u.

Lemma elem_of_filter_bool {A} (f : A -> bool) l x :
  x ∈ List.filter f l <-> x ∈ l /\ f x = true.
Proof. rewrite !list_elem_of_In. apply filter_In. Qed.

Lemma filter_ext_elem {A} (f g : A -> bool) l :
  (forall x, x ∈ l -> f x = g x) -> List.filter f l = List.filter g l.
Proof. intros H. apply filter_ext_in. intros x Hx. by apply H, list_elem_of_In. Qed.

Lemma build_group_in name r c l j :
  j ∈ c :: l ->
  in_group (build_group name r c l) j
  = andb (match cr_MatchedUIDs r with
          | [] => true
          | _ => bool_decide (rj_UID j ∈ cr_MatchedUIDs r)
          end)
      (negb (String.eqb (rj_UID j) (cr_PrimaryUID r))).
Proof.
  intros Hj. apply eq_true_iff_eq. unfold in_group, build_group.
  rewrite bool_decide_eq_true, andb_true_iff, negb_true_iff, String.eqb_neq.
  destruct (cr_MatchedUIDs r) as [|u us] eqn:E; cbn [cg_CorrelatedUIDs].
  - rewrite elem_of_app, list_elem_of_fmap. split.
    + intros [H|(k & Hk & H)].
      * destruct (negb _) eqn:Hn; [|set_solver].
        apply negb_true_iff, String.eqb_neq in Hn. assert (rj_UID j = rj_UID c) by set_solver.
        split; [done|congruence].
      * apply elem_of_filter_bool in H as [_ Hn]. apply negb_true_iff, String.eqb_neq in Hn.
        split; [done|congruence].
    + intros [_ Hn]. apply elem_of_cons in Hj as [->|Hj].
      * left. rewrite (proj2 (String.eqb_neq _ _) Hn). simpl. set_solver.
      * right. exists j. split; [done|]. apply elem_of_filter_bool. split; [done|].
        by rewrite (proj2 (String.eqb_neq _ _) Hn).
  - rewrite elem_of_filter_bool, bool_decide_eq_true, negb_true_iff, String.eqb_neq. done.
Qed.

Lemma build_group_coherent name r c l : coherent (build_group name r c l) c l.
Proof.
  split.
  - unfold build_group. destruct (cr_MatchedUIDs r) as [|u us]; cbn [cg_PrimaryUID cg_CorrelatedUIDs].
    + rewrite elem_of_app, list_elem_of_fmap. intros [H|(k & Hk & H)].
      * destruct (String.eqb_spec (rj_UID c) (cr_PrimaryUID r)); set_solver.
      * apply elem_of_filter_bool in H as [_ H]. by rewrite <- Hk, String.eqb_refl in H.
    + rewrite elem_of_filter_bool. intros [_ H]. by rewrite String.eqb_refl in H.
  - rewrite (filter_ext_elem _ _ _ (build_group_in name r c l)).
    unfold build_group. destruct (cr_MatchedUIDs r) as [|u us]; cbn [cg_AllFindings List.filter].
    + destruct (negb _); done.
    + destruct (bool_decide _ && _); done.
Qed.

Lemma build_group_inhabited name r c l :
  cr_Matched r = true -> result_sound c l r -> inhabited_group (build_group name r c l) c l.
Proof.
  intros Hm Hs. destruct (Hs Hm) as [Hp Hin]. intros u Hu. apply Hin. revert Hu.
  unfold build_group. destruct (cr_MatchedUIDs r) as [|v vs] eqn:E; [set_solver|].
  cbn [cg_PrimaryUID cg_CorrelatedUIDs]. intros [->|Hu]; [done|].
  by apply elem_of_filter_bool in Hu as [Hu _].
Qed.

(** What an evaluation promises: a group is coherent and inhabited. *)
Definition group_sound (c : RemediationJob) (l : list RemediationJob)
    (r : option CorrelationGroup) : Prop :=
  match r with Some g => coherent g c l /\ inhabited_group g c l | None => True end.

Lemma evaluate_rules_sound rules c l :
  Forall RuleSound rules ->
  wp (evaluate_rules rules c l) (sound_outcome (group_sound c l)).
Proof.
  induction 1 as [|rule rules Hr _ IH]; [done|]. cbn [evaluate_rules].
  apply wp_bind. eapply wp_mono; [|apply rule_sound].
  intros tr [[r|e]|m] H; [|simpl; by rewrite app_nil_r|done].
  destruct (cr_Matched r) eqn:Hm; cbn [negb].
  - simpl. split; [apply build_group_coherent|by apply build_group_inhabited].
  - eapply wp_mono; [|exact IH]. intros tr' o. apply sound_app.
Qed.

(** ** Jobs for the examples *)
Definition example_meta (name : string) (node : string) (created : Z) : ObjectMeta :=
  {| meta_Name := name; meta_Namespace := "mechanic"; meta_UID := "uid-" ++ name;
     meta_Labels := ∅; meta_Annotations := {[ NodeNameAnnotation := node ]};
     meta_CreationTimestamp := created; meta_Generation := 1; meta_OwnerReferences := [] |}.

Definition example_job (kind name parent node : string) (created : Z) : RemediationJob :=
  {| rj_Meta := example_meta name node created;
     rj_Spec :=
       {| spec_SourceResultRef := {| rr_Name := name; rr_Namespace := "app" |};
          spec_Fingerprint := name; spec_SourceType := "native"; spec_SinkType := "github";
          spec_Finding := {| fs_Kind := kind; fs_Name := name; fs_Namespace := "app";
                             fs_ParentObject := parent; fs_Errors := ""; fs_Details := "";
                             fs_ChainDepth := 0 |};
          spec_GitOpsRepo := "org/repo"; spec_GitOpsManifestRoot := "."; spec_AgentImage := "img";
          spec_AgentSA := "sa"; spec_MaxRetries := 3; spec_Severity := "high" |};
     rj_Status := empty_Status |}.

(** An environment with randomness in which every pod mounts [claims]. *)
Definition mounts (claims : list string) : handler answer := fun e =>
  match e return answer e with
  | RandRead n => Some (repeat Byte.x2a n)
  | GetPod ns name =>
      Ok {| pod_Meta := example_meta name "" 0;
            pod_Spec := {| ps_NodeName := ""; ps_ServiceAccountName := ""; ps_RestartPolicy := "";
                           ps_RunAsNonRoot := None; ps_RunAsUser := None; ps_InitContainers := [];
                           ps_Containers := [];
                           ps_Volumes := map (fun claim =>
                             {| vol_Name := claim;
                                vol_Source := PersistentVolumeClaimVolume claim |}) claims |};
            pod_Phase := "Pending"; pod_Conditions := []; pod_ContainerStatuses := [];
            pod_InitContainerStatuses := [] |}
  | e' => offline 0 e'
  end.

Definition web := example_job "Deployment" "web" "web" "" 20.
Definition web_pod := example_job "Pod" "web-1" "web-1" "n1" 10.

Lemma members_elect_the_same_primary_witness :
  selectPrimary web_pod [web] = selectPrimary web [web_pod] /\
  (forall x, x ∈ [web_pod; web] -> outranks x (selectPrimary web_pod [web]) = false).
Proof.
  apply (members_elect_the_same_primary web_pod [web] web [web_pod]).
  - apply perm_swap.
  - apply (bool_decide_unpack _). vm_compute. exact I.
Defined.

(** C11: Evaluate with the production rules terminates in one of: no group; a group
    whose primary and members are the candidate or listed peers, whose members exclude
    the primary and whose findings are exactly those of its members; an error that is
    a failed pod read; a panic that is a failed random read. *)
Theorem production_correlator_outcomes t c l tr o :
  0 < t -> runs (Evaluate {| Rules := production_rules t |} c l) tr o ->
  sound_outcome (group_sound c l) tr o.
Proof.
  intros Ht Hr. eapply wp_runs; [|exact Hr].
  by apply evaluate_rules_sound, production_rules_sound.
Qed.

Lemma production_correlator_outcomes_witness :
  let p := Evaluate {| Rules := production_rules 3 |} web_pod [web] in
  (match (exec_pure (mounts ["data"]) p).2 with
   | Done (Ok (Some g)) => cg_PrimaryUID g = "uid-web" /\ cg_CorrelatedUIDs g = ["uid-web-1"]
   | _ => False
   end) /\
  sound_outcome (group_sound web_pod [web]) (exec_pure (mounts ["data"]) p).1
    (exec_pure (mounts ["data"]) p).2.
Proof.
  intros p. split; [vm_compute; split; reflexivity|].
  apply (production_correlator_outcomes 3); [lia|apply exec_pure_runs].
Defined.

(** ** Agreement of the members of a node group *)
Lemma qualifyingNodes_NoDup t all : NoDup (qualifyingNodes t all).
Proof.
  unfold qualifyingNodes, sort_strings. rewrite merge_sort_Permutation.
  pose proof (NoDup_fst_map_to_list (fold_left count_node all ∅)) as H.
  induction (map_to_list _) as [|[k v] kvs IH]; simpl in *; [constructor|].
  apply NoDup_cons in H as [Hk H]. destruct (t <=? v); [|by apply IH]. simpl.
  constructor; [|by apply IH]. intros Hin. apply Hk.
  apply list_elem_of_fmap in Hin as (kv & -> & Hin). apply filter_sub in Hin as [Hin _].
  by apply list_elem_of_fmap_2.
Qed.

Lemma filter_perm {A} (f : A -> bool) l l' :
  l ≡ₚ l' -> List.filter f l ≡ₚ List.filter f l'.
Proof.
  induction 1 as [|x l l' _ IH|x y l|l1 l2 l3 _ IH1 _ IH2]; simpl; [done|..].
  - destruct (f x); [by f_equiv|done].
  - destruct (f x), (f y); try done. apply perm_swap.
  - by etrans.
Qed.

Lemma sort_idemp l : sort_strings (sort_strings l) = sort_strings l.
Proof. apply sort_strings_perm. apply merge_sort_Permutation. Qed.

Lemma qualifyingNodes_perm t all all' :
  0 < t -> all ≡ₚ all' -> qualifyingNodes t all = qualifyingNodes t all'.
Proof.
  intros Ht Hp. unfold qualifyingNodes at 1 2. rewrite <- sort_idemp.
  rewrite <- (sort_idemp (map fst (List.filter _ (map_to_list (fold_left _ all' _))))).
  apply sort_strings_perm. apply NoDup_Permutation; try apply qualifyingNodes_NoDup.
  intros n. change (n ∈ qualifyingNodes t all <-> n ∈ qualifyingNodes t all').
  rewrite !qualifyingNodes_spec by done. unfold node_total.
  by rewrite (Permutation_length (filter_perm (on_node n) _ _ Hp)).
Qed.

(** The result of the rule without the random group identifier. *)
Definition multi_pod_choice (t : Z) (all : list RemediationJob) : option (string * list string) :=
  match qualifyingNodes t all with
  | [] => None
  | n :: _ =>
      match List.filter (on_node n) all with
      | [] => None
      | first :: rest => Some (rj_UID (fold_left oldest_step rest first), map rj_UID (first :: rest))
      end
  end.

Definition result_choice (r : CorrelationResult) : option (string * list string) :=
  if cr_Matched r then Some (cr_PrimaryUID r, cr_MatchedUIDs r) else None.

Lemma multi_pod_runs t c l tr r :
  0 < t -> runs (MultiPodSameNode_Evaluate t c l) tr (Done (Ok r)) ->
  result_choice r = multi_pod_choice t (c :: l).
Proof.
  intros Ht Hr.
  apply (runs_wp _ (fun _ o => match o with
    | Done (Ok r) => result_choice r = multi_pod_choice t (c :: l) | _ => True end) _ _ Hr).
  unfold MultiPodSameNode_Evaluate, multi_pod_choice.
  rewrite (proj2 (Z.leb_gt t 0) Ht). destruct (qualifyingNodes _ _); [done|].
  destruct (List.filter _ _); [done|]. by intros [bs|].
Qed.

Lemma multi_pod_choice_perm t all all' :
  0 < t -> all ≡ₚ all' -> NoDup (map rj_Name all) ->
  match multi_pod_choice t all, multi_pod_choice t all' with
  | Some (p, us), Some (p', us') => p = p' /\ us ≡ₚ us'
  | None, None => True
  | _, _ => False
  end.
Proof.
  intros Ht Hp Hnd. unfold multi_pod_choice. rewrite <- (qualifyingNodes_perm t all all' Ht Hp).
  destruct (qualifyingNodes t all) as [|n ns]; [done|].
  pose proof (filter_perm (on_node n) _ _ Hp) as Hf.
  assert (forall x, x ∈ List.filter (on_node n) all -> x ∈ all) as Hsub
    by (intros x Hx; by apply filter_sub in Hx as [Hx _]).
  destruct (List.filter _ all) as [|a l] eqn:E, (List.filter _ all') as [|a' l'] eqn:E'; try done.
  { by apply Permutation_nil in Hf. }
  { symmetry in Hf. by apply Permutation_nil in Hf. }
  split; [|by apply (Permutation_map rj_UID)]. f_equal.
  rewrite !(fold_left_ext _ _ _ _ oldest_step_choose).
  apply choose_unique; eauto using age_less_irrefl, age_less_asym, age_less_trans.
  intros x y Hx Hy H1 H2. eapply NoDup_name_eq; eauto using age_less_anti.
Qed.

(** C13: Two reconciles that see the same distinctly named jobs, each as its own
    candidate and in its own order, agree under MultiPodSameNodeRule on whether there
    is a group, on its primary and on its members. *)
Theorem node_group_is_agreed t c l c' l' tr tr' r r' :
  0 < t -> c :: l ≡ₚ c' :: l' -> NoDup (map rj_Name (c :: l)) ->
  runs (rule_Evaluate (MultiPodSameNodeRule t) c l) tr (Done (Ok r)) ->
  runs (rule_Evaluate (MultiPodSameNodeRule t) c' l') tr' (Done (Ok r')) ->
  cr_Matched r = cr_Matched r' /\
  (cr_Matched r = true ->
     cr_PrimaryUID r = cr_PrimaryUID r' /\ cr_MatchedUIDs r ≡ₚ cr_MatchedUIDs r').
Proof.
  intros Ht Hp Hnd Hr%multi_pod_runs Hr'%multi_pod_runs; [|done..].
  pose proof (multi_pod_choice_perm t _ _ Ht Hp Hnd) as H. rewrite <- Hr, <- Hr' in H.
  unfold result_choice in H. destruct (cr_Matched r), (cr_Matched r'); done.
Qed.

Definition pod_a := example_job "Pod" "a" "" "n1" 10.
Definition pod_b := example_job "Pod" "b" "" "n1" 20.

Definition eval_done {A} (h : handler answer) (p : io (res A)) (d : A) : A :=
  match (exec_pure h p).2 with Done (Ok a) => a | _ => d end.

Lemma exec_done {A} (h : handler answer) (p : io (res A)) d :
  match (exec_pure h p).2 with Done (Ok _) => true | _ => false end = true ->
  runs p (exec_pure h p).1 (Done (Ok (eval_done h p d))).
Proof.
  intros H. pose proof (exec_pure_runs h p) as Hr. unfold eval_done.
  by destruct (exec_pure h p) as [tr [[a|e]|m]].
Qed.

Lemma node_group_is_agreed_witness :
  let ra := eval_done (mounts []) (rule_Evaluate (MultiPodSameNodeRule 2) pod_a [pod_b]) no_correlation in
  let rb := eval_done (mounts []) (rule_Evaluate (MultiPodSameNodeRule 2) pod_b [pod_a]) no_correlation in
  cr_PrimaryUID ra = "uid-a" /\
  cr_Matched ra = cr_Matched rb /\
  (cr_Matched ra = true ->
     cr_PrimaryUID ra = cr_PrimaryUID rb /\ cr_MatchedUIDs ra ≡ₚ cr_MatchedUIDs rb).
Proof.
  intros ra rb. split; [vm_compute; reflexivity|].
  apply (node_group_is_agreed 2 pod_a [pod_b] pod_b [pod_a]
    (exec_pure (mounts []) (rule_Evaluate (MultiPodSameNodeRule 2) pod_a [pod_b])).1
    (exec_pure (mounts []) (rule_Evaluate (MultiPodSameNodeRule 2) pod_b [pod_a])).1).
  - lia.
  - apply perm_swap.
  - apply (bool_decide_unpack _). vm_compute. exact I.
  - apply exec_done. vm_compute. reflexivity.
  - apply exec_done. vm_compute. reflexivity.
Defined.

(** Three pods on one node and one on another: the rule matches for the lone
    pod too, with a group it is not a member of. *)
(** There is a candidate that MultiPodSameNodeRule reports as matched although the
    group it returns does not contain it. *)
Theorem node_rule_matches_strangers :
  exists c l tr r,
    runs (rule_Evaluate (MultiPodSameNodeRule 2) c l) tr (Done (Ok r)) /\
    cr_Matched r = true /\ rj_UID c ∉ cr_MatchedUIDs r.
Proof.
  exists (example_job "Pod" "z" "" "n2" 5), [pod_a; pod_b].
  eexists _, _. split; [apply (exec_done (mounts []) _ no_correlation); vm_compute; reflexivity|].
  split; [vm_compute; reflexivity|].
  apply (bool_decide_unpack _). vm_compute. exact I.
Qed.

(** The claim's evaluation names the claim, the pod's evaluation the oldest of
    its claims. *)
(** There are a pod and two claims it mounts for which PVCPodRule elects one claim as
    primary when the pod is the candidate and the other when that other claim is. *)
Theorem pvc_members_disagree :
  exists pod pvc1 pvc2 tr tr' r r',
    runs (rule_Evaluate PVCPodRule pod [pvc1; pvc2]) tr (Done (Ok r)) /\
    runs (rule_Evaluate PVCPodRule pvc2 [pod; pvc1]) tr' (Done (Ok r')) /\
    cr_Matched r = true /\ cr_Matched r' = true /\
    rj_UID pvc2 ∈ cr_MatchedUIDs r /\ cr_PrimaryUID r <> cr_PrimaryUID r'.
Proof.
  exists pod_a, (example_job "PersistentVolumeClaim" "c1" "" "" 1),
    (example_job "PersistentVolumeClaim" "c2" "" "" 2).
  eexists _, _, _, _.
  split; [apply (exec_done (mounts ["c1"; "c2"]) _ no_correlation); vm_compute; reflexivity|].
  split; [apply (exec_done (mounts ["c1"; "c2"]) _ no_correlation); vm_compute; reflexivity|].
  split; [vm_compute; reflexivity|]. split; [vm_compute; reflexivity|].
  split; [apply (bool_decide_unpack _); vm_compute; exact I|vm_compute; discriminate].
Qed.
