(* ===== verification/Config.v ===== *)
(** * Configuration (src/internal/config/config.go)
    [FromEnv] reads the process environment once and validates it.  The
    environment is a function from names to values ([os.Getenv]: the empty
    string when unset).  [FromEnv] is cut into the groups of variables it reads
    in order; the first failing group decides the error.  An error's text is
    kept without the operands that [%q] and [%d] would format into it.

    The RE2 compiler behind EXTRA_REDACT_PATTERNS and apimachinery's quantity
    parser are arguments.  [configured] says of each field what its variable
    allows, and FromEnv returns exactly the configurations it describes. *)
From stdpp Require Import base list strings.
From Stdlib Require Import ZArith Lia Ascii.
From S2P Require Import Prelude Utf8 Regex Redact K8s Types Effects Domain.
Import GoErr GoStr GoTime GoInt.
Open Scope list_scope.
Open Scope string_scope.
Open Scope Z_scope.
Open Scope go_scope.

Inductive AgentType := AgentTypeOpenCode | AgentTypeClaude.
#[global] Instance AgentType_eq_dec : EqDecision AgentType.
Proof. solve_decision. Defined.
Definition agent_type_string (a : AgentType) : string :=
  match a with AgentTypeOpenCode => "opencode" | AgentTypeClaude => "claude" end.

Record Config := {
  cfg_GitOpsRepo : string;
  cfg_GitOpsManifestRoot : string;
  cfg_AgentImage : string;
  cfg_AgentNamespace : string;
  cfg_AgentSA : string;
  cfg_AgentType : AgentType;
  cfg_SinkType : string;
  cfg_LogLevel : string;
  cfg_MaxConcurrentJobs : Z;
  cfg_RemediationJobTTLSeconds : Z;
  cfg_StabilisationWindow : Z;
  cfg_DisableCascadeCheck : bool;
  cfg_CascadeNamespaceThreshold : Z;
  cfg_CascadeNodeCacheTTL : Z;
  cfg_InjectionDetectionAction : string;
  cfg_AgentRBACScope : string;
  cfg_AgentWatchNamespaces : list string;
  cfg_WatchNamespaces : list string;
  cfg_ExcludeNamespaces : list string;
  cfg_MaxInvestigationRetries : Z;
  cfg_MinSeverity : Severity.Severity;
  cfg_SelfRemediationMaxDepth : Z;
  cfg_SelfRemediationCooldown : Z;
  cfg_DryRun : bool;
  cfg_HardenAgentKubectl : bool;
  cfg_ExtraRedactPatterns : list string;
  cfg_CorrelationWindowSeconds : Z;
  cfg_DisableCorrelation : bool;
  cfg_MultiPodThreshold : Z;
  cfg_PRAutoClose : bool;
  cfg_RemediationJobShortTTLSeconds : Z;
  cfg_AgentCPURequest : option string;
  cfg_AgentMemRequest : option string;
  cfg_AgentCPULimit : option string;
  cfg_AgentMemLimit : option string;
  cfg_AgentActiveDeadlineSeconds : Z }.

(** ** [strconv.Atoi] and [strconv.ParseInt(s, 10, 64)]: an optional sign and
    decimal digits, within 64 bits. *)
Definition digit_of (c : ascii) : option Z :=
  let n := Z.of_nat (nat_of_ascii c) in
  if (48 <=? n) && (n <=? 57) then Some (n - 48) else None.

Fixpoint parse_digits (acc : Z) (s : string) : option Z :=
  match s with
  | EmptyString => Some acc
  | String c s' =>
      match digit_of c with Some d => parse_digits (10 * acc + d) s' | None => None end
  end.

Definition Atoi (s : string) : option Z :=
  let '(neg, body) :=
    match s with
    | String c s' => if Ascii.eqb c "-" then (true, s')
                     else if Ascii.eqb c "+" then (false, s') else (false, s)
    | EmptyString => (false, s)
    end in
  if String.eqb body "" then None
  else match parse_digits 0 body with
       | Some n =>
           let v := if neg then - n else n in
           if (min_int64 <=? v) && (v <=? max_int64) then Some v else None
       | None => None
       end.

Section FromEnv.
Context (Compile : string -> option (string -> Redaction.redactRule)).
Context (ParseQuantity : string -> bool).
Context (Getenv : string -> string).

Definition fail {A} (name what : string) : res A := Err (EMsg (name ++ what)).

Definition required (name : string) : res string :=
  let val := Getenv name in
  if String.eqb val "" then fail "required environment variable " (name ++ " is not set")
  else Ok val.

Definition or_default (val d : string) : string := if String.eqb val "" then d else val.

(** An integer variable: [dflt] when unset, else parsed, at least [lo] and at
    most [hi]. *)
Definition int_var (name : string) (dflt lo : Z) (hi : option Z) : res Z :=
  let str := Getenv name in
  if String.eqb str "" then Ok dflt
  else match Atoi str with
       | None => fail name " must be an integer"
       | Some n =>
           if n <? lo
           then fail name (if lo =? 0 then " must be >= 0" else " must be a positive integer")
           else match hi with
                | Some h =>
                    if h <? n
                    then fail name (if h =? max_int32 then " must be at most"
                                    else " exceeds maximum reasonable value")
                    else Ok n
                | None => Ok n
                end
       end.

(** A comma-separated list: trimmed, blank items dropped. *)
Definition csv (raw : string) : list string :=
  List.filter (fun ns => negb (String.eqb ns "")) (map TrimSpace (Split raw ",")).
Definition csv_var (name : string) : list string :=
  if String.eqb (Getenv name) "" then [] else csv (Getenv name).

(** A switch with the values [true], [1], [false], [0] and a default. *)
Definition bool_var (name : string) (dflt : bool) : res bool :=
  let s := Getenv name in
  if String.eqb s "" then Ok dflt
  else if String.eqb s "false" || String.eqb s "0" then Ok false
  else if String.eqb s "true" || String.eqb s "1" then Ok true
  else fail name " must be 'true', 'false', '1', or '0'".

(** A quantity variable: unset leaves the field nil. *)
Definition quantity_var (name : string) : res (option string) :=
  let val := Getenv name in
  if String.eqb val "" then Ok None
  else if ParseQuantity val then Ok (Some val)
  else fail name " is not a valid Kubernetes quantity".

(** Lines 134-143. *)
Definition agent_type : res AgentType :=
  let s := or_default (Getenv "AGENT_TYPE") (agent_type_string AgentTypeOpenCode) in
  if String.eqb s (agent_type_string AgentTypeOpenCode) then Ok AgentTypeOpenCode
  else if String.eqb s (agent_type_string AgentTypeClaude) then Ok AgentTypeClaude
  else fail "AGENT_TYPE" " is not supported; accepted values: opencode, claude".

(** Lines 200-207. *)
Definition injection_action : res string :=
  let action := or_default (Getenv "INJECTION_DETECTION_ACTION") "log" in
  if negb (String.eqb action "log") && negb (String.eqb action "suppress")
  then fail "INJECTION_DETECTION_ACTION" " must be 'log' or 'suppress'" else Ok action.

(** Lines 209-232. *)
Definition rbac_scope : res (string * list string) :=
  let scope := or_default (Getenv "AGENT_RBAC_SCOPE") "cluster" in
  if negb (String.eqb scope "cluster") && negb (String.eqb scope "namespace")
  then fail "AGENT_RBAC_SCOPE" " must be 'cluster' or 'namespace'"
  else if String.eqb scope "namespace" then
    let nsStr := Getenv "AGENT_WATCH_NAMESPACES" in
    if String.eqb nsStr ""
    then fail "AGENT_WATCH_NAMESPACES" " is required when AGENT_RBAC_SCOPE=namespace"
    else match csv nsStr with
         | [] => fail "AGENT_WATCH_NAMESPACES" " is empty after parsing"
         | l => Ok (scope, l)
         end
  else Ok (scope, []).

(** Lines 269-279. *)
Definition min_severity : res Severity.Severity :=
  let raw := Getenv "MIN_SEVERITY" in
  if String.eqb raw "" then Ok Severity.SeverityLow
  else let '(sv, ok) := Severity.ParseSeverity raw in
       if ok : bool then Ok sv else fail "invalid MIN_SEVERITY value" "".

(** Lines 335-345. *)
Definition extra_patterns : res (list string) :=
  let ps := csv_var "EXTRA_REDACT_PATTERNS" in
  match Redaction.New Compile ps with
  | Ok _ => Ok ps
  | Err e => Err (EWrap "EXTRA_REDACT_PATTERNS: " e)
  end.

(** One definition per variable, in the order of the code. *)
Definition max_concurrent_jobs : res Z :=
  int_var "MAX_CONCURRENT_JOBS" 3 1 None.
Definition job_ttl : res Z :=
  int_var "REMEDIATION_JOB_TTL_SECONDS" 604800 1 (Some max_int32).
Definition stabilisation_seconds : res Z :=
  int_var "STABILISATION_WINDOW_SECONDS" 120 0 None.
Definition watch_namespaces : list string :=
  csv_var "WATCH_NAMESPACES".
Definition exclude_namespaces : list string :=
  csv_var "EXCLUDE_NAMESPACES".
Definition investigation_retries : res Z :=
  int_var "MAX_INVESTIGATION_RETRIES" 3 1 (Some max_int32).
Definition remediation_depth : res Z :=
  int_var "SELF_REMEDIATION_MAX_DEPTH" 2 0 (Some 10).
Definition cooldown_seconds : res Z :=
  int_var "SELF_REMEDIATION_COOLDOWN_SECONDS" 300 0 (Some 3600).
Definition dry_run : res bool :=
  bool_var "DRY_RUN" false.
Definition harden_kubectl : res bool :=
  bool_var "HARDEN_AGENT_KUBECTL" false.
Definition correlation_window : res Z :=
  int_var "CORRELATION_WINDOW_SECONDS" 30 0 (Some 3600).
Definition disable_correlation : bool :=
  String.eqb (Getenv "DISABLE_CORRELATION") "true"
  || String.eqb (Getenv "DISABLE_CORRELATION") "1".
Definition multi_pod_threshold : res Z :=
  int_var "CORRELATION_MULTI_POD_THRESHOLD" 3 1 None.
Definition pr_auto_close : res bool :=
  bool_var "PR_AUTO_CLOSE" true.
Definition short_ttl_seconds : res Z :=
  int_var "REMEDIATION_JOB_SHORT_TTL_SECONDS" 86400 1 (Some max_int32).
Definition active_deadline : res Z :=
  int_var "AGENT_ACTIVE_DEADLINE_SECONDS" 1800 1 None.

Definition FromEnv : res Config :=
  let? repo := required "GITOPS_REPO" in
  let? root := required "GITOPS_MANIFEST_ROOT" in
  let? image := required "AGENT_IMAGE" in
  let? ns := required "AGENT_NAMESPACE" in
  let? sa := required "AGENT_SA" in
  let? agent := agent_type in
  let logLevel := or_default (Getenv "LOG_LEVEL") "info" in
  let sink := or_default (Getenv "SINK_TYPE") "github" in
  let? maxJobs := max_concurrent_jobs in
  let? ttl := job_ttl in
  let? window := stabilisation_seconds in
  let? action := injection_action in
  let? scope := rbac_scope in
  let watch := watch_namespaces in
  let exclude := exclude_namespaces in
  let? retries := investigation_retries in
  let? minSev := min_severity in
  let? depth := remediation_depth in
  let? cooldown := cooldown_seconds in
  let? dryRun := dry_run in
  let? harden := harden_kubectl in
  let? patterns := extra_patterns in
  let? corrWindow := correlation_window in
  let disableCorr := disable_correlation in
  let? multiPod := multi_pod_threshold in
  let? autoClose := pr_auto_close in
  let? shortTTL := short_ttl_seconds in
  let? cpuReq := quantity_var "AGENT_CPU_REQUEST" in
  let? memReq := quantity_var "AGENT_MEM_REQUEST" in
  let? cpuLim := quantity_var "AGENT_CPU_LIMIT" in
  let? memLim := quantity_var "AGENT_MEM_LIMIT" in
  let? deadline := active_deadline in
  Ok {| cfg_GitOpsRepo := repo; cfg_GitOpsManifestRoot := root; cfg_AgentImage := image;
        cfg_AgentNamespace := ns; cfg_AgentSA := sa; cfg_AgentType := agent;
        cfg_SinkType := sink; cfg_LogLevel := logLevel; cfg_MaxConcurrentJobs := maxJobs;
        cfg_RemediationJobTTLSeconds := ttl; cfg_StabilisationWindow := seconds window;
        cfg_DisableCascadeCheck := false; cfg_CascadeNamespaceThreshold := 0;
        cfg_CascadeNodeCacheTTL := 0; cfg_InjectionDetectionAction := action;
        cfg_AgentRBACScope := fst scope; cfg_AgentWatchNamespaces := snd scope;
        cfg_WatchNamespaces := watch; cfg_ExcludeNamespaces := exclude;
        cfg_MaxInvestigationRetries := wrap32 retries; cfg_MinSeverity := minSev;
        cfg_SelfRemediationMaxDepth := depth; cfg_SelfRemediationCooldown := seconds cooldown;
        cfg_DryRun := dryRun; cfg_HardenAgentKubectl := harden;
        cfg_ExtraRedactPatterns := patterns; cfg_CorrelationWindowSeconds := corrWindow;
        cfg_DisableCorrelation := disableCorr; cfg_MultiPodThreshold := multiPod;
        cfg_PRAutoClose := autoClose; cfg_RemediationJobShortTTLSeconds := shortTTL;
        cfg_AgentCPURequest := cpuReq; cfg_AgentMemRequest := memReq;
        cfg_AgentCPULimit := cpuLim; cfg_AgentMemLimit := memLim;
        cfg_AgentActiveDeadlineSeconds := deadline |}.
End FromEnv.

(** Open the definition of [FromEnv] in the goal. *)
Ltac open_env :=
  unfold FromEnv, max_concurrent_jobs, job_ttl, stabilisation_seconds,
    watch_namespaces, exclude_namespaces, investigation_retries, remediation_depth, cooldown_seconds, dry_run, harden_kubectl, correlation_window, disable_correlation, multi_pod_threshold, pr_auto_close, short_ttl_seconds, active_deadline.

(** ** Properties *)
Lemma res_bind_ok {A B} (r : res A) (f : A -> res B) b :
  res_bind r f = Ok b -> exists a, r = Ok a /\ f a = Ok b.
Proof. destruct r; simpl; [eauto|discriminate]. Qed.

Lemma Atoi_int64 s n : Atoi s = Some n -> in_int64 n.
Proof.
  unfold Atoi, in_int64. destruct (match s with EmptyString => _ | String _ _ => _ end) as [neg body].
  destruct (String.eqb body ""); [done|]. destruct (parse_digits 0 body); [|done].
  destruct (Z.leb_spec min_int64 (if neg then - z else z)); simpl; [|done].
  destruct (Z.leb_spec (if neg then - z else z) max_int64); simpl; [|done].
  intros [= <-]. lia.
Qed.

Definition in_bounds (lo : Z) (hi : option Z) (n : Z) : Prop :=
  lo <= n /\ match hi with Some h => n <= h | None => n <= max_int64 end.

Section Ranges.
Context (Compile : string -> option (string -> Redaction.redactRule)).
Context (ParseQuantity : string -> bool).
Context (Getenv : string -> string).

Lemma int_var_bounds name d lo hi n :
  in_bounds lo hi d -> int_var Getenv name d lo hi = Ok n -> in_bounds lo hi n.
Proof.
  intros Hd. unfold int_var. destruct (String.eqb _ ""); [by intros [= <-]|].
  destruct (Atoi _) as [m|] eqn:Ha; [|done]. apply Atoi_int64 in Ha. unfold in_int64 in Ha.
  destruct (Z.ltb_spec m lo); [done|]. unfold in_bounds in *. destruct hi as [h|].
  - destruct (Z.ltb_spec h m); [done|]. intros [= <-]. lia.
  - intros [= <-]. lia.
Qed.

Lemma required_nonempty name v : required Getenv name = Ok v -> v <> "" /\ v = Getenv name.
Proof. unfold required. destruct (String.eqb_spec (Getenv name) ""); [done|]. by intros [= <-]. Qed.

Lemma csv_nonblank raw : Forall (fun s => s <> "") (csv raw).
Proof.
  apply Forall_forall. intros s H. apply list_elem_of_In, filter_In in H as [_ H].
  by apply negb_true_iff, String.eqb_neq in H.
Qed.
Lemma csv_var_nonblank name : Forall (fun s => s <> "") (csv_var Getenv name).
Proof. unfold csv_var. destruct (String.eqb _ _); [constructor|apply csv_nonblank]. Qed.

Lemma injection_action_ok a : injection_action Getenv = Ok a -> a = "log" \/ a = "suppress".
Proof.
  unfold injection_action. set (x := or_default _ _).
  destruct (String.eqb_spec x "log"), (String.eqb_spec x "suppress"); simpl; try done;
    intros [= <-]; auto.
Qed.

Lemma rbac_scope_ok s l :
  rbac_scope Getenv = Ok (s, l) ->
  (s = "cluster" /\ l = []) \/ (s = "namespace" /\ l <> [] /\ Forall (fun x => x <> "") l).
Proof.
  unfold rbac_scope. set (x := or_default _ _).
  destruct (String.eqb_spec x "cluster") as [Hc|], (String.eqb_spec x "namespace") as [Hn|];
    simpl; try done; [congruence|intros [= <- <-]; by left|].
  destruct (String.eqb _ ""); [done|].
  destruct (csv _) as [|y ys] eqn:E; [done|]. intros [= <- <-]. right.
  split; [done|]. split; [done|]. rewrite <- E. apply csv_nonblank.
Qed.

Lemma min_severity_ok s : min_severity Getenv = Ok s -> Severity.recognised s.
Proof.
  unfold min_severity. destruct (String.eqb _ ""); [intros [= <-]; unfold Severity.recognised; tauto|].
  destruct (Severity.ParseSeverity _) as [sv ok] eqn:E. destruct ok; [|done]. intros [= <-].
  by apply Severity.ParseSeverity_ok in E as [-> ?].
Qed.
End Ranges.

(** The promise the rest of the watcher relies on. *)
Record valid (c : Config) : Prop := {
  valid_names : cfg_GitOpsRepo c <> "" /\ cfg_AgentNamespace c <> "" /\ cfg_AgentImage c <> "" /\
                cfg_AgentSA c <> "" /\ cfg_GitOpsManifestRoot c <> "";
  valid_jobs : 1 <= cfg_MaxConcurrentJobs c <= max_int64;
  valid_ttl : 1 <= cfg_RemediationJobTTLSeconds c <= max_int32;
  valid_short_ttl : 1 <= cfg_RemediationJobShortTTLSeconds c <= max_int32;
  valid_action : cfg_InjectionDetectionAction c = "log" \/ cfg_InjectionDetectionAction c = "suppress";
  valid_scope :
    (cfg_AgentRBACScope c = "cluster" /\ cfg_AgentWatchNamespaces c = []) \/
    (cfg_AgentRBACScope c = "namespace" /\ cfg_AgentWatchNamespaces c <> [] /\
     Forall (fun x => x <> "") (cfg_AgentWatchNamespaces c));
  valid_watch : Forall (fun x => x <> "") (cfg_WatchNamespaces c ++ cfg_ExcludeNamespaces c)%list;
  valid_retries : 1 <= cfg_MaxInvestigationRetries c <= max_int32;
  valid_severity : Severity.recognised (cfg_MinSeverity c);
  valid_depth : 0 <= cfg_SelfRemediationMaxDepth c <= 10;
  valid_cooldown : 0 <= cfg_SelfRemediationCooldown c <= 3600 * second;
  valid_window : 0 <= cfg_CorrelationWindowSeconds c <= 3600;
  valid_threshold : 1 <= cfg_MultiPodThreshold c <= max_int64;
  valid_deadline : 1 <= cfg_AgentActiveDeadlineSeconds c <= max_int64 }.

(** Peel the sequence of validated variables off an equation [FromEnv = Ok c]. *)
Ltac peel :=
  repeat match goal with
  | H : res_bind _ _ = Ok _ |- _ =>
      let a := fresh "v" in let Ha := fresh "Hv" in
      apply res_bind_ok in H as (a & Ha & H)
  end.

(** Turn the equations of the variables into their ranges. *)
Ltac ranges :=
  repeat match goal with
  | H : int_var _ _ _ _ _ = Ok _ |- _ =>
      apply int_var_bounds in H; [|unfold in_bounds, max_int32, max_int64; lia];
      unfold in_bounds in H
  | H : required _ _ = Ok _ |- _ => apply required_nonempty in H as [? _]
  | H : injection_action _ = Ok _ |- _ => apply injection_action_ok in H
  | H : min_severity _ = Ok _ |- _ => apply min_severity_ok in H
  | H : rbac_scope _ = Ok ?p |- _ => destruct p; apply rbac_scope_ok in H
  end.

Lemma FromEnv_ok Compile ParseQuantity Getenv c :
  FromEnv Compile ParseQuantity Getenv = Ok c -> valid c.
Proof.
  open_env. intros H. peel. injection H as <-. ranges.
  split; simpl; try done; try lia; try tauto.
  - apply Forall_app. split; apply csv_var_nonblank.
  - rewrite wrap32_small by (unfold in_int32, max_int32 in *; lia). lia.
  - rewrite seconds_small by (unfold max_int32; lia). unfold second. lia.
Qed.

(** ** The environment and the configuration
    What each field may be, given the variables. *)
Section Specification.
Context (Compile : string -> option (string -> Redaction.redactRule)).
Context (ParseQuantity : string -> bool).
Context (Getenv : string -> string).

(** [v] is the default [d] when the variable is unset, and else what [R] allows for
    its value. *)
Definition given {A} (name : string) (d : A) (R : string -> A -> Prop) (v : A) : Prop :=
  (Getenv name = "" /\ v = d) \/ (Getenv name <> "" /\ R (Getenv name) v).

Definition text (name v : string) : Prop := v = Getenv name /\ v <> "".
Definition number (lo hi : Z) (s : string) (n : Z) : Prop := Atoi s = Some n /\ lo <= n <= hi.
Definition one_of (values : list string) (s v : string) : Prop := v = s /\ s ∈ values.
Definition switch (s : string) (b : bool) : Prop :=
  s ∈ (if b then ["true"; "1"] else ["false"; "0"]).
Definition quantity (s : string) (v : option string) : Prop := v = Some s /\ ParseQuantity s = true.
Definition pattern_ok (p : string) : Prop := TrimSpace p = "" \/ is_Some (Compile (TrimSpace p)).

Record configured (c : Config) : Prop := {
  on_repo : text "GITOPS_REPO" (cfg_GitOpsRepo c);
  on_root : text "GITOPS_MANIFEST_ROOT" (cfg_GitOpsManifestRoot c);
  on_image : text "AGENT_IMAGE" (cfg_AgentImage c);
  on_namespace : text "AGENT_NAMESPACE" (cfg_AgentNamespace c);
  on_sa : text "AGENT_SA" (cfg_AgentSA c);
  on_agent : given "AGENT_TYPE" AgentTypeOpenCode (fun s t => s = agent_type_string t) (cfg_AgentType c);
  on_log : given "LOG_LEVEL" "info" eq (cfg_LogLevel c);
  on_sink : given "SINK_TYPE" "github" eq (cfg_SinkType c);
  on_jobs : given "MAX_CONCURRENT_JOBS" 3 (number 1 max_int64) (cfg_MaxConcurrentJobs c);
  on_ttl : given "REMEDIATION_JOB_TTL_SECONDS" 604800 (number 1 max_int32) (cfg_RemediationJobTTLSeconds c);
  (** The conversion to a Duration wraps: from 9223372037 seconds on the window is
      another one, or negative. *)
  on_window : exists n, given "STABILISATION_WINDOW_SECONDS" 120 (number 0 max_int64) n /\
    cfg_StabilisationWindow c = wrap64 (n * second);
  on_action : given "INJECTION_DETECTION_ACTION" "log" (one_of ["log"; "suppress"])
    (cfg_InjectionDetectionAction c);
  on_scope : given "AGENT_RBAC_SCOPE" "cluster" (one_of ["cluster"; "namespace"]) (cfg_AgentRBACScope c);
  on_scope_namespaces : cfg_AgentWatchNamespaces c =
    (if String.eqb (cfg_AgentRBACScope c) "namespace" then csv (Getenv "AGENT_WATCH_NAMESPACES") else []);
  on_scope_listed : cfg_AgentRBACScope c = "namespace" -> cfg_AgentWatchNamespaces c <> [];
  on_watch : cfg_WatchNamespaces c = csv (Getenv "WATCH_NAMESPACES");
  on_exclude : cfg_ExcludeNamespaces c = csv (Getenv "EXCLUDE_NAMESPACES");
  on_retries : given "MAX_INVESTIGATION_RETRIES" 3 (number 1 max_int32) (cfg_MaxInvestigationRetries c);
  on_severity : given "MIN_SEVERITY" Severity.SeverityLow
    (one_of [Severity.SeverityCritical; Severity.SeverityHigh; Severity.SeverityMedium; Severity.SeverityLow])
    (cfg_MinSeverity c);
  on_depth : given "SELF_REMEDIATION_MAX_DEPTH" 2 (number 0 10) (cfg_SelfRemediationMaxDepth c);
  on_cooldown : exists n, given "SELF_REMEDIATION_COOLDOWN_SECONDS" 300 (number 0 3600) n /\
    cfg_SelfRemediationCooldown c = n * second;
  on_dry_run : given "DRY_RUN" false switch (cfg_DryRun c);
  on_harden : given "HARDEN_AGENT_KUBECTL" false switch (cfg_HardenAgentKubectl c);
  on_patterns : cfg_ExtraRedactPatterns c = csv (Getenv "EXTRA_REDACT_PATTERNS") /\
    Forall pattern_ok (cfg_ExtraRedactPatterns c);
  on_correlation : given "CORRELATION_WINDOW_SECONDS" 30 (number 0 3600) (cfg_CorrelationWindowSeconds c);
  on_disable : cfg_DisableCorrelation c = true <-> Getenv "DISABLE_CORRELATION" ∈ ["true"; "1"];
  on_threshold : given "CORRELATION_MULTI_POD_THRESHOLD" 3 (number 1 max_int64) (cfg_MultiPodThreshold c);
  on_auto_close : given "PR_AUTO_CLOSE" true switch (cfg_PRAutoClose c);
  on_short_ttl : given "REMEDIATION_JOB_SHORT_TTL_SECONDS" 86400 (number 1 max_int32)
    (cfg_RemediationJobShortTTLSeconds c);
  on_cpu_request : given "AGENT_CPU_REQUEST" None quantity (cfg_AgentCPURequest c);
  on_mem_request : given "AGENT_MEM_REQUEST" None quantity (cfg_AgentMemRequest c);
  on_cpu_limit : given "AGENT_CPU_LIMIT" None quantity (cfg_AgentCPULimit c);
  on_mem_limit : given "AGENT_MEM_LIMIT" None quantity (cfg_AgentMemLimit c);
  on_deadline : given "AGENT_ACTIVE_DEADLINE_SECONDS" 1800 (number 1 max_int64)
    (cfg_AgentActiveDeadlineSeconds c);
  (** Fields that no variable sets. *)
  on_cascade : cfg_DisableCascadeCheck c = false /\ cfg_CascadeNamespaceThreshold c = 0 /\
    cfg_CascadeNodeCacheTTL c = 0 }.

(** *** Each reader meets its part *)
Ltac unset name :=
  unfold given; destruct (String.eqb_spec (Getenv name) "") as [Hunset|Hset];
  [split; [intros [= <-]; by left|by intros [[_ ->]|[? _]]]
  |revert Hset; generalize (Getenv name); intros value Hset].

Lemma text_iff name v : required Getenv name = Ok v <-> text name v.
Proof. unfold required, text. destruct (String.eqb_spec (Getenv name) ""); naive_solver. Qed.

Lemma or_default_iff name d v : or_default (Getenv name) d = v <-> given name d eq v.
Proof. unfold or_default, given. destruct (String.eqb_spec (Getenv name) ""); naive_solver. Qed.

Lemma int_var_iff name d lo hi n :
  int_var Getenv name d lo hi = Ok n <-> given name d (number lo (default max_int64 hi)) n.
Proof.
  unfold int_var, number. unset name.
  transitivity (Atoi value = Some n /\ lo <= n <= default max_int64 hi); [|naive_solver].
  destruct (Atoi value) as [k|] eqn:E; [|by split; [|intros [? _]]].
  apply Atoi_int64 in E. unfold in_int64 in E.
  destruct (Z.ltb_spec k lo), hi as [h|]; try destruct (Z.ltb_spec h k); cbn [default from_option id] in *;
    unfold fail; (split; [intros [=]; subst; (split; [done|lia])|intros ([= <-] & ?); (done || (exfalso; lia))]).
Qed.

Lemma bool_var_iff name d v : bool_var Getenv name d = Ok v <-> given name d switch v.
Proof.
  unfold bool_var, switch. unset name.
  destruct (String.eqb_spec value "false") as [?|?], (String.eqb_spec value "0") as [?|?],
    (String.eqb_spec value "true") as [?|?], (String.eqb_spec value "1") as [?|?]; cbn [orb];
    destruct v; cbn iota; rewrite ?elem_of_cons, ?elem_of_nil; unfold fail; naive_solver.
Qed.

Lemma quantity_var_iff name v : quantity_var ParseQuantity Getenv name = Ok v <-> given name None quantity v.
Proof.
  unfold quantity_var, quantity. unset name. destruct (ParseQuantity _); naive_solver.
Qed.

Lemma csv_var_eq name : csv_var Getenv name = csv (Getenv name).
Proof. unfold csv_var. destruct (String.eqb_spec (Getenv name) "") as [->|]; reflexivity. Qed.

Lemma agent_type_iff t :
  agent_type Getenv = Ok t <-> given "AGENT_TYPE" AgentTypeOpenCode (fun s t => s = agent_type_string t) t.
Proof.
  unfold agent_type, or_default. unset "AGENT_TYPE".
  destruct (String.eqb_spec value (agent_type_string AgentTypeOpenCode)) as [E|],
    (String.eqb_spec value (agent_type_string AgentTypeClaude)) as [E'|];
    destruct t; unfold fail; naive_solver.
Qed.

Lemma injection_action_iff v :
  injection_action Getenv = Ok v <-> given "INJECTION_DETECTION_ACTION" "log" (one_of ["log"; "suppress"]) v.
Proof.
  unfold injection_action, or_default, one_of. unset "INJECTION_DETECTION_ACTION".
  rewrite !elem_of_cons, elem_of_nil.
  destruct (String.eqb_spec value "log"),
    (String.eqb_spec value "suppress"); cbn [negb andb]; unfold fail; naive_solver.
Qed.

Lemma min_severity_iff v :
  min_severity Getenv = Ok v <-> given "MIN_SEVERITY" Severity.SeverityLow
    (one_of [Severity.SeverityCritical; Severity.SeverityHigh; Severity.SeverityMedium; Severity.SeverityLow]) v.
Proof.
  unfold min_severity, one_of. unset "MIN_SEVERITY".
  pose proof (Severity.ParseSeverity_ok value v) as H. unfold Severity.recognised in H.
  rewrite !elem_of_cons, elem_of_nil. destruct (Severity.ParseSeverity _) as [sv []]; unfold fail; naive_solver.
Qed.

Lemma rbac_scope_iff scope l :
  rbac_scope Getenv = Ok (scope, l) <->
  given "AGENT_RBAC_SCOPE" "cluster" (one_of ["cluster"; "namespace"]) scope /\
  l = (if String.eqb scope "namespace" then csv (Getenv "AGENT_WATCH_NAMESPACES") else []) /\
  (scope = "namespace" -> l <> []).
Proof.
  transitivity (or_default (Getenv "AGENT_RBAC_SCOPE") "cluster" = scope /\ scope ∈ ["cluster"; "namespace"] /\
    l = (if String.eqb scope "namespace" then csv (Getenv "AGENT_WATCH_NAMESPACES") else []) /\
    (scope = "namespace" -> l <> [])).
  2: { unfold one_of, or_default, given. destruct (String.eqb_spec (Getenv "AGENT_RBAC_SCOPE") "") as [E|E];
         [|naive_solver].
       split; [naive_solver|]. intros ([[_ ->]|[? _]] & ? & ?); [|done].
       split_and!; [done|apply list_elem_of_here|done..]. }
  unfold rbac_scope. set (x := or_default _ _). rewrite !elem_of_cons, elem_of_nil.
  destruct (String.eqb_spec x "cluster") as [Hc|], (String.eqb_spec x "namespace") as [Hn|]; cbn [negb andb];
    [congruence|rewrite Hc; naive_solver| |unfold fail; naive_solver].
  rewrite Hn. destruct (String.eqb_spec (Getenv "AGENT_WATCH_NAMESPACES") "") as [->|].
  { split; [done|]. intros (<- & _ & -> & H). by destruct H. }
  destruct (csv _); unfold fail; split.
  - done.
  - intros (<- & _ & -> & H). by destruct H.
  - intros [= <- <-]. naive_solver.
  - by intros (<- & _ & -> & _).
Qed.

Lemma compile_extra_iff acc ps :
  (exists rs, Redaction.compile_extra Compile acc ps = Ok rs) <-> Forall pattern_ok ps.
Proof.
  revert acc. induction ps as [|p ps IH]; intros acc; cbn [Redaction.compile_extra]; [split; eauto|].
  rewrite Forall_cons. unfold pattern_ok at 1. destruct (String.eqb_spec (TrimSpace p) ""); [rewrite IH; naive_solver|].
  destruct (Compile (TrimSpace p)) eqn:E; [rewrite IH; naive_solver|]. split; [by intros [? ?]|].
  by intros [[?|[? ?]] _].
Qed.

Lemma extra_patterns_iff v :
  extra_patterns Compile Getenv = Ok v <-> v = csv (Getenv "EXTRA_REDACT_PATTERNS") /\ Forall pattern_ok v.
Proof.
  unfold extra_patterns, Redaction.New. rewrite csv_var_eq.
  pose proof (compile_extra_iff Redaction.builtinRules (csv (Getenv "EXTRA_REDACT_PATTERNS"))) as H.
  destruct (Redaction.compile_extra _ _ _) as [rs|e]; split.
  - intros [= <-]. split; [done|]. apply H. eauto.
  - by intros [-> _].
  - done.
  - intros [-> Hv]. by apply H in Hv as [? ?].
Qed.

(** *** FromEnv *)
(** The readers of single variables. *)
Ltac open_vars :=
  unfold max_concurrent_jobs, job_ttl, stabilisation_seconds, watch_namespaces, exclude_namespaces,
    investigation_retries, remediation_depth, cooldown_seconds, dry_run, harden_kubectl, correlation_window,
    multi_pod_threshold, pr_auto_close, short_ttl_seconds, active_deadline in *.

(** Turn the equations of the readers into what their variables allow. *)
Ltac readers :=
  repeat match goal with
  | H : required _ _ = Ok _ |- _ => apply text_iff in H
  | H : agent_type _ = Ok _ |- _ => apply agent_type_iff in H
  | H : int_var _ _ _ _ _ = Ok _ |- _ => apply int_var_iff in H; cbn [default from_option id] in H
  | H : bool_var _ _ _ = Ok _ |- _ => apply bool_var_iff in H
  | H : quantity_var _ _ _ = Ok _ |- _ => apply quantity_var_iff in H
  | H : injection_action _ = Ok _ |- _ => apply injection_action_iff in H
  | H : min_severity _ = Ok _ |- _ => apply min_severity_iff in H
  | H : extra_patterns _ _ = Ok _ |- _ => apply extra_patterns_iff in H
  | H : rbac_scope _ = Ok ?p |- _ => destruct p; apply rbac_scope_iff in H as (? & ? & ?)
  end.

Lemma given_number name d lo hi n :
  given name d (number lo hi) n -> lo <= d <= hi -> lo <= n <= hi.
Proof. by intros [[_ ->]|[_ [_ ?]]]. Qed.

Lemma disable_iff : disable_correlation Getenv = true <-> Getenv "DISABLE_CORRELATION" ∈ ["true"; "1"].
Proof.
  unfold disable_correlation. by rewrite orb_true_iff, !String.eqb_eq, !elem_of_cons, elem_of_nil, (right_id False or).
Qed.

Lemma FromEnv_configured c : FromEnv Compile ParseQuantity Getenv = Ok c -> configured c.
Proof.
  unfold FromEnv. intros H. peel. injection H as <-. pose proof disable_iff as Hdis. open_vars. readers.
  split; cbn; try done; try (by apply or_default_iff); try apply csv_var_eq.
  - by eexists.
  - match goal with H : given "MAX_INVESTIGATION_RETRIES" _ _ ?n |- _ =>
      pose proof (given_number _ _ _ _ _ H ltac:(unfold max_int32; lia)) end.
    by rewrite wrap32_small by (unfold in_int32, max_int32 in *; lia).
  - match goal with H : given "SELF_REMEDIATION_COOLDOWN_SECONDS" _ _ ?n |- _ =>
      pose proof (given_number _ _ _ _ _ H ltac:(lia)); exists n; split; [exact H|] end.
    apply seconds_small. unfold max_int32. lia.
Qed.

Lemma configured_FromEnv c : configured c -> FromEnv Compile ParseQuantity Getenv = Ok c.
Proof.
  intros [Hrepo Hroot Himage Hns Hsa Hagent Hlog Hsink Hjobs Httl (window & Hwin & Ewin) Haction Hscope Hnss Hlisted
    Hwatch Hexclude Hretries Hsev Hdepth (cool & Hcool & Ecool) Hdry Hharden Hpats Hcorr Hdis Hthr Hclose Hshort
    Hcpur Hmemr Hcpul Hmeml Hdead (Ec1 & Ec2 & Ec3)].
  pose proof (given_number _ _ _ _ _ Hretries ltac:(unfold max_int32; lia)) as Hr.
  pose proof (given_number _ _ _ _ _ Hcool ltac:(lia)) as Hc.
  assert (disable_correlation Getenv = cfg_DisableCorrelation c) as Edis.
  { pose proof disable_iff. destruct (disable_correlation Getenv), (cfg_DisableCorrelation c); naive_solver. }
  unfold FromEnv. open_vars. rewrite Edis, !csv_var_eq.
  rewrite (proj2 (text_iff _ _) Hrepo), (proj2 (text_iff _ _) Hroot), (proj2 (text_iff _ _) Himage),
    (proj2 (text_iff _ _) Hns), (proj2 (text_iff _ _) Hsa), (proj2 (agent_type_iff _) Hagent),
    (proj2 (or_default_iff _ _ _) Hlog), (proj2 (or_default_iff _ _ _) Hsink),
    (proj2 (int_var_iff _ _ _ None _) Hjobs), (proj2 (int_var_iff _ _ _ (Some _) _) Httl),
    (proj2 (int_var_iff _ _ _ None _) Hwin), (proj2 (injection_action_iff _) Haction),
    (proj2 (rbac_scope_iff _ _) (conj Hscope (conj Hnss Hlisted))),
    (proj2 (int_var_iff _ _ _ (Some _) _) Hretries), (proj2 (min_severity_iff _) Hsev),
    (proj2 (int_var_iff _ _ _ (Some _) _) Hdepth), (proj2 (int_var_iff _ _ _ (Some _) _) Hcool),
    (proj2 (bool_var_iff _ _ _) Hdry), (proj2 (bool_var_iff _ _ _) Hharden), (proj2 (extra_patterns_iff _) Hpats),
    (proj2 (int_var_iff _ _ _ (Some _) _) Hcorr), (proj2 (int_var_iff _ _ _ None _) Hthr),
    (proj2 (bool_var_iff _ _ _) Hclose), (proj2 (int_var_iff _ _ _ (Some _) _) Hshort),
    (proj2 (quantity_var_iff _ _) Hcpur), (proj2 (quantity_var_iff _ _) Hmemr),
    (proj2 (quantity_var_iff _ _) Hcpul), (proj2 (quantity_var_iff _ _) Hmeml),
    (proj2 (int_var_iff _ _ _ None _) Hdead).
  cbn [res_bind fst snd]. rewrite wrap32_small by (unfold in_int32, max_int32 in *; lia).
  rewrite (seconds_small cool) by (unfold max_int32; lia). rewrite <- Ecool, <- Hwatch, <- Hexclude.
  unfold seconds. rewrite <- Ewin. clear - Ec1 Ec2 Ec3. destruct c. cbn in *. by subst.
Qed.
End Specification.

(** C35: FromEnv returns a configuration exactly when every field is what its own
    environment variable allows: required variables are set, a variable that is unset
    gives the default, integers parse and lie within their bounds, enumerations and
    switches have one of their values, quantities parse, extra patterns compile, lists
    are the trimmed non-blank items, and namespaces are listed when the scope is
    namespace. The stabilisation window is its number of seconds (not negative) in
    nanoseconds with the wrap-around of int64; that the short TTL is below the long
    one is not among the conditions. *)
Theorem FromEnv_valid Compile ParseQuantity Getenv c :
  FromEnv Compile ParseQuantity Getenv = Ok c <-> configured Compile ParseQuantity Getenv c.
Proof.
  split; [apply FromEnv_configured|apply configured_FromEnv].
Qed.

(** ** A concrete environment *)
Definition example_env : list (string * string) :=
  [("GITOPS_REPO", "org/repo"); ("GITOPS_MANIFEST_ROOT", "kubernetes"); ("AGENT_IMAGE", "agent:1");
   ("AGENT_NAMESPACE", "mechanic"); ("AGENT_SA", "mechanic-agent")].
Definition env_get (l : list (string * string)) (name : string) : string :=
  default "" (assoc name l).

Definition default_config : Config :=
  {| cfg_GitOpsRepo := "org/repo"; cfg_GitOpsManifestRoot := "kubernetes";
     cfg_AgentImage := "agent:1"; cfg_AgentNamespace := "mechanic";
     cfg_AgentSA := "mechanic-agent"; cfg_AgentType := AgentTypeOpenCode;
     cfg_SinkType := "github"; cfg_LogLevel := "info"; cfg_MaxConcurrentJobs := 3;
     cfg_RemediationJobTTLSeconds := 604800; cfg_StabilisationWindow := 120 * second;
     cfg_DisableCascadeCheck := false; cfg_CascadeNamespaceThreshold := 0;
     cfg_CascadeNodeCacheTTL := 0; cfg_InjectionDetectionAction := "log";
     cfg_AgentRBACScope := "cluster"; cfg_AgentWatchNamespaces := [];
     cfg_WatchNamespaces := []; cfg_ExcludeNamespaces := []; cfg_MaxInvestigationRetries := 3;
     cfg_MinSeverity := "low"; cfg_SelfRemediationMaxDepth := 2;
     cfg_SelfRemediationCooldown := 300 * second; cfg_DryRun := false;
     cfg_HardenAgentKubectl := false; cfg_ExtraRedactPatterns := [];
     cfg_CorrelationWindowSeconds := 30; cfg_DisableCorrelation := false;
     cfg_MultiPodThreshold := 3; cfg_PRAutoClose := true;
     cfg_RemediationJobShortTTLSeconds := 86400; cfg_AgentCPURequest := None;
     cfg_AgentMemRequest := None; cfg_AgentCPULimit := None; cfg_AgentMemLimit := None;
     cfg_AgentActiveDeadlineSeconds := 1800 |}.

Lemma FromEnv_defaults Compile ParseQuantity :
  FromEnv Compile ParseQuantity (env_get example_env) = Ok default_config.
Proof. vm_compute. reflexivity. Qed.

Lemma FromEnv_valid_witness :
  FromEnv (fun _ => None) (fun _ => true) (env_get example_env) = Ok default_config /\
  configured (fun _ => None) (fun _ => true) (env_get example_env) default_config.
Proof.
  split; [vm_compute; reflexivity|].
  apply (FromEnv_valid (fun _ => None) (fun _ => true) (env_get example_env)).
  vm_compute. reflexivity.
Defined.

(** ** Decimal round trip *)
Lemma digit_of_digit d : 0 <= d < 10 -> digit_of (digit d) = Some d.
Proof.
  intros H. assert (exists k, (k < 10)%nat /\ d = Z.of_nat k) as (k & Hk & ->).
  { exists (Z.to_nat d). lia. }
  clear H. unfold digit. rewrite Nat2Z.id.
  do 10 (destruct k as [|k]; [reflexivity|]). lia.
Qed.

Lemma parse_itoa_go fuel n acc :
  0 <= n < 10 ^ Z.of_nat fuel -> (fuel <> 0)%nat ->
  exists (k : nat) c rest, itoa_go fuel n acc = String c rest /\ is_Some (digit_of c) /\
    forall a, parse_digits a (itoa_go fuel n acc) = parse_digits (a * 10 ^ Z.of_nat k + n) acc.
Proof.
  revert n acc. induction fuel as [|f IH]; intros n acc Hn Hf; [done|]. cbn [itoa_go].
  assert (0 <= n mod 10 < 10) as Hm by dlia.
  destruct (Z.ltb_spec n 10) as [Hlt|Hge].
  - exists 1%nat. eexists _, _. split; [reflexivity|]. rewrite (Z.mod_small n 10) by lia.
    rewrite digit_of_digit by lia. split; [eauto|]. intros a. cbn [parse_digits].
    rewrite digit_of_digit by lia. f_equal. lia.
  - assert (0 <= n / 10 < 10 ^ Z.of_nat f) as Hd.
    { rewrite Nat2Z.inj_succ, Z.pow_succ_r in Hn by lia. dlia. }
    assert (f <> 0)%nat as Hf0 by (intros ->; simpl in Hd; dlia).
    destruct (IH (n / 10) (String (digit (n mod 10)) acc) Hd Hf0) as (k & c & rest & E & Hc & Hp).
    exists (S k), c, rest. split; [done|]. split; [done|]. intros a.
    rewrite Hp. cbn [parse_digits]. rewrite digit_of_digit by lia. f_equal.
    rewrite Nat2Z.inj_succ, Z.pow_succ_r by lia. dlia.
Qed.

Lemma digit_not_sign c : is_Some (digit_of c) -> Ascii.eqb c "-" = false /\ Ascii.eqb c "+" = false.
Proof.
  intros [d H]. split; apply Ascii.eqb_neq; intros ->; discriminate.
Qed.

Lemma Atoi_itoa n : in_int64 n -> Atoi (itoa n) = Some n.
Proof.
  unfold in_int64, min_int64, max_int64. intros Hn. unfold Atoi, itoa.
  destruct (Z.ltb_spec n 0) as [Hneg|Hpos].
  - destruct (parse_itoa_go 20 (- n) "") as (k & c & rest & E & Hc & Hp); [simpl; lia|done|].
    simpl Ascii.eqb. cbn iota beta. rewrite Hp. rewrite E. cbn [String.eqb parse_digits].
    replace (0 * 10 ^ Z.of_nat k + - n) with (- n) by lia. rewrite Z.opp_involutive.
    unfold min_int64, max_int64.
    by rewrite (proj2 (Z.leb_le _ n)), (proj2 (Z.leb_le n _)) by lia.
  - destruct (parse_itoa_go 20 n "") as (k & c & rest & E & Hc & Hp); [simpl; lia|done|].
    specialize (Hp 0). rewrite E in *. destruct (digit_not_sign c Hc) as [-> ->].
    rewrite Hp. cbn [String.eqb parse_digits].
    replace (0 * 10 ^ Z.of_nat k + n) with n by lia. unfold min_int64, max_int64.
    by rewrite (proj2 (Z.leb_le _ n)), (proj2 (Z.leb_le n _)) by lia.
Qed.

Lemma itoa_nonempty n : in_int64 n -> itoa n <> "".
Proof. intros Hn E. pose proof (Atoi_itoa n Hn) as H. by rewrite E in H. Qed.

(** An integer variable set to the decimal text of any 64-bit number within its bounds
    is read back as that number. *)
Theorem integer_variable_is_honoured Getenv name dflt lo hi n :
  in_int64 n -> in_bounds lo hi n -> Getenv name = itoa n ->
  int_var Getenv name dflt lo hi = Ok n.
Proof.
  intros Hn [Hlo Hhi] HE. unfold int_var. rewrite HE, Atoi_itoa by done.
  rewrite (proj2 (String.eqb_neq _ _) (itoa_nonempty n Hn)), (proj2 (Z.ltb_ge n lo) Hlo).
  destruct hi as [h|]; [|done]. by rewrite (proj2 (Z.ltb_ge h n) Hhi).
Qed.

Lemma integer_variable_is_honoured_witness :
  int_var (env_get [("MAX_CONCURRENT_JOBS", "12")]) "MAX_CONCURRENT_JOBS" 3 1 None = Ok 12.
Proof.
  apply integer_variable_is_honoured.
  - unfold in_int64, min_int64, max_int64. lia.
  - unfold in_bounds, max_int64. lia.
  - vm_compute. reflexivity.
Defined.

(** FromEnv accepts environments in which the correlation window is shorter than the
    stabilisation window, in which the short TTL exceeds the long one, and in which
    the stabilisation window overflows to a negative duration. *)
Theorem documented_orders_are_not_enforced Compile ParseQuantity :
  (exists env c, FromEnv Compile ParseQuantity env = Ok c /\
     seconds (cfg_CorrelationWindowSeconds c) < cfg_StabilisationWindow c) /\
  (exists env c, FromEnv Compile ParseQuantity env = Ok c /\
     cfg_RemediationJobTTLSeconds c < cfg_RemediationJobShortTTLSeconds c) /\
  (exists env c, FromEnv Compile ParseQuantity env = Ok c /\ cfg_StabilisationWindow c < 0).
Proof.
  split; [|split].
  - exists (env_get example_env). eexists. split; [vm_compute; reflexivity|reflexivity].
  - exists (env_get (("REMEDIATION_JOB_TTL_SECONDS", "3600") :: example_env)).
    eexists. split; [vm_compute; reflexivity|reflexivity].
  - exists (env_get (("STABILISATION_WINDOW_SECONDS", "10000000000") :: example_env)).
    eexists. split; [vm_compute; reflexivity|reflexivity].
Qed.
