(* ===== verification/Metrics.v ===== *)
(** * internal/metrics (src/internal/metrics/metrics.go)
    The collectors as they are declared and registered, the label values and the
    wrappers the reconcilers call.  What a collector does with a sample belongs
    to the Prometheus client; a wrapper is the [Metric] call it makes.  Durations
    stay in nanoseconds. *)
From stdpp Require Import base sets list strings.
From Stdlib Require Import ZArith Lia.
From S2P Require Import Prelude Prog K8s Types Effects.
Import GoTime.
Open Scope string_scope.
Open Scope Z_scope.
Open Scope go_scope.

Definition ReasonMinSeverity := "min_severity".
Definition ReasonStabilisationWindow := "stabilisation_window".
Definition ReasonDuplicate := "duplicate".
Definition ReasonParentHierarchy := "parent_hierarchy".
Definition ReasonPermanentlyFailed := "permanently_failed".
Definition ReasonCorrelationSuppressed := "correlation_suppressed".
Definition ReasonInjectionDetected := "injection_detected".
Definition ReasonSelfRemediationDepth := "self_remediation_depth".
Definition ReasonCircuitBreaker := "circuit_breaker".

Definition OutcomeSucceeded := "succeeded".
Definition OutcomeFailed := "failed".
Definition OutcomePermanentlyFailed := "permanently_failed".

Definition RecordDispatched (kind severity : string) : io unit :=
  metric_inc (FindingsDispatched kind severity).
Definition RecordSuppressed (reason : string) : io unit := metric_inc (FindingsSuppressed reason).
Definition SetActiveJobs (count : Z) : io unit := metric_inc (AgentJobsActive count).
Definition SetPendingJobs (count : Z) : io unit := metric_inc (AgentJobsPending count).
Definition RecordPROpened : io unit := metric_inc PRsOpened.
Definition RecordPRClosed : io unit := metric_inc PRsClosed.
Definition RecordCircuitBreakerActivation : io unit := metric_inc CircuitBreakerActivations.

Definition ObserveJobDuration (fingerprint outcome : string) (dispatched completed : Z) : io unit :=
  if IsZero dispatched || IsZero completed then Ret tt
  else
    let dur := Sub completed dispatched in
    metric_inc (AgentJobDuration fingerprint outcome (if dur <? 0 then 0 else dur)).

(** ** The collectors (lines 41-143) *)
Inductive collector_type := CounterVec | GaugeVec | Counter | Gauge.

(** The help texts are left out. *)
Record collector := {
  col_Type : collector_type;
  col_Namespace : string;
  col_Name : string;
  col_Labels : list string }.

Definition FindingsDispatchedTotal : collector :=
  {| col_Type := CounterVec; col_Namespace := "mechanic"; col_Name := "findings_dispatched_total";
     col_Labels := ["kind"; "severity"] |}.
Definition FindingsSuppressedTotal : collector :=
  {| col_Type := CounterVec; col_Namespace := "mechanic"; col_Name := "findings_suppressed_total";
     col_Labels := ["reason"] |}.
Definition AgentJobsActiveGauge : collector :=
  {| col_Type := Gauge; col_Namespace := "mechanic"; col_Name := "agent_jobs_active"; col_Labels := [] |}.
Definition AgentJobsPendingGauge : collector :=
  {| col_Type := Gauge; col_Namespace := "mechanic"; col_Name := "agent_jobs_pending"; col_Labels := [] |}.
Definition AgentJobDurationSeconds : collector :=
  {| col_Type := GaugeVec; col_Namespace := "mechanic"; col_Name := "agent_job_duration_seconds";
     col_Labels := ["fingerprint"; "outcome"] |}.
Definition PRsOpenedTotal : collector :=
  {| col_Type := Counter; col_Namespace := "mechanic"; col_Name := "prs_opened_total"; col_Labels := [] |}.
Definition PRsClosedTotal : collector :=
  {| col_Type := Counter; col_Namespace := "mechanic"; col_Name := "prs_closed_total"; col_Labels := [] |}.
Definition CircuitBreakerActivationsTotal : collector :=
  {| col_Type := Counter; col_Namespace := "mechanic"; col_Name := "circuit_breaker_activations_total";
     col_Labels := [] |}.

(** [init]: what is handed to [MustRegister]. *)
Definition registered : list collector :=
  [FindingsDispatchedTotal; FindingsSuppressedTotal; AgentJobsActiveGauge; AgentJobsPendingGauge;
   AgentJobDurationSeconds; PRsOpenedTotal; PRsClosedTotal; CircuitBreakerActivationsTotal].

Definition fq_name (c : collector) : string := col_Namespace c +:+ "_" +:+ col_Name c.

(** The collector of a sample and its label values. *)
Definition sample (m : metric) : collector * list string :=
  match m with
  | FindingsDispatched kind severity => (FindingsDispatchedTotal, [kind; severity])
  | FindingsSuppressed reason => (FindingsSuppressedTotal, [reason])
  | AgentJobsActive _ => (AgentJobsActiveGauge, [])
  | AgentJobsPending _ => (AgentJobsPendingGauge, [])
  | AgentJobDuration fingerprint outcome _ => (AgentJobDurationSeconds, [fingerprint; outcome])
  | PRsOpened => (PRsOpenedTotal, [])
  | PRsClosed => (PRsClosedTotal, [])
  | CircuitBreakerActivations => (CircuitBreakerActivationsTotal, [])
  end.

(** [MustRegister] panics on a name that is taken, [WithLabelValues] on a wrong
    number of values: neither can happen. *)
Lemma samples_fit :
  NoDup (map fq_name registered) /\
  forall m, (sample m).1 ∈ registered /\ List.length (sample m).2 = List.length (col_Labels (sample m).1).
Proof.
  split; [apply (bool_decide_unpack _); vm_compute; exact I|].
  intros []; (split; [|reflexivity]); unfold registered; cbn [sample fst]; set_solver.
Qed.
