(* ===== verification/Controller.v ===== *)
(** * RemediationJobReconciler (src/internal/controller/remediationjob_controller.go)
    The life cycle of a RemediationJob: the blank phase becomes Pending, a
    Pending job is correlated, gated and dispatched as a batch/v1 Job, a
    dispatched job follows its batch/v1 Job, a succeeded one waits for its TTL.

    [Reconcile] is cut where the function's own step comments cut it.  A status
    patch that succeeds leaves the server's object in the pointer the code goes
    on with; one that fails leaves the local changes there.  Logging has no
    effect on the result and is left out. *)
From stdpp Require Import base list strings gmap.
From Stdlib Require Import ZArith Lia Ascii.
From S2P Require Import Prelude Prog Utf8 Regex Redact K8s Types Effects Domain Metrics.
From S2P Require Import Correlator Config.
Import GoErr GoStr GoTime GoInt.
Open Scope list_scope.
Open Scope string_scope.
Open Scope Z_scope.
Open Scope go_scope.

Record RemediationJobReconciler := {
  r_Cfg : Config;
  (** [JobBuilder.Build], which may panic *)
  r_Build : RemediationJob -> list FindingSpec -> outcome (res Job);
  (** whether [Recorder] is set *)
  r_Recorder : bool;
  r_Correlator : option Correlator }.

Definition managed_by : list (string * string) :=
  [("app.kubernetes.io/managed-by", "mechanic-watcher")].

Definition jobStalenessTimeout : Z := 30 * minute.

Definition DryRunCMName (fingerprint : string) : string :=
  "mechanic-dryrun-" ++ (if (12 <? Z.of_nat (String.length fingerprint))%Z
                         then take 12 fingerprint else fingerprint).

(** The default of [spec.backoffLimit] is 6; the sum is an [int32] sum. *)
Definition exhausted (job : Job) : bool :=
  let backoffLimit := default 6 (js_BackoffLimit (job_Spec job)) in
  wrap32 (backoffLimit + 1) <=? js_Failed (job_Status job).

Definition syncPhaseFromJob (job : Job) : RemediationJobPhase :=
  if 0 <? js_Succeeded (job_Status job) then PhaseSucceeded
  else if exhausted job then PhaseFailed
  else if 0 <? js_Active (job_Status job) then PhaseRunning
  else PhaseDispatched.

Definition isJobActive (j : Job) : io bool :=
  if 0 <? js_Succeeded (job_Status j) then Ret false
  else if exhausted j then Ret false
  else if (js_Active (job_Status j) =? 0) && (js_Failed (job_Status j) =? 0) then
    t <- now ;;
    Ret (negb (jobStalenessTimeout <? Sub t (meta_CreationTimestamp (job_Meta j))))
  else Ret true.

Fixpoint count_active (jobs : list Job) : io Z :=
  match jobs with
  | [] => Ret 0
  | j :: rest =>
      b <- isJobActive j ;;
      n <- count_active rest ;;
      Ret (if b : bool then n + 1 else n)
  end.

Definition count_pending (jobs : list RemediationJob) : Z :=
  Z.of_nat (List.length (List.filter (fun r => phase_eqb (rj_Phase r) PhasePending) jobs)).

Section Reconcile.
Context `{ConditionLib}.
(** [err.Error()] of the client library's errors. *)
Context (error_text : error -> string).
Context (r : RemediationJobReconciler).

Definition agent_ns : string := cfg_AgentNamespace (r_Cfg r).

Definition recorded (t : eventtype) (reason message : string) : io unit :=
  if r_Recorder r then call (RecordEvent t reason message) else Ret tt.

Definition condition_true (type reason message : string) (t : Z) : Condition :=
  {| cond_Type := type; cond_Status := ConditionTrue; cond_Reason := reason;
     cond_Message := message; cond_LastTransitionTime := t |}.

(** ** concurrencyGate: [Ok (Some result)] when limited. *)
Definition concurrencyGate : io (res (option Result)) :=
  if cfg_MaxConcurrentJobs (r_Cfg r) =? 0 then Ret (Ok None)
  else
    jobs <- call (ListJobs agent_ns managed_by) ;;
    match jobs with
    | Err e => Ret (Err e)
    | Ok items =>
        activeCount <- count_active items ;;
        SetActiveJobs activeCount ;;;
        pending <- call (ListRJobs agent_ns managed_by) ;;
        (match pending with
         | Ok l => SetPendingJobs (count_pending l)
         | Err _ => Ret tt
         end) ;;;
        Ret (Ok (if cfg_MaxConcurrentJobs (r_Cfg r) <=? activeCount
                 then Some (requeue_after (30 * second)) else None))
    end.

(** ** dispatch *)
Definition injected (f : FindingSpec) : bool :=
  Injection.DetectInjection (fs_Errors f) || Injection.DetectInjection (fs_Details f).

(** The job exists already: take its state over. *)
Definition adopt_existing (rjob : RemediationJob) (job : Job) : io (res unit) :=
  got <- call (GetJob (meta_Namespace (job_Meta job)) (meta_Name (job_Meta job))) ;;
  match got with
  | Err e => Ret (Err e)
  | Ok existing =>
      let r1 := set_Phase (syncPhaseFromJob existing) rjob in
      let r2 := if String.eqb (st_JobRef (rj_Status r1)) ""
                then set_JobRef (meta_Name (job_Meta existing)) r1 else r1 in
      p <- call (StatusPatchRJob r2 rjob) ;;
      match p with
      | Err e => Ret (Err e)
      | Ok _ =>
          recorded EventNormal "JobDispatched" ("Created agent Job " ++ meta_Name (job_Meta job)) ;;;
          Ret (Ok tt)
      end
  end.

Definition suppress_injected (rjob : RemediationJob) : io (res unit) :=
  t <- now ;;
  let r1 := set_Condition
              (condition_true ConditionPermanentlyFailed "InjectionDetected"
                 "injection pattern detected in finding; dispatch suppressed" t)
              (set_Phase PhasePermanentlyFailed rjob) in
  p <- call (StatusPatchRJob r1 rjob) ;;
  Ret (match p with Ok _ => Ok tt | Err e => Err e end).

Definition mark_dispatched (rjob : RemediationJob) (name : string) (t : Z) : RemediationJob :=
  set_Condition (condition_true ConditionJobDispatched "JobCreated" "" t)
    (set_DispatchedAt (Some t) (set_JobRef name (set_Phase PhaseDispatched rjob))).

Definition dispatch (rjob : RemediationJob) (correlatedFindings : list FindingSpec) :
    io (res unit) :=
  if injected (rj_Finding rjob)
     && String.eqb (cfg_InjectionDetectionAction (r_Cfg r)) "suppress"
  then suppress_injected rjob
  else
    match r_Build r rjob correlatedFindings with
    | Panicked m => Panic m
    | Done (Err e) => Ret (Err (EWrap "building Job: " e))
    | Done (Ok job) =>
        c <- call (CreateJob job) ;;
        match c with
        | Err e =>
            if IsAlreadyExists e then adopt_existing rjob job
            else Ret (Err (EWrap "creating Job: " e))
        | Ok created =>
            t <- now ;;
            p <- call (StatusPatchRJob (mark_dispatched rjob (meta_Name (job_Meta created)) t) rjob) ;;
            match p with
            | Err e => Ret (Err e)
            | Ok _ =>
                recorded EventNormal "JobDispatched"
                  ("Created agent Job " ++ meta_Name (job_Meta created)) ;;;
                Ret (Ok tt)
            end
        end
    end.

(** [return ctrl.Result{}, r.dispatch(...)]. *)
Definition dispatched (rjob : RemediationJob) (fs : list FindingSpec) : io reconciled :=
  d <- dispatch rjob fs ;;
  Ret (match d with Ok _ => Ok no_requeue | Err e => Err e end).

(** The gate in front of a dispatch. *)
Definition gated_dispatch (rjob : RemediationJob) (fs : list FindingSpec) : io reconciled :=
  g <- concurrencyGate ;;
  match g with
  | Err e => Ret (Err e)
  | Ok (Some result) => Ret (Ok result)
  | Ok None => dispatched rjob fs
  end.

(** ** Correlation *)
Definition pendingPeers (candidate : RemediationJob) : io (res (list RemediationJob)) :=
  l <- call (ListRJobs agent_ns managed_by) ;;
  Ret (match l with
       | Err e => Err e
       | Ok items =>
           Ok (List.filter (fun p => negb (String.eqb (rj_UID p) (rj_UID candidate))
                                     && phase_eqb (rj_Phase p) PhasePending) items)
       end).

Definition transitionSuppressed (rjob : RemediationJob) (groupID primaryUID : string) :
    io (res unit) :=
  if phase_eqb (rj_Phase rjob) PhaseSuppressed then Ret (Ok tt)
  else if negb (phase_eqb (rj_Phase rjob) PhasePending) then Ret (Ok tt)
  else
    t <- now ;;
    let r1 := set_Condition
                (condition_true ConditionCorrelationSuppressed "CorrelatedGroupFound"
                   ("suppressed: primary job UID " ++ primaryUID ++ " handles investigation") t)
                (set_GroupID groupID (set_Phase PhaseSuppressed rjob)) in
    RecordSuppressed ReasonCorrelationSuppressed ;;;
    p <- call (StatusPatchRJob r1 rjob) ;;
    match p with
    | Err e => Ret (Err e)
    | Ok r2 =>
        let r3 := set_Label CorrelationGroupRoleLabel CorrelationRoleCorrelated
                    (set_Label CorrelationGroupIDLabel groupID r2) in
        q <- call (PatchRJob r3 r2) ;;
        Ret (match q with Ok _ => Ok tt | Err e => Err e end)
    end.

Fixpoint suppressCorrelatedPeers (peers : list RemediationJob) (group : CorrelationGroup) :
    io (res unit) :=
  match peers with
  | [] => Ret (Ok tt)
  | peer :: rest =>
      if negb (in_group group peer) then suppressCorrelatedPeers rest group
      else
        s <- transitionSuppressed peer (cg_GroupID group) (cg_PrimaryUID group) ;;
        match s with
        | Err e => Ret (Err e)
        | Ok _ => suppressCorrelatedPeers rest group
        end
  end.

Definition with_GroupID (g : string) (group : CorrelationGroup) : CorrelationGroup :=
  {| cg_GroupID := g; cg_PrimaryUID := cg_PrimaryUID group;
     cg_CorrelatedUIDs := cg_CorrelatedUIDs group; cg_Rule := cg_Rule group;
     cg_AllFindings := cg_AllFindings group |}.

Definition primary_labels (g : string) (rjob : RemediationJob) : RemediationJob :=
  set_Label CorrelationGroupRoleLabel CorrelationRolePrimary
    (set_Label CorrelationGroupIDLabel g rjob).

(** A group identifier already recorded on the primary is kept. *)
Definition effective_group (rjob : RemediationJob) (group : CorrelationGroup) : CorrelationGroup :=
  let inStatus := st_CorrelationGroupID (rj_Status rjob) in
  let inLabel := map_get (rj_Labels rjob) CorrelationGroupIDLabel in
  if negb (String.eqb inStatus "") then with_GroupID inStatus group
  else if negb (String.eqb inLabel "") then with_GroupID inLabel group
  else group.

(** The primary suppresses its peers, records the group and dispatches. *)
Definition dispatch_primary (rjob : RemediationJob) (peers : list RemediationJob)
    (group0 : CorrelationGroup) : io reconciled :=
  let group := effective_group rjob group0 in
  s <- suppressCorrelatedPeers peers group ;;
  match s with
  | Err e => Ret (Err e)
  | Ok _ =>
      p <- call (StatusPatchRJob (set_GroupID (cg_GroupID group) rjob) rjob) ;;
      match p with
      | Err e => Ret (Err e)
      | Ok r1 =>
          q <- call (PatchRJob (primary_labels (cg_GroupID group) r1) r1) ;;
          match q with
          | Err e => Ret (Err e)
          | Ok r2 => dispatched r2 (cg_AllFindings group)
          end
      end
  end.

(** Lines 431-473: a Pending job that carries a group identifier was the primary
    of a group whose dispatch did not complete. *)
Definition recovered_findings (rjob : RemediationJob) (items : list RemediationJob) :
    list FindingSpec :=
  map rj_Finding
    (List.filter (fun p =>
       negb (String.eqb (rj_UID p) (rj_UID rjob))
       && (String.eqb (st_CorrelationGroupID (rj_Status p)) (st_CorrelationGroupID (rj_Status rjob))
           && phase_eqb (rj_Phase p) PhaseSuppressed)) items).

Definition recover_group (rjob : RemediationJob) : io reconciled :=
  l <- call (ListRJobs agent_ns managed_by) ;;
  match l with
  | Err e => Ret (Err (EWrap "listing peers for correlation recovery: " e))
  | Ok items =>
      let recoveredFindings := recovered_findings rjob items in
      if String.eqb (map_get (rj_Labels rjob) CorrelationGroupIDLabel) "" then
        q <- call (PatchRJob
               (primary_labels (st_CorrelationGroupID (rj_Status rjob)) rjob) rjob) ;;
        match q with
        | Err e => Ret (Err e)
        | Ok r1 => gated_dispatch r1 recoveredFindings
        end
      else gated_dispatch rjob recoveredFindings
  end.

(** Lines 363-394: a member that is not the primary waits for the primary, unless
    the primary is gone for good. *)
Definition window : Z := seconds (cfg_CorrelationWindowSeconds (r_Cfg r)).
Definition gracePeriod : Z :=
  wrap64 (wrap64 (3 * cfg_CorrelationWindowSeconds (r_Cfg r)) * second).

Definition hold_for_primary (rjob : RemediationJob) (group : CorrelationGroup) : io (res bool) :=
  l <- call (ListRJobs agent_ns managed_by) ;;
  match l with
  | Err e => Ret (Err (EWrap "listing all jobs to check primary liveness: " e))
  | Ok items =>
      let primaryGone := negb (existsb (fun p => String.eqb (rj_UID p) (cg_PrimaryUID group)) items) in
      t <- now ;;
      let waitedLongEnough := wrap64 (gracePeriod + window) <? Sub t (rj_Created rjob) in
      Ret (Ok (negb (primaryGone && waitedLongEnough)))
  end.

(** Lines 431-484 after the correlator found nothing to do. *)
Definition recover_or_dispatch (rjob : RemediationJob) : io reconciled :=
  if negb (String.eqb (st_CorrelationGroupID (rj_Status rjob)) "")
     && phase_eqb (rj_Phase rjob) PhasePending
  then recover_group rjob
  else gated_dispatch rjob [].

(** Lines 354-429. *)
Definition correlate (c : Correlator) (rjob : RemediationJob) : io reconciled :=
  ps <- pendingPeers rjob ;;
  match ps with
  | Err e => Ret (Err (EWrap "listing pending peers: " e))
  | Ok peers =>
      ev <- Evaluate c rjob peers ;;
      match ev with
      | Err e => Ret (Err (EWrap "correlator evaluate: " e))
      | Ok None => recover_or_dispatch rjob
      | Ok (Some group) =>
          if negb (String.eqb (cg_PrimaryUID group) (rj_UID rjob)) then
            hold <- hold_for_primary rjob group ;;
            match hold with
            | Err e => Ret (Err e)
            | Ok true => Ret (Ok (requeue_after (5 * second)))
            | Ok false => recover_or_dispatch rjob
            end
          else dispatch_primary rjob peers group
      end
  end.

(** Lines 346-485: the job has no batch/v1 Job yet. *)
Definition reconcile_pending (rjob : RemediationJob) : io reconciled :=
  match r_Correlator r with
  | None => gated_dispatch rjob []
  | Some c =>
      if 0 <? window then
        t <- now ;;
        let age := Sub t (rj_Created rjob) in
        if age <? window then Ret (Ok (requeue_after (wrap64 (window - age))))
        else correlate c rjob
      else correlate c rjob
  end.

(** ** The dry-run report *)
Definition lf : string := String "010"%char EmptyString.

Definition report_text (cm : ConfigMap) : string :=
  let report := map_get (cm_Data cm) "report" in
  let patch := map_get (cm_Data cm) "patch" in
  report ++ (if negb (String.eqb patch "")
             then lf ++ lf ++ "=== PROPOSED PATCH ===" ++ lf ++ patch ++ lf ++ "=== END PATCH ==="
             else "").

Definition fetchDryRunReport (rjob : RemediationJob) : io string :=
  let cmName := DryRunCMName (spec_Fingerprint (rj_Spec rjob)) in
  g <- call (GetConfigMap agent_ns cmName) ;;
  match g with
  | Err e =>
      if IsNotFound e then
        Ret ("dry-run report unavailable: ConfigMap " ++ agent_ns ++ "/" ++ cmName
             ++ " not found (agent may have crashed before writing it)")
      else Ret ("dry-run report unavailable: get ConfigMap: " ++ error_text e)
  | Ok cm =>
      call (DeleteConfigMap cm) ;;;
      Ret (TrimSpace (report_text cm))
  end.

(** ** Following the batch/v1 Job (lines 197-332) *)
Definition effective_max_retries (rjob : RemediationJob) : Z :=
  if spec_MaxRetries (rj_Spec rjob) <=? 0 then 3 else spec_MaxRetries (rj_Spec rjob).

(** Lines 204-241: the conditions and the retry count of a job that ended.
    [before] is the object before the phase was changed. *)
Definition mark_failed (before rjob : RemediationJob) : io RemediationJob :=
  let r1 := if negb (phase_eqb (rj_Phase before) PhaseFailed)
            then set_RetryCount (wrap32 (st_RetryCount (rj_Status rjob) + 1)) rjob else rjob in
  let maxRetries := effective_max_retries r1 in
  let count := st_RetryCount (rj_Status r1) in
  t <- now ;;
  Ret (if maxRetries <=? count
       then set_Condition
              (condition_true ConditionPermanentlyFailed "RetryCapReached"
                 ("RetryCount " ++ itoa count ++ " reached MaxRetries " ++ itoa maxRetries) t)
              (set_Phase PhasePermanentlyFailed r1)
       else set_Condition
              (condition_true ConditionJobFailed (phase_string PhaseFailed) "" t) r1).

Definition mark_complete (rjob : RemediationJob) : io RemediationJob :=
  t <- now ;;
  Ret (set_Condition
         (condition_true ConditionJobComplete (phase_string PhaseSucceeded) "" t) rjob).

(** Lines 243-265. *)
Definition mark_completed_at (before rjob : RemediationJob) (newPhase : RemediationJobPhase) :
    io RemediationJob :=
  r1 <- (match st_CompletedAt (rj_Status rjob) with
         | None => t <- now ;; Ret (set_CompletedAt (Some t) rjob)
         | Some _ => Ret rjob
         end) ;;
  (match st_CompletedAt (rj_Status before), st_DispatchedAt (rj_Status r1),
         st_CompletedAt (rj_Status r1) with
   | None, Some d, Some c =>
       let outcome :=
         if phase_eqb (rj_Phase r1) PhasePermanentlyFailed then OutcomePermanentlyFailed
         else if phase_eqb newPhase PhaseFailed then OutcomeFailed
         else OutcomeSucceeded in
       let fp := spec_Fingerprint (rj_Spec r1) in
       let fp12 := if (12 <=? Z.of_nat (String.length fp))%Z then take 12 fp else "" in
       ObserveJobDuration fp12 outcome d c
   | _, _, _ => Ret tt
   end) ;;;
  Ret r1.

Definition finish (before rjob : RemediationJob) (newPhase : RemediationJobPhase) :
    io RemediationJob :=
  match newPhase with
  | PhaseSucceeded =>
      r1 <- mark_complete rjob ;; mark_completed_at before r1 newPhase
  | PhaseFailed =>
      r1 <- mark_failed before rjob ;; mark_completed_at before r1 newPhase
  | _ => Ret rjob
  end.

(** Lines 310-330. *)
Definition record_outcome (rjob : RemediationJob) (job : Job) (newPhase : RemediationJobPhase) :
    io unit :=
  match newPhase with
  | PhaseSucceeded =>
      let prRef := st_PRRef (rj_Status rjob) in
      if negb (String.eqb prRef "")
      then recorded EventNormal "JobSucceeded" ("Agent Job completed; PR: " ++ prRef)
      else recorded EventNormal "JobSucceeded" "Agent Job completed"
  | PhaseFailed =>
      if phase_eqb (rj_Phase rjob) PhasePermanentlyFailed
      then recorded EventWarning "JobPermanentlyFailed"
             ("Agent Job permanently failed after " ++ itoa (st_RetryCount (rj_Status rjob))
              ++ " attempt(s); no further retries")
      else recorded EventWarning "JobFailed"
             ("Agent Job failed after " ++ itoa (js_Failed (job_Status job)) ++ " attempt(s)")
  | _ => Ret tt
  end.

Definition wants_report (job : Job) (newPhase : RemediationJobPhase) (rjob : RemediationJob) : bool :=
  phase_eqb newPhase PhaseSucceeded
  && String.eqb (map_get (meta_Annotations (job_Meta job)) "mechanic.io/dry-run") "true"
  && String.eqb (st_Message (rj_Status rjob)) "".

Definition sync_owned (rjob : RemediationJob) (job : Job) : io reconciled :=
  let newPhase := syncPhaseFromJob job in
  r1 <- finish rjob (set_Phase newPhase rjob) newPhase ;;
  let r2 := if String.eqb (st_JobRef (rj_Status r1)) ""
            then set_JobRef (meta_Name (job_Meta job)) r1 else r1 in
  r3 <- (if wants_report job newPhase r2
         then m <- fetchDryRunReport r2 ;; Ret (set_Message m r2)
         else Ret r2) ;;
  p <- call (StatusPatchRJob r3 rjob) ;;
  match p with
  | Err e => Ret (Err e)
  | Ok r4 => record_outcome r4 job newPhase ;;; Ret (Ok no_requeue)
  end.

(** ** The TTL of a succeeded job (lines 112-165) *)
Definition ttl : Z := seconds (cfg_RemediationJobTTLSeconds (r_Cfg r)).
Definition shortTTL : Z :=
  let d := seconds (cfg_RemediationJobShortTTLSeconds (r_Cfg r)) in
  if d =? 0 then 24 * hour else d.

Definition deadline (rjob : RemediationJob) (completedAt : Z) : Z :=
  if st_PRMerged (rj_Status rjob)
  then Add (default completedAt (st_PRMergedAt (rj_Status rjob))) ttl
  else Add completedAt shortTTL.

Definition stamp_completed (rjob : RemediationJob) : io reconciled :=
  t <- now ;;
  p <- call (StatusPatchRJob (set_CompletedAt (Some t) rjob) rjob) ;;
  match p with
  | Ok _ => Ret (Ok (requeue_after second))
  | Err e => if IsNotFound e then Ret (Ok (requeue_after second)) else Ret (Err e)
  end.

Definition expire (rjob : RemediationJob) : io reconciled :=
  d <- call (DeleteRJob rjob) ;;
  match (match d with Ok _ => None | Err e => if IsNotFound e then None else Some e end) with
  | Some e => Ret (Err e)
  | None =>
      t <- now ;;
      p <- call (StatusPatchRJob (set_CompletedAt (Some t) rjob) rjob) ;;
      Ret (match p with Ok _ => Ok requeue_now | Err e => Err e end)
  end.

Definition reconcile_succeeded (rjob : RemediationJob) : io reconciled :=
  match st_CompletedAt (rj_Status rjob) with
  | None => stamp_completed rjob
  | Some completedAt =>
      let deadline := deadline rjob completedAt in
      t <- now ;;
      if Before t deadline then
        t2 <- now ;; Ret (Ok (requeue_after (Sub deadline t2)))
      else expire rjob
  end.

(** ** Reconcile *)
(** Lines 63-91: count the PR the first time its URL is seen. *)
Definition record_pr (rjob : RemediationJob) : io RemediationJob :=
  if negb (String.eqb (rj_URL rjob) "")
     && negb (IsStatusConditionTrue (st_Conditions (rj_Status rjob)) ConditionPRRecorded)
  then
    RecordPROpened ;;;
    t <- now ;;
    let r1 := set_Condition
                (condition_true ConditionPRRecorded "SinkRefObserved"
                   "SinkRef.URL observed; prs_opened_total incremented" t) rjob in
    p <- call (StatusPatchRJob r1 rjob) ;;
    Ret (match p with Ok r2 => r2 | Err _ => r1 end)
  else Ret rjob.

(** Lines 93-103. *)
Definition init_phase (rjob : RemediationJob) : io reconciled :=
  p <- call (StatusPatchRJob (set_Phase PhasePending rjob) rjob) ;;
  Ret (match p with Ok _ => Ok requeue_now | Err e => Err e end).

(** Lines 186-485. *)
Definition reconcile_active (rjob : RemediationJob) : io reconciled :=
  owned <- call (ListJobs agent_ns
                   [("remediation.mechanic.io/remediation-job", rj_Name rjob)]) ;;
  match owned with
  | Err e => Ret (Err e)
  | Ok (job :: _) => sync_owned rjob job
  | Ok [] =>
      if phase_eqb (rj_Phase rjob) PhaseDispatched || phase_eqb (rj_Phase rjob) PhaseRunning
      then Ret (Ok no_requeue)
      else reconcile_pending rjob
  end.

(** Lines 96-485: the switch on the phase. *)
Definition reconcile_phase (rjob : RemediationJob) : io reconciled :=
  match rj_Phase rjob with
  | PhaseNone => init_phase rjob
  | PhaseSucceeded => reconcile_succeeded rjob
  | PhaseFailed | PhasePermanentlyFailed | PhaseCancelled | PhaseSuppressed =>
      Ret (Ok no_requeue)
  | PhasePending | PhaseDispatched | PhaseRunning => reconcile_active rjob
  end.

Definition Reconcile (namespace name : string) : io reconciled :=
  g <- call (GetRJob namespace name) ;;
  match g with
  | Err e => if IsNotFound e then Ret (Ok no_requeue) else Ret (Err e)
  | Ok rjob0 => rjob <- record_pr rjob0 ;; reconcile_phase rjob
  end.
End Reconcile.
