(* ===== verification/ControllerProps.v ===== *)
(** * Properties of the RemediationJobReconciler
    The life cycle of a RemediationJob as a relation between the object a patch
    starts from and the object it sends; what a reconcile may do in each phase;
    when a batch/v1 Job is created; the concurrency gate; the TTL. *)
From stdpp Require Import base list strings gmap.
From Stdlib Require Import ZArith Lia Ascii.
From S2P Require Import Prelude Prog Utf8 Regex Redact K8s Types Effects Domain Metrics.
From S2P Require Import Correlator Config Controller.
Import GoErr GoStr GoTime GoInt.
Open Scope list_scope.
Open Scope string_scope.
Open Scope Z_scope.
Open Scope go_scope.

(** ** The life cycle *)

(** The phases of a job that has, or may get, a running batch/v1 Job. *)
Definition live (p : RemediationJobPhase) : bool :=
  match p with PhasePending | PhaseDispatched | PhaseRunning => true | _ => false end.

(** The phases a batch/v1 Job can put its RemediationJob in. *)
Definition from_job (p : RemediationJobPhase) : bool :=
  match p with
  | PhaseDispatched | PhaseRunning | PhaseSucceeded | PhaseFailed | PhasePermanentlyFailed => true
  | _ => false
  end.

Inductive moves : RemediationJobPhase -> RemediationJobPhase -> Prop :=
| moves_stay p : moves p p
| moves_init : moves PhaseNone PhasePending
| moves_job p q : live p = true -> from_job q = true -> moves p q
| moves_suppress : moves PhasePending PhaseSuppressed.

Definition retries (r : RemediationJob) : Z := st_RetryCount (rj_Status r).

(** A failure is counted once, on the way out of a live phase. *)
Inductive counts (base obj : RemediationJob) : Prop :=
| counts_same : retries obj = retries base -> counts base obj
| counts_failure :
    live (rj_Phase base) = true ->
    rj_Phase obj = PhaseFailed \/ rj_Phase obj = PhasePermanentlyFailed ->
    retries obj = wrap32 (retries base + 1) -> counts base obj.

(** A job is given up for an injected finding or because its failures reached
    the cap. *)
Definition gives_up (base obj : RemediationJob) : Prop :=
  rj_Phase obj = PhasePermanentlyFailed ->
  rj_Phase base = PhasePermanentlyFailed \/ injected (rj_Finding base) = true \/
  effective_max_retries base <= retries obj.

Record patch_ok (base obj : RemediationJob) : Prop := {
  patch_spec : rj_Spec obj = rj_Spec base;
  patch_meta : rj_Meta obj = rj_Meta base;
  patch_moves : moves (rj_Phase base) (rj_Phase obj);
  patch_counts : counts base obj;
  patch_gives_up : gives_up base obj }.

(** What every write of a reconcile respects. *)
Definition lifecycle (e : req) : Prop :=
  match e with
  | StatusPatchRJob obj base => patch_ok base obj
  | PatchRJob obj base => rj_Status obj = rj_Status base /\ rj_Spec obj = rj_Spec base
  | DeleteRJob obj => rj_Phase obj = PhaseSucceeded
  | CreateRJob _ => False
  | _ => True
  end.

(** Nobody else changes the job between two patches of the reconcile: a patch
    that succeeds answers with the phase and the count it sent. *)
Definition undisturbed (e : req) : answer e -> Prop :=
  match e return answer e -> Prop with
  | StatusPatchRJob obj _ | PatchRJob obj _ => fun a =>
      match a with Ok o => rj_Phase o = rj_Phase obj /\ retries o = retries obj | Err _ => True end
  | _ => fun _ => True
  end.

Lemma phase_eqb_spec p q : reflect (p = q) (phase_eqb p q).
Proof. unfold phase_eqb. case_bool_decide; by constructor. Qed.

Lemma syncPhaseFromJob_from_job j : from_job (syncPhaseFromJob j) = true.
Proof. unfold syncPhaseFromJob. repeat case_match; done. Qed.
Lemma syncPhaseFromJob_not_permanent j : syncPhaseFromJob j <> PhasePermanentlyFailed.
Proof. unfold syncPhaseFromJob. repeat case_match; done. Qed.

Section Lifecycle.
Context `{ConditionLib} (error_text : error -> string) (r : RemediationJobReconciler).
Hypothesis rules_read_only : forall c, r_Correlator r = Some c -> Forall RuleReadOnly (Rules c).

Abbreviation ok := (ensures undisturbed lifecycle).

(** Close the goals about harmless calls. *)
Ltac walk := repeat (ensures_step; try exact I).

(** Follow the phase through the answers of undisturbed patches. *)
Ltac settle :=
  repeat match goal with
  | Hu : undisturbed _ (Ok _) |- _ => cbn [undisturbed] in Hu
  | Hu : rj_Phase _ = _ /\ _ |- _ => destruct Hu
  end;
  repeat first [eassumption | eapply eq_trans; [eassumption|]].

Lemma metric_ok m : ok (fun _ => True) (metric_inc m).
Proof. apply ensures_call; [exact I|]. intros. by apply ensures_ret. Qed.

Lemma recorded_ok t a m : ok (fun _ => True) (recorded r t a m).
Proof. unfold recorded. walk. Qed.

Lemma isJobActive_ok j : ok (fun _ => True) (isJobActive j).
Proof. unfold isJobActive, now. walk. Qed.

Lemma count_active_ok l : ok (fun _ => True) (count_active l).
Proof.
  induction l as [|j l IH]; cbn [count_active]; [by apply ensures_ret|].
  eapply ensures_bind; [apply isJobActive_ok|]. intros b _.
  eapply ensures_bind; [exact IH|]. intros n _. by apply ensures_ret.
Qed.

Lemma concurrencyGate_ok : ok (fun _ => True) (concurrencyGate r).
Proof.
  unfold concurrencyGate. walk.
  eapply ensures_bind; [apply count_active_ok|]. intros n _.
  eapply ensures_bind; [apply metric_ok|]. intros _ _. walk.
  - eapply ensures_bind; [apply metric_ok|]. intros _ _. by apply ensures_ret.
Qed.

(** A status change that keeps the metadata, the spec and the retry count. *)
Lemma patch_ok_phase base obj :
  rj_Spec obj = rj_Spec base -> rj_Meta obj = rj_Meta base ->
  retries obj = retries base -> moves (rj_Phase base) (rj_Phase obj) -> gives_up base obj ->
  patch_ok base obj.
Proof. intros. split; auto using counts_same. Qed.

Lemma gives_up_not base obj : rj_Phase obj <> PhasePermanentlyFailed -> gives_up base obj.
Proof. intros Hn Hp. done. Qed.

Lemma patch_ok_stay base obj :
  rj_Spec obj = rj_Spec base -> rj_Meta obj = rj_Meta base ->
  retries obj = retries base -> rj_Phase obj = rj_Phase base -> patch_ok base obj.
Proof.
  intros ? ? ? Hp. apply patch_ok_phase; try done; [rewrite Hp; apply moves_stay|].
  intros Hf. left. congruence.
Qed.

Lemma live_Pending p : p = PhasePending -> live p = true.
Proof. by intros ->. Qed.

Lemma dispatch_ok rjob fs :
  live (rj_Phase rjob) = true -> ok (fun _ => True) (dispatch r rjob fs).
Proof.
  intros Hl. unfold dispatch, suppress_injected, adopt_existing, now. walk;
    try (apply patch_ok_phase; [done..|by apply moves_job|]);
    try (eapply ensures_bind; [apply recorded_ok|]; intros; by apply ensures_ret).
  - intros _. right. left. by apply andb_true_iff in Heqb as [? _].
  - by apply gives_up_not.
  - cbn [lifecycle]. match goal with |- context [if ?b then _ else _] => destruct b end;
      (apply patch_ok_phase; [done..| |];
       [apply moves_job; [done|apply syncPhaseFromJob_from_job]
       |apply gives_up_not, syncPhaseFromJob_not_permanent]).
Qed.

Lemma dispatched_ok rjob fs :
  live (rj_Phase rjob) = true -> ok (fun _ => True) (dispatched r rjob fs).
Proof.
  intros Hl. eapply ensures_bind; [by apply dispatch_ok|]. intros d _. by apply ensures_ret.
Qed.

Lemma gated_dispatch_ok rjob fs :
  live (rj_Phase rjob) = true -> ok (fun _ => True) (gated_dispatch r rjob fs).
Proof.
  intros Hl. eapply ensures_bind; [apply concurrencyGate_ok|]. intros g _. walk.
  by apply dispatched_ok.
Qed.

Lemma transitionSuppressed_ok rjob g u : ok (fun _ => True) (transitionSuppressed rjob g u).
Proof.
  unfold transitionSuppressed, now. walk.
  eapply ensures_bind; [apply metric_ok|]. intros _ _. walk.
  - cbn [lifecycle]. apply patch_ok_phase; [done..| |by apply gives_up_not].
    destruct (phase_eqb_spec (rj_Phase rjob) PhasePending) as [E|]; [|done].
    rewrite E. apply moves_suppress.
  - by split.
Qed.

Lemma suppressCorrelatedPeers_ok peers g : ok (fun _ => True) (suppressCorrelatedPeers peers g).
Proof.
  induction peers as [|p l IH]; cbn [suppressCorrelatedPeers]; [by apply ensures_ret|].
  destruct (negb _); [exact IH|]. eapply ensures_bind; [apply transitionSuppressed_ok|].
  intros [?|e] _; [exact IH|by apply ensures_ret].
Qed.

Lemma dispatch_primary_ok rjob peers g :
  rj_Phase rjob = PhasePending -> ok (fun _ => True) (dispatch_primary r rjob peers g).
Proof.
  intros Hp. unfold dispatch_primary.
  eapply ensures_bind; [apply suppressCorrelatedPeers_ok|]. intros s _. walk.
  - by apply patch_ok_stay.
  - by split.
  - apply dispatched_ok, live_Pending. settle.
Qed.

Lemma recover_or_dispatch_ok rjob :
  rj_Phase rjob = PhasePending -> ok (fun _ => True) (recover_or_dispatch r rjob).
Proof.
  intros Hp. unfold recover_or_dispatch, recover_group. walk;
    try (apply gated_dispatch_ok, live_Pending; settle).
  by split.
Qed.

Lemma rule_call_lifecycle e : rule_call e -> lifecycle e.
Proof. by destruct e. Qed.

Lemma correlate_ok c rjob :
  r_Correlator r = Some c -> rj_Phase rjob = PhasePending ->
  ok (fun _ => True) (correlate r c rjob).
Proof using rules_read_only.
  intros Hc Hp. unfold correlate.
  eapply ensures_bind with (S := fun _ => True); [unfold pendingPeers; walk|].
  intros [peers|e] _; [|by apply ensures_ret].
  eapply ensures_bind.
  { apply ensures_allows. eapply allows_mono; [apply rule_call_lifecycle|].
    apply evaluate_rules_ro, rules_read_only, Hc. }
  intros [[g|]|e] _; [|by apply recover_or_dispatch_ok|by apply ensures_ret].
  destruct (negb _); [|by apply dispatch_primary_ok].
  eapply ensures_bind with (S := fun _ => True); [unfold hold_for_primary, now; walk|].
  intros [[]|e] _; [by apply ensures_ret|by apply recover_or_dispatch_ok|by apply ensures_ret].
Qed.

Lemma reconcile_pending_ok rjob :
  rj_Phase rjob = PhasePending -> ok (fun _ => True) (reconcile_pending r rjob).
Proof using rules_read_only.
  intros Hp. unfold reconcile_pending, now.
  destruct (r_Correlator r) as [c|] eqn:Hc in |- *; [|by apply gated_dispatch_ok, live_Pending].
  walk; by apply correlate_ok.
Qed.

(** *** Following the batch/v1 Job *)

(** What the code that ends a job leaves of it. *)
Definition ended (base obj : RemediationJob) : Prop :=
  rj_Spec obj = rj_Spec base /\ rj_Meta obj = rj_Meta base /\ counts base obj /\
  from_job (rj_Phase obj) = true /\ gives_up base obj.

Lemma counts_upd base obj obj' :
  rj_Phase obj' = rj_Phase obj -> retries obj' = retries obj -> counts base obj -> counts base obj'.
Proof.
  intros Hp Hr [Hs|Hl Hf Hs]; [apply counts_same|apply counts_failure]; try rewrite Hp; congruence.
Qed.

Lemma ended_upd base obj obj' :
  rj_Spec obj' = rj_Spec obj -> rj_Meta obj' = rj_Meta obj ->
  rj_Phase obj' = rj_Phase obj -> retries obj' = retries obj -> ended base obj -> ended base obj'.
Proof.
  intros Hs Hm Hp Hr (Hs' & Hm' & Hc & Hf & Hg). split; [congruence|]. split; [congruence|].
  split; [by eapply counts_upd|]. split; [by rewrite Hp|]. unfold gives_up. by rewrite Hp, Hr.
Qed.

Lemma mark_completed_at_ok base rjob p :
  ended base rjob -> ok (ended base) (mark_completed_at base rjob p).
Proof.
  intros He. unfold mark_completed_at, ObserveJobDuration, metric_inc, now. walk;
    first [exact He | eapply ended_upd; [..|exact He]; done].
Qed.

Lemma finish_ok rjob p :
  live (rj_Phase rjob) = true -> from_job p = true -> p <> PhasePermanentlyFailed ->
  ok (ended rjob) (finish rjob (set_Phase p rjob) p).
Proof.
  intros Hl Hp Hnp.
  assert (rj_Phase rjob <> PhaseFailed) as Hnf by (intros E; by rewrite E in Hl).
  destruct p; try done; try (apply ensures_ret; split; [done|split; [done|split; [by apply counts_same|split; [done|by apply gives_up_not]]]]).
  - eapply ensures_bind with (S := ended rjob); [|intros a Ha; by apply mark_completed_at_ok].
    unfold mark_complete, now. walk.
    split; [done|split; [done|split; [by apply counts_same|split; [done|by apply gives_up_not]]]].
  - eapply ensures_bind with (S := ended rjob); [|intros a Ha; by apply mark_completed_at_ok].
    unfold mark_failed, now. destruct (phase_eqb_spec (rj_Phase rjob) PhaseFailed); [done|].
    cbn [negb]. walk.
    match goal with |- context [if ?b then _ else _] => destruct b eqn:Hcap end.
    + apply Z.leb_le in Hcap. split; [done|split; [done|]].
      split; [apply counts_failure; auto|split; [done|]]. intros _. right. right. exact Hcap.
    + split; [done|split; [done|]].
      split; [apply counts_failure; auto|split; [done|by apply gives_up_not]].
Qed.

Lemma fetchDryRunReport_ok rjob : ok (fun _ => True) (fetchDryRunReport error_text r rjob).
Proof. unfold fetchDryRunReport. walk. Qed.

Lemma record_outcome_ok rjob j p : ok (fun _ => True) (record_outcome r rjob j p).
Proof. unfold record_outcome. destruct p; walk; apply recorded_ok. Qed.

Lemma ended_patch_ok base obj :
  live (rj_Phase base) = true -> ended base obj -> patch_ok base obj.
Proof. intros Hl (Hs & Hm & Hc & Hp & Hg). split; try done. by apply moves_job. Qed.

Lemma sync_owned_ok rjob j :
  live (rj_Phase rjob) = true -> ok (fun _ => True) (sync_owned error_text r rjob j).
Proof.
  intros Hl. unfold sync_owned.
  eapply ensures_bind; [apply finish_ok;
    [done|apply syncPhaseFromJob_from_job|apply syncPhaseFromJob_not_permanent]|].
  intros r1 H1. cbv zeta. set (r2 := if String.eqb _ _ then _ else _).
  assert (ended rjob r2) as H2.
  { unfold r2. match goal with |- context [if ?b then _ else _] => destruct b end;
      [eapply ended_upd; [..|exact H1]; done|exact H1]. }
  clearbody r2. eapply ensures_bind with (S := ended rjob).
  { destruct (wants_report _ _ _); [|by apply ensures_ret].
    eapply ensures_bind; [apply fetchDryRunReport_ok|]. intros m _. apply ensures_ret.
    eapply ended_upd; [..|exact H2]; done. }
  intros r3 H3. walk; [by apply ended_patch_ok|].
  eapply ensures_bind; [apply record_outcome_ok|]. intros _ _. by apply ensures_ret.
Qed.

Lemma reconcile_active_ok rjob :
  live (rj_Phase rjob) = true -> ok (fun _ => True) (reconcile_active error_text r rjob).
Proof using rules_read_only.
  intros Hl. unfold reconcile_active. walk; [|by apply sync_owned_ok].
  apply reconcile_pending_ok. destruct (rj_Phase rjob); done.
Qed.

Lemma reconcile_succeeded_ok rjob :
  rj_Phase rjob = PhaseSucceeded -> ok (fun _ => True) (reconcile_succeeded r rjob).
Proof.
  intros Hp. unfold reconcile_succeeded, stamp_completed, expire, now. walk; try done;
    by apply patch_ok_stay.
Qed.

Lemma reconcile_phase_ok rjob : ok (fun _ => True) (reconcile_phase error_text r rjob).
Proof using rules_read_only.
  unfold reconcile_phase. destruct (rj_Phase rjob) eqn:Hp; try (by apply ensures_ret).
  - unfold init_phase. walk. apply patch_ok_phase; [done..|rewrite Hp; apply moves_init|].
    by apply gives_up_not.
  - apply reconcile_active_ok. by rewrite Hp.
  - apply reconcile_active_ok. by rewrite Hp.
  - apply reconcile_active_ok. by rewrite Hp.
  - by apply reconcile_succeeded_ok.
Qed.

Lemma record_pr_ok rjob : ok (fun _ => True) (record_pr rjob).
Proof.
  unfold record_pr, RecordPROpened, metric_inc, now. walk.
  by apply patch_ok_stay.
Qed.

Lemma Reconcile_ok namespace name : ok (fun _ => True) (Reconcile error_text r namespace name).
Proof using rules_read_only.
  unfold Reconcile. walk. eapply ensures_bind; [apply record_pr_ok|].
  intros rjob _. apply reconcile_phase_ok.
Qed.
End Lifecycle.

(** ** A small cluster, to evaluate reconciles *)
Module Example.
#[export] Existing Instance ListConditions.lib.

Definition text (e : error) : string := "error".

Definition meta (name : string) (created : Z) : ObjectMeta :=
  {| meta_Name := name; meta_Namespace := "mechanic"; meta_UID := "uid-" ++ name;
     meta_Labels := ∅; meta_Annotations := ∅; meta_CreationTimestamp := created;
     meta_Generation := 1; meta_OwnerReferences := [] |}.

Definition job (name : string) (active succeeded failed : Z) : Job :=
  {| job_Meta := meta name 0;
     job_Spec := {| js_BackoffLimit := Some 1; js_ActiveDeadlineSeconds := None;
                    js_TTLSecondsAfterFinished := None;
                    js_Template := {| ps_NodeName := ""; ps_ServiceAccountName := "";
                      ps_RestartPolicy := "Never"; ps_RunAsNonRoot := None; ps_RunAsUser := None;
                      ps_InitContainers := []; ps_Containers := []; ps_Volumes := [] |} |};
     job_Status := {| js_Active := active; js_Succeeded := succeeded; js_Failed := failed;
                      js_CompletionTime := None; js_Conditions := [] |} |}.

Definition build (rjob : RemediationJob) (fs : list FindingSpec) : res Job :=
  Ok (job ("mechanic-agent-" ++ rj_Name rjob) 0 0 0).

(** [owned]: the Jobs of the reconciled object; [jobs] and [rjobs]: all of the
    namespace.  Writes succeed and answer with what was sent. *)
Record cluster := { c_rjob : RemediationJob; c_owned : list Job; c_jobs : list Job;
                    c_rjobs : list RemediationJob; c_time : Z }.

Definition serve (c : cluster) : handler answer := fun e =>
  match e return answer e with
  | Now => c_time c
  | RandRead n => Some (repeat Byte.x2a n)
  | GetRJob _ _ => Ok (c_rjob c)
  | ListRJobs _ _ => Ok (c_rjobs c)
  | ListJobs _ [("app.kubernetes.io/managed-by", _)] => Ok (c_jobs c)
  | ListJobs _ _ => Ok (c_owned c)
  | StatusPatchRJob obj _ => Ok obj
  | PatchRJob obj _ => Ok obj
  | DeleteRJob _ => Ok tt
  | CreateJob j => Ok j
  | e' => offline (c_time c) e'
  end.

Lemma serve_undisturbed c e : undisturbed e (serve c e).
Proof. destruct e; done. Qed.

Definition reconciler (correlator : option Correlator) : RemediationJobReconciler :=
  {| r_Cfg := default_config; r_Build := fun rjob fs => Done (build rjob fs); r_Recorder := true; r_Correlator := correlator |}.

Definition with_phase (p : RemediationJobPhase) : RemediationJob := set_Phase p web_pod.

Definition failing : cluster :=
  {| c_rjob := with_phase PhaseDispatched; c_owned := [job "j" 0 0 2]; c_jobs := [];
     c_rjobs := []; c_time := hour |}.

Definition run (r : RemediationJobReconciler) (c : cluster) :=
  exec_pure (serve c) (Reconcile text r "mechanic" "web-1").
End Example.

(** C4: Every write of a reconcile follows the life cycle, if nobody else changes the
    job between its patches: a status patch keeps spec and metadata, moves the phase
    only along the transitions of the state machine (so never out of a terminal
    phase), counts a retry only on the way from a live phase to a failed one and gives
    up only at the retry cap or for an injected finding; a label patch keeps the
    status; only succeeded jobs are deleted; no RemediationJob is created. *)
Theorem writes_follow_the_lifecycle `{ConditionLib} error_text r namespace name tr o :
  (forall c, r_Correlator r = Some c -> Forall RuleReadOnly (Rules c)) ->
  runs (Reconcile error_text r namespace name) tr o -> relies undisturbed tr ->
  every lifecycle tr.
Proof. intros Hro Hr. by eapply ensures_runs, Hr; apply Reconcile_ok. Qed.

Lemma production_read_only t c :
  Some {| Rules := production_rules t |} = Some c -> Forall RuleReadOnly (Rules c).
Proof. intros [= <-]. apply production_rules_ro. Qed.

Lemma writes_follow_the_lifecycle_witness :
  let r := Example.reconciler (Some {| Rules := production_rules 3 |}) in
  List.existsb (fun ev => match ev_call ev with StatusPatchRJob obj _ =>
       phase_eqb (rj_Phase obj) PhaseFailed && (retries obj =? 1) | _ => false end)
    (Example.run r Example.failing).1 = true /\
  every lifecycle (Example.run r Example.failing).1.
Proof.
  intros r. split; [vm_compute; reflexivity|].
  apply (@writes_follow_the_lifecycle ListConditions.lib Example.text r "mechanic" "web-1" _
           (Example.run r Example.failing).2).
  - intros c. apply (production_read_only 3).
  - apply exec_pure_runs.
  - apply exec_pure_relies, Example.serve_undisturbed.
Defined.

(** ** Many reconciles: the failure count *)

(** The stored job changes by a status patch of some reconcile, or by someone
    else: a cancellation, or a write that leaves the phase and the count. *)
Inductive evolves `{ConditionLib} : RemediationJob -> RemediationJob -> Prop :=
| evolves_reconcile error_text r namespace name tr o base obj a :
    (forall c, r_Correlator r = Some c -> Forall RuleReadOnly (Rules c)) ->
    runs (Reconcile error_text r namespace name) tr o -> relies undisturbed tr ->
    Event (StatusPatchRJob obj base) a ∈ tr -> evolves base obj
| evolves_other base obj :
    rj_Spec obj = rj_Spec base -> retries obj = retries base ->
    rj_Phase obj = rj_Phase base \/ rj_Phase obj = PhaseCancelled -> evolves base obj.

(** A blank or live job has not failed yet, a finished one has failed at most
    once. *)
Definition failures_ok (spec : RemediationJobSpec) (s : RemediationJob) : Prop :=
  rj_Spec s = spec /\ 0 <= retries s <= 1 /\
  (rj_Phase s = PhaseNone \/ live (rj_Phase s) = true -> retries s = 0) /\
  (rj_Phase s = PhasePermanentlyFailed ->
     injected (rj_Finding s) = true \/ effective_max_retries s <= 1).

Lemma effective_max_retries_spec base obj :
  rj_Spec obj = rj_Spec base -> effective_max_retries obj = effective_max_retries base.
Proof. intros E. unfold effective_max_retries. by rewrite E. Qed.

Lemma finding_spec base obj : rj_Spec obj = rj_Spec base -> rj_Finding obj = rj_Finding base.
Proof. intros E. unfold rj_Finding. by rewrite E. Qed.

Lemma failures_step_patch spec base obj :
  patch_ok base obj -> failures_ok spec base -> failures_ok spec obj.
Proof.
  intros [Hs _ Hm Hc Hg] (Hspec & Hr & Hl & Hp).
  assert (0 <= retries obj <= 1 /\
          (rj_Phase obj = PhaseNone \/ live (rj_Phase obj) = true -> retries obj = 0)) as [Hr' Hl'].
  { destruct Hc as [E|Hlive Hph E].
    - rewrite E. split; [done|]. intros Ho. apply Hl. clear -Hm Ho.
      revert Ho. destruct Hm as [|  |p q Hp Hq|]; naive_solver.
    - rewrite (Hl (or_intror Hlive)) in E. rewrite E. split; [vm_compute; split; discriminate|].
      intros Ho. destruct Hph as [Hph|Hph]; rewrite Hph in Ho; naive_solver. }
  split; [congruence|]. split; [done|]. split; [done|]. intros Hpf.
  rewrite (finding_spec base obj Hs), (effective_max_retries_spec base obj Hs).
  destruct (Hg Hpf) as [Hb|[Hi|Hcap]]; [by apply Hp|by left|right; lia].
Qed.

Lemma failures_step `{ConditionLib} spec base obj :
  evolves base obj -> failures_ok spec base -> failures_ok spec obj.
Proof.
  intros [error_text r namespace name tr o b o' a Hro Hr Hrel Hin|b o' Hs Hr Hp].
  - apply failures_step_patch.
    pose proof (ensures_runs _ _ _ _ _ _ (Reconcile_ok error_text r Hro namespace name) Hr Hrel) as Hev.
    unfold every in Hev. rewrite Forall_forall in Hev. exact (Hev _ Hin).
  - intros (Hspec & Hr0 & Hl & Hpf). split; [congruence|]. rewrite Hr. split; [done|].
    rewrite (finding_spec b o' Hs), (effective_max_retries_spec b o' Hs).
    destruct Hp as [->| ->]; [done|]. split; naive_solver.
Qed.

(** C19: Along any sequence of reconciles and external changes that keep the
    controller's status fields, a RemediationJob counts at most one retry, so it
    becomes PermanentlyFailed only for an injected finding or when its retry cap is at
    most one. *)
Theorem a_job_fails_at_most_once `{ConditionLib} fresh s :
  rj_Status fresh = empty_Status -> rtc evolves fresh s ->
  retries s <= 1 /\
  (rj_Phase s = PhasePermanentlyFailed ->
   injected (rj_Finding fresh) = true \/ effective_max_retries fresh <= 1).
Proof.
  intros Hf Hs.
  assert (failures_ok (rj_Spec fresh) fresh) as H0.
  { split; [done|]. unfold retries, rj_Phase. rewrite Hf. simpl. split; [lia|]. done. }
  assert (failures_ok (rj_Spec fresh) s) as (Hspec & Hr & _ & Hp).
  { revert H0. generalize (rj_Spec fresh). clear Hf. induction Hs as [|x y z Hxy _ IH]; [done|].
    intros spec Hx. apply IH. by eapply failures_step. }
  split; [lia|]. intros Hpf.
  rewrite (finding_spec s fresh), (effective_max_retries_spec s fresh) by congruence. auto.
Qed.

(** The first status patch of a run, as a step of the stored job. *)
Fixpoint first_patch (tr : trace) : option (RemediationJob * RemediationJob) :=
  match tr with
  | [] => None
  | ev :: tr' =>
      match ev_call ev with
      | StatusPatchRJob obj base => Some (base, obj)
      | _ => first_patch tr'
      end
  end.

Lemma first_patch_in tr base obj :
  first_patch tr = Some (base, obj) -> exists a, Event (StatusPatchRJob obj base) a ∈ tr.
Proof.
  induction tr as [|[e a] tr IH]; [done|]. simpl. intros H.
  destruct e; try (destruct (IH H) as [a' Ha]; exists a'; set_solver).
  injection H as <- <-. exists a. set_solver.
Qed.

Lemma evolves_run c base obj :
  first_patch (Example.run (Example.reconciler None) c).1 = Some (base, obj) ->
  @evolves ListConditions.lib base obj.
Proof.
  intros H. apply first_patch_in in H as [a Ha].
  eapply (evolves_reconcile Example.text (Example.reconciler None) "mechanic" "web-1");
    [done|apply (exec_pure_runs (Example.serve c))| |exact Ha].
  apply exec_pure_relies, Example.serve_undisturbed.
Qed.

Definition world (r : RemediationJob) (owned : list Job) : Example.cluster :=
  {| Example.c_rjob := r; Example.c_owned := owned; Example.c_jobs := []; Example.c_rjobs := [];
     Example.c_time := hour |}.

Definition after (r : RemediationJob) (owned : list Job) : RemediationJob :=
  match first_patch (Example.run (Example.reconciler None) (world r owned)).1 with
  | Some (_, obj) => obj
  | None => r
  end.

(** A fresh job becomes Pending, is dispatched, and fails. *)
Definition failed_job : RemediationJob :=
  after (after (after web_pod []) []) [Example.job "j" 0 0 2].

Lemma a_job_fails_at_most_once_witness :
  rj_Phase failed_job = PhaseFailed /\ retries failed_job = 1 /\
  retries failed_job <= 1 /\
  (rj_Phase failed_job = PhasePermanentlyFailed ->
   injected (rj_Finding web_pod) = true \/ effective_max_retries web_pod <= 1).
Proof.
  split; [vm_compute; reflexivity|]. split; [vm_compute; reflexivity|].
  apply (@a_job_fails_at_most_once ListConditions.lib web_pod failed_job).
  - reflexivity.
  - eapply rtc_l; [apply (evolves_run (world web_pod [])); vm_compute; reflexivity|].
    eapply rtc_l; [apply (evolves_run (world (after web_pod []) [])); vm_compute; reflexivity|].
    eapply rtc_l;
      [apply (evolves_run (world (after (after web_pod []) []) [Example.job "j" 0 0 2]));
       vm_compute; reflexivity|].
    apply rtc_refl.
Defined.
