(* ===== verification/ControllerOutcomes.v ===== *)
(** * More properties of the RemediationJobReconciler
    The phase derived from a batch/v1 Job at the edge of [int32], the TTL of
    succeeded jobs, the suppression of correlated peers before the primary is
    dispatched, the count of opened PRs, and when a reconcile can panic. *)
From stdpp Require Import base list strings gmap.
From Stdlib Require Import ZArith Lia Ascii.
From S2P Require Import Prelude Prog Utf8 Regex Redact K8s Types Effects Domain Metrics.
From S2P Require Import Correlator Config Controller ControllerProps ControllerSafety.
Import GoErr GoStr GoTime GoInt.
Open Scope string_scope.
Open Scope list_scope.
Open Scope Z_scope.
Open Scope go_scope.

(** ** The phase of a batch/v1 Job *)
(** syncPhaseFromJob maps a batch/v1 Job to exactly one phase: Succeeded iff a pod
    succeeded, otherwise Failed iff the failures exceed the backoff limit, otherwise
    Running iff a pod is active, otherwise Dispatched, for every backoff limit below
    the largest int32. *)
Theorem phase_of_a_job j :
  limit_ok j ->
  (syncPhaseFromJob j = PhaseSucceeded <-> 0 < js_Succeeded (job_Status j)) /\
  (syncPhaseFromJob j = PhaseFailed <->
     js_Succeeded (job_Status j) <= 0 /\ backoff j < js_Failed (job_Status j)) /\
  (syncPhaseFromJob j = PhaseRunning <->
     js_Succeeded (job_Status j) <= 0 /\ js_Failed (job_Status j) <= backoff j /\
     0 < js_Active (job_Status j)) /\
  (syncPhaseFromJob j = PhaseDispatched <->
     js_Succeeded (job_Status j) <= 0 /\ js_Failed (job_Status j) <= backoff j /\
     js_Active (job_Status j) <= 0).
Proof.
  intros Hb. pose proof (exhausted_spec j Hb) as He. unfold syncPhaseFromJob.
  destruct (Z.ltb_spec 0 (js_Succeeded (job_Status j)));
    destruct (exhausted j), (Z.ltb_spec 0 (js_Active (job_Status j)));
    (assert (true = true <-> True) by tauto);
    (assert (false = true <-> False) by (split; [discriminate|done]));
    repeat split; intros; try discriminate; try lia; intuition (try discriminate; try lia).
Qed.

Lemma phase_of_a_job_witness :
  syncPhaseFromJob (Example.job "j" 0 0 2) = PhaseFailed /\
  (syncPhaseFromJob (Example.job "j" 0 0 2) = PhaseFailed <->
     js_Succeeded (job_Status (Example.job "j" 0 0 2)) <= 0 /\
     backoff (Example.job "j" 0 0 2) < js_Failed (job_Status (Example.job "j" 0 0 2))).
Proof.
  split; [vm_compute; reflexivity|].
  apply (phase_of_a_job (Example.job "j" 0 0 2)). vm_compute. split; [discriminate|reflexivity].
Defined.

(** At the largest backoff limit the sum wraps: a Job that has not failed yet
    counts as failed. *)
(** At the largest int32 the backoff limit's successor wraps, and a running Job is
    taken for failed. *)
Theorem largest_backoff_limit_wraps :
  exists j, js_BackoffLimit (job_Spec j) = Some max_int32 /\ js_Failed (job_Status j) = 0 /\
    js_Active (job_Status j) = 1 /\ syncPhaseFromJob j = PhaseFailed.
Proof.
  exists {| job_Meta := Example.meta "j" 0;
            job_Spec := {| js_BackoffLimit := Some max_int32; js_ActiveDeadlineSeconds := None;
                           js_TTLSecondsAfterFinished := None;
                           js_Template := js_Template (job_Spec (Example.job "j" 0 0 0)) |};
            job_Status := job_Status (Example.job "j" 1 0 0) |}.
  repeat split; vm_compute; reflexivity.
Qed.

(** ** The TTL *)
Definition deletes (e : req) : bool := match e with DeleteRJob _ => true | _ => false end.

(** The instant from which a succeeded job may be deleted. *)
Definition expiry (c : Config) (rjob : RemediationJob) (completedAt : Z) : Z :=
  if st_PRMerged (rj_Status rjob)
  then default completedAt (st_PRMergedAt (rj_Status rjob))
       + cfg_RemediationJobTTLSeconds c * second
  else completedAt + cfg_RemediationJobShortTTLSeconds c * second.

Lemma deadline_expiry r rjob c :
  valid (r_Cfg r) -> deadline r rjob c = expiry (r_Cfg r) rjob c.
Proof.
  intros Hv. pose proof (valid_ttl _ Hv). pose proof (valid_short_ttl _ Hv).
  unfold deadline, expiry, ttl, shortTTL, Add. rewrite !seconds_small by lia.
  destruct (st_PRMerged _); [done|].
  destruct (Z.eqb_spec (cfg_RemediationJobShortTTLSeconds (r_Cfg r) * second) 0) as [E|]; [|done].
  unfold second in E. lia.
Qed.

(** Before [limit], at the first clock reading, the reconcile only reads, and asks
    to be called again after what is left at the second reading; from [limit] on it
    deletes the job. *)
Definition ttl_outcome (limit : Z) (rjob : RemediationJob) (tr : trace) (o : outcome reconciled) : Prop :=
  exists t rest, clocks tr = t :: rest /\
    (t < limit ->
       every (fun e => writes e = false) tr /\
       exists t2, rest = [t2] /\ o = Done (Ok (requeue_after (Sub limit t2)))) /\
    (limit <= t -> exists a, Event (ans := answer) (DeleteRJob rjob) a ∈ tr) /\
    (forall obj a, Event (ans := answer) (DeleteRJob obj) a ∈ tr -> obj = rjob).

Lemma delete_same obj obj' a a' :
  Event (ans := answer) (DeleteRJob obj) a = Event (ans := answer) (DeleteRJob obj') a' -> obj = obj'.
Proof.
  intros E. apply (f_equal (fun ev => match ev_call ev with DeleteRJob o => o | _ => obj end)) in E. exact E.
Qed.

Lemma reconcile_succeeded_ttl r rjob c :
  st_CompletedAt (rj_Status rjob) = Some c ->
  wp (reconcile_succeeded r rjob) (ttl_outcome (deadline r rjob c) rjob).
Proof.
  intros Hc. unfold reconcile_succeeded, ttl_outcome, now, Before. rewrite Hc. cbn [bind call].
  intros t. destruct (Z.ltb_spec t (deadline r rjob c)) as [Hlt|Hge].
  - cbn [bind call]. intros t2. exists t, [t2]. split; [done|]. split; [|split; [lia|]].
    + intros _. split; [repeat constructor|eauto].
    + intros obj a. rewrite !elem_of_cons, elem_of_nil. by intros [?|[?|[]]].
  - unfold expire. intros d. cbn [bind]. set (x := match d with Ok _ => _ | Err _ => _ end).
    destruct x as [e|].
    + exists t, []. split; [done|]. split; [lia|]. split; [intros _; exists d; right; left|].
      intros obj a. rewrite !elem_of_cons, elem_of_nil. by intros [?|[?%delete_same|[]]].
    + cbn [now bind call]. intros t2 p. exists t, [t2]. split; [done|]. split; [lia|].
      split; [intros _; exists d; right; left|].
      intros obj a. rewrite !elem_of_cons, elem_of_nil. by intros [?|[?%delete_same|[?|[?|[]]]]].
Qed.

(** C15: Under a valid configuration the reconcile of a succeeded job with a
    completion time compares the clock with its expiry (the long TTL from the merge
    for a merged PR, the short TTL from completion otherwise): before it, nothing is
    written and the result is a requeue after the time from its second and last clock
    reading to the expiry; from it on, this RemediationJob is deleted; no other is
    ever deleted. *)
Theorem succeeded_jobs_live_until_their_ttl `{ConditionLib} error_text r rjob c tr o :
  valid (r_Cfg r) -> rj_Phase rjob = PhaseSucceeded -> st_CompletedAt (rj_Status rjob) = Some c ->
  runs (reconcile_phase error_text r rjob) tr o ->
  ttl_outcome (expiry (r_Cfg r) rjob c) rjob tr o.
Proof.
  intros Hv Hp Hc Hr. unfold reconcile_phase in Hr. rewrite Hp in Hr.
  rewrite <- (deadline_expiry r rjob c Hv).
  exact (runs_wp _ _ _ _ Hr (reconcile_succeeded_ttl r rjob c Hc)).
Qed.

Definition succeeded_job : RemediationJob :=
  set_CompletedAt (Some 0) (set_Phase PhaseSucceeded web).

Definition ttl_run (t : Z) :=
  exec_pure (Example.serve {| Example.c_rjob := succeeded_job; Example.c_owned := [];
               Example.c_jobs := []; Example.c_rjobs := []; Example.c_time := t |})
    (@reconcile_phase ListConditions.lib Example.text (Example.reconciler None) succeeded_job).

Lemma default_config_valid : valid default_config.
Proof.
  split; vm_compute; try tauto; try (split; discriminate); try (repeat split; discriminate).
  apply Forall_nil_2.
Qed.

Lemma succeeded_jobs_live_until_their_ttl_witness :
  expiry default_config succeeded_job 0 = day /\
  (ttl_run hour).2 = Done (Ok (requeue_after (23 * hour))) /\
  ttl_outcome (expiry default_config succeeded_job 0) succeeded_job (ttl_run hour).1 (ttl_run hour).2 /\
  ttl_outcome (expiry default_config succeeded_job 0) succeeded_job (ttl_run day).1 (ttl_run day).2.
Proof.
  split; [vm_compute; reflexivity|]. split; [vm_compute; reflexivity|].
  split; apply (@succeeded_jobs_live_until_their_ttl ListConditions.lib Example.text
           (Example.reconciler None) succeeded_job 0);
    (apply default_config_valid || reflexivity || apply exec_pure_runs).
Defined.

(** The object is gone: a status patch answers [NotFound]. *)
Definition gone (e : req) : answer e -> Prop :=
  match e return answer e -> Prop with
  | StatusPatchRJob _ _ => fun a => a = Err (EApi NotFound)
  | _ => fun _ => True
  end.

(** When the API server answers patches of a deleted object with an error, every
    reconcile that deletes a succeeded job by TTL returns an error, because it goes on
    to patch the status of the job it has deleted. *)
Theorem ttl_deletion_ends_in_an_error `{ConditionLib} error_text r rjob c tr o :
  rj_Phase rjob = PhaseSucceeded -> st_CompletedAt (rj_Status rjob) = Some c ->
  runs (reconcile_phase error_text r rjob) tr o ->
  Exists (fun ev => deletes (ev_call ev) = true) tr -> relies gone tr ->
  exists e, o = Done (Err e).
Proof.
  intros Hp Hc Hr. unfold reconcile_phase in Hr. rewrite Hp in Hr.
  refine (runs_wp _ (fun tr o => Exists (fun ev => deletes (ev_call ev) = true) tr ->
    relies gone tr -> exists e, o = Done (Err e)) _ _ Hr _).
  unfold reconcile_succeeded, expire, now. rewrite Hc. cbn [bind call]. intros t.
  destruct (Before _ _); cbn [bind call].
  - intros t2 Hex. exfalso. rewrite !Exists_cons, Exists_nil in Hex. simpl in Hex. naive_solver.
  - intros d. destruct (match d with Ok _ => _ | Err _ => _ end) as [e|]; [simpl; eauto|].
    cbn [bind call]. intros t2 p _ Hrel. do 3 apply Forall_inv_tail in Hrel.
    apply Forall_inv in Hrel. cbn in Hrel. rewrite Hrel. eauto.
Qed.

(** A server that has deleted the object. *)
Definition deleting : handler answer := fun e =>
  match e return answer e with
  | DeleteRJob _ => Ok tt
  | e' => offline (2 * day) e'
  end.

Lemma ttl_deletion_ends_in_an_error_witness :
  exists e, (exec_pure deleting (@reconcile_phase ListConditions.lib Example.text
               (Example.reconciler None) succeeded_job)).2 = Done (Err e).
Proof.
  apply (@ttl_deletion_ends_in_an_error ListConditions.lib Example.text (Example.reconciler None)
           succeeded_job 0
           (exec_pure deleting (@reconcile_phase ListConditions.lib Example.text
               (Example.reconciler None) succeeded_job)).1).
  - reflexivity.
  - reflexivity.
  - apply exec_pure_runs.
  - vm_compute. right. by left.
  - apply exec_pure_relies. intros []; done.
Defined.

(** ** Peers are suppressed before the primary is dispatched *)

(** The trace holds an accepted patch of [p] to Suppressed in group [g]. *)
Definition suppressed_in (g : string) (p : RemediationJob) (tr : trace) : Prop :=
  exists obj a, Event (StatusPatchRJob obj p) (Ok a) ∈ tr /\
    rj_Phase obj = PhaseSuppressed /\ st_CorrelationGroupID (rj_Status obj) = g.

Lemma suppressed_app_l g p tr1 tr2 : suppressed_in g p tr1 -> suppressed_in g p (tr1 ++ tr2).
Proof. intros (obj & a & Hin & H). exists obj, a. set_solver. Qed.
Lemma suppressed_app_r g p tr1 tr2 : suppressed_in g p tr2 -> suppressed_in g p (tr1 ++ tr2).
Proof. intros (obj & a & Hin & H). exists obj, a. set_solver. Qed.

Section Suppression.
Context `{ConditionLib} (error_text : error -> string) (r : RemediationJobReconciler).

Lemma transitionSuppressed_wp p g u :
  wp (transitionSuppressed p g u) (fun tr o =>
    o = Done (Ok tt) -> rj_Phase p = PhasePending -> suppressed_in g p tr).
Proof.
  unfold transitionSuppressed, RecordSuppressed, metric_inc, now.
  destruct (phase_eqb_spec (rj_Phase p) PhaseSuppressed) as [E|];
    [intros _ Hp; congruence|].
  destruct (phase_eqb_spec (rj_Phase p) PhasePending); [|intros _ Hp; congruence].
  cbn [negb bind call]. intros t [] a. destruct a as [r2|err]; cbn [bind]; [|done].
  cbn [bind call]. intros q _ _. eexists _, r2.
  split; [apply list_elem_of_further, list_elem_of_further, list_elem_of_here|done].
Qed.

Definition all_suppressed (peers : list RemediationJob) (g : CorrelationGroup) (tr : trace) : Prop :=
  forall p, p ∈ peers -> in_group g p = true -> rj_Phase p = PhasePending ->
  suppressed_in (cg_GroupID g) p tr.

Lemma suppressCorrelatedPeers_wp peers g :
  wp (suppressCorrelatedPeers peers g) (fun tr o => o = Done (Ok tt) -> all_suppressed peers g tr).
Proof.
  induction peers as [|p l IH]; cbn [suppressCorrelatedPeers].
  { intros _ p Hp. set_solver. }
  destruct (in_group g p) eqn:Hg; cbn [negb].
  - apply wp_bind. eapply wp_mono; [|apply transitionSuppressed_wp].
    intros tr1 [[[]|e]|m] H1; [|done|done].
    eapply wp_mono; [|exact IH]. intros tr2 o H2 Ho q Hq Hqg Hqp.
    apply elem_of_cons in Hq as [->|Hq]; [apply suppressed_app_l; auto|].
    apply suppressed_app_r. by apply (H2 Ho).
  - eapply wp_mono; [|exact IH]. intros tr2 o H2 Ho q Hq Hqg Hqp.
    apply elem_of_cons in Hq as [->|Hq]; [congruence|]. by apply (H2 Ho).
Qed.

(** C10: If the primary's dispatch creates a Job, then before that the server had
    accepted a patch of every pending peer of its group to Suppressed with the group's
    identifier. *)
Theorem peers_are_suppressed_first rjob peers g tr o :
  runs (dispatch_primary r rjob peers g) tr o -> creations tr <> 0%nat ->
  exists tr1 tr2, tr = tr1 ++ tr2 /\ creations tr1 = 0%nat /\
    all_suppressed peers (effective_group rjob g) tr1.
Proof.
  intros Hr. refine (runs_wp _ (fun tr _ => creations tr <> 0%nat -> exists tr1 tr2, tr = tr1 ++ tr2 /\
    creations tr1 = 0%nat /\ all_suppressed peers (effective_group rjob g) tr1) _ _ Hr _).
  unfold dispatch_primary. cbv zeta. apply wp_bind.
  pose proof (suppressCorrelatedPeers_wp peers (effective_group rjob g)) as Hs.
  pose proof (suppressCorrelatedPeers_quiet peers (effective_group rjob g)) as Hq.
  apply wp_runs. intros tr1 o1 Hr1.
  pose proof (runs_wp _ _ _ _ Hr1 Hs) as Hs1.
  pose proof (quiet_creations _ (runs_wp _ _ _ _ Hr1 Hq)) as Hq1. clear Hs Hq.
  destruct o1 as [[[]|e]|m]; [|simpl; by rewrite app_nil_r|done].
  apply wp_runs. intros tr2 o2 _ _. exists tr1, tr2. auto.
Qed.
End Suppression.

Definition group_of_web : CorrelationGroup :=
  {| cg_GroupID := "g"; cg_PrimaryUID := rj_UID web; cg_CorrelatedUIDs := [rj_UID pending_pod];
     cg_Rule := "SameNamespaceParent"; cg_AllFindings := [rj_Finding pending_pod] |}.

Definition primary_run :=
  exec_pure (Example.serve idle)
    (@dispatch_primary ListConditions.lib (Example.reconciler None) pending_web [pending_pod]
       group_of_web).

Lemma peers_are_suppressed_first_witness :
  exists tr1 tr2, primary_run.1 = tr1 ++ tr2 /\ creations tr1 = 0%nat /\
    all_suppressed [pending_pod] (effective_group pending_web group_of_web) tr1.
Proof.
  apply (@peers_are_suppressed_first ListConditions.lib (Example.reconciler None) pending_web
           [pending_pod] group_of_web primary_run.1 primary_run.2).
  - apply exec_pure_runs.
  - vm_compute. discriminate.
Defined.

(** ** A PR is counted once *)
Definition counts_pr (ev : event answer) : bool :=
  match ev_call ev with Metric PRsOpened => true | _ => false end.

(** What the reconcile stores when it has counted the PR. *)
Definition kept (e : req) : answer e -> Prop :=
  match e return answer e -> Prop with
  | StatusPatchRJob obj _ => fun a => a = Ok obj
  | _ => fun _ => True
  end.

(** Two successive reconciles of a job whose PR URL is set count the opened PR at most
    once and leave the PRRecorded condition true, as long as the first condition patch
    is stored. *)
Theorem pr_is_counted_once `{L : ConditionLib} (Laws : ConditionLaws L) rjob tr o :
  runs (r1 <- record_pr rjob ;; record_pr r1) tr o -> relies kept tr ->
  (List.length (List.filter counts_pr tr) <= 1)%nat /\
  (rj_URL rjob <> "" ->
   exists r1, o = Done r1 /\
     IsStatusConditionTrue (st_Conditions (rj_Status r1)) ConditionPRRecorded = true).
Proof.
  intros Hr. refine (runs_wp _ (fun tr o => relies kept tr -> _) _ _ Hr _). clear Hr.
  unfold record_pr at 1. destruct (String.eqb_spec (rj_URL rjob) "") as [Hu|Hu]; cbn [negb andb].
  { cbn [bind]. unfold record_pr. rewrite Hu. intros _. split; [simpl; lia|done]. }
  destruct (IsStatusConditionTrue (st_Conditions (rj_Status rjob)) ConditionPRRecorded) eqn:Hc.
  { cbn [negb bind]. unfold record_pr. rewrite Hc, andb_false_r. intros _. split; [simpl; lia|eauto]. }
  unfold RecordPROpened, metric_inc, now. cbn [negb bind call].
  set (obj := fun t => set_Condition (condition_true ConditionPRRecorded "SinkRefObserved"
     "SinkRef.URL observed; prs_opened_total incremented" t) rjob).
  assert (forall t, IsStatusConditionTrue (st_Conditions (rj_Status (obj t))) ConditionPRRecorded = true)
    as Hobj by (intros t; apply (set_true (ConditionLaws := Laws))).
  intros [] t p. apply wp_runs. intros tr2 o2 Hr2 Hrel.
  do 2 apply Forall_inv_tail in Hrel. apply Forall_inv in Hrel. cbn in Hrel.
  fold (obj t) in Hrel. rewrite Hrel in Hr2. unfold record_pr in Hr2.
  rewrite Hobj, andb_false_r in Hr2. inversion Hr2; subst. simpl.
  split; [lia|]. intros _. eexists. split; [done|apply Hobj].
Qed.

Definition web_with_pr : RemediationJob :=
  {| rj_Meta := rj_Meta web; rj_Spec := rj_Spec web;
     rj_Status :=
       {| st_Phase := PhaseRunning; st_JobRef := ""; st_PRRef := ""; st_DispatchedAt := None;
          st_CompletedAt := None; st_Message := ""; st_RetryCount := 0; st_Conditions := [];
          st_CorrelationGroupID := "";
          st_SinkRef := {| sink_Type := "pr"; sink_URL := "https://github.com/o/r/pull/1";
                           sink_Number := 1; sink_Repo := "o/r" |};
          st_PRMerged := false; st_PRMergedAt := None |} |}.

Definition twice : io RemediationJob :=
  r1 <- @record_pr ListConditions.lib web_with_pr ;; @record_pr ListConditions.lib r1.

Lemma pr_is_counted_once_witness :
  (List.length (List.filter counts_pr (exec_pure (Example.serve idle) twice).1) <= 1)%nat /\
  (rj_URL web_with_pr <> "" ->
   exists r1, (exec_pure (Example.serve idle) twice).2 = Done r1 /\
     @IsStatusConditionTrue ListConditions.lib (st_Conditions (rj_Status r1)) ConditionPRRecorded
     = true).
Proof.
  apply (@pr_is_counted_once ListConditions.lib ListConditions.laws web_with_pr).
  - apply exec_pure_runs.
  - apply exec_pure_relies. intros []; done.
Defined.

(** ** Panics
    The only panics a reconcile can reach are those of the random source and of the
    job builder. *)
Section NoPanic.
Context `{ConditionLib} (error_text : error -> string) (r : RemediationJobReconciler).
Hypothesis rules_sound : forall c, r_Correlator r = Some c -> Forall RuleSound (Rules c).

(** The builder panics with this message for some job. *)
Definition builder_panics (m : string) : Prop := exists rjob fs, r_Build r rjob fs = Panicked m.

Definition safe {A} (p : io A) : Prop :=
  wp p (fun tr o => match o with Panicked m => rand_failed tr \/ builder_panics m | Done _ => True end).

Lemma safe_ret {A} (a : A) : safe (Ret a).
Proof. exact I. Qed.
Lemma safe_call {A} e (k : answer e -> io A) : (forall a, safe (k a)) -> safe (Call e k).
Proof.
  intros Hk a. eapply wp_mono; [|apply (Hk a)].
  intros tr [x|m]; [done|]. intros [?|?]; [left; by apply rand_failed_cons|by right].
Qed.
Lemma safe_bind {A B} (p : io A) (f : A -> io B) :
  safe p -> (forall a, safe (f a)) -> safe (bind p f).
Proof.
  intros Hp Hf. apply wp_bind. eapply wp_mono; [|exact Hp].
  intros tr [a|m] Hm; [|done]. eapply wp_mono; [|apply Hf].
  intros tr' [x|m]; [done|]. intros [?|?]; [left; by apply rand_failed_app|by right].
Qed.
Ltac safely :=
  repeat match goal with
  | |- safe (Ret _) => apply safe_ret
  | |- safe (Call _ _) => apply safe_call; intros ?
  | |- safe (call _) => apply safe_call; intros ?
  | |- safe (bind _ _) => apply safe_bind; [|intros ?]
  | |- safe (if ?b then _ else _) => destruct b
  | |- safe (match r_Build _ _ _ with _ => _ end) =>
      destruct (r_Build _ _ _) as [[?|?]|?] eqn:?; [..|right; red; eauto]
  | |- safe (match ?x with _ => _ end) => destruct x
  end.

Lemma recorded_safe t a m : safe (recorded r t a m).
Proof. unfold recorded. safely. Qed.
Lemma count_active_safe l : safe (count_active l).
Proof. induction l as [|j l IH]; cbn [count_active]; unfold isJobActive, now; safely; exact IH. Qed.
Lemma gated_dispatch_safe rjob fs : safe (gated_dispatch r rjob fs).
Proof.
  unfold gated_dispatch, concurrencyGate, dispatched, dispatch, suppress_injected, adopt_existing,
    SetActiveJobs, SetPendingJobs, metric_inc, now. cbv zeta.
  safely; try apply count_active_safe; apply recorded_safe.
Qed.
Lemma dispatched_safe rjob fs : safe (dispatched r rjob fs).
Proof.
  unfold dispatched, dispatch, suppress_injected, adopt_existing, now. cbv zeta.
  safely; apply recorded_safe.
Qed.
Lemma suppressCorrelatedPeers_safe l g : safe (suppressCorrelatedPeers l g).
Proof.
  induction l as [|p l IH]; cbn [suppressCorrelatedPeers];
    unfold transitionSuppressed, RecordSuppressed, metric_inc, now; safely; exact IH.
Qed.
Lemma recover_or_dispatch_safe rjob : safe (recover_or_dispatch r rjob).
Proof.
  unfold recover_or_dispatch, recover_group. cbv zeta. safely; apply gated_dispatch_safe.
Qed.

Lemma correlate_safe c rjob : Forall RuleSound (Rules c) -> safe (correlate r c rjob).
Proof.
  intros Hc. unfold correlate, pendingPeers, hold_for_primary, dispatch_primary, now. cbv zeta.
  apply safe_bind; [safely|]. intros [peers|e]; [|apply safe_ret].
  apply safe_bind.
  { eapply wp_mono; [|apply (evaluate_rules_sound (Rules c) rjob peers Hc)]. intros tr [?|m]; [done|by left]. }
  intros [[g|]|e]; safely; auto using recover_or_dispatch_safe, suppressCorrelatedPeers_safe,
    dispatched_safe.
Qed.

Lemma reconcile_pending_safe rjob : safe (reconcile_pending r rjob).
Proof using All.
  unfold reconcile_pending, now. destruct (r_Correlator r) as [c|] eqn:Hc in |- *;
    [|apply gated_dispatch_safe].
  pose proof (rules_sound c Hc). safely; by apply correlate_safe.
Qed.

Lemma reconcile_phase_safe rjob : safe (reconcile_phase error_text r rjob).
Proof using All.
  unfold reconcile_phase, init_phase, reconcile_active, reconcile_succeeded, stamp_completed,
    expire, sync_owned, finish, mark_complete, mark_failed, mark_completed_at, ObserveJobDuration,
    fetchDryRunReport, record_outcome, metric_inc, now. cbv zeta.
  safely; auto using recorded_safe, reconcile_pending_safe.
Qed.

Lemma Reconcile_safe namespace name : safe (Reconcile error_text r namespace name).
Proof using All.
  unfold Reconcile. apply safe_call. intros [rjob|e]; cbn [bind].
  - apply safe_bind; [|intros; apply reconcile_phase_safe].
    unfold record_pr, RecordPROpened, metric_inc, now. cbv zeta. safely.
  - destruct (IsNotFound e); apply safe_ret.
Qed.
End NoPanic.

(** The same cluster without a working random source. *)
Definition no_randomness : handler answer := fun e =>
  match e return answer e with
  | RandRead _ => None
  | e' => Example.serve {| Example.c_rjob := pending_web; Example.c_owned := [];
            Example.c_jobs := []; Example.c_rjobs := [pending_web; pending_pod];
            Example.c_time := hour |} e'
  end.
