(* ===== verification/Provider.v ===== *)
(** * SourceProviderReconciler (src/internal/provider/provider.go)
    From a watched object to a RemediationJob: cancellation when the object is
    gone, auto-close when its finding cleared, and otherwise a chain of gates
    (injection, namespace, severity, self-remediation depth, circuit breaker,
    stabilisation window, duplicates, parent hierarchy, readiness) in front of
    the creation.

    The provider, the sink closer, the merge checker and the readiness checker
    are the interfaces of the source, fields of the reconciler.  The state kept
    between reconciles is the first-seen map and the circuit breaker.  Logging
    is left out. *)
From stdpp Require Import base list strings gmap.
From Stdlib Require Import ZArith Lia.
From S2P Require Import Prelude Prog Utf8 Regex Redact Sha256 Json K8s Types Effects Domain.
From S2P Require Import Fingerprint BoundedMap CircuitBreaker Config Metrics.
Import GoErr GoStr GoTime GoInt.
Open Scope list_scope.
Open Scope string_scope.
Open Scope Z_scope.
Open Scope go_scope.

Record SourceProviderReconciler := {
  sp_Cfg : Config;
  sp_ProviderName : string;
  sp_ObjectType : string;
  sp_ExtractFinding : Object -> io (res (option Finding));
  sp_EventRecorder : bool;
  sp_ReadinessChecker : option (io (res unit));
  sp_SinkCloser : option (RemediationJob -> string -> io (res unit));
  sp_PRMergeChecker : option (SinkRef -> io (res bool)) }.

(** [firstSeen] is allocated by the first reconcile. *)
Record State := { firstSeen : option BoundedMap; breaker : option CircuitBreaker }.

Definition with_firstSeen (m : BoundedMap) (s : State) : State :=
  {| firstSeen := Some m; breaker := breaker s |}.
Definition with_breaker (cb : CircuitBreaker) (s : State) : State :=
  {| firstSeen := firstSeen s; breaker := Some cb |}.

Definition ReadinessCacheTTL : Z := 60 * second.

Section Reconcile.
(** The iteration order of Go maps, as in BoundedMap. *)
Context (order : gmap string Z -> list (string * Z)).
Context (r : SourceProviderReconciler).

Definition sp_ns : string := cfg_AgentNamespace (sp_Cfg r).

Definition sp_event (t : eventtype) (reason message : string) : io unit :=
  if sp_EventRecorder r then call (RecordEvent t reason message) else Ret tt.

(** [initOnce.Do]. *)
Definition initFirstSeen (s : State) : io (State * BoundedMap) :=
  match firstSeen s with
  | Some m => Ret (s, m)
  | None =>
      let ttl := wrap64 (cfg_StabilisationWindow (sp_Cfg r) * 2) in
      m <- NewBoundedMap 1000 (if ttl =? 0 then hour else ttl) 0 ;;
      Ret (with_firstSeen m s, m)
  end.

(** ** The source object is gone (lines 78-164) *)
Definition refers_to (name namespace : string) (rjob : RemediationJob) : bool :=
  let ref := spec_SourceResultRef (rj_Spec rjob) in
  String.eqb (rr_Name ref) name && String.eqb (rr_Namespace ref) namespace.

Definition cancellable (p : RemediationJobPhase) : bool :=
  match p with
  | PhasePending | PhaseDispatched | PhaseRunning | PhaseSuppressed | PhaseNone => true
  | _ => false
  end.

Definition close_reason (rjob : RemediationJob) : string :=
  let f := rj_Finding rjob in
  "Closing automatically: the underlying issue (" ++ fs_Kind f ++ "/" ++ fs_Name f ++ " "
  ++ fs_Namespace f ++ ") has resolved. No manual fix is required.".

(** A closure that fails is logged and otherwise ignored. *)
Definition close_sink (rjob : RemediationJob) : io unit :=
  match sp_SinkCloser r with
  | Some close =>
      if cfg_PRAutoClose (sp_Cfg r) && negb (String.eqb (rj_URL rjob) "")
      then close rjob (close_reason rjob) ;;; Ret tt
      else Ret tt
  | None => Ret tt
  end.

(** One job of the loop: the item as the loop leaves it in the list, and the
    error it contributes. *)
Definition cancel_one (rjob : RemediationJob) : io (RemediationJob * option error) :=
  close_sink rjob ;;;
  p <- call (StatusPatchRJob (set_Phase PhaseCancelled rjob) rjob) ;;
  match (match p with
         | Ok r1 => inl r1
         | Err e => if IsNotFound e then inl (set_Phase PhaseCancelled rjob) else inr e
         end) with
  | inr e => Ret (set_Phase PhaseCancelled rjob, Some e)
  | inl r1 =>
      d <- call (DeleteRJob r1) ;;
      match (match d with Ok _ => None | Err e => if IsNotFound e then None else Some e end) with
      | Some e => Ret (r1, Some e)
      | None =>
          sp_event EventNormal "SourceDeleted" "Source object deleted; investigation cancelled" ;;;
          Ret (r1, None)
      end
  end.

Fixpoint cancel_all (name namespace : string) (items : list RemediationJob) :
    io (list RemediationJob * list error) :=
  match items with
  | [] => Ret ([], [])
  | rjob :: rest =>
      if negb (refers_to name namespace rjob) || negb (cancellable (rj_Phase rjob))
      then
        '(rest', errs) <- cancel_all name namespace rest ;; Ret (rjob :: rest', errs)
      else
        '(rjob', err) <- cancel_one rjob ;;
        '(rest', errs) <- cancel_all name namespace rest ;;
        Ret (rjob' :: rest', match err with Some e => e :: errs | None => errs end)
  end.

(** Lines 753-782; the caller has checked that a closer is set. *)
Fixpoint autoCloseSucceededSinks (close : RemediationJob -> string -> io (res unit))
    (name namespace : string) (items : list RemediationJob) : io unit :=
  match items with
  | [] => Ret tt
  | rjob :: rest =>
      (if refers_to name namespace rjob && phase_eqb (rj_Phase rjob) PhaseSucceeded
          && negb (String.eqb (rj_URL rjob) "")
       then close rjob (close_reason rjob) ;;; Ret tt
       else Ret tt) ;;;
      autoCloseSucceededSinks close name namespace rest
  end.

Definition source_deleted (name namespace : string) : io reconciled :=
  l <- call (ListRJobs sp_ns []) ;;
  match l with
  | Err e => Ret (Err e)
  | Ok items =>
      '(items', errs) <- cancel_all name namespace items ;;
      match errs with
      | _ :: _ => Ret (Err (EWrap "cancelling RemediationJobs: " (EJoin errs)))
      | [] =>
          (match sp_SinkCloser r with
           | Some close =>
               if cfg_PRAutoClose (sp_Cfg r)
               then autoCloseSucceededSinks close name namespace items' else Ret tt
           | None => Ret tt
           end) ;;;
          Ret (Ok no_requeue)
      end
  end.

(** ** The finding cleared (lines 170-188) *)
Definition finding_cleared (name namespace : string) : io reconciled :=
  sp_event EventNormal "FindingCleared" "Finding cleared; no active finding on this object" ;;;
  (match sp_SinkCloser r with
   | Some close =>
       if cfg_PRAutoClose (sp_Cfg r) then
         l <- call (ListRJobs sp_ns []) ;;
         match l with
         | Ok items => autoCloseSucceededSinks close name namespace items
         | Err _ => Ret tt
         end
       else Ret tt
   | None => Ret tt
   end) ;;;
  Ret (Ok no_requeue).

(** ** The gates
    [None]: the finding passes; [Some res]: the reconcile returns [res]. *)
Definition suppressed (reason : string) (result : Result) : io (option reconciled) :=
  RecordSuppressed reason ;;; Ret (Some (Ok result)).

(** Lines 190-222. *)
Definition injection_gate (f : Finding) : io (option reconciled) :=
  if (Injection.DetectInjection (f_Errors f) || Injection.DetectInjection (f_Details f))
     && String.eqb (cfg_InjectionDetectionAction (sp_Cfg r)) "suppress"
  then suppressed ReasonInjectionDetected no_requeue
  else Ret None.

(** Lines 224-274. *)
Definition contains_ns (l : list string) (n : string) : bool := existsb (fun x => String.eqb x n) l.

Definition namespace_gate (f : Finding) : io (option reconciled) :=
  let n := f_Namespace f in
  if String.eqb n "" then Ret None
  else if (match cfg_WatchNamespaces (sp_Cfg r) with [] => false | _ => true end)
          && negb (contains_ns (cfg_WatchNamespaces (sp_Cfg r)) n)
       then Ret (Some (Ok no_requeue))
  else if contains_ns (cfg_ExcludeNamespaces (sp_Cfg r)) n then Ret (Some (Ok no_requeue))
  else
    g <- call (GetNamespace n) ;;
    match g with
    | Err e => if IsNotFound e then Ret None
               else Ret (Some (Err (EWrap ("fetching namespace " ++ n ++ ": ") e)))
    | Ok nsobj =>
        t <- now ;;
        Ret (if Annotations.ShouldSkip (meta_Annotations (ns_Meta nsobj)) t
             then Some (Ok no_requeue) else None)
    end.

(** Lines 276-294. *)
Definition minSeverity : Severity.Severity :=
  if String.eqb (cfg_MinSeverity (sp_Cfg r)) "" then Severity.SeverityLow
  else cfg_MinSeverity (sp_Cfg r).
Definition severity_gate (f : Finding) : io (option reconciled) :=
  if negb (Severity.MeetsSeverityThreshold (f_Severity f) minSeverity)
  then suppressed ReasonMinSeverity no_requeue
  else Ret None.

(** Lines 298-337. *)
Definition depth_exceeded (f : Finding) : bool :=
  let maxDepth := cfg_SelfRemediationMaxDepth (sp_Cfg r) in
  (maxDepth =? 0) || (maxDepth <? f_ChainDepth f).
Definition self_gate (f : Finding) (s : State) : io (State * option reconciled) :=
  if f_ChainDepth f <=? 0 then Ret (s, None)
  else if depth_exceeded f then
    g <- suppressed ReasonSelfRemediationDepth no_requeue ;; Ret (s, g)
  else
    match breaker s with
    | None => Ret (s, None)
    | Some cb =>
        '(cb', (allowed, remaining)) <- ShouldAllow cb ;;
        let s' := with_breaker cb' s in
        if allowed : bool then Ret (s', None)
        else
          RecordSuppressed ReasonCircuitBreaker ;;;
          RecordCircuitBreakerActivation ;;;
          Ret (s', Some (Ok (requeue_after remaining)))
    end.

(** Lines 359-406. *)
Definition stabilisation_gate (obj : Object) (fp : string) (m : BoundedMap) (s : State) :
    io (State * option reconciled) :=
  let window := cfg_StabilisationWindow (sp_Cfg r) in
  let priorityCritical :=
    String.eqb (map_get (meta_Annotations (obj_Meta obj)) Annotations.AnnotationPriority)
      "critical" in
  if negb priorityCritical && negb (window =? 0) then
    first <- Get fp m ;;
    match first with
    | None =>
        '(m', _) <- Set_ order fp m ;;
        g <- suppressed ReasonStabilisationWindow (requeue_after window) ;;
        Ret (with_firstSeen m' s, g)
    | Some t0 =>
        t <- now ;;
        let elapsed := Sub t t0 in
        if elapsed <? window then
          g <- suppressed ReasonStabilisationWindow (requeue_after (wrap64 (window - elapsed))) ;;
          Ret (s, g)
        else Ret (s, None)
    end
  else Ret (s, None).

(** Lines 440-559: an existing job that succeeded. *)
Definition dedup_event (rjob : RemediationJob) (suffix : string) : io unit :=
  sp_event EventNormal "DuplicateFingerprint"
    ("Existing RemediationJob " ++ rj_Name rjob ++ " already covers this finding" ++ suffix).

Definition duplicate (rjob : RemediationJob) (suffix : string) : io (option reconciled) :=
  dedup_event rjob suffix ;;; suppressed ReasonDuplicate no_requeue.

Definition short_ttl : Z :=
  let d := seconds (cfg_RemediationJobShortTTLSeconds (sp_Cfg r)) in
  if d =? 0 then 24 * hour else d.

(** [true] when the PR is merged now. *)
Definition merged_now (rjob : RemediationJob) : io bool :=
  match sp_PRMergeChecker r with
  | Some isMerged =>
      if negb (String.eqb (rj_URL rjob) "") then
        m <- isMerged (st_SinkRef (rj_Status rjob)) ;;
        Ret (match m with Ok b => b | Err _ => false end)
      else Ret false
  | None => Ret false
  end.

Definition expired_tombstone (rjob : RemediationJob) : io bool :=
  match st_CompletedAt (rj_Status rjob) with
  | None => Ret true
  | Some c => t <- now ;; Ret (negb (Sub t c <? short_ttl))
  end.

Definition tombstone (rjob : RemediationJob) : io (option reconciled) :=
  if st_PRMerged (rj_Status rjob) then duplicate rjob " (PR merged)"
  else
    m <- merged_now rjob ;;
    if m : bool then
      t <- now ;;
      p <- call (StatusPatchRJob (set_Merged true (Some t) rjob) rjob) ;;
      duplicate (match p with Ok r1 => r1 | Err _ => set_Merged true (Some t) rjob end)
        " (PR just merged)"
    else
      e <- expired_tombstone rjob ;;
      if negb e then duplicate rjob " (within short TTL)"
      else
        d <- call (DeleteRJob rjob) ;;
        Ret (Some (match d with
                   | Ok _ => Ok requeue_now
                   | Err e => if IsNotFound e then Ok requeue_now
                              else Err (EWrap "deleting expired tombstone: " e)
                   end)).

(** Lines 420-576: one existing job with the fingerprint. *)
Definition dedup_one (rjob : RemediationJob) : io (option reconciled) :=
  match rj_Phase rjob with
  | PhasePermanentlyFailed =>
      sp_event EventWarning "RemediationJobPermanentlyFailed"
        ("RemediationJob " ++ rj_Name rjob ++ " is permanently failed after "
         ++ itoa (st_RetryCount (rj_Status rjob)) ++ " retries") ;;;
      suppressed ReasonPermanentlyFailed no_requeue
  | PhaseFailed =>
      d <- call (DeleteRJob rjob) ;;
      Ret (match d with
           | Ok _ => None
           | Err e => if IsNotFound e then None else Some (Err e)
           end)
  | PhaseSucceeded => tombstone rjob
  | _ => duplicate rjob ""
  end.

Fixpoint dedup (fp : string) (items : list RemediationJob) : io (option reconciled) :=
  match items with
  | [] => Ret None
  | rjob :: rest =>
      if negb (String.eqb (spec_Fingerprint (rj_Spec rjob)) fp) then dedup fp rest
      else
        g <- dedup_one rjob ;;
        match g with Some res => Ret (Some res) | None => dedup fp rest end
  end.

Definition dedup_gate (fp : string) : io (option reconciled) :=
  l <- call (ListRJobs sp_ns [("remediation.mechanic.io/fingerprint", take 12 fp)]) ;;
  match l with
  | Err e => Ret (Some (Err e))
  | Ok items => dedup fp items
  end.

(** Lines 588-624. *)
Definition supersedes (f : Finding) (peer : RemediationJob) : bool :=
  String.eqb (fs_Namespace (rj_Finding peer)) (f_Namespace f)
  && String.eqb (fs_ParentObject (rj_Finding peer)) (f_ParentObject f)
  && (KindHierarchyRank (f_Kind f) <? KindHierarchyRank (fs_Kind (rj_Finding peer))).

Definition hierarchy_gate (f : Finding) : io (option reconciled) :=
  if String.eqb (f_ParentObject f) "" then Ret None
  else
    l <- call (ListRJobs sp_ns [("app.kubernetes.io/managed-by", "mechanic-watcher")]) ;;
    match l with
    | Err e =>
        Ret (Some (Err (EWrap "parent-hierarchy suppression: listing RemediationJobs: " e)))
    | Ok items =>
        if existsb (supersedes f) items
        then suppressed ReasonParentHierarchy (requeue_after (30 * second))
        else Ret None
    end.

(** Lines 629-646. *)
Definition readiness_gate : io (option reconciled) :=
  match sp_ReadinessChecker r with
  | None => Ret None
  | Some check =>
      c <- check ;;
      Ret (match c with
           | Ok _ => None
           | Err _ => Some (Ok (requeue_after ReadinessCacheTTL))
           end)
  end.

(** ** The creation (lines 648-728) *)
Definition new_rjob (name namespace fp : string) (f : Finding) : RemediationJob :=
  let cfg := sp_Cfg r in
  {| rj_Meta :=
       {| meta_Name := "mechanic-" ++ take 12 fp; meta_Namespace := sp_ns; meta_UID := "";
          meta_Labels := <["remediation.mechanic.io/fingerprint" := take 12 fp]>
                           (<["app.kubernetes.io/managed-by" := "mechanic-watcher"]> ∅);
          meta_Annotations :=
            (if negb (String.eqb (f_NodeName f) "")
             then <[NodeNameAnnotation := f_NodeName f]> else id)
              (<["remediation.mechanic.io/fingerprint-full" := fp]> ∅);
          meta_CreationTimestamp := zero_time; meta_Generation := 0;
          meta_OwnerReferences := [] |};
     rj_Spec :=
       {| spec_SourceResultRef := {| rr_Name := name; rr_Namespace := namespace |};
          spec_Fingerprint := fp; spec_SourceType := sp_ProviderName r;
          spec_SinkType := cfg_SinkType cfg;
          spec_Finding :=
            {| fs_Kind := f_Kind f; fs_Name := f_Name f; fs_Namespace := f_Namespace f;
               fs_ParentObject := f_ParentObject f; fs_Errors := f_Errors f;
               fs_Details := f_Details f; fs_ChainDepth := wrap32 (f_ChainDepth f) |};
          spec_GitOpsRepo := cfg_GitOpsRepo cfg;
          spec_GitOpsManifestRoot := cfg_GitOpsManifestRoot cfg;
          spec_AgentImage := cfg_AgentImage cfg;
          spec_AgentSA := if String.eqb (cfg_AgentRBACScope cfg) "namespace"
                          then "mechanic-agent-ns" else cfg_AgentSA cfg;
          spec_MaxRetries := cfg_MaxInvestigationRetries cfg;
          spec_Severity := f_Severity f |};
     rj_Status := empty_Status |}.

Definition create_rjob (name namespace fp : string) (f : Finding) : io reconciled :=
  c <- call (CreateRJob (new_rjob name namespace fp f)) ;;
  match c with
  | Err e => if IsAlreadyExists e then Ret (Ok no_requeue)
             else Ret (Err (EWrap "creating RemediationJob: " e))
  | Ok _ =>
      RecordDispatched (f_Kind f) (f_Severity f) ;;;
      sp_event EventNormal "FindingDetected"
        ("Provider " ++ sp_ProviderName r ++ " detected " ++ f_Kind f ++ "/" ++ f_Name f
         ++ " in namespace " ++ f_Namespace f) ;;;
      Ret (Ok no_requeue)
  end.

(** Lines 408-728: the finding has a fingerprint and is stable. *)
Definition gates (fp : string) (f : Finding) : io (option reconciled) :=
  g <- dedup_gate fp ;;
  match g with
  | Some res => Ret (Some res)
  | None =>
      g <- hierarchy_gate f ;;
      match g with
      | Some res => Ret (Some res)
      | None => readiness_gate
      end
  end.

(** Lines 190-294: the gates on the finding itself. *)
Definition filters (f : Finding) : io (option reconciled) :=
  g <- injection_gate f ;;
  match g with
  | Some res => Ret (Some res)
  | None =>
      g <- namespace_gate f ;;
      match g with Some res => Ret (Some res) | None => severity_gate f end
  end.

(** Lines 339-728. *)
Definition admit_finding (name namespace : string) (obj : Object) (f : Finding) (m : BoundedMap)
    (s : State) : io (State * reconciled) :=
  match FindingFingerprint f with
  | Err e => Ret (s, Err (EWrap "computing fingerprint: " e))
  | Ok fp =>
      if (Z.of_nat (String.length fp) <? 12)%Z then
        Ret (s, Err (EMsg ("fingerprint too short: got " ++ itoa (Z.of_nat (String.length fp))
                           ++ " chars, need at least 12")))
      else
        '(s1, g) <- stabilisation_gate obj fp m s ;;
        match g with
        | Some res => Ret (s1, res)
        | None =>
            g <- gates fp f ;;
            match g with
            | Some res => Ret (s1, res)
            | None => c <- create_rjob name namespace fp f ;; Ret (s1, c)
            end
        end
  end.

Definition handle_finding (name namespace : string) (obj : Object) (f : Finding) (m : BoundedMap)
    (s : State) : io (State * reconciled) :=
  g <- filters f ;;
  match g with
  | Some res => Ret (s, res)
  | None =>
      '(s1, g) <- self_gate f s ;;
      match g with
      | Some res => Ret (s1, res)
      | None => admit_finding name namespace obj f m s1
      end
  end.

Definition Reconcile (name namespace : string) (s0 : State) : io (State * reconciled) :=
  '(s, m) <- initFirstSeen s0 ;;
  got <- call (GetObject (sp_ObjectType r) namespace name) ;;
  match got with
  | Err e =>
      if negb (IsNotFound e) then Ret (s, Err e)
      else
        m' <- Clear m ;;
        res <- source_deleted name namespace ;;
        Ret (with_firstSeen m' s, res)
  | Ok obj =>
      f <- sp_ExtractFinding r obj ;;
      match f with
      | Err e => Ret (s, Err e)
      | Ok None =>
          m' <- Clear m ;;
          res <- finding_cleared name namespace ;;
          Ret (with_firstSeen m' s, res)
      | Ok (Some finding) => handle_finding name namespace obj finding m s
      end
  end.
End Reconcile.
