(* ===== verification/ProviderProps.v ===== *)
(** * Properties of the SourceProviderReconciler
    Every RemediationJob it creates passed every gate; a deleted source cancels
    the unfinished jobs that refer to its name and namespace, whatever their
    kind, and no others. *)
From stdpp Require Import base list strings gmap.
From Stdlib Require Import ZArith Lia.
From S2P Require Import Prelude Prog Utf8 Regex Redact Sha256 Json K8s Types Effects Domain.
From S2P Require Import Fingerprint BoundedMap CircuitBreaker Config Metrics Provider.
Import GoErr GoStr GoTime GoInt.
Open Scope string_scope.
Open Scope list_scope.
Open Scope Z_scope.
Open Scope go_scope.

(** A call that creates no RemediationJob. *)
Definition no_rjob (e : req) : Prop := creates_rjob e = false.

(** The collaborators of the reconciler create no RemediationJob. *)
Record collaborators_quiet (r : SourceProviderReconciler) : Prop := {
  extract_quiet : forall o, allows no_rjob (sp_ExtractFinding r o);
  ready_quiet : forall c, sp_ReadinessChecker r = Some c -> allows no_rjob c;
  closer_quiet : forall c j s, sp_SinkCloser r = Some c -> allows no_rjob (c j s);
  merge_quiet : forall c s, sp_PRMergeChecker r = Some c -> allows no_rjob (c s) }.

Ltac silent := allows_steps.

(** A program without creations whose value satisfies [Q], which may speak
    about the trace. *)
Definition passes {A} (Q : trace -> A -> Prop) (p : io A) : Prop :=
  wp p (fun tr o => every no_rjob tr /\ match o with Done a => Q tr a | Panicked _ => True end).

Lemma passes_bind {A B} (Q1 : trace -> A -> Prop) (Q : trace -> B -> Prop) (p : io A) f :
  passes Q1 p ->
  (forall tr1 a, Q1 tr1 a -> passes (fun tr b => Q (tr1 ++ tr) b) (f a)) ->
  passes Q (bind p f).
Proof.
  intros Hp Hf. apply wp_bind. eapply wp_mono; [|exact Hp].
  intros tr1 [a|m] [Hq Ha]; [|done]. eapply wp_mono; [|apply (Hf tr1 a Ha)].
  intros tr2 o [Hq2 Ho]. split; [by apply every_app|done].
Qed.

Lemma passes_mono {A} (Q Q' : trace -> A -> Prop) (p : io A) :
  (forall tr a, Q tr a -> Q' tr a) -> passes Q p -> passes Q' p.
Proof.
  intros HQ. apply wp_mono. intros tr o [Hq Ho]. split; [done|]. destruct o; [auto|done].
Qed.

Lemma passes_quiet {A} (p : io A) : allows no_rjob p -> passes (fun _ _ => True) p.
Proof. apply wp_mono. intros tr [a|m] H; done. Qed.

Lemma passes_ret {A} (Q : trace -> A -> Prop) a : Q [] a -> passes Q (Ret a).
Proof. intros H. split; [apply every_nil|done]. Qed.

Lemma passes_call {A} (Q : trace -> A -> Prop) e (k : answer e -> io A) :
  no_rjob e -> (forall a, passes (fun tr b => Q (Event e a :: tr) b) (k a)) -> passes Q (Call e k).
Proof.
  intros He Hk a. eapply wp_mono; [|apply (Hk a)].
  intros tr o [Hq Ho]. split; [by apply every_cons|done].
Qed.

Lemma passes_runs {A} (p : io A) :
  allows no_rjob p -> passes (fun tr a => runs p tr (Done a)) p.
Proof.
  intros Hp. apply wp_runs. intros tr o Hr. split; [by apply (allows_runs _ _ _ _ Hp Hr)|].
  by destruct o.
Qed.

(** [tr] is a segment of [tr']. *)
Definition within (tr tr' : trace) : Prop := exists l r, tr' = l ++ tr ++ r.

Lemma within_refl tr : within tr tr.
Proof. exists [], []. by rewrite app_nil_r. Qed.
Lemma within_trans tr1 tr2 tr3 : within tr1 tr2 -> within tr2 tr3 -> within tr1 tr3.
Proof.
  intros (l & r & ->) (l' & r' & ->). exists (l' ++ l), (r ++ r'). by rewrite <- !app_assoc.
Qed.
Lemma within_app_l tr1 tr2 : within tr1 (tr1 ++ tr2).
Proof. by exists [], tr2. Qed.
Lemma within_app_r tr1 tr2 : within tr2 (tr1 ++ tr2).
Proof. exists tr1, []. by rewrite app_nil_r. Qed.
Lemma within_cons ev tr : within tr (ev :: tr).
Proof. apply (within_app_r [ev]). Qed.
Lemma within_elem tr tr' ev : within tr tr' -> ev ∈ tr -> ev ∈ tr'.
Proof. intros (l & r & ->). set_solver. Qed.
Lemma within_clocks tr tr' t : within tr tr' -> t ∈ clocks tr -> t ∈ clocks tr'.
Proof. intros (l & r & ->). rewrite !clocks_app. set_solver. Qed.

Create HintDb traces.
#[export] Hint Resolve within_refl within_app_l within_app_r within_cons within_trans
  within_elem within_clocks : traces.

(** Find a segment: strip the trace from the left. *)
Ltac segment :=
  rewrite ?app_nil_r;
  repeat first
    [ apply within_refl
    | apply within_app_l
    | eapply within_trans; [|apply within_app_r]
    | eapply within_trans; [|apply within_cons] ].

(** ** Programs whose creations satisfy [G], which speaks about the trace. *)
Definition creates_only {A} (G : RemediationJob -> trace -> Prop) (p : io A) : Prop :=
  wp p (fun tr _ => forall j a, Event (ans := answer) (CreateRJob j) a ∈ tr -> G j tr).

Lemma no_creation tr j a : every no_rjob tr -> Event (ans := answer) (CreateRJob j) a ∈ tr -> False.
Proof. unfold every. rewrite Forall_forall. intros H Hin. by specialize (H _ Hin). Qed.

Lemma creates_quiet {A} G (p : io A) : allows no_rjob p -> creates_only G p.
Proof. apply wp_mono. intros tr o Hq j a Hin. by destruct (no_creation tr j a). Qed.

Lemma creates_bind {A B} (Q : trace -> A -> Prop) G (p : io A) (f : A -> io B) :
  passes Q p ->
  (forall tr1 a, Q tr1 a -> creates_only (fun j tr => G j (tr1 ++ tr)) (f a)) ->
  creates_only G (bind p f).
Proof.
  intros Hp Hf. apply wp_bind. eapply wp_mono; [|exact Hp]. intros tr1 [a|msg] [Hq Ha];
    [|intros j b Hin; by destruct (no_creation tr1 j b)].
  eapply wp_mono; [|apply (Hf tr1 a Ha)]. intros tr2 o2 H j b Hin.
  apply elem_of_app in Hin as [Hin|Hin]; [by destruct (no_creation tr1 j b)|by apply (H j b)].
Qed.

Lemma creates_call {A} G e (k : answer e -> io A) :
  no_rjob e -> (forall a, creates_only (fun j tr => G j (Event e a :: tr)) (k a)) ->
  creates_only G (Call e k).
Proof.
  intros He Hk a. eapply wp_mono; [|apply (Hk a)]. intros tr o H j b Hin.
  apply elem_of_cons in Hin as [Hin|Hin]; [|by apply (H j b)].
  apply (f_equal ev_call) in Hin. simpl in Hin. by rewrite <- Hin in He.
Qed.

Lemma creates_create {A} G j (k : answer (CreateRJob j) -> io A) :
  (forall a tr, G j (Event (CreateRJob j) a :: tr)) -> (forall a, allows no_rjob (k a)) ->
  creates_only G (Call (CreateRJob j) k).
Proof.
  intros HG Hk a. eapply wp_mono; [|apply (Hk a)]. intros tr o Hq j' b Hin.
  apply elem_of_cons in Hin as [Hin|Hin]; [|by destruct (no_creation tr j' b)].
  apply (f_equal ev_call) in Hin as [= ->]. apply HG.
Qed.

Section Admission.
Context (order : gmap string Z -> list (string * Z)) (r : SourceProviderReconciler).
Hypothesis quiet : collaborators_quiet r.

Lemma suppressed_passes reason result :
  passes (fun _ g => exists x, g = Some x) (suppressed reason result).
Proof.
  unfold suppressed, RecordSuppressed, metric_inc. intros u. split; [repeat constructor|]. eauto.
Qed.

Lemma sp_event_passes t a m : passes (fun _ _ => True) (sp_event r t a m).
Proof. apply passes_quiet. unfold sp_event. silent. Qed.

Lemma duplicate_passes j s : passes (fun _ g => exists x, g = Some x) (duplicate r j s).
Proof.
  eapply passes_bind; [apply sp_event_passes|]. intros tr1 _ _. apply suppressed_passes.
Qed.

(** *** The filters on the finding *)
Record admissible (f : Finding) : Prop := {
  adm_injection : cfg_InjectionDetectionAction (sp_Cfg r) = "suppress" ->
    Injection.DetectInjection (f_Errors f) = false /\ Injection.DetectInjection (f_Details f) = false;
  adm_watch : f_Namespace f <> "" -> cfg_WatchNamespaces (sp_Cfg r) <> [] ->
    f_Namespace f ∈ cfg_WatchNamespaces (sp_Cfg r);
  adm_exclude : f_Namespace f <> "" -> f_Namespace f ∉ cfg_ExcludeNamespaces (sp_Cfg r);
  adm_severity : Severity.MeetsSeverityThreshold (f_Severity f) (minSeverity r) = true }.

(** The namespace was read and its annotations do not ask to skip it, or it does
    not exist. *)
Definition namespace_allows (f : Finding) (tr : trace) : Prop :=
  f_Namespace f = "" \/
  exists g, Event (GetNamespace (f_Namespace f)) g ∈ tr /\
    match g with
    | Ok o => exists t, t ∈ clocks tr /\
        Annotations.ShouldSkip (meta_Annotations (ns_Meta o)) t = false
    | Err e => IsNotFound e = true
    end.

Lemma contains_ns_spec l n : contains_ns l n = true <-> n ∈ l.
Proof.
  unfold contains_ns. rewrite existsb_exists, list_elem_of_In. split.
  - intros (x & Hx & E). apply String.eqb_eq in E. by subst.
  - intros Hn. exists n. by rewrite String.eqb_refl.
Qed.

Lemma injection_gate_passes f :
  passes (fun _ g => g = None -> cfg_InjectionDetectionAction (sp_Cfg r) = "suppress" ->
    Injection.DetectInjection (f_Errors f) = false /\ Injection.DetectInjection (f_Details f) = false)
    (injection_gate r f).
Proof.
  unfold injection_gate. destruct (_ && _) eqn:E.
  - eapply passes_mono; [|apply suppressed_passes]. by intros tr g [x ->].
  - apply passes_ret. intros _ Hs. rewrite Hs, andb_true_r in E. by apply orb_false_iff in E.
Qed.

Lemma namespace_gate_passes f :
  passes (fun tr g => g = None -> namespace_allows f tr /\ (f_Namespace f <> "" ->
    (cfg_WatchNamespaces (sp_Cfg r) <> [] -> f_Namespace f ∈ cfg_WatchNamespaces (sp_Cfg r)) /\
    f_Namespace f ∉ cfg_ExcludeNamespaces (sp_Cfg r)))
    (namespace_gate r f).
Proof.
  unfold namespace_gate, namespace_allows.
  destruct (String.eqb_spec (f_Namespace f) ""); [apply passes_ret; intros _; split; [by left|done]|].
  destruct (_ && negb _) eqn:Ew; [by apply passes_ret|].
  destruct (contains_ns (cfg_ExcludeNamespaces _) _) eqn:Ee; [by apply passes_ret|].
  assert ((cfg_WatchNamespaces (sp_Cfg r) <> [] -> f_Namespace f ∈ cfg_WatchNamespaces (sp_Cfg r)) /\
    f_Namespace f ∉ cfg_ExcludeNamespaces (sp_Cfg r)) as Hok.
  { split.
    - intros Hne. destruct (cfg_WatchNamespaces (sp_Cfg r)) as [|x xs] eqn:Hw; [done|].
      cbn [andb] in Ew. apply negb_false_iff in Ew. by apply contains_ns_spec.
    - intros Hin. apply contains_ns_spec in Hin. congruence. }
  apply passes_call; [done|]. intros [ob|e]; cbn [bind].
  - apply passes_call; [done|]. intros t. apply passes_ret.
    destruct (Annotations.ShouldSkip _ t) eqn:Hs; [done|]. intros _. split; [|done].
    right. eexists. split; [apply list_elem_of_here|]. exists t. split; [apply list_elem_of_here|done].
  - destruct (IsNotFound e) eqn:He; apply passes_ret; [|done]. intros _. split; [|done].
    right. eexists. split; [apply list_elem_of_here|done].
Qed.

Lemma namespace_allows_within f tr tr' : within tr tr' -> namespace_allows f tr -> namespace_allows f tr'.
Proof.
  intros Hw [?|(g & Hg & H)]; [by left|right]. exists g. split; [eauto with traces|].
  destruct g; [|done]. destruct H as (t & ? & ?). exists t. eauto with traces.
Qed.

Lemma filters_passes f :
  passes (fun tr g => g = None -> admissible f /\ namespace_allows f tr) (filters r f).
Proof.
  unfold filters. eapply passes_bind; [apply injection_gate_passes|]. intros tr1 [res|] H1;
    [by apply passes_ret|].
  eapply passes_bind; [apply namespace_gate_passes|]. intros tr2 [res|] H2; [by apply passes_ret|].
  unfold severity_gate. destruct (Severity.MeetsSeverityThreshold _ _) eqn:E; cbn [negb].
  - apply passes_ret. intros _. destruct (H2 eq_refl) as [Hn Hw]. split.
    + split; [by apply H1|..|done]; intros; by apply Hw.
    + eapply namespace_allows_within, Hn. rewrite app_nil_r. apply within_app_r.
  - eapply passes_mono; [|apply suppressed_passes]. by intros tr g [x ->].
Qed.

(** *** Self-remediation and the stabilisation window *)
Definition shallow (f : Finding) : Prop :=
  f_ChainDepth f <= 0 \/
  (cfg_SelfRemediationMaxDepth (sp_Cfg r) <> 0 /\
   f_ChainDepth f <= cfg_SelfRemediationMaxDepth (sp_Cfg r)).

(** The circuit breaker, when it applies, allowed the attempt. *)
Definition unbroken (f : Finding) (cb : option CircuitBreaker) (tr : trace) : Prop :=
  f_ChainDepth f <= 0 \/
  forall b, cb = Some b -> exists tr' b' remaining,
    within tr' tr /\ runs (ShouldAllow b) tr' (Done (b', (true, remaining))).

Lemma unbroken_within f cb tr tr' : within tr tr' -> unbroken f cb tr -> unbroken f cb tr'.
Proof.
  intros Hw [?|H]; [by left|right]. intros b Hb.
  destruct (H b Hb) as (tr0 & b' & rem & ? & ?). exists tr0, b', rem. eauto with traces.
Qed.

Lemma self_gate_passes f s :
  passes (fun tr a => firstSeen a.1 = firstSeen s /\
                      (a.2 = None -> shallow f /\ unbroken f (breaker s) tr)) (self_gate r f s).
Proof.
  unfold self_gate, unbroken. destruct (Z.leb_spec (f_ChainDepth f) 0);
    [apply passes_ret; split; [done|split; by left]|].
  unfold depth_exceeded.
  destruct (Z.eqb_spec (cfg_SelfRemediationMaxDepth (sp_Cfg r)) 0); cbn [orb].
  { eapply passes_bind; [apply suppressed_passes|]. intros tr1 g [x ->]. by apply passes_ret. }
  destruct (Z.ltb_spec (cfg_SelfRemediationMaxDepth (sp_Cfg r)) (f_ChainDepth f)).
  { eapply passes_bind; [apply suppressed_passes|]. intros tr1 g [x ->]. by apply passes_ret. }
  assert (shallow f) by (right; split; [done|lia]).
  destruct (breaker s) as [cb|]; [|apply passes_ret; split; [done|]; intros _; split; [done|by right]].
  eapply passes_bind; [apply passes_runs; unfold ShouldAllow, allow, now; silent|].
  intros tr1 [cb' [[] rem]] Hr.
  - apply passes_ret. split; [done|]. intros _. split; [done|]. right. intros b [= <-].
    exists tr1, cb', rem. eauto with traces.
  - unfold RecordSuppressed, RecordCircuitBreakerActivation, metric_inc.
    apply passes_call; [done|]. intros []. cbn [bind]. apply passes_call; [done|]. intros [].
    by apply passes_ret.
Qed.

Lemma Get_passes key m :
  passes (fun _ g => forall t, g = Some t -> bm_data m !! key = Some t) (Get key m).
Proof.
  unfold Get, needsCleanup, now.
  destruct (bm_ttl m <=? 0); [by apply passes_ret|].
  apply passes_call; [done|]. intros t. cbn [bind].
  destruct (_ && _); [|by apply passes_ret].
  destruct (bm_data m !! key) as [ts|]; [|by apply passes_ret].
  apply passes_call; [done|]. intros t2. apply passes_ret. by case_match.
Qed.

(** The finding was first seen a window ago, or needs no window. *)
Definition stable_finding (obj : Object) (fp : string) (m : BoundedMap) (tr : trace) : Prop :=
  map_get (meta_Annotations (obj_Meta obj)) Annotations.AnnotationPriority = "critical" \/
  cfg_StabilisationWindow (sp_Cfg r) = 0 \/
  exists t0 t, bm_data m !! fp = Some t0 /\ t ∈ clocks tr /\
    cfg_StabilisationWindow (sp_Cfg r) <= Sub t t0.

Lemma stable_finding_within obj fp m tr tr' :
  within tr tr' -> stable_finding obj fp m tr -> stable_finding obj fp m tr'.
Proof.
  intros Hw [?|[?|(t0 & t & ? & ? & ?)]]; [by left|right; by left|right; right].
  exists t0, t. eauto with traces.
Qed.

Lemma SetWithTime_no_rjob key ts m : allows no_rjob (SetWithTime order key ts m).
Proof. unfold SetWithTime, cleanupIfNeeded, needsCleanup, now. silent. Qed.

Lemma stabilisation_gate_passes obj fp m s :
  passes (fun tr a => a.2 = None -> stable_finding obj fp m tr) (stabilisation_gate order r obj fp m s).
Proof.
  unfold stabilisation_gate, stable_finding. cbv zeta.
  destruct (String.eqb_spec (map_get (meta_Annotations (obj_Meta obj)) Annotations.AnnotationPriority)
              "critical") as [Hp|Hp]; cbn [negb andb]; [apply passes_ret; by left|].
  destruct (Z.eqb_spec (cfg_StabilisationWindow (sp_Cfg r)) 0) as [Hw|Hw]; cbn [negb];
    [apply passes_ret; intros _; right; by left|].
  eapply passes_bind; [apply Get_passes|]. intros tr1 [t0|] Hget.
  - apply passes_call; [done|]. intros t. cbn [bind].
    destruct (Z.ltb_spec (Sub t t0) (cfg_StabilisationWindow (sp_Cfg r))).
    + eapply passes_bind; [apply suppressed_passes|]. intros tr2 g [x ->]. by apply passes_ret.
    + apply passes_ret. intros _. right. right. exists t0, t. split; [by apply Hget|].
      split; [|done]. rewrite clocks_app. apply elem_of_app. right. apply list_elem_of_here.
  - eapply passes_bind.
    { apply passes_quiet. unfold Set_, now. silent. apply SetWithTime_no_rjob. }
    intros tr2 [m' b] _. eapply passes_bind; [apply suppressed_passes|].
    intros tr3 g [x ->]. by apply passes_ret.
Qed.

(** *** Duplicates *)
Definition only_failed (fp : string) (items : list RemediationJob) : Prop :=
  forall j, j ∈ items -> spec_Fingerprint (rj_Spec j) = fp -> rj_Phase j = PhaseFailed.

Lemma tombstone_passes j : passes (fun _ g => exists x, g = Some x) (tombstone r j).
Proof using quiet.
  unfold tombstone, now. destruct (st_PRMerged _); [apply duplicate_passes|].
  eapply passes_bind.
  { apply passes_quiet. unfold merged_now. destruct (sp_PRMergeChecker r) eqn:Hm in |- *; [|silent].
    silent. eapply (merge_quiet r quiet); eassumption. }
  intros tr1 [] _.
  - apply passes_call; [done|]. intros t. cbn [bind]. apply passes_call; [done|]. intros p.
    apply duplicate_passes.
  - eapply passes_bind; [apply passes_quiet; unfold expired_tombstone, now; silent|].
    intros tr2 [] _; cbn [negb]; [|apply duplicate_passes].
    apply passes_call; [done|]. intros d. apply passes_ret. eauto.
Qed.

Lemma dedup_one_passes j :
  passes (fun _ g => g = None -> rj_Phase j = PhaseFailed) (dedup_one r j).
Proof using quiet.
  unfold dedup_one. destruct (rj_Phase j);
    try (eapply passes_mono; [|apply duplicate_passes]; by intros tr g [x ->]).
  - eapply passes_mono; [|apply tombstone_passes]. by intros tr g [x ->].
  - apply passes_call; [done|]. intros d. by apply passes_ret.
  - eapply passes_bind; [apply sp_event_passes|]. intros tr1 _ _.
    eapply passes_mono; [|apply suppressed_passes]. by intros tr g [x ->].
Qed.

Lemma dedup_passes fp items : passes (fun _ g => g = None -> only_failed fp items) (dedup r fp items).
Proof using quiet.
  induction items as [|j l IH]; cbn [dedup]; [apply passes_ret; intros _ j Hj; set_solver|].
  destruct (String.eqb_spec (spec_Fingerprint (rj_Spec j)) fp) as [E|E]; cbn [negb].
  - eapply passes_bind; [apply dedup_one_passes|]. intros tr1 [res|] H1; [by apply passes_ret|].
    eapply passes_mono; [|exact IH]. intros tr g H Hg k Hk Ek.
    apply elem_of_cons in Hk as [->|Hk]; [by apply H1|by apply H].
  - eapply passes_mono; [|exact IH]. intros tr g H Hg k Hk Ek.
    apply elem_of_cons in Hk as [->|Hk]; [done|by apply H].
Qed.

(** The answer to the list of the jobs with the fingerprint's label. *)
Definition no_duplicate (fp : string) (tr : trace) : Prop :=
  exists items,
    Event (ListRJobs (cfg_AgentNamespace (sp_Cfg r))
             [("remediation.mechanic.io/fingerprint", take 12 fp)]) (Ok items) ∈ tr /\
    only_failed fp items.

Lemma dedup_gate_passes fp : passes (fun tr g => g = None -> no_duplicate fp tr) (dedup_gate r fp).
Proof using quiet.
  unfold dedup_gate. apply passes_call; [done|]. intros [items|e]; cbn [bind]; [|by apply passes_ret].
  eapply passes_mono; [|apply dedup_passes]. intros tr g Hg E. exists items.
  split; [apply list_elem_of_here|auto].
Qed.

(** *** The parent hierarchy and readiness *)
Definition no_superior (f : Finding) (tr : trace) : Prop :=
  f_ParentObject f = "" \/
  exists items,
    Event (ListRJobs (cfg_AgentNamespace (sp_Cfg r))
             [("app.kubernetes.io/managed-by", "mechanic-watcher")]) (Ok items) ∈ tr /\
    (forall p, p ∈ items -> supersedes f p = false).

Lemma hierarchy_gate_passes f :
  passes (fun tr g => g = None -> no_superior f tr) (hierarchy_gate r f).
Proof.
  unfold hierarchy_gate, no_superior. destruct (String.eqb_spec (f_ParentObject f) "");
    [apply passes_ret; by left|].
  apply passes_call; [done|]. intros [items|e]; cbn [bind]; [|by apply passes_ret].
  destruct (existsb (supersedes f) items) eqn:E.
  - eapply passes_mono; [|apply suppressed_passes]. by intros tr g [x ->].
  - apply passes_ret. intros _. right. exists items. split; [apply list_elem_of_here|].
    intros p Hp. destruct (supersedes f p) eqn:Es; [|done]. exfalso.
    assert (existsb (supersedes f) items = true); [|congruence].
    apply existsb_exists. exists p. by rewrite <- list_elem_of_In.
Qed.

(** The readiness checker ran and reported no error. *)
Definition ready (tr : trace) : Prop :=
  forall c, sp_ReadinessChecker r = Some c ->
  exists tr', within tr' tr /\ runs c tr' (Done (Ok tt)).

Lemma readiness_gate_passes : passes (fun tr g => g = None -> ready tr) (readiness_gate r).
Proof using quiet.
  unfold readiness_gate, ready. destruct (sp_ReadinessChecker r) as [c|] eqn:Hc in |- *;
    [|by apply passes_ret].
  eapply passes_bind; [apply passes_runs; eapply (ready_quiet r quiet); eassumption|].
  intros tr1 [[]|e] Hr; apply passes_ret; [|done]. intros _ c' [= <-].
  exists tr1. eauto with traces.
Qed.

(** What [gates] checks. *)
Record clear (f : Finding) (fp : string) (tr : trace) : Prop := {
  clear_unique : no_duplicate fp tr;
  clear_top : no_superior f tr;
  clear_ready : ready tr }.

Lemma clear_within f fp tr tr' : within tr tr' -> clear f fp tr -> clear f fp tr'.
Proof.
  intros Hw [(items & Hin & Hf) Hs Hr]. split.
  - exists items. eauto with traces.
  - destruct Hs as [?|(items' & Hin' & Hf')]; [by left|right]. exists items'. eauto with traces.
  - intros c Hc. destruct (Hr c Hc) as (tr0 & ? & ?). exists tr0. eauto with traces.
Qed.

Lemma gates_passes fp f : passes (fun tr g => g = None -> clear f fp tr) (gates r fp f).
Proof using quiet.
  unfold gates. eapply passes_bind; [apply dedup_gate_passes|].
  intros tr1 [res|] H1; [by apply passes_ret|].
  eapply passes_bind; [apply hierarchy_gate_passes|].
  intros tr2 [res|] H2; [by apply passes_ret|].
  eapply passes_mono; [|apply readiness_gate_passes]. intros tr g H3 Hg. split.
  - destruct (H1 eq_refl) as (items & Hin & Hf). exists items. set_solver.
  - destruct (H2 eq_refl) as [?|(items & Hin & Hf)]; [by left|right]. exists items. set_solver.
  - intros c Hc. destruct (H3 Hg c Hc) as (tr0 & ? & ?). exists tr0. eauto with traces.
Qed.

(** *** Creation *)
(** The created job is the one of a finding [f] of the object [obj] that every
    gate let through in this trace. *)
Record cleared (s : State) (m : BoundedMap) (obj : Object) (f : Finding) (fp : string) (tr : trace) :
    Prop := {
  cl_fingerprint : FindingFingerprint f = Ok fp;
  cl_admissible : admissible f;
  cl_namespace : namespace_allows f tr;
  cl_shallow : shallow f;
  cl_unbroken : unbroken f (breaker s) tr;
  cl_stable : stable_finding obj fp m tr;
  cl_clear : clear f fp tr }.

Lemma admit_finding_creates name namespace obj f m s :
  creates_only (fun j tr => exists fp, j = new_rjob r name namespace fp f /\
      FindingFingerprint f = Ok fp /\ stable_finding obj fp m tr /\ clear f fp tr)
    (admit_finding order r name namespace obj f m s).
Proof using quiet.
  unfold admit_finding. destruct (FindingFingerprint f) as [fp|e] eqn:Hfp;
    [|apply creates_quiet; silent].
  destruct (_ <? 12); [apply creates_quiet; silent|].
  eapply creates_bind; [apply stabilisation_gate_passes|].
  intros tr1 [s1 [res|]] Hst; [apply creates_quiet; silent|].
  eapply creates_bind; [apply gates_passes|].
  intros tr2 [res|] Hg; [apply creates_quiet; silent|].
  unfold create_rjob. cbn [bind call].
  apply creates_create; [|intros a; unfold RecordDispatched, metric_inc, sp_event; silent].
  intros a tr. exists fp. split; [done|]. split; [done|]. split.
  - eapply stable_finding_within; [|by apply Hst]. segment.
  - eapply clear_within; [|by apply Hg]. segment.
Qed.

Lemma handle_finding_creates name namespace obj f m s :
  creates_only (fun j tr => exists fp, j = new_rjob r name namespace fp f /\
      cleared s m obj f fp tr)
    (handle_finding order r name namespace obj f m s).
Proof using quiet.
  unfold handle_finding. eapply creates_bind; [apply filters_passes|].
  intros tr1 [res|] Ha; [apply creates_quiet; silent|]. destruct (Ha eq_refl) as [Hadm Hns].
  eapply creates_bind; [apply self_gate_passes|].
  intros tr2 [s1 [res|]] [Hfs Hsh]; [apply creates_quiet; silent|]. destruct (Hsh eq_refl) as [Hd Hb].
  eapply wp_mono; [|apply (admit_finding_creates name namespace obj f m s1)].
  intros tr o H j a Hin. destruct (H j a Hin) as (fp & -> & Hfp & Hst & Hc).
  exists fp. split; [done|]. split; try done.
  - eapply namespace_allows_within, Hns. segment.
  - eapply unbroken_within, Hb. segment.
  - eapply stable_finding_within, Hst. segment.
  - eapply clear_within, Hc. segment.
Qed.

Lemma closers_quiet c name namespace items :
  (forall j s, allows no_rjob (c j s)) ->
  allows no_rjob (autoCloseSucceededSinks c name namespace items).
Proof.
  intros Hc. induction items as [|j l IH]; cbn [autoCloseSucceededSinks]; silent; auto.
Qed.

Lemma cancel_all_quiet name namespace items : allows no_rjob (cancel_all r name namespace items).
Proof using quiet.
  induction items as [|j l IH]; cbn [cancel_all]; unfold cancel_one, close_sink, sp_event;
    silent; try exact IH; eapply (closer_quiet r quiet); eassumption.
Qed.

Lemma source_deleted_quiet name namespace : allows no_rjob (source_deleted r name namespace).
Proof using quiet.
  unfold source_deleted. silent; try apply cancel_all_quiet;
    apply closers_quiet; intros; eapply (closer_quiet r quiet); eassumption.
Qed.

Lemma finding_cleared_quiet name namespace : allows no_rjob (finding_cleared r name namespace).
Proof using quiet.
  unfold finding_cleared, sp_event. silent; apply closers_quiet; intros; eapply (closer_quiet r quiet); eassumption.
Qed.
(** The object the reconcile is about was read in the trace, and the provider
    extracted the finding from it. *)
Definition observed (name namespace : string) (obj : Object) (f : Finding) (tr : trace) : Prop :=
  Event (GetObject (sp_ObjectType r) namespace name) (Ok obj) ∈ tr /\
  exists tr', within tr' tr /\ runs (sp_ExtractFinding r obj) tr' (Done (Ok (Some f))).

Definition passed (name namespace : string) (s : State) (m : BoundedMap) (job : RemediationJob)
    (tr : trace) : Prop :=
  exists obj f fp, observed name namespace obj f tr /\ job = new_rjob r name namespace fp f /\
    cleared s m obj f fp tr.

(** The map a reconcile starts from: the stored one, or a fresh one. *)
Definition starts_from (s0 : State) (m : BoundedMap) : Prop :=
  firstSeen s0 = Some m \/ (firstSeen s0 = None /\ bm_data m = ∅).

Lemma cleared_within s m obj f fp tr tr' :
  within tr tr' -> cleared s m obj f fp tr -> cleared s m obj f fp tr'.
Proof.
  intros Hw [? ? ? ? ? ? ?]. split; eauto using namespace_allows_within, unbroken_within,
    stable_finding_within, clear_within.
Qed.

Lemma Reconcile_creates name namespace s0 :
  creates_only (fun j tr => exists m, starts_from s0 m /\ passed name namespace s0 m j tr)
    (Reconcile order r name namespace s0).
Proof using quiet.
  unfold Reconcile.
  eapply (creates_bind (fun _ a => starts_from s0 a.2 /\ breaker a.1 = breaker s0)).
  { unfold initFirstSeen, starts_from. destruct (firstSeen s0) as [m|]; [apply passes_ret; auto|].
    unfold NewBoundedMap, now. apply passes_call; [done|]. intros t. cbn [bind]. apply passes_ret; auto. }
  intros tr0 [s m] [Hm Hb]. cbn [fst snd] in *.
  apply creates_call; [done|]. intros [obj|e]; cbn [bind]; cycle 1.
  { apply creates_quiet. destruct (negb _); unfold Clear, now; silent. by apply source_deleted_quiet. }
  eapply creates_bind; [apply passes_runs, (extract_quiet r quiet)|]. intros tr1 [[f|]|e] Hf.
  - eapply wp_mono; [|apply (handle_finding_creates name namespace obj f m s)].
    intros tr o H j a Hin. destruct (H j a Hin) as (fp & -> & Hc). exists m. split; [done|].
    exists obj, f, fp. split; [split; [set_solver|exists tr1; split; [segment|done]]|].
    split; [done|]. apply (cleared_within _ _ _ _ _ tr); [segment|].
    destruct Hc as [? ? ? ? Hu ? ?]. rewrite Hb in Hu. by split.
  - apply creates_quiet. unfold Clear, now. silent. by apply finding_cleared_quiet.
  - apply creates_quiet. silent.
Qed.

(** C6: A RemediationJob is created only for a finding that was extracted from the
    object read in this reconcile and passed every gate in it: injection, namespace
    lists and annotations, severity, chain depth, circuit breaker, stabilisation
    window, no listed job with its fingerprint other than failed ones, no superior of
    the parent hierarchy, and a successful readiness check; and the created object is
    new_rjob of that finding and its fingerprint. *)
Theorem created_jobs_passed_every_gate name namespace s0 tr o j a :
  runs (Reconcile order r name namespace s0) tr o ->
  Event (ans := answer) (CreateRJob j) a ∈ tr ->
  exists m, starts_from s0 m /\ passed name namespace s0 m j tr.
Proof using quiet.
  intros Hr. exact (runs_wp _ _ _ _ Hr (Reconcile_creates name namespace s0) j a).
Qed.
End Admission.

(** ** The deletion of a source *)

(** The investigation is neither over nor given up. *)
Inductive unfinished : RemediationJobPhase -> Prop :=
| unfinished_new : unfinished PhaseNone
| unfinished_pending : unfinished PhasePending
| unfinished_dispatched : unfinished PhaseDispatched
| unfinished_running : unfinished PhaseRunning
| unfinished_suppressed : unfinished PhaseSuppressed.

(** The job was made for an object of this name and namespace; its kind is not
    recorded in the reference. *)
Definition from_source (name namespace : string) (j : RemediationJob) : Prop :=
  spec_SourceResultRef (rj_Spec j) = {| rr_Name := name; rr_Namespace := namespace |}.

Lemma cancellable_iff p : cancellable p = true <-> unfinished p.
Proof. split; [by destruct p; try constructor|by destruct 1]. Qed.

Lemma refers_to_iff name namespace j : refers_to name namespace j = true <-> from_source name namespace j.
Proof.
  unfold refers_to, from_source. destruct (spec_SourceResultRef (rj_Spec j)) as [n ns]. cbn.
  rewrite andb_true_iff, !String.eqb_eq. split; [by intros [-> ->]|by intros [= -> ->]].
Qed.

Section Cancellation.
Context (r : SourceProviderReconciler).

(** The collaborators used on this path leave the RemediationJobs alone. *)
Definition rjob_write (e : req) : bool :=
  match e with
  | CreateRJob _ | StatusPatchRJob _ _ | PatchRJob _ _ | DeleteRJob _ => true
  | _ => false
  end.
Hypothesis closer_reads : forall c j s,
  sp_SinkCloser r = Some c -> allows (fun e => rjob_write e = false) (c j s).

(** A patch that succeeds answers with the spec and the phase it sent. *)
Definition keeps_source (e : req) : answer e -> Prop :=
  match e return answer e -> Prop with
  | StatusPatchRJob obj _ => fun a =>
      match a with Ok o => rj_Spec o = rj_Spec obj /\ rj_Phase o = rj_Phase obj | Err _ => True end
  | _ => fun _ => True
  end.

(** The writes of the path: unfinished jobs of the source become Cancelled, and
    cancelled jobs of the source are deleted. *)
Definition cancels (name namespace : string) (e : req) : Prop :=
  match e with
  | StatusPatchRJob obj base =>
      obj = set_Phase PhaseCancelled base /\ from_source name namespace base /\ unfinished (rj_Phase base)
  | DeleteRJob obj => from_source name namespace obj /\ rj_Phase obj = PhaseCancelled
  | CreateRJob _ | PatchRJob _ _ | CreateJob _ => False
  | _ => True
  end.

Lemma quiet_cancels name namespace e :
  rjob_write e = false -> creates_job e = false -> cancels name namespace e.
Proof. by destruct e. Qed.

Hypothesis closer_no_jobs : forall c j s,
  sp_SinkCloser r = Some c -> allows (fun e => creates_job e = false) (c j s).

Lemma allows_and {A} (P Q : req -> Prop) (p : io A) :
  allows P p -> allows Q p -> allows (fun e => P e /\ Q e) p.
Proof.
  unfold allows. rewrite !wp_runs. intros HP HQ tr o Hr.
  specialize (HP tr o Hr). specialize (HQ tr o Hr). unfold every in *.
  rewrite Forall_forall in *. auto.
Qed.

Abbreviation ok name namespace := (ensures keeps_source (cancels name namespace) (fun _ => True)).

Lemma closer_ok name namespace c j s :
  sp_SinkCloser r = Some c -> ok name namespace (c j s).
Proof using closer_reads closer_no_jobs.
  intros Hc. apply ensures_allows.
  eapply allows_mono; [|apply (allows_and _ _ _ (closer_reads c j s Hc) (closer_no_jobs c j s Hc))].
  intros e [? ?]. by apply quiet_cancels.
Qed.

Lemma cancel_one_ok name namespace j :
  from_source name namespace j -> unfinished (rj_Phase j) -> ok name namespace (cancel_one r j).
Proof using closer_reads closer_no_jobs.
  intros Href Hc. unfold cancel_one.
  eapply ensures_bind with (S := fun _ => True).
  { unfold close_sink. destruct (sp_SinkCloser r) as [c|] eqn:Hs in |- *; [|by apply ensures_ret].
    destruct (_ && _); [|by apply ensures_ret].
    eapply ensures_bind; [by apply closer_ok|]. intros _ _. by apply ensures_ret. }
  intros _ _. cbn [bind call]. apply ensures_call; [done|]. intros p Hp.
  set (x := match p with Ok _ => _ | Err _ => _ end).
  assert (match x with inl r1 => from_source name namespace r1 /\ rj_Phase r1 = PhaseCancelled | inr _ => True end) as Hx.
  { unfold x. destruct p as [r1|e].
    - destruct Hp as [Hp1 Hp2]. unfold from_source. by rewrite Hp1.
    - by destruct (IsNotFound e). }
  destruct x as [r1|e]; [|by apply ensures_ret].
  cbn [bind call]. apply ensures_call; [exact Hx|]. intros d _.
  set (y := match d with Ok _ => _ | Err _ => _ end). destruct y; [by apply ensures_ret|].
  unfold sp_event. repeat ensures_step; done.
Qed.

Lemma cancel_all_ok name namespace items : ok name namespace (cancel_all r name namespace items).
Proof using closer_reads closer_no_jobs.
  induction items as [|j l IH]; cbn [cancel_all]; [by apply ensures_ret|].
  destruct (refers_to name namespace j) eqn:Href, (cancellable (rj_Phase j)) eqn:Hc; cbn [negb orb];
    rewrite ?refers_to_iff in Href; rewrite ?cancellable_iff in Hc;
    try (eapply ensures_bind; [exact IH|]; intros [? ?] _; by apply ensures_ret).
  eapply ensures_bind; [by apply cancel_one_ok|]. intros [j' err] _.
  eapply ensures_bind; [exact IH|]. intros [? ?] _. by apply ensures_ret.
Qed.

Lemma autoClose_ok name namespace c items :
  sp_SinkCloser r = Some c -> ok name namespace (autoCloseSucceededSinks c name namespace items).
Proof using closer_reads closer_no_jobs.
  intros Hc. induction items as [|j l IH]; cbn [autoCloseSucceededSinks]; [by apply ensures_ret|].
  eapply ensures_bind with (S := fun _ => True); [|by intros].
  destruct (_ && _); [|by apply ensures_ret].
  eapply ensures_bind; [by apply closer_ok|]. intros _ _. by apply ensures_ret.
Qed.

Lemma source_deleted_cancels name namespace tr o :
  runs (source_deleted r name namespace) tr o -> relies keeps_source tr ->
  every (cancels name namespace) tr.
Proof using closer_reads closer_no_jobs.
  intros Hr. eapply (ensures_runs _ _ (fun _ => True)); [|exact Hr].
  unfold source_deleted. cbn [bind call]. apply ensures_call; [exact I|]. intros [items|e] _;
    [|by apply ensures_ret].
  cbn [bind]. eapply ensures_bind; [apply cancel_all_ok|]. intros [items' errs] _.
  destruct errs; [|by apply ensures_ret].
  eapply ensures_bind with (S := fun _ => True); [|intros; by apply ensures_ret].
  destruct (sp_SinkCloser r) as [c|] eqn:Hs in |- *; [|by apply ensures_ret].
  destruct (cfg_PRAutoClose _); [by apply autoClose_ok|by apply ensures_ret].
Qed.
End Cancellation.

(** ** Completeness of the cancellation *)
Definition cancelled_in (j : RemediationJob) (tr : trace) : Prop :=
  exists p obj d,
    Event (ans := answer) (StatusPatchRJob (set_Phase PhaseCancelled j) j) p ∈ tr /\
    Event (ans := answer) (DeleteRJob obj) d ∈ tr /\
    (p = Ok obj \/
     exists e, p = Err e /\ IsNotFound e = true /\ obj = set_Phase PhaseCancelled j) /\
    (d = Ok tt \/ exists e, d = Err e /\ IsNotFound e = true).

Lemma cancelled_in_within j tr1 tr2 : within tr1 tr2 -> cancelled_in j tr1 -> cancelled_in j tr2.
Proof. intros Hw (p & obj & d & Hp & Hd & H). exists p, obj, d. eauto with traces. Qed.

Lemma cancel_one_wp r j :
  wp (cancel_one r j) (fun tr o => forall j', o = Done (j', None) -> cancelled_in j tr).
Proof.
  unfold cancel_one. apply wp_bind. apply wp_runs. intros tr1 [u|msg] _; [|done].
  cbn [bind call]. intros p.
  assert (forall r1, (p = Ok r1 \/ exists e, p = Err e /\ IsNotFound e = true /\ r1 = set_Phase PhaseCancelled j) ->
    wp (d <- call (DeleteRJob r1) ;;
        match (match d with Ok _ => None | Err e => if IsNotFound e then None else Some e end) with
        | Some e => Ret (r1, Some e)
        | None =>
            sp_event r EventNormal "SourceDeleted" "Source object deleted; investigation cancelled" ;;;
            Ret (r1, None)
        end)
      (fun tr2 o => forall j', o = Done (j', None) ->
         cancelled_in j (tr1 ++ Event (ans := answer) (StatusPatchRJob (set_Phase PhaseCancelled j) j) p :: tr2)))
    as Hend.
  { intros r1 Hr1 d. apply wp_runs. intros tr3 o Hr j' ->. apply (cancelled_in_within j _ _ (within_app_r _ _)).
    exists p, r1, d. split; [apply list_elem_of_here|].
    split; [apply list_elem_of_further, list_elem_of_here|]. split; [done|].
    destruct d as [[]|e]; [by left|]. destruct (IsNotFound e) eqn:He; [by right; eauto|].
    cbn in Hr. rewrite He in Hr. inversion Hr. }
  destruct p as [r1|e].
  - apply Hend. by left.
  - destruct (IsNotFound e) eqn:He; [|by intros j' [=]]. apply Hend. right. eauto.
Qed.

Definition all_cancelled name namespace (items : list RemediationJob) (tr : trace) : Prop :=
  forall j, j ∈ items -> from_source name namespace j -> unfinished (rj_Phase j) ->
  cancelled_in j tr.

Lemma cancel_all_wp r name namespace items :
  wp (cancel_all r name namespace items) (fun tr o =>
    forall items', o = Done (items', []) -> all_cancelled name namespace items tr).
Proof.
  induction items as [|j l IH]; cbn [cancel_all]; [intros ? _ j Hj; set_solver|].
  destruct (negb (refers_to name namespace j) || negb (cancellable (rj_Phase j))) eqn:E.
  - apply wp_bind. eapply wp_mono; [|exact IH]. intros tr1 [[l' errs]|msg] H1; [|done].
    intros items' [= _ ->] k Hk Hr Hc. rewrite app_nil_r.
    apply elem_of_cons in Hk as [->|Hk]; [|by apply (H1 l')].
    apply refers_to_iff in Hr. apply cancellable_iff in Hc. by rewrite Hr, Hc in E.
  - apply wp_bind. eapply wp_mono; [|apply cancel_one_wp]. intros tr1 [[j' err]|msg] H1; [|done].
    apply wp_bind. eapply wp_mono; [|exact IH]. intros tr2 [[l' errs]|msg] H2; [|done].
    intros items' Hd k Hk Hr Hc. rewrite app_nil_r. destruct err as [e|]; [discriminate|].
    injection Hd as _ ->. apply elem_of_cons in Hk as [->|Hk].
    + apply (cancelled_in_within _ _ _ (within_app_l _ _)). by apply (H1 j').
    + apply (cancelled_in_within _ _ _ (within_app_r _ _)). by apply (H2 l').
Qed.

(** The jobs an answered list request returned. *)
Definition rjobs_listed (ev : event answer) : option (list RemediationJob) :=
  match ev with
  | Event e a =>
      match e return answer e -> option (list RemediationJob) with
      | ListRJobs _ _ => fun r => match r with Ok l => Some l | Err _ => None end
      | _ => fun _ => None
      end a
  end.

(** C8: When the source object is gone and the reconcile ends without an error, every
    listed RemediationJob whose source reference has its name and namespace and that
    is unfinished (new, Pending, Dispatched, Running or Suppressed) was patched to
    Cancelled and deleted, or was already gone. *)
Theorem deletion_cancels_every_unfinished_job r name namespace items ev tr res :
  runs (source_deleted r name namespace) (ev :: tr) (Done (Ok res)) ->
  rjobs_listed ev = Some items ->
  forall j, j ∈ items -> from_source name namespace j -> unfinished (rj_Phase j) ->
  cancelled_in j tr.
Proof.
  intros Hr Hev.
  refine (runs_wp _ (fun tr0 o => forall ev tr res, tr0 = ev :: tr -> o = Done (Ok res) ->
    rjobs_listed ev = Some items -> all_cancelled name namespace items tr) _ _ Hr _
    ev tr res eq_refl eq_refl Hev).
  clear. unfold source_deleted. intros [l|e]; cbn [bind];
    [|intros ev tr res [= <- _] _; discriminate].
  apply wp_bind. eapply wp_mono; [|apply cancel_all_wp]. intros tr1 [[l' errs]|msg] H1;
    [|intros ev tr res _; discriminate].
  destruct errs as [|e es]; [|intros ev tr res _; discriminate].
  apply wp_runs. intros tr2 o2 _ ev tr res [= <- <-] _ [= <-] j Hj Hr Hc.
  apply (cancelled_in_within _ _ _ (within_app_l _ _)). by apply (H1 l').
Qed.

(** ** Witnesses *)
Definition demo_job (name : string) (p : RemediationJobPhase) : RemediationJob :=
  {| rj_Meta := {| meta_Name := name; meta_Namespace := "mechanic"; meta_UID := name;
                   meta_Labels := ∅; meta_Annotations := ∅; meta_CreationTimestamp := 0;
                   meta_Generation := 1; meta_OwnerReferences := [] |};
     rj_Spec := {| spec_SourceResultRef := {| rr_Name := "web"; rr_Namespace := "app" |};
                   spec_Fingerprint := name; spec_SourceType := "native";
                   spec_SinkType := "github";
                   spec_Finding := {| fs_Kind := "Pod"; fs_Name := "web"; fs_Namespace := "app";
                                      fs_ParentObject := "web"; fs_Errors := ""; fs_Details := "";
                                      fs_ChainDepth := 0 |};
                   spec_GitOpsRepo := ""; spec_GitOpsManifestRoot := ""; spec_AgentImage := "";
                   spec_AgentSA := ""; spec_MaxRetries := 3; spec_Severity := "high" |};
     rj_Status := st_with_Phase p empty_Status |}.

Definition demo_items : list RemediationJob :=
  [demo_job "a" PhaseRunning; demo_job "b" PhaseSucceeded].

Definition demo_provider : SourceProviderReconciler :=
  {| sp_Cfg := default_config; sp_ProviderName := "native"; sp_ObjectType := "Pod";
     sp_ExtractFinding := fun _ => Ret (Ok None); sp_EventRecorder := false;
     sp_ReadinessChecker := None; sp_SinkCloser := None; sp_PRMergeChecker := None |}.

Definition demo_server : handler answer := fun e =>
  match e return answer e with
  | ListRJobs _ _ => Ok demo_items
  | StatusPatchRJob obj _ => Ok obj
  | DeleteRJob _ => Ok tt
  | e' => offline 0 e'
  end.

Definition demo_run := exec_pure demo_server (source_deleted demo_provider "web" "app").

Lemma deletion_cancels_every_unfinished_job_witness :
  cancelled_in (demo_job "a" PhaseRunning) (tail demo_run.1).
Proof.
  apply (deletion_cancels_every_unfinished_job demo_provider "web" "app" demo_items
           (Event (ListRJobs "mechanic" []) (Ok demo_items)) _ no_requeue).
  - apply (exec_pure_runs demo_server (source_deleted demo_provider "web" "app")).
  - reflexivity.
  - apply list_elem_of_here.
  - reflexivity.
  - constructor.
Defined.

(** The deletion of an object also cancels the jobs of an object of another kind
    with its name: the job of the pod "web" goes when, say, a claim "web" is deleted. *)
Theorem deletion_ignores_the_kind :
  exists r j, sp_ObjectType r = "PersistentVolumeClaim" /\ fs_Kind (rj_Finding j) = "Pod" /\
    cancelled_in j (exec_pure demo_server (source_deleted r "web" "app")).1.
Proof.
  exists {| sp_Cfg := default_config; sp_ProviderName := "native"; sp_ObjectType := "PersistentVolumeClaim";
            sp_ExtractFinding := fun _ => Ret (Ok None); sp_EventRecorder := false;
            sp_ReadinessChecker := None; sp_SinkCloser := None; sp_PRMergeChecker := None |},
    (demo_job "a" PhaseRunning).
  do 2 (split; [done|]). vm_compute exec_pure. eexists _, _, _.
  split; [right; left|]. split; [right; right; left|]. split; by left.
Qed.
