(* ===== verification/SelfRemediation.v ===== *)
(** * Self-remediation behind the circuit breaker and the stabilisation window
    A finding about one of mechanic's own Jobs (chain depth above zero) passes
    the circuit breaker before it reaches the stabilisation window, and an
    attempt that the window holds back has charged the breaker.  When the
    cooldown is longer than the lifetime of a first-seen entry (twice the
    window; by default 300 s and 240 s) the two never agree: whenever the
    breaker lets a finding through, its entry has expired.  [rounds] are
    reconciles of any objects at any times; as long as all findings are about
    own Jobs and no object asks for priority, no RemediationJob is created. *)
From stdpp Require Import base list strings gmap.
From Stdlib Require Import ZArith Lia.
From S2P Require Import Prelude Prog Utf8 Regex Redact Sha256 Json K8s Types Effects Domain.
From S2P Require Import Fingerprint BoundedMap CircuitBreaker Config Metrics Provider ProviderProps.
Import GoErr GoStr GoTime GoInt.
Open Scope string_scope.
Open Scope list_scope.
Open Scope Z_scope.
Open Scope go_scope.

Section Starvation.
Context (order : gmap string Z -> list (string * Z)) (r : SourceProviderReconciler).
(** The cooldown, and how long one reconcile may take. *)
Context (cooldown slack : Z).
Hypothesis quiet : collaborators_quiet r.

(** The stabilisation window. *)
Definition hold : Z := cfg_StabilisationWindow (sp_Cfg r).

(** The clock of a reconcile stays between [a] and [b]. *)
Definition during (a b : Z) (e : req) : answer e -> Prop :=
  match e return answer e -> Prop with
  | Now => fun t => a <= t <= b
  | _ => fun _ => True
  end.

(** Any finding of the reconcile is about an own Job that does not ask for priority. *)
Definition own_findings (name namespace : string) (tr : trace) : Prop :=
  forall obj f, observed r name namespace obj f tr -> 0 < f_ChainDepth f /\
    map_get (meta_Annotations (obj_Meta obj)) Annotations.AnnotationPriority <> "critical".

(** Reconciles one after another, from the state [s] at the time [t]. *)
Inductive rounds (s : State) (t : Z) : list trace -> Prop :=
| rounds_none : rounds s t []
| rounds_crash name namespace a b tr msg :
    t <= a <= b -> b <= a + slack -> runs (Reconcile order r name namespace s) tr (Panicked msg) ->
    relies (during a b) tr -> own_findings name namespace tr -> rounds s t [tr]
| rounds_next name namespace a b tr s' res trs :
    t <= a <= b -> b <= a + slack -> runs (Reconcile order r name namespace s) tr (Done (s', res)) ->
    relies (during a b) tr -> own_findings name namespace tr -> rounds s' b trs ->
    rounds s t (tr :: trs).

Lemma rounds_later s t t' trs : t <= t' -> rounds s t' trs -> rounds s t trs.
Proof.
  intros Ht Hr. destruct Hr; [apply rounds_none|eapply rounds_crash; eauto; lia|eapply rounds_next; eauto; lia].
Qed.

(** ** The invariant
    The entries and the last clean-up are not later than the last allowance,
    by more than a reconcile takes. *)
Record tracked (t last : Z) (m : BoundedMap) : Prop := {
  tk_ttl : bm_ttl m = 2 * hold;
  tk_interval : bm_cleanupInterval m = hold;
  tk_cleanup : bm_lastCleanup m <= t;
  tk_entries : bm_data m = ∅ \/
    (zero_time < last /\ bm_lastCleanup m <= last + slack /\
     forall k v, bm_data m !! k = Some v -> v <= last + slack) }.

Record stalled (t last : Z) (s : State) : Prop := {
  sl_breaker : breaker s = Some {| cb_cooldown := cooldown; cb_lastAllowed := last |};
  sl_last : last = zero_time \/ zero_time < last <= t;
  sl_seen : forall m, firstSeen s = Some m -> tracked t last m }.

Definition stalls (t : Z) (s : State) : Prop := exists last, stalled t last s.

(** The breaker can allow at [t]. *)
Definition rested (last t : Z) : Prop := last = zero_time \/ cooldown <= t - last.

Section Round.
Hypothesis Hwindow : 0 < hold.
Hypothesis Hslack : 0 <= slack.
Hypothesis Hcooldown : 2 * hold + 2 * slack < cooldown <= max_int64.
Context (t a b : Z).
Hypothesis Htime : zero_time < t <= a /\ a <= b <= a + slack.

#[local] Abbreviation holds := (ensures (during a b) no_rjob).

Lemma passes_holds {A} (Q : trace -> A -> Prop) (p : io A) : passes Q p -> holds (fun _ => True) p.
Proof. apply wp_mono. intros tr [x|m] [H _] _; done. Qed.

Lemma tracked_later t' last m : t <= t' -> tracked t last m -> tracked t' last m.
Proof. intros Ht [? ? ? ?]. split; try done. lia. Qed.

Lemma stalled_later t' last s : t <= t' -> stalled t last s -> stalled t' last s.
Proof. intros Ht [? ? Hm]. split; [done|lia|]. intros m Em. by apply tracked_later, Hm. Qed.

Lemma ShouldAllow_holds last :
  holds (fun x => if x.2.1 : bool
                  then exists t', x.1 = {| cb_cooldown := cooldown; cb_lastAllowed := t' |} /\
                         a <= t' <= b /\ rested last b
                  else x.1 = {| cb_cooldown := cooldown; cb_lastAllowed := last |})
    (ShouldAllow {| cb_cooldown := cooldown; cb_lastAllowed := last |}).
Proof using Hcooldown Hslack Hwindow Htime.
  unfold ShouldAllow, allow, now, IsZero, rested. cbn [cb_lastAllowed cb_cooldown].
  destruct (Z.eqb_spec last zero_time); cbn [negb bind call].
  { apply ensures_call; [done|]. intros t1 H1. apply ensures_ret. eexists. split; [done|]. auto. }
  apply ensures_call; [done|]. intros t1 H1. cbn [during] in H1.
  destruct (Z.ltb_spec (Sub t1 last) cooldown) as [|Hge]; [by apply ensures_ret|].
  apply ensures_call; [done|]. intros t2 H2. apply ensures_ret. eexists. split; [done|]. split; [done|].
  right. unfold Sub, min_int64 in Hge. lia.
Qed.

(** After the cooldown no entry is found. *)
Lemma Get_holds last fp m : tracked b last m -> rested last b -> holds (fun x => x = None) (Get fp m).
Proof using Hcooldown Hslack Hwindow Htime.
  intros [Ettl Eint _ Hdata] Hrest. unfold Get, needsCleanup, now. rewrite Ettl, Eint.
  rewrite (proj2 (Z.leb_gt (2 * hold) 0)) by lia. cbn [bind call].
  apply ensures_call; [done|]. intros t1 H1. cbn [during] in H1.
  rewrite (proj2 (Z.ltb_lt 0 (2 * hold))), andb_true_r by lia.
  destruct Hdata as [->|(Hl & Hc & Hv)]; [rewrite lookup_empty; destruct (_ <? _); by apply ensures_ret|].
  unfold rested in Hrest.
  rewrite (proj2 (Z.ltb_lt hold (Sub t1 (bm_lastCleanup m)))) by (unfold Sub; lia).
  destruct (bm_data m !! fp) as [ts|] eqn:E; [|by apply ensures_ret].
  apply ensures_call; [done|]. intros t2 H2. cbn [during] in H2. apply ensures_ret. specialize (Hv _ _ E).
  by rewrite (proj2 (Z.ltb_lt (2 * hold) (Sub t2 ts))) by (unfold Sub; lia).
Qed.

Lemma cleanup_holds m :
  holds (fun m' => bm_ttl m' = bm_ttl m /\ bm_cleanupInterval m' = bm_cleanupInterval m /\
                   bm_data m' ⊆ bm_data m /\ (bm_lastCleanup m' = bm_lastCleanup m \/ bm_lastCleanup m' <= b))
    (cleanupIfNeeded m).
Proof.
  unfold cleanupIfNeeded, needsCleanup, now. destruct (bm_ttl m <=? 0); cbn [bind call];
    [apply ensures_ret; auto|].
  apply ensures_call; [done|]. intros t1 H1. cbn [bind]. destruct (negb _); [apply ensures_ret; auto|].
  destruct (0 <? bm_ttl m); cbn [bind call]; repeat (apply ensures_call; [done|]; intros ? ?); cbn [during] in *;
    apply ensures_ret; cbn; (split_and!; [done..| |right; lia]); [apply map_filter_subseteq|done].
Qed.

(** An entry is made at the time of the allowance. *)
Lemma Set_holds last last' fp m :
  tracked b last m -> last = zero_time \/ zero_time < last <= t -> a <= last' <= b ->
  holds (fun x => tracked b last' x.1) (Set_ order fp m).
Proof using Hslack Htime.
  intros [Ettl Eint Hc Hdata] Hlast Hl. unfold Set_, now. cbn [bind call].
  apply ensures_call; [done|]. intros ts Hts. cbn [during] in Hts. unfold SetWithTime.
  eapply ensures_bind; [apply cleanup_holds|]. intros m1 (E1 & E2 & Hsub & Hc1).
  assert (forall k v, bm_data m1 !! k = Some v -> v <= last' + slack) as Hold.
  { intros k v Hk. apply (lookup_weaken _ (bm_data m)) in Hk; [|done]. destruct Hdata as [E|(? & _ & Hv)];
      [by rewrite E, lookup_empty in Hk|]. specialize (Hv _ _ Hk). lia. }
  assert (forall d, d ⊆ bm_data m1 -> tracked b last' (with_data (<[fp := ts]> d) m1)) as Hins.
  { intros d Hd. split; cbn; [congruence..|lia|]. right. split_and!; [lia|lia|].
    intros k v [[_ <-]|[_ Hk]]%lookup_insert_Some; [lia|]. by apply (Hold k), (lookup_weaken d). }
  destruct (_ && _); [|by apply ensures_ret, Hins].
  destruct (bm_data m1 !! fp); [by apply ensures_ret, Hins|].
  destruct (oldest _ _) as [[k v]|]; [apply ensures_ret, Hins, delete_subseteq|].
  apply ensures_ret. split; cbn; [congruence..|lia|]. right. split_and!; [lia..|done].
Qed.

Lemma stabilisation_holds obj fp m s last last' :
  map_get (meta_Annotations (obj_Meta obj)) Annotations.AnnotationPriority <> "critical" ->
  tracked b last m -> last = zero_time \/ zero_time < last <= t -> rested last b -> a <= last' <= b ->
  breaker s = Some {| cb_cooldown := cooldown; cb_lastAllowed := last' |} ->
  holds (fun x => is_Some x.2 /\ stalls b x.1) (stabilisation_gate order r obj fp m s).
Proof using Hcooldown Hslack Hwindow Htime.
  intros Hp Hm Hl Hr Hl' Hb. unfold stabilisation_gate. cbv zeta. rewrite (proj2 (String.eqb_neq _ _) Hp).
  fold hold. rewrite (proj2 (Z.eqb_neq hold 0)) by lia. cbn [negb andb].
  eapply ensures_bind; [by eapply Get_holds|]. intros x ->.
  eapply ensures_bind; [by eapply (Set_holds last last')|]. intros [m' ok] Hm'. cbn [fst] in Hm'.
  unfold suppressed, RecordSuppressed, metric_inc. cbn [bind call]. apply ensures_call; [done|]. intros [] _.
  apply ensures_ret. split; [by eexists|]. exists last'. split; cbn; [done|lia|]. by intros ? [= <-].
Qed.

Lemma admit_holds name namespace obj f m s last last' :
  map_get (meta_Annotations (obj_Meta obj)) Annotations.AnnotationPriority <> "critical" ->
  tracked b last m -> firstSeen s = Some m -> last = zero_time \/ zero_time < last <= t ->
  rested last b -> a <= last' <= b ->
  breaker s = Some {| cb_cooldown := cooldown; cb_lastAllowed := last' |} ->
  holds (fun x => stalls b x.1) (admit_finding order r name namespace obj f m s).
Proof using Hcooldown Hslack Hwindow Htime.
  intros Hp Hm Hfs Hl Hr Hl' Hb. unfold admit_finding.
  assert (stalls b s) as Hs.
  { exists last'. split; [done|lia|]. intros m' [= <-]%(eq_trans (eq_sym Hfs)). destruct Hm as [? ? ? Hd].
    split; [done..|lia|]. destruct Hd as [?|(? & ? & Hv)]; [by left|right]. split_and!; [lia..|].
    intros k v Hk. specialize (Hv k v Hk). lia. }
  destruct (FindingFingerprint f) as [fp|e]; [|by apply ensures_ret].
  destruct (_ <? 12); [by apply ensures_ret|].
  eapply ensures_bind; [by eapply stabilisation_holds|]. intros [s1 g] [[res E] Hs1]; cbn [fst snd] in *.
  subst. by apply ensures_ret.
Qed.

Lemma handle_holds name namespace obj f m s last :
  0 < f_ChainDepth f ->
  map_get (meta_Annotations (obj_Meta obj)) Annotations.AnnotationPriority <> "critical" ->
  breaker s = Some {| cb_cooldown := cooldown; cb_lastAllowed := last |} ->
  last = zero_time \/ zero_time < last <= t -> firstSeen s = Some m -> tracked b last m ->
  holds (fun x => stalls b x.1) (handle_finding order r name namespace obj f m s).
Proof using Hcooldown Hslack Hwindow Htime.
  intros Hd Hp Hb Hl Hfs Hm.
  assert (stalls b s) as Hsb by (exists last; split; [done|lia|by intros m' [= <-]%(eq_trans (eq_sym Hfs))]).
  unfold handle_finding. eapply ensures_bind; [eapply passes_holds, filters_passes|].
  intros [res|] _; [by apply ensures_ret|].
  unfold self_gate. rewrite (proj2 (Z.leb_gt (f_ChainDepth f) 0)) by lia.
  destruct (depth_exceeded r f).
  { unfold suppressed, RecordSuppressed, metric_inc. cbn [bind call]. apply ensures_call; [done|]. intros [] _.
    by apply ensures_ret. }
  rewrite Hb.
  apply (ensures_bind _ _ (fun x => (is_Some x.2 /\ x.1 = s) \/
    (x.2 = None /\ exists t', x.1 = with_breaker {| cb_cooldown := cooldown; cb_lastAllowed := t' |} s /\
       a <= t' <= b /\ rested last b))).
  { eapply ensures_bind; [apply ShouldAllow_holds|]. intros [cb' [[] rem]]; cbn [fst snd].
    - intros (t' & -> & Ht' & Hr). apply ensures_ret. right. eauto.
    - intros ->. unfold RecordSuppressed, RecordCircuitBreakerActivation, metric_inc. cbn [bind call].
      do 2 (apply ensures_call; [done|]; intros [] _). apply ensures_ret. left. split; [by eexists|].
      unfold with_breaker. rewrite <- Hb. by destruct s. }
  intros [s1 g] [[[res Eg] Es]|(Eg & t' & Es & Ht' & Hr)]; cbn [fst snd] in *; subst; [by apply ensures_ret|].
  eapply (admit_holds _ _ _ _ _ _ last t'); eauto.
Qed.

Lemma init_holds last s :
  stalled t last s ->
  holds (fun x => breaker x.1 = breaker s /\ firstSeen x.1 = Some x.2 /\ tracked b last x.2) (initFirstSeen r s).
Proof using Hcooldown Hslack Hwindow Htime.
  intros [_ _ Hm]. unfold initFirstSeen. destruct (firstSeen s) as [m|] eqn:E.
  { apply ensures_ret. split_and!; [done..|]. apply tracked_later; [lia|by apply Hm]. }
  fold hold. cbv zeta. rewrite wrap64_small by (unfold in_int64, min_int64; lia).
  rewrite (proj2 (Z.eqb_neq (hold * 2) 0)) by lia. unfold NewBoundedMap. cbn [Z.leb].
  rewrite (proj2 (Z.ltb_lt 0 (hold * 2))), Z.quot_mul by lia. cbn [bind call now].
  apply ensures_call; [done|]. intros t1 H1. cbn [during] in H1. apply ensures_ret. split_and!; [done..|].
  split; cbn; [lia..|by left].
Qed.

Lemma Clear_holds last s m (k : BoundedMap -> io reconciled) :
  breaker s = Some {| cb_cooldown := cooldown; cb_lastAllowed := last |} ->
  last = zero_time \/ zero_time < last <= t -> tracked b last m -> (forall m', allows no_rjob (k m')) ->
  holds (fun x => stalls b x.1) (m' <- Clear m ;; res <- k m' ;; Ret (with_firstSeen m' s, res)).
Proof using Htime.
  intros Hb Hl [Ettl Eint _ _] Hk. unfold Clear, now. cbn [bind call]. apply ensures_call; [done|].
  intros t1 H1. cbn [during] in H1. eapply ensures_bind; [apply ensures_allows, Hk|]. intros res _.
  apply ensures_ret. exists last. split; cbn; [done|lia|]. intros m' [= <-]. split; cbn; [done..|lia|by left].
Qed.

(** One round. *)
Lemma round name namespace s tr o :
  stalls t s -> runs (Reconcile order r name namespace s) tr o ->
  relies (during a b) tr -> own_findings name namespace tr ->
  every no_rjob tr /\ match o with Done (s', _) => stalls b s' | Panicked _ => True end.
Proof using Hcooldown Hslack Hwindow Htime quiet.
  intros [last Hs]. revert tr o. refine (proj1 (wp_runs _ _) _). unfold Reconcile.
  pose proof (init_holds last s Hs) as Hinit. destruct Hs as [Hb Hl _].
  apply wp_bind, wp_runs. intros tr0 [[s1 m]|msg] R0; [|intros Hrel _; exact (runs_wp _ _ _ _ R0 Hinit Hrel)].
  pose proof (runs_wp _ _ _ _ R0 Hinit) as H0. clear Hinit R0. cbn beta iota in H0. rewrite Hb in H0.
  assert (forall got (p : io (State * reconciled)) tr2 o pre,
    runs p tr2 o -> every no_rjob pre -> relies (during a b) (tr0 ++ Event (ans := answer)
      (GetObject (sp_ObjectType r) namespace name) got :: pre ++ tr2) ->
    (breaker s1 = Some {| cb_cooldown := cooldown; cb_lastAllowed := last |} ->
     firstSeen s1 = Some m -> tracked b last m -> holds (fun x => stalls b x.1) p) ->
    every no_rjob (tr0 ++ Event (ans := answer) (GetObject (sp_ObjectType r) namespace name) got :: pre ++ tr2) /\
    match o with Done (s', _) => stalls b s' | Panicked _ => True end) as Hrest.
  { intros got p tr2 o pre R2 Hpre (Hr0 & [_ (_ & Hr2)%Forall_app]%Forall_cons)%Forall_app Hp.
    destruct (H0 Hr0) as [Hq0 (Hb1 & Hf1 & Hm1)].
    destruct (runs_wp _ _ _ _ R2 (Hp Hb1 Hf1 Hm1) Hr2) as [Hq2 Ho].
    split; [by repeat (apply every_app || apply every_cons)|]. by destruct o as [[s' res]|]. }
  assert (forall x : reconciled, breaker s1 = Some {| cb_cooldown := cooldown; cb_lastAllowed := last |} ->
     firstSeen s1 = Some m -> tracked b last m -> holds (fun x => stalls b x.1) (Ret (s1, x))) as Hstop.
  { intros x Hb1 Hf1 Hm1. apply ensures_ret. exists last. split; [done|lia|].
    by intros m' [= <-]%(eq_trans (eq_sym Hf1)). }
  intros [obj|e]; cbn [bind call].
  - apply wp_bind, wp_runs. intros tr1 o1 Hx.
    pose proof (allows_runs _ _ _ _ (extract_quiet r quiet obj) Hx) as Hq1.
    destruct o1 as [[[f|]|e]|msg].
    + apply wp_runs. intros tr2 o R2 Hrel Hown. apply (Hrest _ _ _ _ _ R2 Hq1 Hrel). intros Hb1 Hf1 Hm1.
      destruct (Hown obj f) as [Hd Hp].
      { split; [set_solver|]. exists tr1. split; [segment|done]. }
      by eapply handle_holds.
    + apply wp_runs. intros tr2 o R2 Hrel _. apply (Hrest _ _ _ _ _ R2 Hq1 Hrel). intros Hb1 Hf1 Hm1.
      apply (Clear_holds last); [done..|]. intros m'. by apply finding_cleared_quiet.
    + intros Hrel _. eapply (Hrest _ _ [] (Done (s1, Err e))); [apply runs_ret|exact Hq1|exact Hrel|apply Hstop].
    + intros Hrel _. rewrite <- (app_nil_r tr1) in Hrel |- *.
      eapply (Hrest _ _ [] (Panicked msg)); [apply runs_panic|exact Hq1|exact Hrel|intros; apply ensures_panic].
  - destruct (negb _).
    + intros Hrel _. eapply (Hrest _ _ [] (Done (s1, Err e)) []); [apply runs_ret|apply every_nil|exact Hrel|apply Hstop].
    + apply wp_runs. intros tr2 o R2 Hrel _. eapply (Hrest _ _ _ _ []); [exact R2|apply every_nil|exact Hrel|].
      intros Hb1 Hf1 Hm1. apply (Clear_holds last); [done..|]. intros m'. by apply source_deleted_quiet.
Qed.
End Round.

End Starvation.

(** ** A failed agent Job *)
(** A failed Job of the agent's namespace, whose provider reports [depth]. *)
Definition agent_finding (depth : Z) : Finding :=
  {| f_Kind := "Job"; f_Name := "mechanic-agent-1"; f_Namespace := "mechanic";
     f_ParentObject := "mechanic-agent-1"; f_Errors := MarshalEntries ["job failed"];
     f_Details := ""; f_Severity := "high"; f_ChainDepth := depth; f_NodeName := "" |}.

(** The Job, with its priority annotation. *)
Definition agent_job (priority : string) : Object :=
  ObjJob {| job_Meta := {| meta_Name := "mechanic-agent-1"; meta_Namespace := "mechanic";
                           meta_UID := "u"; meta_Labels := ∅; 
                           meta_Annotations := {[Annotations.AnnotationPriority := priority]};
                           meta_CreationTimestamp := 0; meta_Generation := 1;
                           meta_OwnerReferences := [] |};
            job_Spec := {| js_BackoffLimit := None; js_ActiveDeadlineSeconds := None;
                           js_TTLSecondsAfterFinished := None;
                           js_Template := {| ps_NodeName := ""; ps_ServiceAccountName := "";
                             ps_RestartPolicy := ""; ps_RunAsNonRoot := None; ps_RunAsUser := None;
                             ps_InitContainers := []; ps_Containers := []; ps_Volumes := [] |} |};
            job_Status := {| js_Active := 0; js_Succeeded := 0; js_Failed := 1;
                             js_CompletionTime := None; js_Conditions := [] |} |}.

Definition job_reconciler (depth : Z) : SourceProviderReconciler :=
  {| sp_Cfg := default_config; sp_ProviderName := "native"; sp_ObjectType := "Job";
     sp_ExtractFinding := fun _ => Ret (Ok (Some (agent_finding depth)));
     sp_EventRecorder := false; sp_ReadinessChecker := None; sp_SinkCloser := None;
     sp_PRMergeChecker := None |}.

(** The cluster at time [t]: the Job is there, no RemediationJob exists, and a
    creation would succeed. *)
Definition world (priority : string) (t : Z) : handler answer := fun e =>
  match e return answer e with
  | GetObject _ _ _ => Ok (agent_job priority)
  | ListRJobs _ _ => Ok []
  | CreateRJob obj => Ok obj
  | e' => offline t e'
  end.

Definition reconcile_at (priority : string) (depth t : Z) (s : State) :=
  exec_pure (world priority t)
    (Reconcile map_to_list (job_reconciler depth) "mechanic-agent-1" "mechanic" s).

(** Run the reconciler [n] times, each time when the previous run asked for. *)
Fixpoint drive (priority : string) (n : nat) (depth t : Z) (s : State) : list trace :=
  match n with
  | O => []
  | S n' =>
      match reconcile_at priority depth t s with
      | (tr, Done (s', Ok res)) => tr :: drive priority n' depth (t + Z.max 0 (RequeueAfter res)) s'
      | (tr, Done (s', Err _)) => [tr]
      | (tr, Panicked _) => [tr]
      end
  end.

Definition start : State := {| firstSeen := None; breaker := Some (New (300 * second)) |}.

Lemma job_reconciler_quiet depth : collaborators_quiet (job_reconciler depth).
Proof. split; try discriminate. intros o. apply allows_ret. Qed.

Definition there (e : req) : answer e -> Prop :=
  match e return answer e -> Prop with
  | GetObject _ _ _ => fun x => x = Ok (agent_job "")
  | _ => fun _ => True
  end.

Lemma own t s :
  own_findings (job_reconciler 1) "mechanic-agent-1" "mechanic" (reconcile_at "" 1 t s).1.
Proof.
  intros obj f [Hin (tr' & _ & Hx)].
  assert (relies there (reconcile_at "" 1 t s).1) as Hr by (apply exec_pure_relies; by intros []).
  apply (proj1 (Forall_forall _ _) Hr) in Hin. cbn in Hin. injection Hin as ->. split; [|by vm_compute].
  inversion Hx; subst. done.
Qed.

Lemma rounds_drive n t s :
  rounds map_to_list (job_reconciler 1) (10 * second) s t (drive "" n 1 t s).
Proof.
  revert t s. induction n as [|n IH]; intros t s; cbn [drive]; [apply rounds_none|].
  assert (relies (during t t) (reconcile_at "" 1 t s).1) as Hrel
    by (apply exec_pure_relies; intros []; cbn; done || lia).
  pose proof (own t s) as Hown. pose proof (exec_pure_runs (world "" t)
    (Reconcile map_to_list (job_reconciler 1) "mechanic-agent-1" "mechanic" s)) as Hruns.
  fold (reconcile_at "" 1 t s) in Hruns. destruct (reconcile_at "" 1 t s) as [tr [[s' [res|e]]|msg]].
  - eapply rounds_next; [| |exact Hruns|exact Hrel|exact Hown|]; [lia|unfold second; lia|].
    eapply rounds_later; [|apply IH]. lia.
  - eapply rounds_next; [| |exact Hruns|exact Hrel|exact Hown|apply rounds_none]; [lia|unfold second; lia].
  - eapply rounds_crash; [| |exact Hruns|exact Hrel|exact Hown]; [lia|unfold second; lia].
Qed.


(** ** The admission of a finding of depth zero *)
(** The fingerprint of the finding, first seen at [t]. *)
Definition agent_fp : string := Eval vm_compute in
  match FindingFingerprint (agent_finding 1) with Ok fp => fp | Err _ => "" end.

Definition seen (t last : Z) : BoundedMap :=
  {| bm_data := {[ agent_fp := t ]}; bm_maxSize := 1000; bm_ttl := 240 * second;
     bm_lastCleanup := last; bm_cleanupInterval := 120 * second |}.

Definition depth0_run :=
  exec_pure (world "" (120 * second))
    (Reconcile map_to_list (job_reconciler 0) "mechanic-agent-1" "mechanic"
       {| firstSeen := Some (seen 0 0); breaker := None |}).

Definition created_job : RemediationJob :=
  new_rjob (job_reconciler 0) "mechanic-agent-1" "mechanic" agent_fp (agent_finding 0).

Lemma created_jobs_passed_every_gate_witness :
  exists m, starts_from {| firstSeen := Some (seen 0 0); breaker := None |} m /\
    passed (job_reconciler 0) "mechanic-agent-1" "mechanic"
      {| firstSeen := Some (seen 0 0); breaker := None |} m created_job depth0_run.1.
Proof.
  apply (created_jobs_passed_every_gate map_to_list (job_reconciler 0) (job_reconciler_quiet 0)
           "mechanic-agent-1" "mechanic" {| firstSeen := Some (seen 0 0); breaker := None |}
           depth0_run.1 depth0_run.2 created_job (Ok created_job)).
  - apply exec_pure_runs.
  - vm_compute. repeat (first [apply list_elem_of_here | apply list_elem_of_further]).
Defined.
