(* ===== verification/Wiring.v ===== *)
(** * Start-up wiring (src/cmd/watcher/main.go)
    The parts of [main] that turn the configuration into the components: the
    job builder's configuration, the correlator, the circuit breaker and the
    RemediationJobReconciler.  Boot.v models [main] itself.  With this wiring and
    an environment that FromEnv accepts, the created Jobs are found again by
    later reconciles, and the builder's [resource.MustParse] does not panic. *)
From stdpp Require Import base list strings gmap.
From Stdlib Require Import ZArith Lia.
From S2P Require Import Prelude Prog Utf8 Regex Redact Json K8s Types Effects Domain.
From S2P Require Import BoundedMap CircuitBreaker Metrics Correlator Config JobBuilder Controller ControllerProps ControllerSafety ControllerOutcomes.
Import GoErr GoStr GoInt.
Open Scope string_scope.
Open Scope list_scope.
Open Scope Z_scope.
Open Scope go_scope.

(** Lines 122-134. *)
Definition builder_config (cfg : Config) : BuilderConfig :=
  {| jb_AgentNamespace := cfg_AgentNamespace cfg;
     jb_AgentType := agent_type_string (cfg_AgentType cfg);
     jb_TTLSeconds := wrap32 (cfg_RemediationJobTTLSeconds cfg);
     jb_DryRun := cfg_DryRun cfg; jb_HardenAgentKubectl := cfg_HardenAgentKubectl cfg;
     jb_ExtraRedactPatterns := cfg_ExtraRedactPatterns cfg;
     jb_CPURequest := cfg_AgentCPURequest cfg; jb_MemRequest := cfg_AgentMemRequest cfg;
     jb_CPULimit := cfg_AgentCPULimit cfg; jb_MemLimit := cfg_AgentMemLimit cfg;
     jb_ActiveDeadlineSeconds := cfg_AgentActiveDeadlineSeconds cfg |}.

(** Lines 300-315: nil when correlation is disabled. *)
Definition buildCorrelator (cfg : Config) : res (option Correlator) :=
  if cfg_DisableCorrelation cfg then Ok None
  else if cfg_MultiPodThreshold cfg <=? 0 then
    Err (EMsg "buildCorrelator: MultiPodThreshold must be > 0")
  else Ok (Some {| Rules := production_rules (cfg_MultiPodThreshold cfg) |}).

(** Lines 204-207. *)
Definition build_breaker (cfg : Config) : option CircuitBreaker :=
  if 0 <? cfg_SelfRemediationCooldown cfg
  then Some (CircuitBreaker.New (cfg_SelfRemediationCooldown cfg)) else None.

(** ** What start-up guarantees *)

(** Labels that a selector of the code matches. *)
Definition selects (sel : list (string * string)) (labels : gmap string string) : Prop :=
  Forall (fun kv => labels !! kv.1 = Some kv.2) sel.

Lemma quantity_var_parses PQ env name v :
  quantity_var (fun s => bool_decide (is_Some (PQ s))) env name = Ok v ->
  parses PQ v.
Proof.
  unfold quantity_var. destruct (String.eqb _ ""); [by intros [= <-]|].
  case_bool_decide; [|done]. by intros [= <-].
Qed.

Lemma FromEnv_quantities Compile PQ env cfg :
  FromEnv Compile (fun s => bool_decide (is_Some (PQ s))) env = Ok cfg ->
  quantities_ok PQ (builder_config cfg).
Proof.
  open_env. intros H. peel. injection H as <-.
  repeat match goal with Hq : quantity_var _ _ _ = Ok _ |- _ => apply quantity_var_parses in Hq end.
  done.
Qed.

Lemma job_labels_selected b rjob :
  selects (managed_by ++ [("remediation.mechanic.io/remediation-job", rj_Name rjob)])
    (meta_Labels (job_meta b rjob)).
Proof.
  unfold selects, managed_by. cbn [app job_meta meta_Labels].
  repeat (apply Forall_cons_2 || apply Forall_nil_2); cbn [fst snd].
  - by rewrite lookup_insert_eq.
  - rewrite lookup_insert_ne by done. rewrite lookup_insert_ne by done. by rewrite lookup_insert_eq.
Qed.

(** From every environment FromEnv accepts, the job builder can be constructed, and
    for every fingerprint of at least 12 characters it builds a Job in the agent
    namespace, with the labels the controller selects by, the configured TTL, and the
    dry-run annotation exactly in dry-run mode. *)
Theorem started_watcher_builds_visible_jobs Compile PQ env cfg :
  FromEnv Compile (fun s => bool_decide (is_Some (PQ s))) env = Ok cfg ->
  exists b, JobBuilder.New (builder_config cfg) = Ok b /\
  forall rjob fs, (12 <= String.length (spec_Fingerprint (rj_Spec rjob)))%nat ->
  exists j, Build PQ b rjob fs = Done (Ok j) /\
    meta_Namespace (job_Meta j) = cfg_AgentNamespace cfg /\
    selects managed_by (meta_Labels (job_Meta j)) /\
    selects [("remediation.mechanic.io/remediation-job", rj_Name rjob)] (meta_Labels (job_Meta j)) /\
    js_TTLSecondsAfterFinished (job_Spec j) = Some (cfg_RemediationJobTTLSeconds cfg) /\
    (map_get (meta_Annotations (job_Meta j)) "mechanic.io/dry-run" = "true" <-> cfg_DryRun cfg = true).
Proof.
  intros HE. pose proof (FromEnv_ok _ _ _ _ HE) as Hv.
  pose proof (valid_ttl _ Hv) as Httl. destruct (valid_names _ Hv) as (_ & Hns & _).
  pose proof (FromEnv_quantities Compile PQ env cfg HE) as Hq.
  unfold JobBuilder.New. cbn [builder_config jb_AgentNamespace].
  rewrite (proj2 (String.eqb_neq _ _) Hns).
  eexists. split; [reflexivity|]. intros rjob fs Hlen.
  set (b := {| b_cfg := _ |}).
  assert (quantities_ok PQ (b_cfg b)) as Hq' by exact Hq.
  destruct (containerResources_done PQ b Hq') as [res Hres].
  unfold Build. rewrite Hres, (proj2 (Z.ltb_ge _ _)) by lia.
  eexists. split; [reflexivity|]. cbn [job_Meta job_Spec job_spec js_TTLSecondsAfterFinished].
  pose proof (job_labels_selected b rjob) as Hsel. unfold selects in Hsel.
  rewrite Forall_app in Hsel. destruct Hsel as [Hs1 Hs2].
  split; [done|]. split; [exact Hs1|]. split; [exact Hs2|]. split.
  - cbn [b_cfg b jb_TTLSeconds builder_config]. rewrite wrap32_small by (unfold in_int32, max_int32 in *; lia).
    by rewrite (proj2 (Z.eqb_neq _ _)) by lia.
  - cbn [job_meta meta_Annotations b_cfg b jb_DryRun builder_config]. unfold map_get.
    destruct (cfg_DryRun cfg).
    + by rewrite lookup_insert_eq.
    + cbn [id]. rewrite !lookup_insert_ne by done. by rewrite lookup_empty.
Qed.

Lemma started_watcher_builds_visible_jobs_witness :
  exists b, JobBuilder.New (builder_config default_config) = Ok b /\
  forall rjob fs, (12 <= String.length (spec_Fingerprint (rj_Spec rjob)))%nat ->
  exists j, Build (fun s => Some {| quantity_text := s |}) b rjob fs = Done (Ok j) /\
    meta_Namespace (job_Meta j) = cfg_AgentNamespace default_config /\
    selects managed_by (meta_Labels (job_Meta j)) /\
    selects [("remediation.mechanic.io/remediation-job", rj_Name rjob)] (meta_Labels (job_Meta j)) /\
    js_TTLSecondsAfterFinished (job_Spec j) = Some (cfg_RemediationJobTTLSeconds default_config) /\
    (map_get (meta_Annotations (job_Meta j)) "mechanic.io/dry-run" = "true" <->
     cfg_DryRun default_config = true).
Proof.
  apply (started_watcher_builds_visible_jobs (fun _ => None) (fun s => Some {| quantity_text := s |})
           (env_get example_env)).
  vm_compute. reflexivity.
Defined.

(** The reconciler that [main] sets up (lines 187-196). *)
Definition wired_reconciler (PQ : string -> option Quantity) (cfg : Config) (b : Builder)
    (corr : option Correlator) : RemediationJobReconciler :=
  {| r_Cfg := cfg;
     r_Build := Build PQ b; r_Recorder := true; r_Correlator := corr |}.

Lemma buildCorrelator_rules cfg corr c :
  buildCorrelator cfg = Ok corr -> corr = Some c ->
  Forall RuleReadOnly (Rules c) /\ Forall RuleSound (Rules c).
Proof.
  unfold buildCorrelator. destruct (cfg_DisableCorrelation cfg); [by intros [= <-]|].
  destruct (Z.leb_spec (cfg_MultiPodThreshold cfg) 0); [done|]. intros [= <-] [= <-].
  split; [apply production_rules_ro|by apply production_rules_sound].
Qed.

(** The builder that [main] sets up never panics: FromEnv has parsed its quantities. *)
Lemma wired_build Compile PQ env cfg b rjob fs :
  FromEnv Compile (fun s => bool_decide (is_Some (PQ s))) env = Ok cfg ->
  JobBuilder.New (builder_config cfg) = Ok b ->
  match Build PQ b rjob fs with
  | Done (Ok j) => True
  | Done (Err _) => (String.length (spec_Fingerprint (rj_Spec rjob)) < 12)%nat
  | Panicked _ => False
  end.
Proof.
  intros HE Hb. pose proof (FromEnv_quantities Compile PQ env cfg HE) as Hq.
  assert (quantities_ok PQ (b_cfg b)) as Hqb.
  { revert Hb. unfold JobBuilder.New. destruct (String.eqb _ ""); [discriminate|]. by intros [= <-]. }
  destruct (containerResources_done PQ b Hqb) as [res Hres]. unfold Build. rewrite Hres.
  destruct (Z.ltb_spec (Z.of_nat (String.length (spec_Fingerprint (rj_Spec rjob)))) 12); [lia|done].
Qed.

(** C7: With the reconciler that main wires up from a valid environment, each batch/v1
    Job that a reconcile creates was built by Build for the reconciled spec, lies in
    the agent namespace and carries the labels by which the concurrency gate and the
    owned-jobs lookup of later reconciles select it; assumed is that the server's
    answers to patches keep the name and the spec of the RemediationJob. *)
Theorem created_jobs_are_found_again `{ConditionLib} error_text Compile PQ env cfg b corr rjob tr o :
  FromEnv Compile (fun s => bool_decide (is_Some (PQ s))) env = Ok cfg ->
  JobBuilder.New (builder_config cfg) = Ok b -> buildCorrelator cfg = Ok corr ->
  runs (reconcile_phase error_text (wired_reconciler PQ cfg b corr) rjob) tr o ->
  relies keeps_identity tr ->
  forall j a, Event (CreateJob j) a ∈ tr ->
  (exists rjob' fs, Build PQ b rjob' fs = Done (Ok j) /\ rj_Spec rjob' = rj_Spec rjob) /\
  meta_Namespace (job_Meta j) = cfg_AgentNamespace cfg /\
  selects (managed_by ++ [("remediation.mechanic.io/remediation-job", rj_Name rjob)])
    (meta_Labels (job_Meta j)).
Proof.
  intros HE Hb Hc Hr Hrel j a Hj.
  assert (forall c, r_Correlator (wired_reconciler PQ cfg b corr) = Some c ->
                    Forall RuleReadOnly (Rules c)) as Hro
    by (intros c Hcc; exact (proj1 (buildCorrelator_rules cfg corr c Hc Hcc))).
  destruct (runs_wp _ _ _ _ Hr (reconcile_phase_creating error_text _ Hro rjob))
    as [H0|(H1 & _ & tr' & -> & _ & Hbuilt)].
  { by apply no_job_creation in Hj. }
  destruct Hbuilt as (rj & fs & j' & a' & HB & Hin & _ & Hk).
  destruct (Hk (relies_app_r _ [_] _ Hrel)) as [Hspec Hname].
  assert (j' = j) as -> by (refine (created_once _ j' a' j a H1 _ Hj); by apply list_elem_of_further).
  cbn [wired_reconciler r_Build] in HB. split; [eauto|].
  revert HB. unfold Build. destruct (_ <? 12); [discriminate|].
  destruct (containerResources PQ b); [|discriminate]. intros [= <-]. cbn [job_Meta].
  split; [|rewrite <- Hname; apply job_labels_selected].
  revert Hb. unfold JobBuilder.New. destruct (String.eqb _ ""); [discriminate|]. by intros [= <-].
Qed.

(** C30: With the reconciler that main wires up from an environment that FromEnv
    accepts, a reconcile panics only if reading random bytes for a group identifier
    failed; in particular the quantities are parsable, so resource.MustParse in the
    job builder, whose panic is an outcome of Build, never panics. *)
Theorem reconcile_panics_only_without_randomness `{ConditionLib} error_text Compile PQ env cfg b corr
    namespace name tr msg :
  FromEnv Compile (fun s => bool_decide (is_Some (PQ s))) env = Ok cfg ->
  JobBuilder.New (builder_config cfg) = Ok b -> buildCorrelator cfg = Ok corr ->
  runs (Reconcile error_text (wired_reconciler PQ cfg b corr) namespace name) tr (Panicked msg) ->
  rand_failed tr.
Proof.
  intros HE Hb Hc Hr.
  assert (forall c, r_Correlator (wired_reconciler PQ cfg b corr) = Some c ->
                    Forall RuleSound (Rules c)) as Hs
    by (intros c Hcc; exact (proj2 (buildCorrelator_rules cfg corr c Hc Hcc))).
  destruct (runs_wp _ _ _ _ Hr (Reconcile_safe error_text _ Hs namespace name)) as [?|(rjob & fs & HB)]; [done|].
  pose proof (wired_build Compile PQ env cfg b rjob fs HE Hb) as Hw.
  cbn [wired_reconciler r_Build] in HB. by rewrite HB in Hw.
Qed.

Definition demo_PQ (s : string) : option Quantity := Some {| quantity_text := s |}.
Definition demo_builder : Builder :=
  match JobBuilder.New (builder_config default_config) with
  | Ok b => b
  | Err _ => {| b_cfg := builder_config default_config |}
  end.
Definition demo_correlator : option Correlator := Some {| Rules := production_rules 3 |}.

Definition fingerprinted : RemediationJob :=
  let s := rj_Spec pending_web in
  {| rj_Meta := rj_Meta pending_web;
     rj_Spec :=
       {| spec_SourceResultRef := spec_SourceResultRef s; spec_Fingerprint := "0123456789abcdef";
          spec_SourceType := spec_SourceType s; spec_SinkType := spec_SinkType s;
          spec_Finding := spec_Finding s; spec_GitOpsRepo := spec_GitOpsRepo s;
          spec_GitOpsManifestRoot := spec_GitOpsManifestRoot s;
          spec_AgentImage := spec_AgentImage s; spec_AgentSA := spec_AgentSA s;
          spec_MaxRetries := spec_MaxRetries s; spec_Severity := spec_Severity s |};
     rj_Status := rj_Status pending_web |}.

Definition wired_run :=
  exec_pure (Example.serve idle)
    (@reconcile_phase ListConditions.lib Example.text
       (wired_reconciler demo_PQ default_config demo_builder demo_correlator) fingerprinted).

Lemma created_jobs_are_found_again_witness :
  creations wired_run.1 = 1%nat /\
  forall j a, Event (CreateJob j) a ∈ wired_run.1 ->
  (exists rjob' fs, Build demo_PQ demo_builder rjob' fs = Done (Ok j) /\ rj_Spec rjob' = rj_Spec fingerprinted) /\
  meta_Namespace (job_Meta j) = cfg_AgentNamespace default_config /\
  selects (managed_by ++ [("remediation.mechanic.io/remediation-job", rj_Name fingerprinted)])
    (meta_Labels (job_Meta j)).
Proof.
  split; [vm_compute; reflexivity|].
  apply (@created_jobs_are_found_again ListConditions.lib Example.text (fun _ => None) demo_PQ
           (env_get example_env) default_config demo_builder demo_correlator fingerprinted
           wired_run.1 wired_run.2).
  - vm_compute. reflexivity.
  - reflexivity.
  - reflexivity.
  - apply exec_pure_runs.
  - apply exec_pure_relies. intros []; done.
Defined.

(** The configuration of a builder with another CPU request. *)
Definition with_cpu_request (q : string) (c : BuilderConfig) : BuilderConfig :=
  {| jb_AgentNamespace := jb_AgentNamespace c; jb_AgentType := jb_AgentType c;
     jb_TTLSeconds := jb_TTLSeconds c; jb_DryRun := jb_DryRun c;
     jb_HardenAgentKubectl := jb_HardenAgentKubectl c;
     jb_ExtraRedactPatterns := jb_ExtraRedactPatterns c;
     jb_CPURequest := Some q; jb_MemRequest := jb_MemRequest c;
     jb_CPULimit := jb_CPULimit c; jb_MemLimit := jb_MemLimit c;
     jb_ActiveDeadlineSeconds := jb_ActiveDeadlineSeconds c |}.

Definition panicking :=
  exec_pure no_randomness (@Reconcile ListConditions.lib Example.text
    (wired_reconciler demo_PQ default_config demo_builder demo_correlator) "mechanic" "web").

Lemma reconcile_panics_only_without_randomness_witness : rand_failed panicking.1.
Proof.
  apply (@reconcile_panics_only_without_randomness ListConditions.lib Example.text (fun _ => None) demo_PQ
           (env_get example_env) default_config demo_builder demo_correlator)
    with (namespace := "mechanic") (name := "web")
         (msg := "correlation: failed to read random bytes").
  - vm_compute. reflexivity.
  - reflexivity.
  - reflexivity.
  - apply (exec_pure_runs no_randomness (@Reconcile ListConditions.lib Example.text
      (wired_reconciler demo_PQ default_config demo_builder demo_correlator) "mechanic" "web")).
Defined.

(** Without that validation the builder's panic would reach the reconcile. *)
Lemma unparsable_quantities_panic :
  exists m, (exec_pure (Example.serve idle) (@reconcile_phase ListConditions.lib Example.text
    (wired_reconciler (fun _ => None)
       default_config {| b_cfg := with_cpu_request "?" (builder_config default_config) |} None)
    fingerprinted)).2 = Panicked m.
Proof. eexists. vm_compute. reflexivity. Qed.

Lemma built_jobs_are_well_formed_witness :
  match Build demo_PQ demo_builder fingerprinted [] with
  | Done (Ok j) =>
      (12 <= String.length (spec_Fingerprint (rj_Spec fingerprinted)))%nat /\
      pod_wf (js_Template (job_Spec j)) /\
      meta_OwnerReferences (job_Meta j) =
        [{| ref_APIVersion := "remediation.mechanic.io/v1alpha1"; ref_Kind := "RemediationJob";
            ref_Name := rj_Name fingerprinted; ref_UID := rj_UID fingerprinted;
            ref_Controller := Some true; ref_BlockOwnerDeletion := Some true |}]
  | Done (Err _) => (String.length (spec_Fingerprint (rj_Spec fingerprinted)) < 12)%nat
  | Panicked _ => False
  end.
Proof.
  apply (built_jobs_are_well_formed demo_PQ demo_builder fingerprinted []).
  split; [exact I|]. split; [exact I|]. split; exact I.
Defined.
