(* ===== verification/Native.v ===== *)
(** * Native providers (src/internal/provider/native)
    From a watched object to a finding: the failure conditions of pods,
    deployments, stateful sets, jobs, nodes and claims, the texts that describe
    them (redacted, stripped of delimiters and truncated), their severity, and
    the walk along the owner references to the root workload. *)
From stdpp Require Import base list strings gmap sets.
From Stdlib Require Import ZArith Lia.
From S2P Require Import Prelude Prog Utf8 Regex Redact Sha256 Json K8s Types Effects Domain.
From S2P Require Import Fingerprint.
Import GoErr GoStr GoTime GoInt Severity Annotations Delimiter.
Open Scope list_scope.
Open Scope string_scope.
Open Scope Z_scope.
Open Scope go_scope.

(** ** truncate.go *)
Definition maxTerminatedMessage : Z := 4096.
Definition maxSchedulerMessage : Z := 2048.
Definition maxCSIEventMessage : Z := 2048.
Definition maxWaitingMessage : Z := 1024.
Definition maxConditionMessage : Z := 500.

Definition truncate (s : string) (max : Z) : string :=
  if Z.of_nat (String.length s) <=? max then s
  else take (Z.to_nat max) s ++ "...[truncated]".

(** ** parent.go *)
Definition maxTraversalDepth : nat := 10.

(** The kinds with a known group and version. *)
Definition kindToGV : list (string * (string * string)) :=
  [("Pod", ("", "v1")); ("ReplicaSet", ("apps", "v1")); ("Deployment", ("apps", "v1"));
   ("StatefulSet", ("apps", "v1")); ("DaemonSet", ("apps", "v1")); ("Job", ("batch", "v1"));
   ("CronJob", ("batch", "v1")); ("ConfigMap", ("", "v1")); ("Node", ("", "v1"))].

Definition node_string (kind name : string) : string := kind ++ "/" ++ name.

(** The loop: [n] iterations are left, [visited] holds the UIDs passed. *)
Fixpoint climb (n : nat) (visited : gset string) (namespace kind name : string)
    (ownerRefs : list OwnerReference) : io string :=
  match n with
  | O => Ret (node_string kind name)
  | S n' =>
      match ownerRefs with
      | [] => Ret (node_string kind name)
      | owner :: _ =>
          if bool_decide (ref_UID owner ∈ visited) then Ret (node_string kind name)
          else match assoc (ref_Kind owner) kindToGV with
               | None => Ret (node_string kind name)
               | Some _ =>
                   got <- call (GetOwner (ref_Kind owner) namespace (ref_Name owner)) ;;
                   match got with
                   | Err _ => Ret (node_string kind name)
                   | Ok refs =>
                       climb n' ({[ref_UID owner]} ∪ visited) namespace
                         (ref_Kind owner) (ref_Name owner) refs
                   end
               end
      end
  end.

Definition getParent (meta : ObjectMeta) (kind : string) : io string :=
  match meta_OwnerReferences meta with
  | [] => Ret (node_string kind (meta_Name meta))
  | refs => climb maxTraversalDepth {[meta_UID meta]} (meta_Namespace meta) kind (meta_Name meta) refs
  end.

(** [%T] of a watched object. *)
Definition go_type (o : Object) : string :=
  match o with
  | ObjPod _ => "*v1.Pod"
  | ObjDeployment _ => "*v1.Deployment"
  | ObjStatefulSet _ => "*v1.StatefulSet"
  | ObjPVC _ => "*v1.PersistentVolumeClaim"
  | ObjNode _ => "*v1.Node"
  | ObjJob _ => "*v1.Job"
  end.

(** [append] to the slice of error entries, where there is something to append. *)
Definition entry (t : option string) : list string := match t with Some s => [s] | None => [] end.

(** [if SeverityLevel(SeverityHigh) > SeverityLevel(current)]. *)
Definition raise_high (current : Severity) : Severity :=
  if SeverityLevel current <? SeverityLevel SeverityHigh then SeverityHigh else current.

Definition extracted := res (option Finding).

(** [domain.SourceProvider]; the type of the watched objects is named by its kind. *)
Record SourceProvider := {
  ProviderName : string;
  ObjectType : string;
  ExtractFinding : Object -> io extracted }.

Section Providers.
Context (redactor : Redaction.Redactor).

(** What every message of the cluster goes through. *)
Definition clean_message (msg : string) (max : Z) : string :=
  truncate (StripDelimiters (Redaction.Redact redactor msg)) max.

(** ** pod.go *)
Definition waitingReasons : list string :=
  ["CrashLoopBackOff"; "ImagePullBackOff"; "ErrImagePull"; "CreateContainerConfigError";
   "InvalidImageName"; "RunContainerError"; "CreateContainerError"].

Definition buildCrashLoopText (cs : ContainerStatus) : string :=
  let lastReason :=
    match state_Terminated (cs_LastTerminationState cs) with
    | Some t => term_Reason t
    | None => ""
    end in
  if negb (String.eqb lastReason "")
  then "container " ++ cs_Name cs ++ ": CrashLoopBackOff (last exit: " ++ lastReason ++ ")"
  else "container " ++ cs_Name cs ++ ": CrashLoopBackOff".

Definition buildWaitingText (cs : ContainerStatus) (w : StateWaiting) : string :=
  if negb (String.eqb (wait_Message w) "")
  then "container " ++ cs_Name cs ++ ": " ++ wait_Reason w ++ ": "
       ++ clean_message (wait_Message w) maxWaitingMessage
  else "container " ++ cs_Name cs ++ ": " ++ wait_Reason w.

Definition terminated_text (cs : ContainerStatus) (t : StateTerminated) : string :=
  "container " ++ cs_Name cs ++ ": terminated with exit code " ++ itoa (term_ExitCode t)
  ++ (if negb (String.eqb (term_Message t) "")
      then ": " ++ clean_message (term_Message t) maxTerminatedMessage else "").

Definition is_waiting_reason (r : string) : bool := existsb (String.eqb r) waitingReasons.

(** One iteration of the loop over the container statuses (lines 70-97). *)
Definition container_error (cs : ContainerStatus) : option string :=
  match state_Waiting (cs_State cs) with
  | Some w =>
      if is_waiting_reason (wait_Reason w)
      then Some (if String.eqb (wait_Reason w) "CrashLoopBackOff"
                 then buildCrashLoopText cs else buildWaitingText cs w)
      else None
  | None =>
      match state_Terminated (cs_State cs) with
      | Some t => if negb (term_ExitCode t =? 0) then Some (terminated_text cs t) else None
      | None => None
      end
  end.

Definition all_statuses (pod : Pod) : list ContainerStatus :=
  (pod_ContainerStatuses pod ++ pod_InitContainerStatuses pod)%list.

Definition unschedulable (c : Condition) : bool :=
  String.eqb (cond_Type c) "PodScheduled" && status_eqb (cond_Status c) ConditionFalse
  && String.eqb (cond_Reason c) "Unschedulable".

Definition scheduling_error (pod : Pod) : option string :=
  if String.eqb (pod_Phase pod) "Pending" then
    match List.find unschedulable (pod_Conditions pod) with
    | Some c => Some ("pod " ++ cond_Reason c ++ ": " ++ clean_message (cond_Message c) maxSchedulerMessage)
    | None => None
    end
  else None.

Definition pod_errors (pod : Pod) : list string :=
  (omap container_error (all_statuses pod) ++ entry (scheduling_error pod))%list.

Definition last_OOMKilled (cs : ContainerStatus) : bool :=
  match state_Terminated (cs_LastTerminationState cs) with
  | Some t => String.eqb (term_Reason t) "OOMKilled"
  | None => false
  end.

(** The loop of [computePodSeverity]: [inl] is the early return. *)
Definition status_severity (cs : ContainerStatus) (current : Severity) : Severity + Severity :=
  match state_Waiting (cs_State cs) with
  | Some w =>
      if String.eqb (wait_Reason w) "CrashLoopBackOff" then
        if 5 <? cs_RestartCount cs then inl SeverityCritical
        else if last_OOMKilled cs then inr (raise_high current)
        else inr (raise_high current)
      else if String.eqb (wait_Reason w) "ImagePullBackOff" || String.eqb (wait_Reason w) "ErrImagePull"
      then inr (raise_high current)
      else inr current
  | None =>
      match state_Terminated (cs_State cs) with
      | Some t =>
          if negb (term_ExitCode t =? 0) && String.eqb (term_Reason t) "OOMKilled"
          then inr (raise_high current) else inr current
      | None => inr current
      end
  end.

Fixpoint statuses_severity (l : list ContainerStatus) (current : Severity) : Severity + Severity :=
  match l with
  | [] => inr current
  | cs :: l' =>
      match status_severity cs current with
      | inl s => inl s
      | inr c => statuses_severity l' c
      end
  end.

Definition computePodSeverity (pod : Pod) : Severity :=
  match statuses_severity (all_statuses pod) SeverityMedium with
  | inl s => s
  | inr current =>
      if String.eqb (pod_Phase pod) "Pending"
      then fold_left (fun s c => if unschedulable c then raise_high s else s)
             (pod_Conditions pod) current
      else current
  end.

Definition mk_finding (kind name namespace parent : string) (errors : list string)
    (severity : Severity) (depth : Z) (node : string) : Finding :=
  {| f_Kind := kind; f_Name := name; f_Namespace := namespace; f_ParentObject := parent;
     f_Errors := MarshalEntries errors; f_Details := ""; f_Severity := severity;
     f_ChainDepth := depth; f_NodeName := node |}.


Definition pod_ExtractFinding (obj : Object) : io extracted :=
  t <- now ;;
  if ShouldSkip (meta_Annotations (obj_Meta obj)) t then Ret (Ok None)
  else match obj with
  | ObjPod pod =>
      match pod_errors pod with
      | [] => Ret (Ok None)
      | errors =>
          parent <- getParent (pod_Meta pod) "Pod" ;;
          Ret (Ok (Some (mk_finding "Pod" (meta_Name (pod_Meta pod)) (meta_Namespace (pod_Meta pod))
                           parent errors (computePodSeverity pod) 0 (ps_NodeName (pod_Spec pod)))))
      end
  | _ => Ret (Err (EMsg ("podProvider: expected *corev1.Pod, got " ++ go_type obj)))
  end.

(** ** deployment.go *)
Definition unavailable (c : Condition) : bool :=
  String.eqb (cond_Type c) "Available" && status_eqb (cond_Status c) ConditionFalse.

Definition dep_replica_error (d : Deployment) : option string :=
  match dep_SpecReplicas d with
  | Some spec =>
      if (dep_StatusReplicas d <=? spec) && (dep_ReadyReplicas d <? spec)
      then Some ("deployment " ++ meta_Name (dep_Meta d) ++ ": " ++ itoa (dep_ReadyReplicas d) ++ "/"
                 ++ itoa spec ++ " replicas ready")
      else None
  | None => None
  end.

Definition dep_available_error (d : Deployment) : option string :=
  match List.find unavailable (dep_Conditions d) with
  | Some c => Some ("deployment " ++ meta_Name (dep_Meta d) ++ ": Available=False reason="
                    ++ cond_Reason c ++ " message="
                    ++ clean_message (cond_Message c) maxConditionMessage)
  | None => None
  end.

Definition computeDeploymentSeverity (readyReplicas specReplicas : Z) (replicaFired : bool) : Severity :=
  if replicaFired && (0 <? specReplicas) then
    if readyReplicas =? 0 then SeverityCritical
    else if readyReplicas <? Z.quot specReplicas 2 then SeverityHigh
    else SeverityMedium
  else SeverityMedium.

Definition deployment_ExtractFinding (obj : Object) : io extracted :=
  t <- now ;;
  if ShouldSkip (meta_Annotations (obj_Meta obj)) t then Ret (Ok None)
  else match obj with
  | ObjDeployment d =>
      match (entry (dep_replica_error d) ++ entry (dep_available_error d))%list with
      | [] => Ret (Ok None)
      | errors =>
          parent <- getParent (dep_Meta d) "Deployment" ;;
          Ret (Ok (Some (mk_finding "Deployment" (meta_Name (dep_Meta d)) (meta_Namespace (dep_Meta d))
                 parent errors
                 (computeDeploymentSeverity (dep_ReadyReplicas d) (default 0 (dep_SpecReplicas d))
                    (bool_decide (is_Some (dep_replica_error d)))) 0 "")))
      end
  | _ => Ret (Err (EMsg ("deploymentProvider: expected *appsv1.Deployment, got " ++ go_type obj)))
  end.

(** ** statefulset.go *)
Definition sts_replica_error (s : StatefulSet) : option string :=
  match sts_SpecReplicas s with
  | Some spec =>
      if (meta_Generation (sts_Meta s) =? sts_ObservedGeneration s) && (sts_ReadyReplicas s <? spec)
      then Some ("statefulset " ++ meta_Name (sts_Meta s) ++ ": " ++ itoa (sts_ReadyReplicas s) ++ "/"
                 ++ itoa spec ++ " replicas ready")
      else None
  | None => None
  end.

Definition sts_available_error (s : StatefulSet) : option string :=
  match List.find unavailable (sts_Conditions s) with
  | Some c => Some ("statefulset " ++ meta_Name (sts_Meta s) ++ ": condition Available is False: "
                    ++ cond_Reason c ++ ": " ++ clean_message (cond_Message c) maxConditionMessage)
  | None => None
  end.

Definition computeStatefulSetSeverity (readyReplicas specReplicas : Z) (replicaFired : bool) : Severity :=
  if replicaFired && (0 <? specReplicas) then
    if readyReplicas =? 0 then SeverityCritical
    else if readyReplicas <? Z.quot specReplicas 2 then SeverityHigh
    else SeverityMedium
  else SeverityMedium.

Definition statefulset_ExtractFinding (obj : Object) : io extracted :=
  t <- now ;;
  if ShouldSkip (meta_Annotations (obj_Meta obj)) t then Ret (Ok None)
  else match obj with
  | ObjStatefulSet s =>
      match (entry (sts_replica_error s) ++ entry (sts_available_error s))%list with
      | [] => Ret (Ok None)
      | errors =>
          parent <- getParent (sts_Meta s) "StatefulSet" ;;
          Ret (Ok (Some (mk_finding "StatefulSet" (meta_Name (sts_Meta s)) (meta_Namespace (sts_Meta s))
                 parent errors
                 (computeStatefulSetSeverity (sts_ReadyReplicas s) (default 0 (sts_SpecReplicas s))
                    (bool_decide (is_Some (sts_replica_error s)))) 0 "")))
      end
  | _ => Ret (Err (EMsg ("statefulSetProvider: expected *appsv1.StatefulSet, got " ++ go_type obj)))
  end.

(** ** node.go *)
Definition ignoredNodeConditions : list string := ["EtcdIsVoter"].
Definition ignored (c : Condition) : bool := existsb (String.eqb (cond_Type c)) ignoredNodeConditions.

Definition not_ready (c : Condition) : bool :=
  status_eqb (cond_Status c) ConditionFalse || status_eqb (cond_Status c) ConditionUnknown.

Definition buildNodeConditionText (nodeName : string) (c : Condition) : string :=
  "node " ++ nodeName ++ " has condition " ++ cond_Type c ++ " (" ++ cond_Reason c ++ "): "
  ++ clean_message (cond_Message c) maxConditionMessage.

(** One iteration of the loop over the conditions (lines 70-91). *)
Definition node_error (nodeName : string) (c : Condition) : option string :=
  if ignored c then None
  else if String.eqb (cond_Type c) "Ready" then
    if not_ready c then Some (buildNodeConditionText nodeName c) else None
  else if status_eqb (cond_Status c) ConditionTrue then Some (buildNodeConditionText nodeName c)
  else None.

Fixpoint node_severity (conds : list Condition) : Severity :=
  match conds with
  | [] => SeverityHigh
  | c :: rest =>
      if ignored c then node_severity rest
      else if String.eqb (cond_Type c) "Ready" && not_ready c then SeverityCritical
      else node_severity rest
  end.
Definition computeNodeSeverity (n : Node) : Severity := node_severity (node_Conditions n).

Definition node_ExtractFinding (obj : Object) : io extracted :=
  t <- now ;;
  if ShouldSkip (meta_Annotations (obj_Meta obj)) t then Ret (Ok None)
  else match obj with
  | ObjNode n =>
      match omap (node_error (meta_Name (node_Meta n))) (node_Conditions n) with
      | [] => Ret (Ok None)
      | errors =>
          parent <- getParent (node_Meta n) "Node" ;;
          Ret (Ok (Some (mk_finding "Node" (meta_Name (node_Meta n)) "" parent errors
                           (computeNodeSeverity n) 0 "")))
      end
  | _ => Ret (Err (EMsg ("nodeProvider: expected *corev1.Node, got " ++ go_type obj)))
  end.

(** ** pvc.go *)
Definition provisioning_failure (pvc : PersistentVolumeClaim) (ev : EventObj) : bool :=
  String.eqb (event_InvolvedName ev) (meta_Name (pvc_Meta pvc))
  && String.eqb (event_InvolvedKind ev) "PersistentVolumeClaim"
  && String.eqb (event_Reason ev) "ProvisioningFailed".

(** [sort.Slice] is not stable: [newest_first] is its result, any arrangement of
    the events that the comparison leaves sorted. *)
Context (newest_first : list EventObj -> list EventObj).

Definition latestProvisioningFailedMessage (pvc : PersistentVolumeClaim) : io (res (option string)) :=
  l <- call (ListEvents (meta_Namespace (pvc_Meta pvc))) ;;
  match l with
  | Err e => Ret (Err (EWrap "pvcProvider: listing events: " e))
  | Ok items =>
      match List.filter (provisioning_failure pvc) items with
      | [] => Ret (Ok None)
      | failures =>
          match newest_first failures with
          | ev :: _ => Ret (Ok (Some (event_Message ev)))
          | [] => Panic "index out of range"
          end
      end
  end.

Definition pvc_text (pvc : PersistentVolumeClaim) (msg : string) : string :=
  "pvc " ++ meta_Name (pvc_Meta pvc) ++ ": ProvisioningFailed: " ++ clean_message msg maxCSIEventMessage.

Definition pvc_ExtractFinding (obj : Object) : io extracted :=
  t <- now ;;
  if ShouldSkip (meta_Annotations (obj_Meta obj)) t then Ret (Ok None)
  else match obj with
  | ObjPVC pvc =>
      if negb (String.eqb (pvc_Phase pvc) "Pending") then Ret (Ok None)
      else
        m <- latestProvisioningFailedMessage pvc ;;
        match m with
        | Err e => Ret (Err e)
        | Ok None => Ret (Ok None)
        | Ok (Some msg) =>
            parent <- getParent (pvc_Meta pvc) "PersistentVolumeClaim" ;;
            Ret (Ok (Some (mk_finding "PersistentVolumeClaim" (meta_Name (pvc_Meta pvc))
                   (meta_Namespace (pvc_Meta pvc)) parent [pvc_text pvc msg] SeverityHigh 0 "")))
        end
  | _ => Ret (Err (EMsg ("pvcProvider: expected *corev1.PersistentVolumeClaim, got " ++ go_type obj)))
  end.

(** ** job.go *)
Definition is_mechanic_job (job : Job) : bool :=
  String.eqb (map_get (meta_Labels (job_Meta job)) "app.kubernetes.io/managed-by") "mechanic-watcher".

Definition condition_is (type : string) (c : Condition) : bool :=
  String.eqb (cond_Type c) type && status_eqb (cond_Status c) ConditionTrue.

(** Owned by a CronJob, suspended, or not failed (lines 61-80). *)
Definition job_excused (job : Job) : bool :=
  existsb (fun ref => String.eqb (ref_Kind ref) "CronJob") (meta_OwnerReferences (job_Meta job))
  || existsb (condition_is "Suspended") (js_Conditions (job_Status job))
  || ((js_Failed (job_Status job) =? 0) || negb (js_Active (job_Status job) =? 0)
      || bool_decide (is_Some (js_CompletionTime (job_Status job)))).

Definition job_errors (job : Job) : list string :=
  let name := meta_Name (job_Meta job) in
  ("job " ++ name ++ ": failed (" ++ itoa (js_Failed (job_Status job)) ++ " attempts, 0 active)")
  :: match List.find (condition_is "Failed") (js_Conditions (job_Status job)) with
     | Some c =>
         if negb (String.eqb (cond_Reason c) "") || negb (String.eqb (cond_Message c) "")
         then ["job " ++ name ++ ": " ++ cond_Reason c ++ ": "
               ++ clean_message (cond_Message c) maxConditionMessage]
         else []
     | None => []
     end.

Definition getChainDepthFromOwner (job : Job) : io (res Z) :=
  match List.find (fun ref => String.eqb (ref_Kind ref) "RemediationJob")
          (meta_OwnerReferences (job_Meta job)) with
  | None => Ret (Ok 1)
  | Some ref =>
      got <- call (GetRJob (meta_Namespace (job_Meta job)) (ref_Name ref)) ;;
      match got with
      | Ok rjob => Ret (Ok (fs_ChainDepth (rj_Finding rjob) + 1))
      | Err e => if IsNotFound e then Ret (Ok 1)
                 else Ret (Err (EWrap ("jobProvider: reading owner RemediationJob " ++ ref_Name ref
                                       ++ ": ") e))
      end
  end.

Definition job_ExtractFinding (obj : Object) : io extracted :=
  t <- now ;;
  if ShouldSkip (meta_Annotations (obj_Meta obj)) t then Ret (Ok None)
  else match obj with
  | ObjJob job =>
      if job_excused job then Ret (Ok None)
      else
        depth <- (if is_mechanic_job job then getChainDepthFromOwner job else Ret (Ok 0)) ;;
        match depth with
        | Err e => Ret (Err e)
        | Ok chainDepth =>
            parent <- getParent (job_Meta job) "Job" ;;
            Ret (Ok (Some (mk_finding "Job" (meta_Name (job_Meta job)) (meta_Namespace (job_Meta job))
                   parent (job_errors job) SeverityMedium chainDepth "")))
        end
  | _ => Ret (Err (EMsg ("jobProvider: expected *batchv1.Job, got " ++ go_type obj)))
  end.
(** ** The providers as objects
    The client is a parameter of the programs; a nil one makes the constructor
    panic. *)
Definition podProvider : SourceProvider :=
  {| ProviderName := "native"; ObjectType := "Pod"; ExtractFinding := pod_ExtractFinding |}.
Definition NewPodProvider (client : bool) : outcome SourceProvider :=
  if client then Done podProvider else Panicked "NewPodProvider: client must not be nil".
Definition deploymentProvider : SourceProvider :=
  {| ProviderName := "native"; ObjectType := "Deployment"; ExtractFinding := deployment_ExtractFinding |}.
Definition NewDeploymentProvider (client : bool) : outcome SourceProvider :=
  if client then Done deploymentProvider else Panicked "NewDeploymentProvider: client must not be nil".
Definition pvcProvider : SourceProvider :=
  {| ProviderName := "native"; ObjectType := "PersistentVolumeClaim"; ExtractFinding := pvc_ExtractFinding |}.
Definition NewPVCProvider (client : bool) : outcome SourceProvider :=
  if client then Done pvcProvider else Panicked "NewPVCProvider: client must not be nil".
Definition nodeProvider : SourceProvider :=
  {| ProviderName := "native"; ObjectType := "Node"; ExtractFinding := node_ExtractFinding |}.
Definition NewNodeProvider (client : bool) : outcome SourceProvider :=
  if client then Done nodeProvider else Panicked "NewNodeProvider: client must not be nil".
Definition statefulSetProvider : SourceProvider :=
  {| ProviderName := "native"; ObjectType := "StatefulSet"; ExtractFinding := statefulset_ExtractFinding |}.
Definition NewStatefulSetProvider (client : bool) : outcome SourceProvider :=
  if client then Done statefulSetProvider else Panicked "NewStatefulSetProvider: client must not be nil".
Definition jobProvider : SourceProvider :=
  {| ProviderName := "native"; ObjectType := "Job"; ExtractFinding := job_ExtractFinding |}.
Definition NewJobProvider (client : bool) : outcome SourceProvider :=
  if client then Done jobProvider else Panicked "NewJobProvider: client must not be nil".
End Providers.
