(* ===== verification/NativeProps.v ===== *)
(** * Properties of the native providers
    They only read; what they extract always has a fingerprint; a pod is
    reported exactly when it is unhealthy, with the severity of its worst
    symptom; the parent of an object is its root owner, found in at most ten
    reads; the jobs of the watcher itself are recognised as self-remediation. *)
From stdpp Require Import base list strings gmap sets sorting.
From Stdlib Require Import ZArith Lia.
From S2P Require Import Prelude Prog Utf8 Regex Redact Sha256 Json K8s Types Effects Domain.
From S2P Require Import Fingerprint Native.
Import GoErr GoStr GoTime GoInt Severity Annotations Delimiter.
Open Scope string_scope.
Open Scope list_scope.
Open Scope Z_scope.
Open Scope go_scope.

(** ** The walk to the root owner *)

(** Every walk ends after at most [n] reads, at an object it was able to read or
    at the one it started from. *)
Lemma climb_bounded n visited ns kind name refs :
  wp (climb n visited ns kind name refs) (fun tr o =>
    (List.length tr <= n)%nat /\
    exists k m, o = Done (node_string k m) /\
      ((k, m) = (kind, name) \/ exists rs, Event (GetOwner k ns m) (Ok rs) ∈ tr)).
Proof.
  revert visited kind name refs. induction n as [|n IH]; intros visited kind name refs; cbn [climb].
  { split; [simpl; lia|]. exists kind, name. auto. }
  assert (wp (Ret (node_string kind name) : io string) (fun tr o =>
    (List.length tr <= S n)%nat /\
    exists k m, o = Done (node_string k m) /\
      ((k, m) = (kind, name) \/ exists rs, Event (GetOwner k ns m) (Ok rs) ∈ tr))) as Hstop.
  { split; [simpl; lia|]. exists kind, name. auto. }
  destruct refs as [|owner refs]; [exact Hstop|]. case_bool_decide; [exact Hstop|].
  destruct (assoc (ref_Kind owner) kindToGV); [|exact Hstop].
  cbn [bind call]. intros [rs|e]; cycle 1.
  { split; [simpl; lia|]. exists kind, name. auto. }
  eapply wp_mono; [|apply IH]. intros tr o (Hl & k & m & -> & Hin). split; [simpl; lia|].
  exists k, m. split; [done|]. right. destruct Hin as [[= -> ->]|[rs' Hin]].
  - exists rs. apply list_elem_of_here.
  - exists rs'. by apply list_elem_of_further.
Qed.

(** [owns lookup kind name refs root_kind root_name uids]: following the first
    owner reference from an object with references [refs], [lookup] leads to an
    object without owners, past owners with the UIDs [uids]. *)
Inductive owns (lookup : string -> string -> res (list OwnerReference)) :
    string -> string -> list OwnerReference -> string -> string -> list string -> Prop :=
| owns_root kind name : owns lookup kind name [] kind name []
| owns_step kind name owner refs refs' k m uids :
    is_Some (assoc (ref_Kind owner) kindToGV) ->
    lookup (ref_Kind owner) (ref_Name owner) = Ok refs' ->
    owns lookup (ref_Kind owner) (ref_Name owner) refs' k m uids ->
    owns lookup kind name (owner :: refs) k m (ref_UID owner :: uids).

(** A handler that serves owners from [lookup]. *)
Definition serves_owners (h : handler answer) (ns : string)
    (lookup : string -> string -> res (list OwnerReference)) : Prop :=
  forall k m, h (GetOwner k ns m) = lookup k m.

Lemma climb_root h ns lookup n visited kind name refs k m uids :
  serves_owners h ns lookup -> owns lookup kind name refs k m uids ->
  (List.length uids <= n)%nat -> NoDup uids -> (forall u, u ∈ uids -> u ∉ visited) ->
  (exec_pure h (climb n visited ns kind name refs)).2 = Done (node_string k m).
Proof.
  intros Hh Ho. revert n visited.
  induction Ho as [kind name|kind name owner refs refs' k m uids Hk Hl Ho IH];
    intros n visited Hn Hd Hv; (destruct n as [|n]; [simpl in *; try lia; done|]); cbn [climb]; [done|].
  rewrite bool_decide_false by (apply Hv; set_solver). destruct Hk as [gv ->].
  cbn [bind call exec_pure]. rewrite Hh, Hl. apply NoDup_cons in Hd as [Hnot Hd].
  specialize (IH n ({[ref_UID owner]} ∪ visited)).
  destruct (exec_pure h _) as [tr o] eqn:E. cbn [snd] in *. apply IH; [simpl in Hn; lia|done|].
  intros u Hu Hin. apply elem_of_union in Hin as [Hin|Hin].
  - apply elem_of_singleton in Hin as ->. done.
  - apply (Hv u); [set_solver|done].
Qed.

(** C31: If the first owner references of an object lead, through known kinds and
    readable owners with distinct UIDs, to an object without owners in at most ten
    steps, getParent returns that root. *)
Theorem parent_is_the_root_owner h lookup meta kind k m uids :
  serves_owners h (meta_Namespace meta) lookup ->
  owns lookup kind (meta_Name meta) (meta_OwnerReferences meta) k m uids ->
  NoDup (meta_UID meta :: uids) -> (List.length uids <= 10)%nat ->
  (exec_pure h (getParent meta kind)).2 = Done (node_string k m).
Proof.
  intros Hh Ho Hd Hl. unfold getParent. apply NoDup_cons in Hd as [Hn Hd].
  assert ((exec_pure h (climb maxTraversalDepth {[meta_UID meta]} (meta_Namespace meta) kind
             (meta_Name meta) (meta_OwnerReferences meta))).2 = Done (node_string k m)) as H.
  { apply (climb_root h _ lookup _ _ _ _ _ _ _ uids); try done.
    intros u Hu. rewrite elem_of_singleton. intros ->. done. }
  destruct (meta_OwnerReferences meta) eqn:E; [|exact H].
  inversion Ho; subst. done.
Qed.

Lemma getParent_bounded meta kind tr o :
  runs (getParent meta kind) tr o ->
  (List.length tr <= 10)%nat /\ exists k m, o = Done (node_string k m).
Proof.
  intros Hr. refine (runs_wp _ (fun tr o => (List.length tr <= 10)%nat /\
    exists k m, o = Done (node_string k m)) _ _ Hr _).
  unfold getParent. destruct (meta_OwnerReferences meta) as [|x xs]; [split; [simpl; lia|eauto]|].
  eapply wp_mono; [|apply climb_bounded]. intros tr' o' (Hl & k & m & -> & _). eauto.
Qed.

(** ** Providers only read *)
Lemma climb_reads n visited ns kind name refs :
  allows only_reads (climb n visited ns kind name refs).
Proof.
  revert visited kind name refs. induction n as [|n IH]; intros visited kind name refs; cbn [climb];
    [apply allows_ret|].
  destruct refs as [|owner refs]; [apply allows_ret|]. case_bool_decide; [apply allows_ret|].
  destruct (assoc _ _); [|apply allows_ret]. cbn [bind call]. apply allows_call; [done|].
  intros [rs|e]; [apply IH|apply allows_ret].
Qed.

Lemma getParent_reads meta kind : allows only_reads (getParent meta kind).
Proof.
  unfold getParent. destruct (meta_OwnerReferences meta); [apply allows_ret|apply climb_reads].
Qed.

Create HintDb reads.
#[export] Hint Resolve getParent_reads : reads.

Ltac reading := allows_steps; auto with reads.

Section Providers.
Context (redactor : Redaction.Redactor) (newest_first : list EventObj -> list EventObj).

(** The providers that [main] enables, in its order. *)
Definition native_providers : list (Object -> io extracted) :=
  [pod_ExtractFinding redactor; deployment_ExtractFinding redactor;
   pvc_ExtractFinding redactor newest_first; node_ExtractFinding redactor;
   statefulset_ExtractFinding redactor; job_ExtractFinding redactor].

Lemma native_reads extract obj :
  extract ∈ native_providers -> allows only_reads (extract obj).
Proof.
  intros Hin. unfold native_providers in Hin.
  repeat (apply elem_of_cons in Hin as [->|Hin]); [..|set_solver];
    unfold pod_ExtractFinding, deployment_ExtractFinding, pvc_ExtractFinding, node_ExtractFinding,
      statefulset_ExtractFinding, job_ExtractFinding, latestProvisioningFailedMessage,
      getChainDepthFromOwner, now; reading.
Qed.

(** ** Every finding of a provider is well-formed *)
Record well_formed (f : Finding) : Prop := {
  wf_errors : exists texts, f_Errors f = MarshalEntries texts /\ texts <> [];
  wf_details : f_Details f = "";
  wf_severity : recognised (f_Severity f) }.

Definition yields_well_formed (r : extracted) : Prop :=
  forall f, r = Ok (Some f) -> well_formed f.

Lemma yields_none : yields_well_formed (Ok None).
Proof. by intros f. Qed.
Lemma yields_err e : yields_well_formed (Err e).
Proof. by intros f. Qed.
Lemma yields_finding kind name ns parent errors sev depth node :
  errors <> [] -> recognised sev ->
  yields_well_formed (Ok (Some (mk_finding kind name ns parent errors sev depth node))).
Proof. intros He Hs f [= <-]. split; simpl; eauto. Qed.

(** *** Severities *)
Definition waits_for (r : string) (cs : ContainerStatus) : Prop :=
  exists w, state_Waiting (cs_State cs) = Some w /\ wait_Reason w = r.

(** A container that keeps crashing. *)
Definition hopeless (cs : ContainerStatus) : Prop :=
  waits_for "CrashLoopBackOff" cs /\ 5 < cs_RestartCount cs.

(** A container that crashes, cannot get its image or was killed for its memory. *)
Definition serious (cs : ContainerStatus) : Prop :=
  waits_for "CrashLoopBackOff" cs \/ waits_for "ImagePullBackOff" cs \/ waits_for "ErrImagePull" cs \/
  (state_Waiting (cs_State cs) = None /\
   exists t, state_Terminated (cs_State cs) = Some t /\ term_ExitCode t <> 0 /\
             term_Reason t = "OOMKilled").

(** A pending pod that the scheduler gave up on. *)
Definition stuck (pod : Pod) : Prop :=
  pod_Phase pod = "Pending" /\ exists c, c ∈ pod_Conditions pod /\ unschedulable c = true.

Lemma raise_high_levels s :
  s = SeverityMedium \/ s = SeverityHigh -> raise_high s = SeverityHigh.
Proof. by intros [-> | ->]. Qed.

Lemma status_severity_spec cs s :
  s = SeverityMedium \/ s = SeverityHigh ->
  (hopeless cs /\ status_severity cs s = inl SeverityCritical) \/
  (~ hopeless cs /\ serious cs /\ status_severity cs s = inr SeverityHigh) \/
  (~ hopeless cs /\ ~ serious cs /\ status_severity cs s = inr s).
Proof.
  intros Hs. pose proof (raise_high_levels s Hs) as Hr.
  unfold status_severity, hopeless, serious, waits_for.
  destruct (state_Waiting (cs_State cs)) as [w|].
  - destruct (String.eqb_spec (wait_Reason w) "CrashLoopBackOff").
    + destruct (Z.ltb_spec 5 (cs_RestartCount cs)); [left; eauto|]. right. left.
      rewrite Hr. split; [naive_solver lia|]. split; [eauto|]. by destruct (last_OOMKilled cs).
    + destruct (String.eqb_spec (wait_Reason w) "ImagePullBackOff"); cbn [orb].
      { rewrite Hr. naive_solver. }
      destruct (String.eqb_spec (wait_Reason w) "ErrImagePull"); [rewrite Hr|]; naive_solver.
  - destruct (state_Terminated (cs_State cs)) as [t|]; [|naive_solver].
    destruct (Z.eqb_spec (term_ExitCode t) 0); cbn [negb andb]; [naive_solver|].
    destruct (String.eqb_spec (term_Reason t) "OOMKilled"); [rewrite Hr|]; naive_solver.
Qed.

Lemma statuses_severity_spec l s :
  s = SeverityMedium \/ s = SeverityHigh ->
  (Exists hopeless l /\ statuses_severity l s = inl SeverityCritical) \/
  (~ Exists hopeless l /\ Exists serious l /\ statuses_severity l s = inr SeverityHigh) \/
  (~ Exists hopeless l /\ ~ Exists serious l /\ statuses_severity l s = inr s).
Proof.
  revert s. induction l as [|cs l IH]; intros s Hs; cbn [statuses_severity]; rewrite ?Exists_cons, ?Exists_nil.
  { right. right. naive_solver. }
  destruct (status_severity_spec cs s Hs) as [[Hc ->]|[(Hc & Hd & ->)|(Hc & Hd & ->)]]; [naive_solver|..].
  - specialize (IH SeverityHigh). naive_solver.
  - specialize (IH s Hs). naive_solver.
Qed.

Lemma fold_unschedulable conds s :
  s = SeverityMedium \/ s = SeverityHigh ->
  fold_left (fun s c => if unschedulable c then raise_high s else s) conds s
  = if existsb unschedulable conds then SeverityHigh else s.
Proof.
  revert s. induction conds as [|c conds IH]; intros s Hs; [done|]. cbn [fold_left existsb].
  destruct (unschedulable c); cbn [orb]; [|by apply IH].
  rewrite (raise_high_levels s Hs), IH by auto. by destruct (existsb _ _).
Qed.

Ltac severity_cases :=
  split; [|split]; (split; [intros H; try discriminate H|]); naive_solver.

(** A pod's severity is critical iff a container in CrashLoopBackOff has restarted
    more than five times; otherwise high iff a container crashes, cannot pull its
    image or was killed for its memory, or the pending pod is unschedulable; otherwise
    medium. *)
Theorem pod_severity_is_the_worst_symptom pod :
  (computePodSeverity pod = SeverityCritical <-> Exists hopeless (all_statuses pod)) /\
  (computePodSeverity pod = SeverityHigh <->
     ~ Exists hopeless (all_statuses pod) /\ (Exists serious (all_statuses pod) \/ stuck pod)) /\
  (computePodSeverity pod = SeverityMedium <->
     ~ Exists hopeless (all_statuses pod) /\ ~ Exists serious (all_statuses pod) /\ ~ stuck pod).
Proof.
  unfold computePodSeverity, stuck.
  destruct (statuses_severity_spec (all_statuses pod) SeverityMedium) as
    [[Hc ->]|[(Hc & Hd & ->)|(Hc & Hd & ->)]]; [by left| |..].
  - severity_cases.
  - destruct (String.eqb_spec (pod_Phase pod) "Pending").
    + rewrite fold_unschedulable by auto.
      assert ((if existsb unschedulable (pod_Conditions pod) then SeverityHigh else SeverityHigh)
              = SeverityHigh) as -> by by destruct (existsb _ _).
      severity_cases.
    + severity_cases.
  - destruct (String.eqb_spec (pod_Phase pod) "Pending").
    + rewrite fold_unschedulable by auto.
      destruct (existsb unschedulable (pod_Conditions pod)) eqn:Hu.
      * apply existsb_exists in Hu as (c & Hin & Hu). apply list_elem_of_In in Hin.
        severity_cases.
      * assert (~ exists c, c ∈ pod_Conditions pod /\ unschedulable c = true) as Hn.
        { intros (c & Hin & Hc'). apply not_true_iff_false in Hu. apply Hu, existsb_exists.
          exists c. split; [by apply list_elem_of_In|done]. }
        severity_cases.
    + severity_cases.
Qed.

Lemma pod_severity_recognised pod : recognised (computePodSeverity pod).
Proof.
  unfold computePodSeverity, recognised.
  destruct (statuses_severity_spec (all_statuses pod) SeverityMedium) as
    [[_ ->]|[(_ & _ & ->)|(_ & _ & ->)]]; [by left|by left|..];
    repeat case_match; rewrite ?fold_unschedulable by auto; repeat case_match; auto.
Qed.

Lemma node_severity_recognised conds : recognised (node_severity conds).
Proof.
  induction conds as [|c conds IH]; cbn [node_severity]; [unfold recognised; auto|].
  repeat case_match; auto. unfold recognised. auto.
Qed.

Lemma replica_severity_recognised a b c :
  recognised (computeDeploymentSeverity a b c) /\ recognised (computeStatefulSetSeverity a b c).
Proof.
  unfold computeDeploymentSeverity, computeStatefulSetSeverity, recognised.
  repeat case_match; auto.
Qed.

(** What is documented of [sort.Slice]: it rearranges. *)
Definition rearranges : Prop := forall l, newest_first l ≡ₚ l.

Lemma parent_yields meta kind : yields (fun _ => True) (getParent meta kind).
Proof.
  apply wp_runs. intros tr o Hr. by destruct (getParent_bounded _ _ _ _ Hr) as (_ & k & m & ->).
Qed.

Lemma depth_yields job : yields (fun _ => True) (getChainDepthFromOwner job).
Proof.
  unfold getChainDepthFromOwner. destruct (List.find _ _); [|done].
  cbn [bind call]. intros [rjob|e]; [done|]. by destruct (IsNotFound e).
Qed.

Lemma latest_yields pvc :
  rearranges -> yields (fun _ => True) (latestProvisioningFailedMessage newest_first pvc).
Proof.
  intros Hs. unfold latestProvisioningFailedMessage. cbn [bind call]. intros [items|e]; [|done].
  destruct (List.filter _ items) as [|ev l] eqn:E; [done|].
  specialize (Hs (ev :: l)). destruct (newest_first (ev :: l)); [|done].
  by apply Permutation_nil_cons in Hs.
Qed.

#[local] Hint Resolve parent_yields depth_yields latest_yields : core.

Ltac extracts :=
  repeat match goal with
  | |- yields _ (Ret _) => apply yields_ret
  | |- yields _ (Call _ _) => apply yields_call; intros ?
  | |- yields _ (bind now _) => cbn [bind call now]
  | |- yields _ (bind (if ?b then _ else _) _) => destruct b
  | |- yields _ (bind (Ret _) _) => cbn [bind]
  | |- yields _ (bind _ _) => apply (yields_bind (fun _ => True)); [by auto|intros ? _]
  | |- yields _ (if ?b then _ else _) => destruct b
  | |- yields _ (match ?x with _ => _ end) => destruct x eqn:?
  | |- yields_well_formed (Ok None) => apply yields_none
  | |- yields_well_formed (Err _) => apply yields_err
  | |- yields_well_formed (Ok (Some _)) => apply yields_finding; [done|]
  end.

Lemma native_yields extract obj :
  rearranges -> extract ∈ native_providers -> yields yields_well_formed (extract obj).
Proof.
  intros Hs Hin. unfold native_providers in Hin.
  repeat (apply elem_of_cons in Hin as [->|Hin]); [..|set_solver];
    unfold pod_ExtractFinding, deployment_ExtractFinding, pvc_ExtractFinding, node_ExtractFinding,
      statefulset_ExtractFinding, job_ExtractFinding; extracts;
    auto using pod_severity_recognised;
    try apply node_severity_recognised; try apply replica_severity_recognised; unfold recognised; auto.
Qed.

Lemma fingerprint_of_well_formed f :
  well_formed f -> exists fp, FindingFingerprint f = Ok fp /\ String.length fp = 64%nat.
Proof.
  intros [(texts & He & _) _ _]. unfold FindingFingerprint.
  rewrite (finding_texts_marshal f texts He). eexists. split; [done|]. apply sha256_hex_length.
Qed.

(** C23: Every extraction of a native provider, from any object, ends without a panic
    and makes no write; a finding it returns has a non-empty list of serialised error
    texts, a recognised severity and a fingerprint of 64 characters. *)
Theorem native_findings_are_well_formed extract obj tr o :
  rearranges -> extract ∈ native_providers -> runs (extract obj) tr o ->
  every only_reads tr /\
  exists r, o = Done r /\
  forall f, r = Ok (Some f) ->
    well_formed f /\ exists fp, FindingFingerprint f = Ok fp /\ String.length fp = 64%nat.
Proof.
  intros Hs Hin Hr. split; [eapply allows_runs; [by apply native_reads|exact Hr]|].
  destruct (yields_runs _ _ _ _ (native_yields extract obj Hs Hin) Hr) as (r & -> & Hw).
  exists r. split; [done|]. intros f ->. split; [by apply Hw|]. by apply fingerprint_of_well_formed, Hw.
Qed.

(** ** Which pods are reported *)

(** A container in a known failure state, or that ended with an error. *)
Definition ailing (cs : ContainerStatus) : Prop :=
  (exists r, r ∈ waitingReasons /\ waits_for r cs) \/
  (state_Waiting (cs_State cs) = None /\
   exists t, state_Terminated (cs_State cs) = Some t /\ term_ExitCode t <> 0).

Lemma is_waiting_reason_iff r : is_waiting_reason r = true <-> r ∈ waitingReasons.
Proof.
  unfold is_waiting_reason. rewrite existsb_exists. setoid_rewrite String.eqb_eq.
  rewrite list_elem_of_In. split; [by intros (x & Hx & ->)|eauto].
Qed.

Lemma container_error_iff cs : is_Some (container_error redactor cs) <-> ailing cs.
Proof.
  unfold container_error, ailing, waits_for. destruct (state_Waiting (cs_State cs)) as [w|].
  - destruct (is_waiting_reason (wait_Reason w)) eqn:E.
    + apply is_waiting_reason_iff in E. split; [|by eexists]. left. eauto.
    + split; [by intros []|]. intros [(r & Hr & w' & [= <-] & <-)|[? _]]; [|done].
      apply is_waiting_reason_iff in Hr. congruence.
  - destruct (state_Terminated (cs_State cs)) as [t|].
    + destruct (Z.eqb_spec (term_ExitCode t) 0); cbn [negb].
      * split; [by intros []|]. by intros [(r & _ & w & [=] & _)|(_ & t' & [= <-] & Ht)].
      * split; [|by eexists]. right. eauto.
    + split; [by intros []|]. by intros [(r & _ & w & [=] & _)|(_ & t' & [=] & Ht)].
Qed.

Lemma scheduling_error_iff pod : is_Some (scheduling_error redactor pod) <-> stuck pod.
Proof.
  unfold scheduling_error, stuck.
  destruct (String.eqb_spec (pod_Phase pod) "Pending"); [|split; [by intros []|naive_solver]].
  destruct (List.find unschedulable (pod_Conditions pod)) as [c|] eqn:E.
  - apply find_some in E as [Hin Hu]. apply list_elem_of_In in Hin. split; [eauto|by eexists].
  - split; [by intros []|]. intros (_ & c & Hin & Hu). apply list_elem_of_In in Hin.
    pose proof (find_none _ _ E c Hin). congruence.
Qed.

Lemma pod_errors_iff pod :
  pod_errors redactor pod <> [] <-> Exists ailing (all_statuses pod) \/ stuck pod.
Proof.
  unfold pod_errors. rewrite <- scheduling_error_iff, Exists_exists.
  setoid_rewrite <- container_error_iff.
  destruct (scheduling_error redactor pod) as [e|]; cbn [entry]; rewrite ?app_nil_r.
  - split; [eauto|]. intros _ H%app_eq_nil. naive_solver.
  - split.
    + intros H. left. destruct (omap _ _) as [|x l] eqn:E; [done|].
      assert (x ∈ omap (container_error redactor) (all_statuses pod)) as Hx
        by (rewrite E; apply list_elem_of_here).
      apply list_elem_of_omap in Hx as (cs & Hin & Hc). eauto.
    + intros [(cs & Hin & x & Hc)|[? ?]]; [|done]. intros E.
      assert (x ∈ omap (container_error redactor) (all_statuses pod)) as Hx
        by (apply list_elem_of_omap; eauto).
      rewrite E in Hx. by apply not_elem_of_nil in Hx.
Qed.

(** The pod provider reads the clock once, never fails on a pod, and reports it
    exactly when its annotations do not skip it and a container waits for a known
    failure reason, or ended with a non-zero exit code while not waiting, or the
    pending pod is unschedulable; the finding has the pod's name, namespace, node,
    error texts and computed severity. *)
Theorem pods_are_reported_iff_unhealthy pod tr o :
  runs (pod_ExtractFinding redactor (ObjPod pod)) tr o ->
  exists t r, head tr = Some (Event (ans := answer) Now t) /\ o = Done (Ok r) /\
  (is_Some r <->
     ShouldSkip (meta_Annotations (pod_Meta pod)) t = false /\
     (Exists ailing (all_statuses pod) \/ stuck pod)) /\
  (forall f, r = Some f ->
     f_Name f = meta_Name (pod_Meta pod) /\ f_Namespace f = meta_Namespace (pod_Meta pod) /\
     f_Severity f = computePodSeverity pod /\ f_NodeName f = ps_NodeName (pod_Spec pod) /\
     f_Errors f = MarshalEntries (pod_errors redactor pod)).
Proof.
  revert tr o. apply wp_runs.
  unfold pod_ExtractFinding. cbn [bind call now obj_Meta]. intros t.
  pose proof (pod_errors_iff pod) as Hiff.
  destruct (ShouldSkip _ t) eqn:Es.
  { exists t, None. do 2 (split; [done|]). split; [|done]. split; [by intros []|]. intros [Hs _]. by rewrite Es in Hs. }
  destruct (pod_errors redactor pod) as [|e errs] eqn:E.
  { exists t, None. do 2 (split; [done|]). split; [|done].
    split; [by intros []|]. by intros [_ ?%Hiff]. }
  apply wp_bind. apply wp_runs. intros tr' o' Hp.
  destruct (getParent_bounded _ _ _ _ Hp) as (_ & k & m & ->).
  eexists t, (Some _). split; [done|]. split; [done|]. split; [|by intros f [= <-]].
  split; [|by eexists]. intros _. split; [done|]. by apply Hiff.
Qed.
(** ** The failure a claim is reported with *)

(** What is documented of [sort.Slice] with the comparison of pvc.go: the result
    is a rearrangement in which no event is followed by a later one. *)
Definition sorts_newest_first : Prop := rearranges /\
  forall l, StronglySorted (fun a b => event_LastTimestamp b <= event_LastTimestamp a) (newest_first l).

Lemma newest_is_latest l ev rest :
  sorts_newest_first -> newest_first l = ev :: rest ->
  ev ∈ l /\ forall ev', ev' ∈ l -> event_LastTimestamp ev' <= event_LastTimestamp ev.
Proof.
  intros [Hp Hs] E. specialize (Hp l). specialize (Hs l). rewrite E in Hp, Hs.
  split; [rewrite <- Hp; apply list_elem_of_here|]. intros ev'. rewrite <- Hp.
  apply StronglySorted_inv in Hs as [_ Hall]. rewrite Forall_forall in Hall.
  intros [->|Hin]%elem_of_cons; [lia|by apply Hall].
Qed.

(** The message of the latest failure of the claim among [items], if there is one. *)
Definition latest_among (pvc : PersistentVolumeClaim) (items : list EventObj) (m : option string) : Prop :=
  (is_Some m <-> exists ev, ev ∈ items /\ provisioning_failure pvc ev = true) /\
  (forall msg, m = Some msg -> exists ev, ev ∈ items /\ provisioning_failure pvc ev = true /\
     event_Message ev = msg /\
     forall ev', ev' ∈ items -> provisioning_failure pvc ev' = true ->
       event_LastTimestamp ev' <= event_LastTimestamp ev).

(** A pending claim is reported with the message of the latest ProvisioningFailed
    event that involves it, exactly when the listed events contain one; a failed list
    request is returned as an error. *)
Theorem latest_failure_is_reported pvc tr o :
  sorts_newest_first -> runs (latestProvisioningFailedMessage newest_first pvc) tr o ->
  exists got, tr = [Event (ans := answer) (ListEvents (meta_Namespace (pvc_Meta pvc))) got] /\
  match got with
  | Err e => o = Done (Err (EWrap "pvcProvider: listing events: " e))
  | Ok items => exists m, o = Done (Ok m) /\ latest_among pvc items m
  end.
Proof.
  intros Hs. revert tr o. apply wp_runs.
  unfold latestProvisioningFailedMessage. cbn [bind call]. intros [items|e]; [|by eexists].
  assert (forall ev, ev ∈ List.filter (provisioning_failure pvc) items <->
    ev ∈ items /\ provisioning_failure pvc ev = true) as Hf.
  { intros ev. rewrite !list_elem_of_In. apply filter_In. }
  destruct (List.filter _ items) as [|f l] eqn:E.
  - eexists. split; [done|]. exists None. split; [done|]. split; [|done].
    split; [by intros []|]. intros (ev & Hev%Hf). by apply not_elem_of_nil in Hev.
  - destruct (newest_first (f :: l)) as [|ev rest] eqn:En.
    { destruct Hs as [Hp _]. specialize (Hp (f :: l)). rewrite En in Hp.
      by apply Permutation_nil_cons in Hp. }
    destruct (newest_is_latest _ _ _ Hs En) as [Hin Hmax]. apply Hf in Hin as [Hin Hev].
    eexists. split; [done|]. exists (Some (event_Message ev)). split; [done|].
    split; [split; [eauto|by eexists]|]. intros msg [= <-]. exists ev. do 3 (split; [done|]).
    intros ev' H1 H2. by apply Hmax, Hf.
Qed.

(** ** The chain depth of the watcher's own jobs *)

(** The RemediationJob that owns a Job, by its references. *)
Definition owner_rjob (job : Job) : option string :=
  option_map ref_Name (List.find (fun ref => String.eqb (ref_Kind ref) "RemediationJob")
    (meta_OwnerReferences (job_Meta job))).

(** The depth [d] of a finding about one of the watcher's jobs: one more than
    the owner that was read, or 1 without an owner. *)
Definition child_depth (job : Job) (tr : trace) (d : Z) : Prop :=
  match owner_rjob job with
  | None => d = 1
  | Some name =>
      exists got, Event (ans := answer) (GetRJob (meta_Namespace (job_Meta job)) name) got ∈ tr /\
      match got with
      | Ok rjob => d = fs_ChainDepth (rj_Finding rjob) + 1
      | Err e => IsNotFound e = true /\ d = 1
      end
  end.

Lemma chain_depth_of_owner job :
  wp (getChainDepthFromOwner job) (fun tr o =>
    match o with Done (Ok d) => child_depth job tr d | _ => True end).
Proof.
  unfold getChainDepthFromOwner, child_depth, owner_rjob.
  destruct (List.find _ _) as [ref|]; cbn [option_map]; [|done]. cbn [bind call].
  intros [rjob|e]; [eexists; split; [apply list_elem_of_here|done]|].
  destruct (IsNotFound e) eqn:E; [|done]. eexists. split; [apply list_elem_of_here|done].
Qed.

Lemma child_depth_app job tr tr' d :
  child_depth job tr d -> child_depth job (Event (ans := answer) Now tr'.1 :: tr ++ tr'.2) d.
Proof.
  unfold child_depth. destruct (owner_rjob job); [|done]. intros (got & Hin & Hd).
  exists got. split; [|done]. apply list_elem_of_further, elem_of_app. auto.
Qed.

(** What the provider of jobs reports. *)
Lemma job_finding job :
  wp (job_ExtractFinding redactor (ObjJob job)) (fun tr o =>
    forall f, o = Done (Ok (Some f)) ->
      f_Kind f = "Job" /\ f_Name f = meta_Name (job_Meta job) /\ job_excused job = false /\
      if is_mechanic_job job then child_depth job tr (f_ChainDepth f) else f_ChainDepth f = 0).
Proof.
  unfold job_ExtractFinding. cbn [bind call now obj_Meta]. intros t.
  destruct (ShouldSkip _ t); [done|]. destruct (job_excused job) eqn:Ex; [done|].
  destruct (is_mechanic_job job).
  - apply wp_bind. eapply wp_mono; [|apply chain_depth_of_owner]. intros tr [[d|e]|m] Hd; [|done..].
    apply wp_bind. apply wp_runs. intros tr' o' Hp.
    destruct (getParent_bounded _ _ _ _ Hp) as (_ & k & m & ->). intros f [= <-].
    do 3 (split; [done|]). rewrite app_nil_r. by apply (child_depth_app job tr (t, tr')).
  - cbn [bind]. apply wp_bind. apply wp_runs. intros tr' o' Hp.
    destruct (getParent_bounded _ _ _ _ Hp) as (_ & k & m & ->). by intros f [= <-].
Qed.
End Providers.

(** ** A concrete cluster *)
Module NativeExample.
Definition ref (kind name uid : string) : OwnerReference :=
  {| ref_APIVersion := "apps/v1"; ref_Kind := kind; ref_Name := name; ref_UID := uid;
     ref_Controller := Some true; ref_BlockOwnerDeletion := Some true |}.

Definition meta (name uid : string) (owners : list OwnerReference) : ObjectMeta :=
  {| meta_Name := name; meta_Namespace := "shop"; meta_UID := uid; meta_Labels := ∅;
     meta_Annotations := ∅; meta_CreationTimestamp := 0; meta_Generation := 1;
     meta_OwnerReferences := owners |}.

Definition crashing (restarts : Z) : ContainerStatus :=
  {| cs_Name := "web";
     cs_State := {| state_Waiting := Some {| wait_Reason := "CrashLoopBackOff"; wait_Message := "" |};
                    state_Terminated := None |};
     cs_LastTerminationState := {| state_Waiting := None; state_Terminated := None |};
     cs_RestartCount := restarts |}.

Definition web_pod : Pod :=
  {| pod_Meta := meta "web-0" "u1" [ref "ReplicaSet" "web-rs" "u2"];
     pod_Spec := {| ps_NodeName := "node-a"; ps_ServiceAccountName := ""; ps_RestartPolicy := "Always";
                    ps_RunAsNonRoot := None; ps_RunAsUser := None; ps_InitContainers := [];
                    ps_Containers := []; ps_Volumes := [] |};
     pod_Phase := "Running"; pod_Conditions := []; pod_ContainerStatuses := [crashing 3];
     pod_InitContainerStatuses := [] |}.

(** The replica set belongs to a deployment, which has no owner. *)
Definition owners (kind name : string) : res (list OwnerReference) :=
  if String.eqb kind "ReplicaSet" then Ok [ref "Deployment" "web" "u3"]
  else if String.eqb kind "Deployment" then Ok []
  else Err (EApi NotFound).

Definition failure (t : Z) (msg : string) : EventObj :=
  {| event_InvolvedName := "data"; event_InvolvedKind := "PersistentVolumeClaim";
     event_Reason := "ProvisioningFailed"; event_Message := msg; event_LastTimestamp := t |}.

Definition data_pvc : PersistentVolumeClaim :=
  {| pvc_Meta := meta "data" "u4" []; pvc_Phase := "Pending" |}.

Definition world : handler answer := fun e =>
  match e return answer e with
  | GetOwner kind _ name => owners kind name
  | ListEvents _ => Ok [failure 1 "no class"; failure 5 "quota"; failure 3 "timeout"]
  | e => offline 0 e
  end.

(** A sort by timestamp. *)
#[global] Instance event_later_dec : RelDecision (fun a b => event_LastTimestamp b <= event_LastTimestamp a).
Proof. intros a b. apply _. Defined.
Definition sorted_events : list EventObj -> list EventObj :=
  merge_sort (fun a b => event_LastTimestamp b <= event_LastTimestamp a).

Lemma sorted_events_ok : sorts_newest_first sorted_events.
Proof.
  assert (Total (fun a b => event_LastTimestamp b <= event_LastTimestamp a)) by (intros a b; lia).
  split; [intros l; apply merge_sort_Permutation|]. intros l.
  apply Sorted_StronglySorted; [intros a b c; lia|]. apply Sorted_merge_sort. done.
Qed.

Definition pod_run := exec_pure world (pod_ExtractFinding Redaction.defaultRedactor (ObjPod web_pod)).
End NativeExample.
Import NativeExample.

Lemma parent_is_the_root_owner_witness :
  (exec_pure world (getParent (pod_Meta web_pod) "Pod")).2 = Done "Deployment/web".
Proof.
  apply (parent_is_the_root_owner world owners (pod_Meta web_pod) "Pod" "Deployment" "web" ["u2"; "u3"]).
  - intros k m. reflexivity.
  - eapply owns_step; [by eexists|reflexivity|]. eapply owns_step; [by eexists|reflexivity|].
    apply owns_root.
  - repeat constructor; set_solver.
  - simpl. lia.
Defined.

Lemma native_findings_are_well_formed_witness :
  every only_reads pod_run.1 /\
  exists r, pod_run.2 = Done r /\
  forall f, r = Ok (Some f) ->
    well_formed f /\ exists fp, FindingFingerprint f = Ok fp /\ String.length fp = 64%nat.
Proof.
  apply (native_findings_are_well_formed Redaction.defaultRedactor sorted_events
           (pod_ExtractFinding Redaction.defaultRedactor) (ObjPod web_pod)).
  - apply sorted_events_ok.
  - apply list_elem_of_here.
  - apply exec_pure_runs.
Defined.

Lemma pods_are_reported_iff_unhealthy_witness :
  exists t r, head pod_run.1 = Some (Event (ans := answer) Now t) /\ pod_run.2 = Done (Ok r) /\
  (is_Some r <->
     ShouldSkip (meta_Annotations (pod_Meta web_pod)) t = false /\
     (Exists ailing (all_statuses web_pod) \/ stuck web_pod)) /\
  (forall f, r = Some f ->
     f_Name f = "web-0" /\ f_Namespace f = "shop" /\
     f_Severity f = computePodSeverity web_pod /\ f_NodeName f = "node-a" /\
     f_Errors f = MarshalEntries (pod_errors Redaction.defaultRedactor web_pod)).
Proof. apply (pods_are_reported_iff_unhealthy Redaction.defaultRedactor web_pod). apply exec_pure_runs. Defined.

Lemma latest_failure_is_reported_witness :
  let run := exec_pure world (latestProvisioningFailedMessage sorted_events data_pvc) in
  run.2 = Done (Ok (Some "quota")) /\
  exists got, run.1 = [Event (ans := answer) (ListEvents "shop") got] /\
  match got with
  | Err e => run.2 = Done (Err (EWrap "pvcProvider: listing events: " e))
  | Ok items => exists m, run.2 = Done (Ok m) /\ latest_among data_pvc items m
  end.
Proof.
  split; [vm_compute; reflexivity|].
  apply (latest_failure_is_reported sorted_events data_pvc); [apply sorted_events_ok|apply exec_pure_runs].
Defined.
