(* ===== verification/Symptoms.v ===== *)
(** * Which objects are reported, and how severe their findings are
    [sick] and [graded] say, without reference to the code, when an object of
    each of the six watched kinds is unhealthy and how severe that is; the
    providers report exactly the sick objects, with that severity.  Where the
    repository's documents differ from the code and its tests (half of the
    replicas, a Job between two attempts) the code is followed, and
    [documented_grades_differ] shows the difference. *)
From stdpp Require Import base list strings gmap sets.
From Stdlib Require Import ZArith Lia.
From S2P Require Import Prelude Prog Utf8 Regex Redact Sha256 Json K8s Types Effects Domain.
From S2P Require Import Fingerprint Native NativeProps.
Import GoErr GoStr GoTime GoInt Severity Annotations Delimiter.
Open Scope string_scope.
Open Scope list_scope.
Open Scope Z_scope.
Open Scope go_scope.

(** ** Symptoms *)

(** Available is False. *)
Definition down (conds : list Condition) : Prop :=
  exists c, c ∈ conds /\ cond_Type c = "Available" /\ cond_Status c = ConditionFalse.

(** Fewer replicas are ready than wanted, and no update is under way. *)
Definition dep_lacks (d : Deployment) : Prop :=
  exists n, dep_SpecReplicas d = Some n /\ dep_StatusReplicas d <= n /\ dep_ReadyReplicas d < n.
Definition sts_lacks (s : StatefulSet) : Prop :=
  exists n, sts_SpecReplicas s = Some n /\ meta_Generation (sts_Meta s) = sts_ObservedGeneration s /\
    sts_ReadyReplicas s < n.

(** Ready is not True. *)
Definition lost (c : Condition) : Prop :=
  cond_Type c = "Ready" /\ (cond_Status c = ConditionFalse \/ cond_Status c = ConditionUnknown).

(** A pressure, or any other condition that is True, other than the role of etcd. *)
Definition troubled (c : Condition) : Prop :=
  cond_Type c <> "Ready" /\ cond_Type c <> "EtcdIsVoter" /\ cond_Status c = ConditionTrue.

(** Some pods failed, none is active and the Job has not completed: a Job that gave up,
    and also one whose next attempt has not started yet.  The Jobs of a CronJob are its
    own business. *)
Record idle_failed (j : Job) : Prop := {
  if_failed : js_Failed (job_Status j) <> 0;
  if_idle : js_Active (job_Status j) = 0;
  if_open : js_CompletionTime (job_Status j) = None;
  if_running : forall c, c ∈ js_Conditions (job_Status j) ->
    cond_Type c = "Suspended" -> cond_Status c <> ConditionTrue;
  if_owner : forall ref, ref ∈ meta_OwnerReferences (job_Meta j) -> ref_Kind ref <> "CronJob" }.

Definition sick (obj : Object) (tr : trace) : Prop :=
  match obj with
  | ObjPod p => Exists ailing (all_statuses p) \/ stuck p
  | ObjDeployment d => dep_lacks d \/ down (dep_Conditions d)
  | ObjStatefulSet s => sts_lacks s \/ down (sts_Conditions s)
  | ObjNode n => exists c, c ∈ node_Conditions n /\ (lost c \/ troubled c)
  | ObjJob j => idle_failed j
  | ObjPVC p => pvc_Phase p = "Pending" /\
      exists items ev, Event (ans := answer) (ListEvents (meta_Namespace (pvc_Meta p))) (Ok items) ∈ tr /\
        ev ∈ items /\ provisioning_failure p ev = true
  end.

(** ** Severities *)

(** Of a workload with [ready] of [wanted] replicas: critical without any,
    high with fewer than half of them, the half rounded down: 1 of 3 is medium. *)
Inductive replicas_grade (lacks : Prop) (ready wanted : Z) : Severity -> Prop :=
| grade_none : lacks -> 0 < wanted -> ready = 0 -> replicas_grade lacks ready wanted SeverityCritical
| grade_few : lacks -> 0 < wanted -> ready <> 0 -> ready < wanted ÷ 2 ->
    replicas_grade lacks ready wanted SeverityHigh
| grade_some : lacks -> 0 < wanted -> ready <> 0 -> wanted ÷ 2 <= ready ->
    replicas_grade lacks ready wanted SeverityMedium
| grade_down : ~ lacks \/ wanted <= 0 -> replicas_grade lacks ready wanted SeverityMedium.

Inductive pod_grade (p : Pod) : Severity -> Prop :=
| grade_hopeless : Exists hopeless (all_statuses p) -> pod_grade p SeverityCritical
| grade_serious : ~ Exists hopeless (all_statuses p) -> Exists serious (all_statuses p) \/ stuck p ->
    pod_grade p SeverityHigh
| grade_mild : ~ Exists hopeless (all_statuses p) -> ~ Exists serious (all_statuses p) -> ~ stuck p ->
    pod_grade p SeverityMedium.

Inductive node_grade (n : Node) : Severity -> Prop :=
| grade_lost : Exists lost (node_Conditions n) -> node_grade n SeverityCritical
| grade_pressure : ~ Exists lost (node_Conditions n) -> node_grade n SeverityHigh.

Definition graded (obj : Object) (s : Severity) : Prop :=
  match obj with
  | ObjPod p => pod_grade p s
  | ObjDeployment d => replicas_grade (dep_lacks d) (dep_ReadyReplicas d) (default 0 (dep_SpecReplicas d)) s
  | ObjStatefulSet st =>
      replicas_grade (sts_lacks st) (sts_ReadyReplicas st) (default 0 (sts_SpecReplicas st)) s
  | ObjNode n => node_grade n s
  | ObjJob _ => s = SeverityMedium
  | ObjPVC _ => s = SeverityHigh
  end.

(** ** Reports *)
Definition kind_of (obj : Object) : string :=
  match obj with
  | ObjPod _ => "Pod" | ObjDeployment _ => "Deployment" | ObjStatefulSet _ => "StatefulSet"
  | ObjPVC _ => "PersistentVolumeClaim" | ObjNode _ => "Node" | ObjJob _ => "Job"
  end.

(** Nodes have no namespace. *)
Definition namespace_of (obj : Object) : string :=
  match obj with ObjNode _ => "" | _ => meta_Namespace (obj_Meta obj) end.

Record describes (obj : Object) (f : Finding) : Prop := {
  d_kind : f_Kind f = kind_of obj;
  d_name : f_Name f = meta_Name (obj_Meta obj);
  d_namespace : f_Namespace f = namespace_of obj;
  d_grade : graded obj (f_Severity f) }.

(** What a provider needs to read and could not. *)
Definition unreadable (obj : Object) (tr : trace) : Prop :=
  match obj with
  | ObjPVC p => exists e, Event (ans := answer) (ListEvents (meta_Namespace (pvc_Meta p))) (Err e) ∈ tr
  | ObjJob j => is_mechanic_job j = true /\ exists name e, owner_rjob j = Some name /\
      Event (ans := answer) (GetRJob (meta_Namespace (job_Meta j)) name) (Err e) ∈ tr /\
      IsNotFound e = false
  | _ => False
  end.

Definition skipped (obj : Object) (t : Z) : bool := ShouldSkip (meta_Annotations (obj_Meta obj)) t.

Definition verdict (obj : Object) (t : Z) (tr : trace) (r : extracted) : Prop :=
  match r with
  | Ok x => (is_Some x <-> skipped obj t = false /\ sick obj tr) /\
            (forall f, x = Some f -> describes obj f)
  | Err _ => skipped obj t = false /\ unreadable obj tr
  end.

(** The clock is read first. *)
Definition judges (obj : Object) (p : io extracted) : Prop :=
  wp p (fun tr o => exists t r, head tr = Some (Event (ans := answer) Now t) /\ o = Done r /\
                                verdict obj t tr r).

(** ** The symptoms in the code *)
Lemma find_iff {A} (P : A -> bool) (Q : A -> Prop) l :
  (forall x, P x = true <-> Q x) -> (is_Some (List.find P l) <-> exists x, x ∈ l /\ Q x).
Proof.
  intros HP. destruct (List.find P l) as [x|] eqn:E.
  - apply find_some in E as [Hin Hx]. split; [|by eexists]. intros _. exists x.
    by rewrite list_elem_of_In, <- HP.
  - split; [by intros []|]. intros (x & Hin%list_elem_of_In & Hx%HP).
    pose proof (find_none _ _ E x Hin). congruence.
Qed.

Lemma status_eqb_eq a b : status_eqb a b = true <-> a = b.
Proof. apply bool_decide_eq_true. Qed.

Lemma not_ready_iff c :
  not_ready c = true <-> cond_Status c = ConditionFalse \/ cond_Status c = ConditionUnknown.
Proof. unfold not_ready. by rewrite orb_true_iff, !status_eqb_eq. Qed.

Lemma unavailable_iff c :
  unavailable c = true <-> cond_Type c = "Available" /\ cond_Status c = ConditionFalse.
Proof. unfold unavailable. by rewrite andb_true_iff, String.eqb_eq, status_eqb_eq. Qed.

Lemma entries_iff (e1 e2 : option string) :
  entry e1 ++ entry e2 <> [] <-> is_Some e1 \/ is_Some e2.
Proof.
  destruct e1; [split; [intros _; left; by eexists|done]|].
  destruct e2; [split; [intros _; right; by eexists|done]|].
  split; [done|by intros [[]|[]]].
Qed.

Lemma omap_nonempty {A B} (f : A -> option B) l :
  omap f l <> [] <-> exists x, x ∈ l /\ is_Some (f x).
Proof.
  split.
  - destruct (omap f l) as [|y ys] eqn:E; [done|]. intros _.
    assert (y ∈ omap f l) as Hy by (rewrite E; apply list_elem_of_here).
    apply list_elem_of_omap in Hy as (x & Hx & Hf). exists x. split; [done|]. by eexists.
  - intros (x & Hx & y & Hf) E. assert (y ∈ omap f l) as Hy by (apply list_elem_of_omap; eauto).
    rewrite E in Hy. by apply not_elem_of_nil in Hy.
Qed.

Lemma events_listed ns ns' items items' :
  Event (ans := answer) (ListEvents ns) (Ok items) = Event (ans := answer) (ListEvents ns') (Ok items') ->
  items = items'.
Proof.
  intros E. pose (f := fun ev : event answer =>
    match ev_call ev as c return answer c -> list EventObj with
    | ListEvents _ => fun a => match a with Ok l => l | Err _ => [] end
    | _ => fun _ => []
    end (ev_ans ev)).
  exact (f_equal f E).
Qed.

Section Providers.
Context (redactor : Redaction.Redactor) (newest_first : list EventObj -> list EventObj).

Lemma dep_replica_iff d : is_Some (dep_replica_error d) <-> dep_lacks d.
Proof.
  unfold dep_replica_error, dep_lacks. destruct (dep_SpecReplicas d) as [n|].
  - destruct (Z.leb_spec (dep_StatusReplicas d) n), (Z.ltb_spec (dep_ReadyReplicas d) n); cbn [andb];
      (split; [by intros []; eauto|intros (? & [= <-] & ? & ?); first [lia|by eexists]]).
  - split; [by intros []|naive_solver].
Qed.

Lemma dep_available_iff d : is_Some (dep_available_error redactor d) <-> down (dep_Conditions d).
Proof.
  unfold dep_available_error, down. rewrite <- (find_iff unavailable _ _ unavailable_iff).
  destruct (List.find _ _); [split; intros _; by eexists|split; by intros []].
Qed.

Lemma sts_replica_iff s : is_Some (sts_replica_error s) <-> sts_lacks s.
Proof.
  unfold sts_replica_error, sts_lacks. destruct (sts_SpecReplicas s) as [n|].
  - destruct (Z.eqb_spec (meta_Generation (sts_Meta s)) (sts_ObservedGeneration s)),
      (Z.ltb_spec (sts_ReadyReplicas s) n); cbn [andb];
      (split; [by intros []; eauto|intros (? & [= <-] & ? & ?); first [lia|by eexists]]).
  - split; [by intros []|naive_solver].
Qed.

Lemma sts_available_iff s : is_Some (sts_available_error redactor s) <-> down (sts_Conditions s).
Proof.
  unfold sts_available_error, down. rewrite <- (find_iff unavailable _ _ unavailable_iff).
  destruct (List.find _ _); [split; intros _; by eexists|split; by intros []].
Qed.

Lemma replicas_graded (lacks : Prop) e ready wanted :
  (is_Some e <-> lacks) ->
  replicas_grade lacks ready wanted (computeDeploymentSeverity ready wanted (bool_decide (is_Some (e : option string)))).
Proof.
  intros He. unfold computeDeploymentSeverity.
  case_bool_decide as E; [|apply grade_down; left; by rewrite <- He].
  apply He in E. destruct (Z.ltb_spec 0 wanted); [|by apply grade_down; right]. cbn [andb].
  destruct (Z.eqb_spec ready 0); [by apply grade_none|].
  destruct (Z.ltb_spec ready (wanted ÷ 2)); [by apply grade_few|by apply grade_some].
Qed.

Lemma ignored_iff c : ignored c = true <-> cond_Type c = "EtcdIsVoter".
Proof. unfold ignored. cbn [ignoredNodeConditions existsb]. by rewrite orb_false_r, String.eqb_eq. Qed.

Lemma node_error_iff name c : is_Some (node_error redactor name c) <-> lost c \/ troubled c.
Proof.
  unfold node_error, lost, troubled. rewrite <- not_ready_iff, <- status_eqb_eq.
  destruct (ignored c) eqn:Ei.
  { apply ignored_iff in Ei as ->. split; [by intros []|]. by intros [[? _]|(_ & ? & _)]. }
  assert (cond_Type c <> "EtcdIsVoter") as Hv by (rewrite <- ignored_iff; congruence).
  destruct (String.eqb_spec (cond_Type c) "Ready") as [->|Hr].
  - destruct (not_ready c); (split; [by intros []; auto|]); [by eexists|by intros [[_ ?]|[? _]]].
  - destruct (status_eqb _ _); (split; [by intros []; auto|]); [by eexists|by intros [[? _]|(_ & _ & ?)]].
Qed.

Lemma node_graded n : node_grade n (computeNodeSeverity n).
Proof.
  unfold computeNodeSeverity.
  enough ((node_severity (node_Conditions n) = SeverityCritical /\ Exists lost (node_Conditions n)) \/
    (node_severity (node_Conditions n) = SeverityHigh /\ ~ Exists lost (node_Conditions n))) as [[-> ?]|[-> ?]]
    by (by constructor).
  induction (node_Conditions n) as [|c l IH]; cbn [node_severity]; [right; split; [done|intros H; by inversion H]|].
  rewrite Exists_cons. destruct (ignored c) eqn:Ei.
  - apply ignored_iff in Ei. assert (~ lost c) by (by intros [? _]; congruence). tauto.
  - destruct (String.eqb (cond_Type c) "Ready" && not_ready c) eqn:E.
    + apply andb_true_iff in E as [E1%String.eqb_eq E2%not_ready_iff]. left. split; [done|]. by left.
    + assert (~ lost c); [|tauto]. intros [E1%String.eqb_eq E2%not_ready_iff]. by rewrite E1, E2 in E.
Qed.

Lemma pod_severity_levels p :
  computePodSeverity p = SeverityCritical \/ computePodSeverity p = SeverityHigh \/
  computePodSeverity p = SeverityMedium.
Proof.
  unfold computePodSeverity.
  destruct (statuses_severity_spec (all_statuses p) SeverityMedium) as
    [[_ ->]|[(_ & _ & ->)|(_ & _ & ->)]]; [by left|by left|..];
    repeat case_match; rewrite ?fold_unschedulable by auto; repeat case_match; auto.
Qed.

Lemma pod_graded p : pod_grade p (computePodSeverity p).
Proof.
  destruct (pod_severity_is_the_worst_symptom p) as (Hc & Hh & Hm).
  destruct (pod_severity_levels p) as [E|[E|E]]; rewrite E.
  - by apply grade_hopeless, Hc.
  - apply Hh in E as [? ?]. by apply grade_serious.
  - apply Hm in E as (? & ? & ?). by apply grade_mild.
Qed.

Lemma job_excused_iff j : job_excused j = false <-> idle_failed j.
Proof.
  unfold job_excused. rewrite !orb_false_iff, !negb_false_iff, Z.eqb_eq, Z.eqb_neq, bool_decide_eq_false.
  split.
  - intros [[Ho Hs] [[Hf Ha] Hc]]. split; [done..| | |].
    + by destruct (js_CompletionTime _); [destruct Hc; eexists|].
    + intros c Hin Ht Htrue. apply not_true_iff_false in Hs. apply Hs, existsb_exists. exists c.
      rewrite <- list_elem_of_In. split; [done|]. unfold condition_is. by rewrite Ht, Htrue.
    + intros ref Hin Hk. apply not_true_iff_false in Ho. apply Ho, existsb_exists. exists ref.
      by rewrite <- list_elem_of_In, Hk.
  - intros [Hf Ha Hc Hs Ho]. rewrite Hc. split_and!; [..|done|done|by intros []].
    + apply not_true_iff_false. intros (ref & Hin & Hk)%existsb_exists.
      apply list_elem_of_In in Hin. by apply (Ho ref Hin), String.eqb_eq.
    + apply not_true_iff_false. intros (c & Hin & Hk)%existsb_exists. apply list_elem_of_In in Hin.
      apply andb_true_iff in Hk as [Ht%String.eqb_eq Hk%status_eqb_eq]. by apply (Hs c Hin).
Qed.

(** ** The providers *)
Lemma healthy obj t tr : ~ sick obj tr -> verdict obj t tr (Ok None).
Proof. intros Hs. split; [|done]. split; [by intros []|by intros [_ ?]]. Qed.

Lemma judges_now obj p :
  (forall t, skipped obj t = false ->
     wp p (fun tr o => exists r, o = Done r /\ verdict obj t ([Event (ans := answer) Now t] ++ tr) r)) ->
  judges obj (t <- now ;; if ShouldSkip (meta_Annotations (obj_Meta obj)) t then Ret (Ok None) else p).
Proof.
  intros Hp. cbn [bind call now]. intros t. cbn beta. destruct (ShouldSkip _ t) eqn:E.
  - exists t, (Ok None). do 2 (split; [done|]). split; [|done]. split; [by intros []|].
    unfold skipped. rewrite E. by intros [? _].
  - eapply wp_mono; [|by apply Hp]. intros tr o (r & -> & Hv). by exists t, r.
Qed.

Lemma report obj t tr0 m kind mk :
  skipped obj t = false -> (forall tr, sick obj (tr0 ++ tr)) -> (forall parent, describes obj (mk parent)) ->
  wp (parent <- getParent m kind ;; Ret (Ok (Some (mk parent))))
     (fun tr o => exists r, o = Done r /\ verdict obj t (tr0 ++ tr) r).
Proof.
  intros Hk Hs Hd. apply wp_bind, wp_runs. intros tr o Hp.
  destruct (getParent_bounded _ _ _ _ Hp) as (_ & k & n & ->). eexists. split; [done|].
  split; [|by intros f [= <-]]. split; [|by eexists]. intros _. by rewrite app_nil_r.
Qed.

Lemma deployment_judged d : judges (ObjDeployment d) (deployment_ExtractFinding redactor (ObjDeployment d)).
Proof.
  apply judges_now. intros t Hk.
  pose proof (entries_iff (dep_replica_error d) (dep_available_error redactor d)) as He.
  rewrite dep_replica_iff, dep_available_iff in He.
  destruct (entry _ ++ entry _) as [|e errs].
  - eexists. split; [done|]. apply healthy. by intros ?%He.
  - apply report; [done|intros tr; cbn [sick]; by apply He|]. intros p. split; [done..|].
    apply replicas_graded, dep_replica_iff.
Qed.

Lemma statefulset_judged s : judges (ObjStatefulSet s) (statefulset_ExtractFinding redactor (ObjStatefulSet s)).
Proof.
  apply judges_now. intros t Hk.
  pose proof (entries_iff (sts_replica_error s) (sts_available_error redactor s)) as He.
  rewrite sts_replica_iff, sts_available_iff in He.
  destruct (entry _ ++ entry _) as [|e errs].
  - eexists. split; [done|]. apply healthy. by intros ?%He.
  - apply report; [done|intros tr; cbn [sick]; by apply He|]. intros p. split; [done..|].
    apply (replicas_graded (sts_lacks s)), sts_replica_iff.
Qed.

Lemma node_judged n : judges (ObjNode n) (node_ExtractFinding redactor (ObjNode n)).
Proof.
  apply judges_now. intros t Hk.
  assert (omap (node_error redactor (meta_Name (node_Meta n))) (node_Conditions n) <> [] <->
          exists c, c ∈ node_Conditions n /\ (lost c \/ troubled c)) as He.
  { setoid_rewrite <- (node_error_iff (meta_Name (node_Meta n))). apply omap_nonempty. }
  destruct (omap _ _) as [|e errs].
  - eexists. split; [done|]. apply healthy. by intros ?%He.
  - apply report; [done|intros tr; cbn [sick]; by apply He|]. intros p. split; [done..|]. apply node_graded.
Qed.

Lemma pod_judged p : judges (ObjPod p) (pod_ExtractFinding redactor (ObjPod p)).
Proof.
  apply judges_now. intros t Hk. pose proof (pod_errors_iff redactor p) as He.
  destruct (pod_errors redactor p) as [|e errs].
  - eexists. split; [done|]. apply healthy. by intros ?%He.
  - apply report; [done|intros tr; cbn [sick]; by apply He|]. intros q. split; [done..|]. apply pod_graded.
Qed.

Lemma pvc_judged p :
  sorts_newest_first newest_first -> judges (ObjPVC p) (pvc_ExtractFinding redactor newest_first (ObjPVC p)).
Proof.
  intros Hsort. apply judges_now. intros t Hk.
  destruct (String.eqb_spec (pvc_Phase p) "Pending") as [Hp|Hp]; cbn [negb].
  2: { eexists. split; [done|]. apply healthy. by intros [? _]. }
  apply wp_bind, wp_runs. intros tr o Hr.
  destruct (latest_failure_is_reported newest_first p tr o Hsort Hr) as (got & -> & Hgot).
  destruct got as [items|e]; [destruct Hgot as ([msg|] & -> & Hiff & _)| rewrite Hgot].
  - assert (exists ev, ev ∈ items /\ provisioning_failure p ev = true) as (ev & Hev & Hf) by (apply Hiff; eauto).
    eapply wp_mono; [|apply (report (ObjPVC p) t
      [Event (ans := answer) Now t; Event (ans := answer) (ListEvents (meta_Namespace (pvc_Meta p))) (Ok items)]);
      [done| |]].
    + intros tr' o' (r & -> & Hv). by exists r.
    + intros tr'. split; [done|]. exists items, ev. split_and!; [|done..]. right. left.
    + done.
  - eexists. split; [done|]. apply healthy. intros (_ & items' & ev & Hin & Hev & Hf).
    cbn [app] in Hin. apply elem_of_cons in Hin as [Hin|[Hin|[]%not_elem_of_nil]%elem_of_cons].
    + discriminate Hin.
    + apply events_listed in Hin as ->. by assert (is_Some (None : option string)) as [] by (apply Hiff; eauto).
  - eexists. split; [done|]. split; [done|]. exists e. right. left.
Qed.

Lemma job_judged j : judges (ObjJob j) (job_ExtractFinding redactor (ObjJob j)).
Proof.
  apply judges_now. intros t Hk. pose proof (job_excused_iff j) as He.
  destruct (job_excused j) eqn:E.
  { eexists. split; [done|]. apply healthy. by intros ?%He. }
  assert (idle_failed j) as Hg by by apply He.
  assert (forall tr depth, wp (parent <- getParent (job_Meta j) "Job" ;;
      Ret (Ok (Some (mk_finding "Job" (meta_Name (job_Meta j)) (meta_Namespace (job_Meta j))
                   parent (job_errors redactor j) SeverityMedium depth ""))))
    (fun tr' o => exists r, o = Done r /\
       verdict (ObjJob j) t ([Event (ans := answer) Now t] ++ tr ++ tr') r)) as Hrep.
  { intros tr depth. eapply wp_mono; [|apply (report (ObjJob j) t (Event (ans := answer) Now t :: tr)); done].
    done. }
  destruct (is_mechanic_job j) eqn:Em; [|apply (Hrep [] 0)].
  apply wp_bind. unfold getChainDepthFromOwner.
  destruct (List.find _ _) as [ref|] eqn:Ef; [|apply (Hrep [])].
  intros [rjob|e]; [apply (Hrep [_])|]. cbn [bind call wp]. destruct (IsNotFound e) eqn:En; [apply (Hrep [_])|].
  eexists. split; [done|]. split; [done|]. split; [done|]. exists (ref_Name ref), e.
  unfold owner_rjob. rewrite Ef. split_and!; [done| |done]. right. left.
Qed.

(** The provider of the kind of an object. *)
Definition provider_for (obj : Object) : Object -> io extracted :=
  match obj with
  | ObjPod _ => pod_ExtractFinding redactor
  | ObjDeployment _ => deployment_ExtractFinding redactor
  | ObjStatefulSet _ => statefulset_ExtractFinding redactor
  | ObjPVC _ => pvc_ExtractFinding redactor newest_first
  | ObjNode _ => node_ExtractFinding redactor
  | ObjJob _ => job_ExtractFinding redactor
  end.

(** C21: For every object of the six watched kinds the provider of its kind reads the
    clock first and always answers: it reports the object exactly when its annotations
    do not skip it and it is unhealthy in the declarative sense of its kind (failing
    containers or scheduling, missing replicas, unavailability, bad node conditions, a
    Job with failed pods and none active that has not completed, which includes one
    between two attempts, a claim with provisioning failures); the finding names the
    object and has the severity of its symptoms, high for fewer ready replicas than
    half of them rounded down; it fails only when the events of a claim or the owner
    of one of the watcher's jobs could not be read. The sort of events is assumed to
    put the newest first. *)
Theorem objects_are_reported_iff_unhealthy obj tr o :
  sorts_newest_first newest_first -> runs (provider_for obj obj) tr o ->
  exists t r, head tr = Some (Event (ans := answer) Now t) /\ o = Done r /\ verdict obj t tr r.
Proof.
  intros Hs. revert tr o. apply (proj1 (wp_runs _ _)).
  destruct obj; [apply pod_judged|apply deployment_judged|apply statefulset_judged
    |by apply pvc_judged|apply node_judged|apply job_judged].
Qed.
End Providers.

(** ** A stateful set with one of four replicas ready, and a claim without storage *)
Module SymptomsExample.
Import NativeExample.

Definition db : StatefulSet :=
  {| sts_Meta := meta "db" "u7" []; sts_SpecReplicas := Some 4; sts_ReadyReplicas := 1;
     sts_ObservedGeneration := 1; sts_Conditions := [] |}.

Definition judged (obj : Object) :=
  exec_pure world (provider_for Redaction.defaultRedactor sorted_events obj obj).

Definition reported (obj : Object) (s : Severity) : Prop :=
  match (judged obj).2 with Done (Ok (Some f)) => f_Severity f = s | _ => False end.

Lemma objects_are_reported_iff_unhealthy_witness :
  reported (ObjStatefulSet db) SeverityHigh /\ reported (ObjPVC data_pvc) SeverityHigh /\
  (exists t r, head (judged (ObjStatefulSet db)).1 = Some (Event (ans := answer) Now t) /\
    (judged (ObjStatefulSet db)).2 = Done r /\ verdict (ObjStatefulSet db) t (judged (ObjStatefulSet db)).1 r) /\
  (exists t r, head (judged (ObjPVC data_pvc)).1 = Some (Event (ans := answer) Now t) /\
    (judged (ObjPVC data_pvc)).2 = Done r /\ verdict (ObjPVC data_pvc) t (judged (ObjPVC data_pvc)).1 r).
Proof.
  split; [vm_compute; reflexivity|]. split; [vm_compute; reflexivity|].
  split; apply (objects_are_reported_iff_unhealthy Redaction.defaultRedactor sorted_events);
    [apply sorted_events_ok|apply exec_pure_runs|apply sorted_events_ok|apply exec_pure_runs].
Defined.

(** A third of the replicas is not less than half of them, rounded down. *)
Definition third : StatefulSet :=
  {| sts_Meta := meta "db" "u7" []; sts_SpecReplicas := Some 3; sts_ReadyReplicas := 1;
     sts_ObservedGeneration := 1; sts_Conditions := [] |}.

(** One attempt of seven has failed, and the next has not started. *)
Definition between_attempts : Job :=
  {| job_Meta := meta "import" "u8" [];
     job_Spec := {| js_BackoffLimit := Some 6; js_ActiveDeadlineSeconds := None;
                    js_TTLSecondsAfterFinished := None;
                    js_Template := {| ps_NodeName := ""; ps_ServiceAccountName := ""; ps_RestartPolicy := "";
                      ps_RunAsNonRoot := None; ps_RunAsUser := None; ps_InitContainers := [];
                      ps_Containers := []; ps_Volumes := [] |} |};
     job_Status := {| js_Active := 0; js_Succeeded := 0; js_Failed := 1;
                      js_CompletionTime := None; js_Conditions := [] |} |}.

Theorem documented_grades_differ :
  reported (ObjStatefulSet third) SeverityMedium /\ reported (ObjJob between_attempts) SeverityMedium.
Proof. split; vm_compute; reflexivity. Qed.
End SymptomsExample.
