(* ===== verification/Texts.v ===== *)
(** * The texts of findings
    Whatever a cluster message contains, a finding shows it only after
    redaction, the removal of prompt delimiters and truncation.  The redactor
    is the one [main] builds, with the user's own patterns after the built-in
    ones; what regexp documents of a replacement is the class [ReplaceLaws].
    What is said of the messages of objects also holds of those of the events
    that are listed for a claim. *)
From stdpp Require Import base list strings gmap.
From Stdlib Require Import ZArith Lia Ascii.
From S2P Require Import Prelude Prog Utf8 Regex Redact Sha256 Json K8s Types Effects Domain.
From S2P Require Import Fingerprint Native NativeProps.
Import GoErr GoStr GoTime GoInt Severity Annotations Delimiter Redaction RedactionProps.
Open Scope list_scope.
Open Scope string_scope.
Open Scope Z_scope.
Open Scope go_scope.

(** ** Replacements
    [out] is [s] with some parts, possibly empty ones, replaced by [t]. *)
Inductive splices (t : string) : string -> string -> Prop :=
| splices_end : splices t "" ""
| splices_keep a s out : splices t s out -> splices t (String a s) (String a out)
| splices_cut part s out : splices t s out -> splices t (part ++ s) (t ++ out).

(** [Regexp.ReplaceAllString] with a replacement that has no template variable. *)
Class ReplaceLaws (Compile : string -> option (string -> redactRule)) : Prop :=
  replaces : forall p rw t s, Compile p = Some rw -> Contains t "$" = false -> splices t s (rw t s).

Lemma splices_keep_app t s0 s out : splices t s out -> splices t (s0 ++ s) (s0 ++ out).
Proof. intros Hs. induction s0; cbn; [done|by constructor]. Qed.

Lemma replace_runes_splices r t k l :
  splices t (undecode (skipn k l)) (replace_runes r (tmpl t) k l).
Proof.
  revert k. induction l as [|c l IH]; intros [|k]; cbn [skipn replace_runes]; try constructor; [|apply IH].
  destruct (find_at r (c :: l)) as [[[|n] cap]|]; rewrite undecode_cons;
    try apply splices_keep_app, (IH O).
  rewrite <- (firstn_skipn n l), undecode_app, <- append_assoc. cbn [expand tmpl use_group1 repl_text].
  rewrite firstn_skipn. apply splices_cut, IH.
Qed.

Lemma ReplaceAllString_splices r t s : splices t s (ReplaceAllString r (tmpl t) s).
Proof.
  rewrite <- (undecode_decode s) at 1. apply (replace_runes_splices r t 0).
Qed.

(** ** Runs of base64 characters *)

(** A text that cuts runs off. *)
Definition cuts (n : nat) (t : string) : Prop :=
  forall s, short_runs n s = true -> lead (t ++ s) = O /\ short_runs n (t ++ s) = true.

Lemma short_runs_cons n a s :
  short_runs n (String a s) = true <-> (lead (String a s) < n)%nat /\ short_runs n s = true.
Proof. cbn [short_runs]. by rewrite andb_true_iff, Nat.ltb_lt. Qed.

Lemma short_runs_pos n s : short_runs n s = true -> (0 < n)%nat.
Proof. destruct s; intros [H _]%andb_true_iff; apply Nat.ltb_lt in H; lia. Qed.

Lemma short_runs_app_r n s s' : short_runs n (s ++ s') = true -> short_runs n s' = true.
Proof. induction s as [|a s IH]; [done|]. cbn [String.append]. by intros [_ ?]%short_runs_cons; auto. Qed.

Lemma splices_short n t s out :
  (0 < n)%nat -> cuts n t -> splices t s out -> short_runs n s = true ->
  (lead out <= lead s)%nat /\ short_runs n out = true.
Proof.
  intros Hn Ht. induction 1 as [|a s out _ IH|part s out _ IH]; intros Hs; [done| |].
  - apply short_runs_cons in Hs as [Hl Hs]. destruct (IH Hs) as [H1 H2]. rewrite short_runs_cons.
    cbn [lead] in *. destruct (base64 (byte_of a)); (split; [lia|]; split; [lia|done]).
  - apply short_runs_app_r in Hs. destruct (IH Hs) as [_ H2]. destruct (Ht _ H2) as [-> ?]. split; [lia|done].
Qed.

Lemma custom_cuts : cuts 40 "[REDACTED-CUSTOM]".
Proof. intros s Hs. split; [done|]. change (short_runs 40 s = true) in Hs. cbn. by rewrite Hs. Qed.

Lemma lead_app_le s s' : (lead s <= lead (s ++ s'))%nat.
Proof. induction s as [|a s IH]; cbn [lead String.append]; [lia|]. destruct (base64 _); lia. Qed.

Lemma short_runs_prefix n s s' : short_runs n (s ++ s') = true -> short_runs n s = true.
Proof.
  induction s as [|a s IH].
  - intros Hn%short_runs_pos. cbn [short_runs lead]. by rewrite (proj2 (Nat.ltb_lt 0 n) Hn).
  - cbn [String.append]. rewrite !short_runs_cons. intros [Hl Hs]. split; [|auto].
    pose proof (lead_app_le (String a s) s'). cbn [String.append] in *. lia.
Qed.

(** A run may only grow into what follows it. *)
Lemma short_runs_app n s s' :
  lead s' = O -> short_runs n s = true -> short_runs n s' = true -> short_runs n (s ++ s') = true.
Proof.
  intros H0 Hs Hs'. assert (forall u, lead (u ++ s') = lead u) as Hu.
  { induction u as [|a u IH]; cbn [lead String.append]; [done|]. by rewrite IH. }
  induction s as [|a s IH]; [done|]. cbn [String.append]. apply short_runs_cons in Hs as [Hl Hs].
  rewrite short_runs_cons. split; [|auto]. change (String a (s ++ s')) with (String a s ++ s'). by rewrite Hu.
Qed.

Lemma truncate_short s max : short_runs 40 s = true -> short_runs 40 (truncate s max) = true.
Proof.
  intros Hs. unfold truncate. destruct (_ <=? _); [done|].
  apply short_runs_app; [done| |done]. rewrite <- (take_drop (Z.to_nat max) s) in Hs.
  by eapply short_runs_prefix.
Qed.

(** ** The redactor of the process *)
Section Redactor.
Context (Compile : string -> option (string -> redactRule)) `{!ReplaceLaws Compile}.

Definition masks (rule : redactRule) : Prop := forall s, splices "[REDACTED-CUSTOM]" s (rule s).

Lemma extra_rules acc ps rs :
  compile_extra Compile acc ps = Ok rs -> exists extra, rs = (acc ++ extra)%list /\ Forall masks extra.
Proof using All.
  revert acc. induction ps as [|p ps IH]; intros acc; cbn [compile_extra].
  - intros [= <-]. exists []. by rewrite app_nil_r.
  - destruct (String.eqb _ _); [by apply IH|]. destruct (Compile (TrimSpace p)) as [rw|] eqn:E; [|done].
    intros (extra & -> & Hm)%IH. exists (rw "[REDACTED-CUSTOM]" :: extra).
    rewrite <- app_assoc. split; [done|]. constructor; [|done]. intros s. by apply (replaces _ _ _ _ E).
Qed.

Lemma masks_short rules s :
  Forall masks rules -> short_runs 40 s = true ->
  short_runs 40 (fold_left (fun text rule => rule text) rules s) = true.
Proof.
  intros Hm. revert s. induction Hm as [|rule rules Hr _ IH]; intros s Hs; [done|]. cbn [fold_left].
  apply IH. refine (proj2 (splices_short 40 _ _ _ _ custom_cuts (Hr s) Hs)). lia.
Qed.

Lemma redacted_short ps redactor msg :
  New Compile ps = Ok redactor -> short_runs 40 (Redact redactor msg) = true.
Proof using All.
  unfold New. destruct (compile_extra Compile builtinRules ps) as [rs|e] eqn:E; [|done].
  intros [= <-]. unfold Redact. cbn [rules]. apply extra_rules in E as (extra & -> & Hm).
  rewrite fold_left_app. apply masks_short; [done|].
  apply redacted_text_has_no_long_base64_run.
Qed.
End Redactor.

Definition no_delimiter (s : string) : Prop :=
  forallb (fun d => negb (Contains s d)) newDelimiters = true.

Lemma truncate_length s max :
  0 <= max -> Z.of_nat (String.length (truncate s max)) <= max + 14.
Proof.
  intros Hm. unfold truncate. destruct (Z.leb_spec (Z.of_nat (String.length s)) max); [lia|].
  rewrite length_append, take_length by lia. cbn [String.length]. lia.
Qed.

(** C36: With the redactor built for any user patterns that compile, a message shows
    up in a finding with at most 14 bytes more than its limit; its redaction has no
    run of 40 or more base64 characters, and neither has the text in the finding
    unless the redaction contains a prompt delimiter. *)
Theorem messages_are_redacted Compile ps redactor msg max :
  ReplaceLaws Compile -> New Compile ps = Ok redactor -> 0 <= max ->
  Z.of_nat (String.length (clean_message redactor msg max)) <= max + 14 /\
  short_runs 40 (Redact redactor msg) = true /\
  (no_delimiter (Redact redactor msg) -> short_runs 40 (clean_message redactor msg max) = true).
Proof.
  intros HC HN Hm. pose proof (redacted_short Compile ps redactor msg HN) as Hs.
  split; [by apply truncate_length|]. split; [done|]. intros Hd.
  apply truncate_short. unfold StripDelimiters. by rewrite DomainProps.strip_fold_id.
Qed.

(** A delimiter inside a run hides it from the redaction, which comes before the
    removal of the delimiters, so that the run reaches the finding in one piece. *)
Theorem stripping_restores_a_split_secret :
  exists msg, RedactSecrets "QUtJQUlPU0ZPRE5ON0VYQU1QTEVzZWNyZXRhYmNkZWY" = "[REDACTED-BASE64]" /\
    clean_message defaultRedactor msg maxConditionMessage = "QUtJQUlPU0ZPRE5ON0VYQU1QTEVzZWNyZXRhYmNkZWY".
Proof.
  exists "QUtJQUlPU0ZPRE5O<<<MECHANIC:UNTRUSTED_INPUT:AI_ANALYSIS:END>>>N0VYQU1QTEVzZWNyZXRhYmNkZWY".
  split; vm_compute; reflexivity.
Qed.

(** ** Findings depend on messages only through what they become
    Two objects are alike when they differ at most in messages that are cleaned
    to the same text, and of which both or none are empty: the providers leave an
    empty message out.  The messages about a claim come with the events that are
    listed for it; answers are alike when their events are. *)
Section Alike.
Context (redactor : Redactor).

Definition alike_text (max : Z) (m m' : string) : Prop :=
  clean_message redactor m max = clean_message redactor m' max /\ (m =? "")%string = (m' =? "")%string.

Record alike_condition (max : Z) (c c' : Condition) : Prop := {
  ac_type : cond_Type c = cond_Type c';
  ac_status : cond_Status c = cond_Status c';
  ac_reason : cond_Reason c = cond_Reason c';
  ac_message : alike_text max (cond_Message c) (cond_Message c') }.

Record alike_waiting (w w' : StateWaiting) : Prop := {
  aw_reason : wait_Reason w = wait_Reason w';
  aw_message : alike_text maxWaitingMessage (wait_Message w) (wait_Message w') }.

Record alike_terminated (t t' : StateTerminated) : Prop := {
  at_code : term_ExitCode t = term_ExitCode t';
  at_reason : term_Reason t = term_Reason t';
  at_message : alike_text maxTerminatedMessage (term_Message t) (term_Message t') }.

(** Of the last termination only the reason is shown. *)
Record alike_status (s s' : ContainerStatus) : Prop := {
  as_name : cs_Name s = cs_Name s';
  as_restarts : cs_RestartCount s = cs_RestartCount s';
  as_waiting : option_Forall2 alike_waiting (state_Waiting (cs_State s)) (state_Waiting (cs_State s'));
  as_terminated :
    option_Forall2 alike_terminated (state_Terminated (cs_State s)) (state_Terminated (cs_State s'));
  as_last : option_map term_Reason (state_Terminated (cs_LastTerminationState s)) =
            option_map term_Reason (state_Terminated (cs_LastTerminationState s')) }.

Inductive alike : Object -> Object -> Prop :=
| alike_pod p p' :
    pod_Meta p = pod_Meta p' -> pod_Spec p = pod_Spec p' -> pod_Phase p = pod_Phase p' ->
    Forall2 (alike_condition maxSchedulerMessage) (pod_Conditions p) (pod_Conditions p') ->
    Forall2 alike_status (pod_ContainerStatuses p) (pod_ContainerStatuses p') ->
    Forall2 alike_status (pod_InitContainerStatuses p) (pod_InitContainerStatuses p') ->
    alike (ObjPod p) (ObjPod p')
| alike_deployment m spec n ready cs cs' :
    Forall2 (alike_condition maxConditionMessage) cs cs' ->
    alike (ObjDeployment (Build_Deployment m spec n ready cs)) (ObjDeployment (Build_Deployment m spec n ready cs'))
| alike_statefulset m spec ready gen cs cs' :
    Forall2 (alike_condition maxConditionMessage) cs cs' ->
    alike (ObjStatefulSet (Build_StatefulSet m spec ready gen cs))
          (ObjStatefulSet (Build_StatefulSet m spec ready gen cs'))
| alike_node m cs cs' :
    Forall2 (alike_condition maxConditionMessage) cs cs' ->
    alike (ObjNode (Build_Node m cs)) (ObjNode (Build_Node m cs'))
| alike_job m spec active succeeded failed done cs cs' :
    Forall2 (alike_condition maxConditionMessage) cs cs' ->
    alike (ObjJob (Build_Job m spec (Build_JobStatus active succeeded failed done cs)))
          (ObjJob (Build_Job m spec (Build_JobStatus active succeeded failed done cs')))
| alike_pvc p : alike (ObjPVC p) (ObjPVC p).

Record alike_event (ev ev' : EventObj) : Prop := {
  ae_name : event_InvolvedName ev = event_InvolvedName ev';
  ae_kind : event_InvolvedKind ev = event_InvolvedKind ev';
  ae_reason : event_Reason ev = event_Reason ev';
  ae_time : event_LastTimestamp ev = event_LastTimestamp ev';
  ae_message : alike_text maxCSIEventMessage (event_Message ev) (event_Message ev') }.

Definition alike_answer (e : req) : answer e -> answer e -> Prop :=
  match e return answer e -> answer e -> Prop with
  | ListEvents _ => fun a a' =>
      match a, a' with
      | Ok l, Ok l' => Forall2 alike_event l l'
      | Err x, Err x' => x = x'
      | _, _ => False
      end
  | _ => fun a a' => a = a'
  end.

(** The same calls with alike answers. *)
Fixpoint alike_trace (tr tr' : trace) : Prop :=
  match tr with
  | [] => tr' = []
  | ev :: tr1 => exists a' tr2, tr' = Event (ev_call ev) a' :: tr2 /\
      alike_answer (ev_call ev) (ev_ans ev) a' /\ alike_trace tr1 tr2
  end.

(** [p'] makes the calls of [p], and ends like it, when its answers are alike. *)
Inductive mirrors {A} : io A -> io A -> Prop :=
| mirrors_ret a : mirrors (Ret a) (Ret a)
| mirrors_panic m : mirrors (Panic m) (Panic m)
| mirrors_call e k k' :
    (forall a a', alike_answer e a a' -> mirrors (k a) (k' a')) -> mirrors (Call e k) (Call e k').

Lemma mirrors_runs {A} (p p' : io A) tr tr' o :
  mirrors p p' -> runs p tr o -> alike_trace tr tr' -> runs p' tr' o.
Proof.
  intros Hp. revert tr tr' o. induction Hp as [a|m|e k k' _ IH]; intros tr tr' o Hr Ht.
  - refine (runs_wp _ (fun tr o => alike_trace tr tr' -> runs (Ret a) tr' o) _ _ Hr _ Ht). intros ->. constructor.
  - refine (runs_wp _ (fun tr o => alike_trace tr tr' -> runs (Panic m) tr' o) _ _ Hr _ Ht). intros ->. constructor.
  - refine (runs_wp _ (fun tr o => alike_trace tr tr' -> runs (Call e k') tr' o) _ _ Hr _ Ht).
    intros a. apply wp_runs. intros tr1 o1 Hr1 (a' & tr2 & -> & Ha & Ht1). constructor. by apply (IH a a' Ha tr1).
Qed.

(** A call whose answers are alike only when they are equal. *)
Definition plain (e : req) : Prop := match e with ListEvents _ => False | _ => True end.

Lemma plain_equal e a a' : plain e -> alike_answer e a a' -> a = a'.
Proof. by destruct e. Qed.

Lemma mirrors_plain {A} (p : io A) : allows plain p -> mirrors p p.
Proof.
  induction p as [a|m|e k IH]; intros Hp; constructor. intros a a' Ha.
  assert (plain e) as He.
  { pose proof (runs_wp _ _ _ _ (exec_pure_runs (offline 0) (k a)) (Hp a)) as Hk.
    by apply Forall_cons in Hk as [? _]. }
  rewrite (plain_equal e a a' He Ha) in *. apply IH.
  eapply wp_mono; [|apply (Hp a')]. intros tr o [_ H]%Forall_cons. exact H.
Qed.

(** *** Lists of similar things *)
Lemma find_alike {A} (R : A -> A -> Prop) (P : A -> bool) l l' :
  (forall x y, R x y -> P x = P y) -> Forall2 R l l' -> option_Forall2 R (List.find P l) (List.find P l').
Proof.
  intros HP. induction 1 as [|x y l l' Hxy _ IH]; cbn [List.find]; [constructor|].
  rewrite (HP x y Hxy). destruct (P y); [by constructor|done].
Qed.

Lemma omap_alike {A B} (R : A -> A -> Prop) (f : A -> option B) l l' :
  (forall x y, R x y -> f x = f y) -> Forall2 R l l' -> omap f l = omap f l'.
Proof. intros Hf. induction 1 as [|x y l l' Hxy _ IH]; csimpl; [done|]. by rewrite (Hf x y Hxy), IH. Qed.

Lemma fold_alike {A B} (R : A -> A -> Prop) (f : B -> A -> B) l l' b :
  (forall b x y, R x y -> f b x = f b y) -> Forall2 R l l' -> fold_left f l b = fold_left f l' b.
Proof.
  intros Hf Hl. revert b. induction Hl as [|x y l l' Hxy _ IH]; intros b; cbn; [done|].
  by rewrite (Hf b x y Hxy), IH.
Qed.

Lemma existsb_alike {A} (R : A -> A -> Prop) (P : A -> bool) l l' :
  (forall x y, R x y -> P x = P y) -> Forall2 R l l' -> existsb P l = existsb P l'.
Proof. intros HP. induction 1 as [|x y l l' Hxy _ IH]; cbn; [done|]. by rewrite (HP x y Hxy), IH. Qed.

(** *** Conditions *)
Ltac by_fields H := destruct H as [Ht Hs Hr [Hm He]]; rewrite ?Ht, ?Hs, ?Hr, ?Hm, ?He; reflexivity.

Lemma unschedulable_alike max c c' : alike_condition max c c' -> unschedulable c = unschedulable c'.
Proof. intros H. unfold unschedulable. by_fields H. Qed.

Lemma unavailable_alike max c c' : alike_condition max c c' -> unavailable c = unavailable c'.
Proof. intros H. unfold unavailable. by_fields H. Qed.

Lemma condition_is_alike type max c c' :
  alike_condition max c c' -> condition_is type c = condition_is type c'.
Proof. intros H. unfold condition_is. by_fields H. Qed.

Lemma node_error_alike name c c' :
  alike_condition maxConditionMessage c c' -> node_error redactor name c = node_error redactor name c'.
Proof. intros H. unfold node_error, ignored, not_ready, buildNodeConditionText. by_fields H. Qed.

Lemma node_severity_alike cs cs' :
  Forall2 (alike_condition maxConditionMessage) cs cs' -> node_severity cs = node_severity cs'.
Proof.
  induction 1 as [|c c' cs cs' H _ IH]; cbn [node_severity]; [done|]. rewrite IH.
  unfold ignored, not_ready. by_fields H.
Qed.

(** *** Containers *)
Lemma container_error_alike s s' :
  alike_status s s' -> container_error redactor s = container_error redactor s'.
Proof.
  intros [Hn _ Hw Ht Hl]. unfold container_error, buildCrashLoopText, buildWaitingText, terminated_text.
  rewrite Hn. destruct Hw as [w w' [Hr [Hm He]]|].
  - rewrite Hr, Hm, He. destruct (is_waiting_reason _); [|done]. destruct (String.eqb (wait_Reason w') _); [|done].
    by destruct (state_Terminated (cs_LastTerminationState s)), (state_Terminated (cs_LastTerminationState s'));
      simplify_eq/=; rewrite ?Hl.
  - destruct Ht as [t t' [Hc _ [Hm He]]|]; [|done]. by rewrite Hc, Hm, He.
Qed.

Lemma status_severity_alike s s' v : alike_status s s' -> status_severity s v = status_severity s' v.
Proof.
  intros [_ Hr Hw Ht Hl]. unfold status_severity. rewrite Hr.
  destruct Hw as [w w' [-> _]|]; [|by destruct Ht as [t t' [-> -> _]|]].
  destruct (String.eqb _ _); [|done]. destruct (5 <? _); [done|]. by repeat destruct (last_OOMKilled _).
Qed.

Lemma statuses_severity_alike l l' v :
  Forall2 alike_status l l' -> statuses_severity l v = statuses_severity l' v.
Proof.
  intros Hl. revert v. induction Hl as [|s s' l l' H _ IH]; intros v; cbn [statuses_severity]; [done|].
  rewrite (status_severity_alike s s' v H). by destruct (status_severity s' v).
Qed.

(** *** Events *)
Lemma provisioning_failure_alike p ev ev' :
  alike_event ev ev' -> provisioning_failure p ev = provisioning_failure p ev'.
Proof. intros [Hn Hk Hr _ _]. unfold provisioning_failure. by rewrite Hn, Hk, Hr. Qed.

Lemma pvc_text_alike p ev ev' :
  alike_event ev ev' -> pvc_text redactor p (event_Message ev) = pvc_text redactor p (event_Message ev').
Proof. intros [_ _ _ _ [Hm _]]. unfold pvc_text. by rewrite Hm. Qed.

Lemma filter_alike {A} (R : A -> A -> Prop) (P : A -> bool) l l' :
  (forall x y, R x y -> P x = P y) -> Forall2 R l l' -> Forall2 R (List.filter P l) (List.filter P l').
Proof.
  intros HP. induction 1 as [|x y l l' Hxy _ IH]; cbn; [constructor|].
  rewrite (HP x y Hxy). destruct (P y); [by constructor|done].
Qed.

Lemma climb_plain n visited ns kind name refs : allows plain (climb n visited ns kind name refs).
Proof.
  revert visited kind name refs. induction n as [|n IH]; intros visited kind name refs; cbn [climb];
    allows_steps; apply IH.
Qed.

Lemma getParent_plain m kind : allows plain (getParent m kind).
Proof. unfold getParent. destruct (meta_OwnerReferences m); [apply allows_ret|apply climb_plain]. Qed.

(** *** Objects *)
Lemma pod_errors_alike p p' :
  alike (ObjPod p) (ObjPod p') -> pod_errors redactor p = pod_errors redactor p'.
Proof.
  inversion 1 as [? ? _ _ Hp Hc H1 H2| | | | |]; subst. unfold pod_errors, all_statuses, scheduling_error.
  rewrite Hp. f_equal.
  - apply (omap_alike alike_status); [apply container_error_alike|by apply Forall2_app].
  - destruct (String.eqb _ _); [|done].
    destruct (find_alike _ unschedulable _ _ (unschedulable_alike _) Hc) as [c c' Hcc|]; [|done]. by_fields Hcc.
Qed.

Lemma pod_severity_alike p p' :
  alike (ObjPod p) (ObjPod p') -> computePodSeverity p = computePodSeverity p'.
Proof.
  inversion 1 as [? ? _ _ Hp Hc H1 H2| | | | |]; subst. unfold computePodSeverity, all_statuses.
  rewrite (statuses_severity_alike _ (pod_ContainerStatuses p' ++ pod_InitContainerStatuses p')%list)
    by by apply Forall2_app.
  destruct (statuses_severity _ _); [done|]. rewrite Hp. destruct (String.eqb _ _); [|done].
  apply (fold_alike (alike_condition maxSchedulerMessage)); [|done].
  intros b x y Hxy. by rewrite (unschedulable_alike _ x y Hxy).
Qed.

Lemma dep_available_alike m spec n ready cs cs' :
  Forall2 (alike_condition maxConditionMessage) cs cs' ->
  dep_available_error redactor (Build_Deployment m spec n ready cs) =
  dep_available_error redactor (Build_Deployment m spec n ready cs').
Proof.
  intros Hc. unfold dep_available_error. cbn [dep_Conditions dep_Meta].
  destruct (find_alike _ unavailable _ _ (unavailable_alike _) Hc) as [c c' H|]; [|done]. by_fields H.
Qed.

Lemma sts_available_alike m spec ready gen cs cs' :
  Forall2 (alike_condition maxConditionMessage) cs cs' ->
  sts_available_error redactor (Build_StatefulSet m spec ready gen cs) =
  sts_available_error redactor (Build_StatefulSet m spec ready gen cs').
Proof.
  intros Hc. unfold sts_available_error. cbn [sts_Conditions sts_Meta].
  destruct (find_alike _ unavailable _ _ (unavailable_alike _) Hc) as [c c' H|]; [|done]. by_fields H.
Qed.

Lemma job_alike m spec active succeeded failed done cs cs' :
  Forall2 (alike_condition maxConditionMessage) cs cs' ->
  let j := Build_Job m spec (Build_JobStatus active succeeded failed done cs) in
  let j' := Build_Job m spec (Build_JobStatus active succeeded failed done cs') in
  job_excused j = job_excused j' /\ job_errors redactor j = job_errors redactor j'.
Proof.
  intros Hc. cbn zeta. unfold job_excused, job_errors. cbn [job_Status js_Conditions job_Meta js_Failed js_Active js_CompletionTime].
  rewrite (existsb_alike _ (condition_is "Suspended") _ _ (condition_is_alike _ _) Hc). split; [reflexivity|].
  f_equal. destruct (find_alike _ (condition_is "Failed") _ _ (condition_is_alike _ _) Hc) as [c c' H|]; [|reflexivity].
  by_fields H.
Qed.
End Alike.

(** ** The providers on alike objects *)

(** Where the events have their messages, the calls are the same. *)
Lemma alike_objects redactor newest_first extract obj obj' :
  extract ∈ native_providers redactor newest_first -> alike redactor obj obj' -> extract obj = extract obj'.
Proof.
  intros Hin Ha. destruct Ha as [p p' Hm Hs Hp Hc H1 H2|m spec n ready cs cs' Hc|m spec ready gen cs cs' Hc
                                |m cs cs' Hc|m spec active succeeded failed done cs cs' Hc|p];
    repeat (apply elem_of_cons in Hin as [->|Hin]); try (by apply not_elem_of_nil in Hin); try reflexivity.
  1-6: unfold pod_ExtractFinding, deployment_ExtractFinding, pvc_ExtractFinding, node_ExtractFinding,
    statefulset_ExtractFinding, job_ExtractFinding; cbn [obj_Meta go_type]; rewrite Hm; try reflexivity.
  - assert (alike redactor (ObjPod p) (ObjPod p')) as Ha by by constructor.
    by rewrite Hs, (pod_errors_alike redactor _ _ Ha), (pod_severity_alike redactor _ _ Ha).
  - unfold deployment_ExtractFinding. by rewrite (dep_available_alike redactor m spec n ready cs cs' Hc).
  - unfold statefulset_ExtractFinding. by rewrite (sts_available_alike redactor m spec ready gen cs cs' Hc).
  - unfold node_ExtractFinding, computeNodeSeverity. cbn [node_Conditions node_Meta obj_Meta].
    rewrite (omap_alike _ (node_error redactor (meta_Name m)) cs cs' (node_error_alike redactor _) Hc).
    by rewrite (node_severity_alike redactor cs cs' Hc).
  - destruct (job_alike redactor m spec active succeeded failed done cs cs' Hc) as [He Hr].
    unfold job_ExtractFinding. by rewrite He, Hr.
Qed.

(** The order of events is decided by their timestamps alone: lists that agree on
    them are arranged in the same way. *)
Definition sorts_by_time (sort : list EventObj -> list EventObj) : Prop :=
  forall (R : EventObj -> EventObj -> Prop) l l',
    (forall a b, R a b -> event_LastTimestamp a = event_LastTimestamp b) ->
    Forall2 R l l' -> Forall2 R (sort l) (sort l').

Section Providers.
Context (redactor : Redactor) (newest_first : list EventObj -> list EventObj).

Lemma other_providers_plain extract obj :
  extract ∈ native_providers redactor newest_first -> (forall p, obj <> ObjPVC p) ->
  allows plain (extract obj).
Proof.
  intros Hin Hobj. unfold native_providers in Hin.
  repeat (apply elem_of_cons in Hin as [->|Hin]); [..|set_solver];
    unfold pod_ExtractFinding, deployment_ExtractFinding, pvc_ExtractFinding, node_ExtractFinding,
      statefulset_ExtractFinding, job_ExtractFinding, getChainDepthFromOwner, now; allows_steps;
    first [apply getParent_plain|exfalso; by eapply Hobj].
Qed.

Lemma pvc_mirrors pvc :
  sorts_by_time newest_first ->
  mirrors redactor (pvc_ExtractFinding redactor newest_first (ObjPVC pvc))
    (pvc_ExtractFinding redactor newest_first (ObjPVC pvc)).
Proof.
  intros Hsort. unfold pvc_ExtractFinding, now. cbn [bind call]. constructor. intros t ? <-.
  destruct (ShouldSkip _ _); [constructor|]. destruct (negb _); [constructor|].
  unfold latestProvisioningFailedMessage. cbn [bind call]. constructor.
  intros [l|e] [l'|e'] Ha; try contradiction; [|cbn in Ha; subst; constructor].
  pose proof (filter_alike _ (provisioning_failure pvc) _ _ (provisioning_failure_alike redactor pvc) Ha) as Hf.
  pose proof (Hsort _ _ _ (fun a b H => ae_time redactor a b H) Hf) as Hs.
  destruct Hf as [|x y fs fs' Hxy Hfs]; [constructor|]. cbn [bind].
  destruct Hs as [|ev ev' es es' Hev _]; [constructor|]. cbn [bind].
  rewrite (pvc_text_alike redactor pvc ev ev' Hev). apply mirrors_plain.
  allows_steps. apply getParent_plain.
Qed.

Lemma pvc_plain extract pvc :
  extract ∈ native_providers redactor newest_first ->
  extract = pvc_ExtractFinding redactor newest_first \/ allows plain (extract (ObjPVC pvc)).
Proof.
  intros Hin. unfold native_providers in Hin.
  repeat (apply elem_of_cons in Hin as [->|Hin]); [..|set_solver]; try (by left); right;
    unfold pod_ExtractFinding, deployment_ExtractFinding, node_ExtractFinding,
      statefulset_ExtractFinding, job_ExtractFinding, now; allows_steps.
Qed.

Lemma native_mirrors extract obj :
  sorts_by_time newest_first -> extract ∈ native_providers redactor newest_first ->
  mirrors redactor (extract obj) (extract obj).
Proof.
  intros Hsort Hin. destruct obj as [| | |pvc| |];
    try (apply mirrors_plain, other_providers_plain; [done|by intros ? [=]]).
  destruct (pvc_plain extract pvc Hin) as [->|Hp]; [by apply pvc_mirrors|by apply mirrors_plain].
Qed.
End Providers.

(** C22: Findings depend on the messages of the cluster only through what redaction,
    removal of delimiters and truncation make of them, for every native provider: if
    two objects, and the events listed for claims in two traces, differ at most in
    messages with the same cleaned text of which both or none are empty, then a run on
    the one is a run on the other, with the same calls and the same finding. The sort
    of events is assumed to look at timestamps only. *)
Theorem findings_show_only_cleaned_messages redactor newest_first extract obj obj' tr tr' o :
  sorts_by_time newest_first -> extract ∈ native_providers redactor newest_first ->
  alike redactor obj obj' -> alike_trace redactor tr tr' ->
  runs (extract obj) tr o -> runs (extract obj') tr' o.
Proof.
  intros Hsort Hin Ha Ht Hr. rewrite <- (alike_objects _ _ _ _ _ Hin Ha).
  exact (mirrors_runs _ _ _ _ _ _ (native_mirrors _ _ _ _ Hsort Hin) Hr Ht).
Qed.

(** ** Examples *)
Module TextsExample.
(** Patterns without operators. *)
Definition Compile_literal (p : string) : option (string -> redactRule) :=
  Some (fun t => ReplaceAllString (lit p) (tmpl t)).

#[local] Instance literal_laws : ReplaceLaws Compile_literal.
Proof. intros p rw t s [= <-] _. apply ReplaceAllString_splices. Qed.

Definition with_hunter2 : Redactor :=
  {| rules := (builtinRules ++ [ReplaceAllString (lit "hunter2") (tmpl "[REDACTED-CUSTOM]")])%list |}.

Lemma messages_are_redacted_witness :
  Z.of_nat (String.length (clean_message with_hunter2 "hunter2 cannot log in" 500)) <= 500 + 14 /\
  short_runs 40 (Redact with_hunter2 "hunter2 cannot log in") = true /\
  (no_delimiter (Redact with_hunter2 "hunter2 cannot log in") ->
   short_runs 40 (clean_message with_hunter2 "hunter2 cannot log in" 500) = true).
Proof.
  apply (messages_are_redacted Compile_literal ["hunter2"]); [apply literal_laws|reflexivity|lia].
Defined.

Definition failing_with (message : string) : Object :=
  ObjDeployment
    {| dep_Meta := NativeExample.meta "web" "uid-1" []; dep_SpecReplicas := Some 3; dep_StatusReplicas := 3;
       dep_ReadyReplicas := 3;
       dep_Conditions := [{| cond_Type := "Available"; cond_Status := ConditionFalse;
                             cond_Reason := "Crash"; cond_Message := message;
                             cond_LastTransitionTime := 0 |}] |}.

(** The newest event first. *)
Fixpoint insert_event (ev : EventObj) (l : list EventObj) : list EventObj :=
  match l with
  | [] => [ev]
  | x :: l' =>
      if event_LastTimestamp x <? event_LastTimestamp ev then ev :: l else x :: insert_event ev l'
  end.
Definition sort_events (l : list EventObj) : list EventObj := fold_right insert_event [] l.

Lemma sort_events_by_time : sorts_by_time sort_events.
Proof.
  intros R l l' Ht Hl. induction Hl as [|x y l l' Hxy _ IH]; cbn; [constructor|].
  change (Forall2 R (insert_event x (sort_events l)) (insert_event y (sort_events l'))).
  revert IH. generalize (sort_events l) (sort_events l').
  induction 1 as [|a b k k' Hab Hk IHk]; cbn; [by constructor|].
  rewrite (Ht x y Hxy), (Ht a b Hab). destruct (_ <? _); [|by constructor].
  constructor; [done|]. by constructor.
Qed.

Definition claim : PersistentVolumeClaim :=
  {| pvc_Meta := NativeExample.meta "data" "uid-2" []; pvc_Phase := "Pending" |}.

Definition provisioning (message : string) (t : Z) : EventObj :=
  {| event_InvolvedName := "data"; event_InvolvedKind := "PersistentVolumeClaim";
     event_Reason := "ProvisioningFailed"; event_Message := message; event_LastTimestamp := t |}.

Definition reads_events (message message' : string) : trace :=
  [Event (ans := answer) Now 1000;
   Event (ans := answer) (ListEvents (meta_Namespace (pvc_Meta claim)))
     (Ok [provisioning message 10; provisioning message' 20])].

Definition claim_finding : outcome extracted :=
  Done (Ok (Some (mk_finding "PersistentVolumeClaim" "data" (meta_Namespace (pvc_Meta claim))
    "PersistentVolumeClaim/data" ["pvc data: ProvisioningFailed: login with password=[REDACTED] failed"]
    SeverityHigh 0 ""))).

(** A Deployment with two passwords in its condition, and a claim with two in its events. *)
Lemma findings_show_only_cleaned_messages_witness :
  (forall o, runs (deployment_ExtractFinding defaultRedactor (failing_with "login with password=hunter2 failed"))
               [Event (ans := answer) Now 1000] o ->
             runs (deployment_ExtractFinding defaultRedactor (failing_with "login with password=swordfish failed"))
               [Event (ans := answer) Now 1000] o) /\
  runs (pvc_ExtractFinding defaultRedactor sort_events (ObjPVC claim))
    (reads_events "quota exceeded" "login with password=swordfish failed") claim_finding.
Proof.
  split.
  - intros o Ho. eapply (findings_show_only_cleaned_messages defaultRedactor sort_events); [| | | |exact Ho].
    + exact sort_events_by_time.
    + right. left.
    + apply alike_deployment. constructor; [|constructor]. split; [reflexivity..|].
      split; vm_compute; reflexivity.
    + eexists _, _. split; [reflexivity|]. split; reflexivity.
  - eapply (findings_show_only_cleaned_messages defaultRedactor sort_events _ (ObjPVC claim) (ObjPVC claim)
      (reads_events "quota exceeded" "login with password=hunter2 failed")).
    + exact sort_events_by_time.
    + right. right. left.
    + apply alike_pvc.
    + eexists _, _. split; [reflexivity|]. split; [reflexivity|].
      eexists _, _. split; [reflexivity|]. split; [|reflexivity].
      repeat constructor; vm_compute; reflexivity.
    + constructor. constructor. vm_compute. constructor.
Defined.
End TextsExample.
