(* ===== verification/Readiness.v ===== *)
(** * Readiness checkers (src/internal/readiness)
    The probes that gate the creation of RemediationJobs: the Secrets of the
    GitHub App and of the LLM backend, the cache in front of a probe, and the
    conjunction of several.

    A checker with memory is an object on the heap, so checkers share a state
    [S] that a check threads through; a cache lives in one [Slot] of it. *)
From stdpp Require Import base list strings gmap.
From Stdlib Require Import ZArith Lia.
From S2P Require Import Prelude Prog Json K8s Types Effects.
Import GoErr GoStr GoTime GoInt.
Open Scope string_scope.
Open Scope list_scope.
Open Scope Z_scope.
Open Scope go_scope.

(** ** checker.go *)
Record Checker (S : Type) := { Name : string; Check : S -> io (S * res unit) }.
Arguments Name {S} _.
Arguments Check {S} _ _.

(** [errors.Join]: nil without errors. *)
Definition errors_Join (errs : list error) : res unit :=
  match errs with [] => Ok tt | _ => Err (EJoin errs) end.

Definition err_of {A} (r : res A) : list error :=
  match r with Ok _ => [] | Err e => [e] end.

Section Checkers.
Context {S : Type}.

(** The loop of [allChecker.Check].  A cancelled context stays cancelled with
    the same error, so the second [ctx.Err()], of line 53, is the first. *)
Fixpoint all_loop (checkers : list (Checker S)) (errs : list error) (s : S) : io (S * res unit) :=
  match checkers with
  | [] => Ret (s, errors_Join errs)
  | c :: rest =>
      cancelled <- call CtxErr ;;
      match cancelled with
      | Some e => Ret (s, errors_Join (errs ++ [e]))
      | None =>
          '(s1, r) <- Check c s ;;
          all_loop rest (errs ++ err_of r) s1
      end
  end.

Definition All (checkers : list (Checker S)) : Checker S :=
  {| Name := "all"; Check := all_loop checkers [] |}.

Definition NopChecker (name : string) : Checker S :=
  {| Name := name; Check := fun s => Ret (s, Ok tt) |}.

(** ** cache.go *)
Record Cache := { lastCheck : Z; lastErr : res unit }.
Definition empty_cache : Cache := {| lastCheck := zero_time; lastErr := Ok tt |}.

Record Slot := { slot_get : S -> Cache; slot_put : Cache -> S -> S }.

(** The first critical section reads the clock only if a result is stored. *)
Definition stored (ttl : Z) (c : Cache) : bool := (0 <? ttl) && negb (IsZero (lastCheck c)).
Definition fast_path (ttl : Z) (c : Cache) (t : Z) : option (res unit) :=
  if stored ttl c && (Sub t (lastCheck c) <? ttl) then Some (lastErr c) else None.

(** The second critical section stores the result with the time it is stored. *)
Definition store (t : Z) (r : res unit) : Cache := {| lastCheck := t; lastErr := r |}.

Definition probe (slot : Slot) (inner : Checker S) (s : S) : io (S * res unit) :=
  '(s1, r) <- Check inner s ;;
  t <- now ;;
  Ret (slot_put slot (store t r) s1, r).

Definition cached_Check (slot : Slot) (ttl : Z) (inner : Checker S) (s : S) : io (S * res unit) :=
  if stored ttl (slot_get slot s) then
    t <- now ;;
    match fast_path ttl (slot_get slot s) t with
    | Some r => Ret (s, r)
    | None => probe slot inner s
    end
  else probe slot inner s.

Definition NewCachedChecker (slot : Slot) (inner : Checker S) (ttl : Z) : Checker S :=
  {| Name := Name inner; Check := cached_Check slot ttl inner |}.

(** ** Secrets: sink/github.go and llm/openai.go *)

(** [%q] of a name without characters that need escaping, as the names of
    Kubernetes objects are. *)
Definition quoted (s : string) : string := dq +:+ s +:+ dq.

Definition key_missing (data : gmap string string) (k : string) : bool :=
  match data !! k with Some v => String.eqb v "" | None => true end.

Definition secret_Check (prefix namespace secretName : string) (keys : list string) (s : S) :
    io (S * res unit) :=
  got <- call (GetSecret namespace secretName) ;;
  match got with
  | Err e =>
      Ret (s, Err (EWrap (prefix +:+ ": secret " +:+ quoted secretName +:+ " not found in namespace "
                          +:+ quoted namespace +:+ ": ") e))
  | Ok secret =>
      match List.find (key_missing (secret_Data secret)) keys with
      | Some k => Ret (s, Err (EMsg (prefix +:+ ": secret " +:+ quoted secretName
                                     +:+ " is missing required key " +:+ quoted k)))
      | None => Ret (s, Ok tt)
      end
  end.

Definition githubAppSecretName : string := "github-app".
Definition requiredGitHubAppKeys : list string := ["app-id"; "installation-id"; "private-key"].
Definition GitHubAppChecker (namespace : string) : Checker S :=
  {| Name := "sink/github-app";
     Check := secret_Check "sink/github-app" namespace githubAppSecretName requiredGitHubAppKeys |}.

Definition requiredLLMKeys : list string := ["provider-config"].
Definition OpenAIChecker (namespace agentType : string) : Checker S :=
  {| Name := "llm/openai";
     Check := secret_Check "llm/openai" namespace ("llm-credentials-" +:+ agentType) requiredLLMKeys |}.

(** llm/vertex.go and llm/bedrock.go are stubs. *)
Definition VertexChecker : Checker S :=
  {| Name := "llm/vertex";
     Check := fun s => Ret (s, Err (EMsg "llm/vertex: checker not yet implemented")) |}.
Definition BedrockChecker : Checker S :=
  {| Name := "llm/bedrock";
     Check := fun s => Ret (s, Err (EMsg "llm/bedrock: checker not yet implemented")) |}.
End Checkers.
Arguments Slot S : clear implicits.

(** ** Properties *)
Section Props.
Context {S : Type}.

(** [each_ran cs s tr s' errs]: in the trace [tr] the checkers [cs] ran one
    after the other, none of them under a cancelled context, and failed with
    the errors [errs]. *)
Inductive each_ran : list (Checker S) -> S -> trace -> S -> list error -> Prop :=
| ran_none s : each_ran [] s [] s []
| ran_one c cs s s1 s' r tr1 tr2 errs :
    runs (Check c s) tr1 (Done (s1, r)) -> each_ran cs s1 tr2 s' errs ->
    each_ran (c :: cs) s (Event (ans := answer) CtxErr None :: tr1 ++ tr2) s' (err_of r ++ errs).

Definition cancelled (ev : event answer) : Prop :=
  exists e, ev = Event (ans := answer) CtxErr (Some e).

Lemma all_loop_ran cs errs s :
  (forall c s, c ∈ cs -> yields (fun _ => True) (Check c s)) ->
  wp (all_loop cs errs s) (fun tr o =>
    exists s' es, o = Done (s', errors_Join (errs ++ es)) /\
      ((Exists cancelled tr /\ es <> []) \/ each_ran cs s tr s' es)).
Proof.
  intros Hy. revert errs s. induction cs as [|c cs IH]; intros errs s; cbn [all_loop].
  { exists s, []. split; [by rewrite app_nil_r|]. right. constructor. }
  cbn [bind call]. intros [e|].
  { exists s, [e]. split; [done|]. left. split; [|done]. left. by exists e. }
  apply wp_bind. apply wp_runs. intros tr1 o1 Hr.
  destruct (yields_runs _ _ _ _ (Hy c s ltac:(left)) Hr) as ([s1 r] & -> & _).
  eapply wp_mono; [|apply IH; intros c' s'' Hc'; apply Hy; by right].
  intros tr2 o2 (s' & es & -> & H). exists s', (err_of r ++ es). rewrite (assoc_L app).
  split; [done|]. destruct H as [[Hx Hne]|Hran].
  - left. split; [right; apply Exists_app; by right|].
    intros [_ ?]%app_eq_nil. done.
  - right. by econstructor.
Qed.

(** Unless its context is cancelled, All runs every checker in order and fails with
    exactly the errors of those that failed, so it passes iff every checker passes;
    under a cancelled context it fails. *)
Theorem all_passes_iff_every_checker_passes cs s tr o :
  (forall c s, c ∈ cs -> yields (fun _ => True) (Check c s)) ->
  runs (Check (All cs) s) tr o ->
  exists s' r, o = Done (s', r) /\
    ((Exists cancelled tr /\ is_ok r = false) \/
     exists errs, each_ran cs s tr s' errs /\ r = errors_Join errs /\
       (r = Ok tt <-> errs = [])).
Proof.
  intros Hy Hr. destruct (runs_wp _ _ _ _ Hr (all_loop_ran cs [] s Hy)) as (s' & es & -> & H).
  exists s', (errors_Join es). split; [done|]. destruct H as [[Hx Hne]|Hran].
  - left. split; [done|]. by destruct es.
  - right. exists es. do 2 (split; [done|]). by destruct es.
Qed.

(** *** The cache *)
Lemma cached_Check_cases (slot : Slot S) ttl inner s :
  yields (fun _ => True) (Check inner s) ->
  wp (cached_Check slot ttl inner s) (fun tr o => exists s' r, o = Done (s', r) /\
    ((exists t, tr = [Event (ans := answer) Now t] /\ s' = s /\ fast_path ttl (slot_get slot s) t = Some r) \/
     (exists tr0 tr1 t s1, tr = tr0 ++ tr1 ++ [Event (ans := answer) Now t] /\ every (eq Now) tr0 /\
        runs (Check inner s) tr1 (Done (s1, r)) /\ s' = slot_put slot (store t r) s1))).
Proof.
  intros Hy.
  assert (forall tr0, every (eq Now) tr0 ->
    wp (probe slot inner s) (fun tr o => exists s' r, o = Done (s', r) /\
      exists tr1 t s1, tr0 ++ tr = tr0 ++ tr1 ++ [Event (ans := answer) Now t] /\
        runs (Check inner s) tr1 (Done (s1, r)) /\ s' = slot_put slot (store t r) s1)) as Hprobe.
  { intros tr0 H0. unfold probe. apply wp_bind, wp_runs. intros tr1 o1 Hr.
    destruct (yields_runs _ _ _ _ Hy Hr) as ([s1 r] & -> & _).
    cbn [bind call now]. intros t. exists (slot_put slot (store t r) s1), r. split; [done|].
    exists tr1, t, s1. done. }
  unfold cached_Check. destruct (stored ttl (slot_get slot s)) eqn:Es.
  - cbn [bind call now]. intros t. destruct (fast_path ttl _ t) as [r|] eqn:Ef.
    + exists s, r. split; [done|]. left. exists t. done.
    + assert (every (eq Now) [Event (ans := answer) Now t]) as H0 by by repeat constructor.
      eapply wp_mono; [|exact (Hprobe _ H0)]. intros tr o (s' & r & -> & tr1 & t' & s1 & Htr & Hr & ->).
      exists (slot_put slot (store t' r) s1), r. split; [done|]. right.
      exists [Event (ans := answer) Now t], tr1, t', s1. done.
  - eapply wp_mono; [|exact (Hprobe [] (every_nil _))].
    intros tr o (s' & r & -> & tr1 & t' & s1 & Htr & Hr & ->).
    exists (slot_put slot (store t' r) s1), r. split; [done|]. right.
    exists [], tr1, t', s1. split; [exact Htr|]. split; [apply every_nil|done].
Qed.
End Props.

(** *** A cache that many reconciles share
    The mutex is released while the inner check runs, so what other goroutines
    see of a check is one of two atomic steps: a stored result was served, or a
    probe that ran outside the lock was stored. *)
Inductive label := Served (t : Z) (r : res unit) | Probed (t : Z) (r : res unit).

Definition verdict (l : label) : res unit := match l with Served _ r | Probed _ r => r end.
Definition probed (l : label) : option (Z * res unit) :=
  match l with Served _ _ => None | Probed t r => Some (t, r) end.

Inductive cache_step (ttl : Z) : Cache -> label -> Cache -> Prop :=
| step_serve c t r : fast_path ttl c t = Some r -> cache_step ttl c (Served t r) c
| step_store c t r : cache_step ttl c (Probed t r) (store t r).

(** Any interleaving of the steps of any number of checks, latest first. *)
Inductive cache_history (ttl : Z) : list label -> Cache -> Prop :=
| history_new : cache_history ttl [] empty_cache
| history_step ls c l c' :
    cache_history ttl ls c -> cache_step ttl c l c' -> cache_history ttl (l :: ls) c'.

(** A checker that owns its cache. *)
Definition own_slot : Slot Cache := {| slot_get := id; slot_put := fun c _ => c |}.

Lemma history_cache ttl ls c :
  cache_history ttl ls c ->
  match omap probed ls with
  | [] => c = empty_cache
  | (t0, r) :: _ => c = store t0 r
  end.
Proof.
  induction 1 as [|ls c l c' _ IH Hs]; [done|].
  destruct Hs as [c t r _|c t r]; cbn [omap list_omap probed]; [exact IH|done].
Qed.

(** C40: In any interleaving of the steps of concurrent checks, a cached checker
    serves a stored result exactly when it is the last one stored and younger than the
    TTL; and every Check either serves the cache or stores and returns what the inner
    check returned. *)
Theorem cached_verdicts_are_fresh ttl ls c :
  cache_history ttl ls c -> 0 < ttl -> in_int64 ttl ->
  (forall t r, fast_path ttl c t = Some r <->
     exists t0, head (omap probed ls) = Some (t0, r) /\ t0 <> zero_time /\ t - t0 < ttl) /\
  (forall inner tr o, yields (fun _ => True) (Check inner c) ->
     runs (Check (NewCachedChecker own_slot inner ttl) c) tr o ->
     exists l c', o = Done (c', verdict l) /\ cache_step ttl c l c' /\
       (forall t r, l = Probed t r -> exists tr1 c1, runs (Check inner c) tr1 (Done (c1, r)))).
Proof.
  intros Hh Hpos Hr. split.
  - pose proof (history_cache _ _ _ Hh) as Hc. intros t r. unfold fast_path, stored.
    destruct (omap probed ls) as [|[t0 r0] rest]; subst c; cbn [lastCheck lastErr store empty_cache head].
    { cbn. rewrite andb_false_r. split; [done|]. by intros (? & ? & _). }
    rewrite (proj2 (Z.ltb_lt 0 ttl) Hpos). unfold IsZero. cbn [andb].
    destruct (Z.eqb_spec t0 zero_time) as [->|Hz]; cbn [negb andb].
    { split; [done|]. by intros (? & [= <- <-] & Hz & _). }
    destruct (Z.ltb_spec (Sub t t0) ttl) as [Hl|Hl].
    + apply Sub_lt_iff in Hl; [|done|unfold min_int64; lia]. split; [|by intros (? & [= <- <-] & _)].
      intros [= <-]. by exists t0.
    + split; [done|]. intros (? & [= <- <-] & _ & Hlt).
      apply Sub_lt_iff in Hlt; [lia|done|unfold min_int64; lia].
  - intros inner tr o Hy Hrun.
    destruct (runs_wp _ _ _ _ Hrun (cached_Check_cases own_slot ttl inner c Hy)) as (c' & r & -> & H).
    destruct H as [(t & _ & -> & Hf)|(tr0 & tr1 & t & c1 & _ & _ & Hin & ->)].
    + exists (Served t r), c. split; [done|]. split; [by constructor|done].
    + exists (Probed t r), (store t r). split; [done|]. split; [by constructor|].
      intros t' r' [= <- <-]. eauto.
Qed.

(** *** Secrets *)
Definition has_keys (keys : list string) (sec : Secret) : Prop :=
  Forall (fun k => exists v, secret_Data sec !! k = Some v /\ v <> "") keys.

Lemma has_keys_find keys sec :
  List.find (key_missing (secret_Data sec)) keys = None <-> has_keys keys sec.
Proof.
  unfold has_keys. induction keys as [|k keys IH]; cbn [List.find]; [by split; [constructor|]|].
  rewrite Forall_cons, <- IH. unfold key_missing at 1.
  destruct (secret_Data sec !! k) as [v|]; [|split; [done|by intros ((? & ? & _) & _)]].
  destruct (String.eqb_spec v "") as [->|Hv].
  - split; [done|]. by intros ((? & [= <-] & ?) & _).
  - split; [intros H|by intros [_ H]]. split; [eauto|done].
Qed.

Lemma secret_Check_spec {S} prefix ns name keys (s : S) :
  wp (secret_Check prefix ns name keys s) (fun tr o =>
    exists got r, tr = [Event (ans := answer) (GetSecret ns name) got] /\ o = Done (s, r) /\
    (r = Ok tt <-> exists sec, got = Ok sec /\ has_keys keys sec)).
Proof.
  unfold secret_Check. cbn [bind call]. intros [sec|e].
  - pose proof (has_keys_find keys sec) as Hk.
    destruct (List.find _ keys); cbn [wp]; eexists _, _; (split; [done|]); (split; [done|]).
    + split; [done|]. intros (sec' & [= <-] & H). by apply Hk in H.
    + split; [|done]. intros _. exists sec. split; [done|]. by apply Hk.
  - cbn [wp]. eexists _, _. split; [done|]. split; [done|]. split; [done|]. by intros (? & ? & _).
Qed.

Lemma secret_Check_yields {S} prefix ns name keys (s : S) :
  yields (fun _ => True) (secret_Check prefix ns name keys s).
Proof.
  eapply wp_mono; [|apply secret_Check_spec]. by intros tr o (got & r & -> & -> & _).
Qed.

(** ** Concrete runs *)
Definition no_secret : handler answer := offline 7.

Lemma all_passes_iff_every_checker_passes_witness :
  let cs := [NopChecker "sink"; OpenAIChecker "mechanic" "opencode"] in
  let run := exec_pure no_secret (Check (All cs) tt) in
  exists s' r, run.2 = Done (s', r) /\
    ((Exists cancelled run.1 /\ is_ok r = false) \/
     exists errs, each_ran cs tt run.1 s' errs /\ r = errors_Join errs /\ (r = Ok tt <-> errs = [])).
Proof.
  apply (all_passes_iff_every_checker_passes [NopChecker "sink"; OpenAIChecker "mechanic" "opencode"] tt).
  - intros c s [->|[->|[]%not_elem_of_nil]%elem_of_cons]%elem_of_cons; [done|].
    apply secret_Check_yields.
  - apply exec_pure_runs.
Defined.

Lemma cached_verdicts_are_fresh_witness :
  (forall t r, fast_path (60 * second) (store 5 (Ok tt)) t = Some r <->
     exists t0, head (omap probed [Probed 5 (Ok tt)]) = Some (t0, r) /\ t0 <> zero_time /\
       t - t0 < 60 * second) /\
  (forall inner tr o, yields (fun _ => True) (Check inner (store 5 (Ok tt))) ->
     runs (Check (NewCachedChecker own_slot inner (60 * second)) (store 5 (Ok tt))) tr o ->
     exists l c', o = Done (c', verdict l) /\ cache_step (60 * second) (store 5 (Ok tt)) l c' /\
       (forall t r, l = Probed t r ->
          exists tr1 c1, runs (Check inner (store 5 (Ok tt))) tr1 (Done (c1, r)))).
Proof.
  apply (cached_verdicts_are_fresh (60 * second) [Probed 5 (Ok tt)] (store 5 (Ok tt))).
  - eapply history_step; [apply history_new|]. constructor.
  - reflexivity.
  - unfold in_int64, min_int64, max_int64. vm_compute. split; discriminate.
Defined.
