(* ===== verification/GitHub.v ===== *)
(** * GitHub (src/internal/github, src/internal/sink/github, src/internal/domain/sink.go)
    The installation token of the GitHub App with its cache, the closer of pull
    requests and issues, and the merge checker; and the two implementations that
    do nothing, for a watcher without GitHub credentials.

    As with the readiness checkers, a token provider has memory: [S] is the
    state the operations thread through.  HTTP exchanges are calls of the
    environment; net/http, encoding/json's error texts and golang-jwt are not
    code of this repository. *)
From stdpp Require Import base list strings gmap.
From Stdlib Require Import ZArith Lia.
From S2P Require Import Prelude Prog Utf8 Json K8s Types Effects Metrics.
Import GoErr GoStr GoTime GoInt.
Open Scope string_scope.
Open Scope list_scope.
Open Scope Z_scope.
Open Scope go_scope.

Definition default_base (base : string) : string :=
  if String.eqb base "" then "https://api.github.com" else base.

Definition bearer (token : string) : string * string := ("Authorization", "Bearer " +:+ token).
Definition accept : string * string := ("Accept", "application/vnd.github+json").
Definition json_body : string * string := ("Content-Type", "application/json").

(** ** token.go *)
Record TokenProvider (S : Type) := { Token : S -> io (S * res string) }.
Arguments Token {S} _ _.

Definition tokenCacheTTL : Z := 55 * minute.

Record GitHubAppTokenProvider := { AppID : Z; InstallationID : Z; tp_BaseURL : string }.
Record TokenState := { cachedToken : string; expiresAt : Z }.
Definition no_token : TokenState := {| cachedToken := ""; expiresAt := zero_time |}.

Definition token_request (p : GitHubAppTokenProvider) (signed : string) : http_request :=
  {| rq_Method := "POST";
     rq_URL := default_base (tp_BaseURL p) +:+ "/app/installations/" +:+ itoa (InstallationID p)
               +:+ "/access_tokens";
     rq_Headers := [bearer signed; accept]; rq_Body := "" |}.

Definition exchange (p : GitHubAppTokenProvider) : io (res string) :=
  t <- now ;;
  signed <- call (SignJWT (itoa (AppID p)) (Add t (-60 * second)) (Add t (10 * minute))) ;;
  match signed with
  | Err e => Ret (Err (EWrap "signing JWT: " e))
  | Ok jwt =>
      let rq := token_request p jwt in
      built <- call (NewRequest (rq_Method rq) (rq_URL rq)) ;;
      match built with
      | Err e => Ret (Err (EWrap "building token request: " e))
      | Ok _ =>
          got <- call (HTTPDo rq) ;;
          match got with
          | Err e => Ret (Err (EWrap "token exchange request: " e))
          | Ok resp =>
              if negb (rs_Status resp =? 201) then
                Ret (Err (EMsg ("token exchange: unexpected status " +:+ itoa (rs_Status resp))))
              else match DecodeField "token" (rs_Body resp) with
                   | None => Ret (Err (EMsg "decoding token response"))
                   | Some tok =>
                       if String.eqb tok "" then
                         Ret (Err (EMsg "token exchange: empty token in response"))
                       else Ret (Ok tok)
                   end
          end
      end
  end.

Definition renew (p : GitHubAppTokenProvider) (s : TokenState) : io (TokenState * res string) :=
  r <- exchange p ;;
  match r with
  | Err e => Ret (s, Err e)
  | Ok tok =>
      t <- now ;;
      Ret ({| cachedToken := tok; expiresAt := Add t tokenCacheTTL |}, Ok tok)
  end.

Definition app_Token (p : GitHubAppTokenProvider) (s : TokenState) : io (TokenState * res string) :=
  if negb (String.eqb (cachedToken s) "") then
    t <- now ;;
    if Before t (expiresAt s) then Ret (s, Ok (cachedToken s)) else renew p s
  else renew p s.

Definition ForceExpiry (s : TokenState) : io TokenState :=
  t <- now ;;
  Ret {| cachedToken := cachedToken s; expiresAt := Add t (- second) |}.

Definition app_provider (p : GitHubAppTokenProvider) : TokenProvider TokenState :=
  {| Token := app_Token p |}.

Section Sink.
Context {S : Type} (tp : TokenProvider S) (BaseURL : string).

(** ** closer.go *)
Definition base : string := default_base BaseURL.

Definition issue_url (repo : string) (number : Z) : string :=
  base +:+ "/repos/" +:+ repo +:+ "/issues/" +:+ itoa number.
Definition pull_url (repo : string) (number : Z) : string :=
  base +:+ "/repos/" +:+ repo +:+ "/pulls/" +:+ itoa number.

Definition state_request (token repo : string) (number : Z) : http_request :=
  {| rq_Method := "GET"; rq_URL := issue_url repo number; rq_Headers := [bearer token; accept];
     rq_Body := "" |}.

(** [json.Marshal(map[string]string{k: v})]. *)
Definition marshal1 (k v : string) : string :=
  "{" +:+ enc_string true k +:+ ":" +:+ enc_string true v +:+ "}".

Definition comment_request (token repo : string) (number : Z) (body : string) : http_request :=
  {| rq_Method := "POST"; rq_URL := issue_url repo number +:+ "/comments";
     rq_Headers := [bearer token; accept; json_body]; rq_Body := marshal1 "body" body |}.

Definition close_request (token repo : string) (number : Z) (sinkType : string) : http_request :=
  {| rq_Method := "PATCH";
     rq_URL := if String.eqb sinkType "pr" then pull_url repo number else issue_url repo number;
     rq_Headers := [bearer token; accept; json_body]; rq_Body := marshal1 "state" "closed" |}.

(** [http.NewRequestWithContext] and [hc.Do], with the texts their errors are
    wrapped in. *)
Definition send (building doing : string) (rq : http_request) : io (res http_response) :=
  built <- call (NewRequest (rq_Method rq) (rq_URL rq)) ;;
  match built with
  | Err e => Ret (Err (EWrap building e))
  | Ok _ =>
      got <- call (HTTPDo rq) ;;
      match got with
      | Err e => Ret (Err (EWrap doing e))
      | Ok resp => Ret (Ok resp)
      end
  end.

Definition isClosed (token repo : string) (number : Z) : io (res bool) :=
  got <- send "building state request: " "fetching issue state: " (state_request token repo number) ;;
  match got with
  | Err e => Ret (Err e)
  | Ok resp =>
      if negb (rs_Status resp =? 200) then
        Ret (Err (EMsg ("fetching issue state: unexpected status " +:+ itoa (rs_Status resp))))
      else match DecodeField "state" (rs_Body resp) with
           | None => Ret (Err (EMsg "decoding issue state"))
           | Some st => Ret (Ok (String.eqb st "closed"))
           end
  end.

Definition postComment (token repo : string) (number : Z) (body : string) : io (res unit) :=
  got <- send "building comment request: " "posting comment: " (comment_request token repo number body) ;;
  match got with
  | Err e => Ret (Err e)
  | Ok resp =>
      if rs_Status resp =? 201 then Ret (Ok tt)
      else Ret (Err (EMsg ("posting comment: unexpected status " +:+ itoa (rs_Status resp))))
  end.

Definition closeItem (token repo : string) (number : Z) (sinkType : string) : io (res unit) :=
  got <- send "building close request: " ("closing " +:+ sinkType +:+ ": ")
           (close_request token repo number sinkType) ;;
  match got with
  | Err e => Ret (Err e)
  | Ok resp =>
      if (rs_Status resp =? 200) || (rs_Status resp =? 422) then Ret (Ok tt)
      else Ret (Err (EMsg ("closing " +:+ sinkType +:+ ": unexpected status " +:+ itoa (rs_Status resp))))
  end.

(** Lines 66-86, once there is a token. *)
Definition close_with (token reason : string) (ref : SinkRef) : io (res unit) :=
  state <- isClosed token (sink_Repo ref) (sink_Number ref) ;;
  let already := match state with Ok b => b | Err _ => false end in
  if already then Ret (Ok tt)
  else
    _ <- postComment token (sink_Repo ref) (sink_Number ref) reason ;;
    closed <- closeItem token (sink_Repo ref) (sink_Number ref) (sink_Type ref) ;;
    match closed with
    | Err e => Ret (Err e)
    | Ok _ => RecordPRClosed ;;; Ret (Ok tt)
    end.

Definition Close (rjob : RemediationJob) (reason : string) (s : S) : io (S * res unit) :=
  let ref := st_SinkRef (rj_Status rjob) in
  if String.eqb (sink_URL ref) "" then Ret (s, Ok tt)
  else if sink_Number ref <=? 0 then
    Ret (s, Err (EMsg ("SinkRef.Number must be > 0, got " +:+ itoa (sink_Number ref) +:+ " (sinkRef.url="
                       +:+ sink_URL ref +:+ ")")))
  else if String.eqb (sink_Repo ref) "" then
    Ret (s, Err (EMsg ("SinkRef.Repo must not be empty (sinkRef.url=" +:+ sink_URL ref +:+ ")")))
  else
    '(s1, got) <- Token tp s ;;
    match got with
    | Err e => Ret (s1, Err (EWrap "getting GitHub token: " e))
    | Ok token => r <- close_with token reason ref ;; Ret (s1, r)
    end.

(** ** merge_checker.go *)
Definition merge_request (token : string) (ref : SinkRef) : http_request :=
  {| rq_Method := "GET"; rq_URL := pull_url (sink_Repo ref) (sink_Number ref) +:+ "/merge";
     rq_Headers := [bearer token; accept]; rq_Body := "" |}.

Definition merged_with (token : string) (ref : SinkRef) : io (res bool) :=
  got <- send "IsMerged: building request: " "IsMerged: executing request: " (merge_request token ref) ;;
  match got with
  | Err e => Ret (Err e)
  | Ok resp =>
      if rs_Status resp =? 204 then Ret (Ok true)
      else if rs_Status resp =? 404 then Ret (Ok false)
      else Ret (Err (EMsg ("IsMerged: unexpected status " +:+ itoa (rs_Status resp) +:+ " for "
                           +:+ rq_URL (merge_request token ref))))
  end.

Definition IsMerged (ref : SinkRef) (s : S) : io (S * res bool) :=
  if String.eqb (sink_URL ref) "" || negb (String.eqb (sink_Type ref) "pr") then Ret (s, Ok false)
  else if sink_Number ref <=? 0 then
    Ret (s, Err (EMsg ("IsMerged: SinkRef.Number must be > 0, got " +:+ itoa (sink_Number ref))))
  else if String.eqb (sink_Repo ref) "" then
    Ret (s, Err (EMsg "IsMerged: SinkRef.Repo must not be empty"))
  else
    '(s1, got) <- Token tp s ;;
    match got with
    | Err e => Ret (s1, Err (EWrap "IsMerged: getting GitHub token: " e))
    | Ok token => r <- merged_with token ref ;; Ret (s1, r)
    end.
End Sink.

(** ** domain/sink.go *)
Definition NoopClose {S} (rjob : RemediationJob) (reason : string) (s : S) : io (S * res unit) :=
  Ret (s, Ok tt).
Definition NoopIsMerged {S} (ref : SinkRef) (s : S) : io (S * res bool) := Ret (s, Ok false).
