(* ===== verification/GitHubProps.v ===== *)
(** * Properties of the GitHub sink
    The token cache hands out only tokens it got from GitHub, for at most 55
    minutes each; closing a sink is one query, at most one comment and at most
    one closing request, in this order, to the item of the SinkRef and nothing
    else, and nothing at all for an item that is already closed; a PR counts as
    merged only on the answer that says so. *)
From stdpp Require Import base list strings gmap.
From Stdlib Require Import ZArith Lia.
From S2P Require Import Prelude Prog Utf8 Json K8s Types Effects Metrics GitHub.
Import GoErr GoStr GoTime GoInt.
Open Scope string_scope.
Open Scope list_scope.
Open Scope Z_scope.
Open Scope go_scope.

(** ** HTTP exchanges of a trace *)
Definition http_of (ev : event answer) : option (http_request * res http_response) :=
  match ev with
  | Event e r =>
      match e return answer e -> option (http_request * res http_response) with
      | HTTPDo rq => fun a => Some (rq, a)
      | _ => fun _ => None
      end r
  end.
Definition https (tr : trace) : list (http_request * res http_response) := omap http_of tr.

(** How often the closure of a sink was counted. *)
Definition closure_of (ev : event answer) : option unit :=
  match ev_call ev with Metric PRsClosed => Some tt | _ => None end.
Definition closures (tr : trace) : nat := List.length (omap closure_of tr).

Lemma https_app tr1 tr2 : https (tr1 ++ tr2) = https tr1 ++ https tr2.
Proof. apply omap_app. Qed.
Lemma closures_app tr1 tr2 : closures (tr1 ++ tr2) = (closures tr1 + closures tr2)%nat.
Proof. unfold closures. by rewrite omap_app, length_app. Qed.

(** A request that was sent at most once. *)
Definition sent (rq : http_request) (a : option (res http_response)) :
    list (http_request * res http_response) :=
  match a with Some r => [(rq, r)] | None => [] end.

Definition answered (a : option (res http_response)) : option http_response :=
  match a with Some (Ok resp) => Some resp | _ => None end.

Lemma send_spec building doing rq :
  wp (send building doing rq) (fun tr o => exists a got, o = Done got /\
    https tr = sent rq a /\ closures tr = 0%nat /\
    match answered a with Some resp => got = Ok resp | None => is_ok got = false end).
Proof.
  unfold send. cbn [bind call]. intros [u|e].
  - intros [resp|e]; cbn [wp]; [exists (Some (Ok resp))|exists (Some (Err e))]; by eexists.
  - exists None. by eexists.
Qed.

Section Sink.
Context {S : Type} (tp : TokenProvider S) (BaseURL : string).
Hypothesis token_total : forall s, yields (fun _ => True) (Token tp s).

(** ** Closing *)
Definition says_closed (a : option (res http_response)) : bool :=
  match answered a with
  | Some resp => (rs_Status resp =? 200) &&
                 bool_decide (DecodeField "state" (rs_Body resp) = Some "closed")
  | None => false
  end.
Definition accepts_close (a : option (res http_response)) : bool :=
  match answered a with
  | Some resp => (rs_Status resp =? 200) || (rs_Status resp =? 422)
  | None => false
  end.

(** A request and its answer [a] were all that happened. *)
Ltac gives a Ea :=
  exists a; eexists; rewrite app_nil_r; (split; [done|]); (split; [done|]); (split; [done|]); try rewrite Ea.

Lemma isClosed_spec token repo number :
  wp (isClosed BaseURL token repo number) (fun tr o => exists a r, o = Done r /\
    https tr = sent (state_request BaseURL token repo number) a /\ closures tr = 0%nat /\
    match r with Ok b => b | Err _ => false end = says_closed a).
Proof.
  unfold isClosed. apply wp_bind. eapply wp_mono; [|apply send_spec].
  intros tr o (a & got & -> & Ht & Hc & Ha). unfold says_closed.
  destruct (answered a) as [resp|] eqn:Ea; [subst got|destruct got; [done|]; by gives a Ea].
  destruct (rs_Status resp =? 200) eqn:Es; cbn [negb]; [|gives a Ea; by rewrite Es].
  destruct (DecodeField "state" (rs_Body resp)) as [st|] eqn:Ed; gives a Ea; rewrite Es, Ed; cbn [andb].
  - destruct (String.eqb_spec st "closed") as [->|]; by case_bool_decide; simplify_eq.
  - by case_bool_decide.
Qed.

Lemma postComment_spec token repo number body :
  wp (postComment BaseURL token repo number body) (fun tr o => exists a r, o = Done r /\
    https tr = sent (comment_request BaseURL token repo number body) a /\ closures tr = 0%nat).
Proof.
  unfold postComment. apply wp_bind. eapply wp_mono; [|apply send_spec].
  intros tr o (a & got & -> & Ht & Hc & Ha).
  destruct got as [resp|e]; [destruct (_ =? 201)|]; exists a; eexists; rewrite app_nil_r; done.
Qed.

Lemma closeItem_spec token repo number ty :
  wp (closeItem BaseURL token repo number ty) (fun tr o => exists a r, o = Done r /\
    https tr = sent (close_request BaseURL token repo number ty) a /\ closures tr = 0%nat /\
    is_ok r = accepts_close a).
Proof.
  unfold closeItem. apply wp_bind. eapply wp_mono; [|apply send_spec].
  intros tr o (a & got & -> & Ht & Hc & Ha). unfold accepts_close.
  destruct (answered a) as [resp|] eqn:Ea; [subst got|destruct got; [done|]; by gives a Ea].
  destruct (_ || _) eqn:E; gives a Ea; by rewrite E.
Qed.

(** What [close_with] did, in the exchanges of [tr], to end with [r]. *)
Definition closing (token reason : string) (ref : SinkRef) (tr : trace) (r : res unit) : Prop :=
  exists a1 a2 a3,
    https tr = sent (state_request BaseURL token (sink_Repo ref) (sink_Number ref)) a1
               ++ sent (comment_request BaseURL token (sink_Repo ref) (sink_Number ref) reason) a2
               ++ sent (close_request BaseURL token (sink_Repo ref) (sink_Number ref) (sink_Type ref)) a3 /\
    if says_closed a1 then a2 = None /\ a3 = None /\ r = Ok tt /\ closures tr = 0%nat
    else is_ok r = accepts_close a3 /\ closures tr = (if is_ok r then 1 else 0)%nat.

Lemma close_with_spec token reason ref :
  wp (close_with BaseURL token reason ref) (fun tr o => exists r, o = Done r /\
    closing token reason ref tr r).
Proof.
  unfold close_with, closing. apply wp_bind. eapply wp_mono; [|apply isClosed_spec].
  intros tr1 o1 (a1 & st & -> & H1 & C1 & Hst). cbv zeta. rewrite Hst.
  destruct (says_closed a1) eqn:E1.
  { eexists. split; [done|]. exists a1, None, None. rewrite app_nil_r, E1, H1. by rewrite app_nil_r. }
  apply wp_bind. eapply wp_mono; [|apply postComment_spec]. intros tr2 o2 (a2 & r2 & -> & H2 & C2).
  apply wp_bind. eapply wp_mono; [|apply closeItem_spec]. intros tr3 o3 (a3 & r3 & -> & H3 & C3 & Hok).
  destruct r3 as [u|e]; [unfold RecordPRClosed, metric_inc; cbn [bind call]; intros []|];
    (eexists; split; [done|]); exists a1, a2, a3; rewrite E1, !https_app, !closures_app, H1, H2, H3, C1, C2, C3;
    cbn [https omap list_omap http_of]; rewrite ?app_nil_r; done.
Qed.

(** C32: Close does nothing for an empty URL, fails without any request for an invalid
    reference, and otherwise sends at most one state query, then at most one comment,
    then at most one closing request, to the item of the SinkRef; an item reported
    closed is left alone, and otherwise Close succeeds, and counts the closure once,
    exactly when GitHub answers the closing request with 200 or 422. *)
Theorem sinks_are_closed_once rjob reason s tr o :
  runs (Close tp BaseURL rjob reason s) tr o ->
  let ref := st_SinkRef (rj_Status rjob) in
  (sink_URL ref = "" /\ tr = [] /\ o = Done (s, Ok tt)) \/
  (sink_URL ref <> "" /\ (sink_Number ref <= 0 \/ sink_Repo ref = "") /\ tr = [] /\
     exists e, o = Done (s, Err e)) \/
  (sink_URL ref <> "" /\ 0 < sink_Number ref /\ sink_Repo ref <> "" /\
   exists tr0 tr1 s1 got r, tr = tr0 ++ tr1 /\ runs (Token tp s) tr0 (Done (s1, got)) /\
     o = Done (s1, r) /\
     match got with
     | Err _ => tr1 = [] /\ is_ok r = false
     | Ok token => closing token reason ref tr1 r
     end).
Proof using token_total.
  intros Hr ref. revert tr o Hr. apply wp_runs. unfold Close. fold ref.
  destruct (String.eqb_spec (sink_URL ref) ""); [by left|].
  destruct (Z.leb_spec (sink_Number ref) 0).
  { right. left. do 2 (split; [by auto|]). split; [done|]. by eexists. }
  destruct (String.eqb_spec (sink_Repo ref) "").
  { right. left. do 2 (split; [by auto|]). split; [done|]. by eexists. }
  apply wp_bind, wp_runs. intros tr0 o0 H0.
  destruct (yields_runs _ _ _ _ (token_total s) H0) as ([s1 got] & -> & _).
  destruct got as [token|e].
  - apply wp_bind. eapply wp_mono; [|apply close_with_spec]. intros tr1 o1 (r & -> & Hc).
    right. right. do 3 (split; [done|]). exists tr0, tr1, s1, (Ok token), r. by rewrite app_nil_r.
  - right. right. do 3 (split; [done|]). by exists tr0, [], s1, (Err e), (Err (EWrap "getting GitHub token: " e)).
Qed.
(** ** Merging *)
Definition merge_answer (a : option (res http_response)) : option bool :=
  match answered a with
  | Some resp => if rs_Status resp =? 204 then Some true
                 else if rs_Status resp =? 404 then Some false else None
  | None => None
  end.

Lemma merged_with_spec token ref :
  wp (merged_with BaseURL token ref) (fun tr o => exists a r, o = Done r /\
    https tr = sent (merge_request BaseURL token ref) a /\ closures tr = 0%nat /\
    (match r with Ok b => Some b | Err _ => None end) = merge_answer a).
Proof.
  unfold merged_with. apply wp_bind. eapply wp_mono; [|apply send_spec].
  intros tr o (a & got & -> & Ht & Hc & Ha). unfold merge_answer.
  destruct (answered a) as [resp|] eqn:Ea; [subst got|destruct got; [done|]; by gives a Ea].
  destruct (_ =? 204) eqn:E1; [|destruct (_ =? 404) eqn:E2]; gives a Ea; by rewrite E1, ?E2.
Qed.

(** IsMerged sends nothing for a reference that is not a PR or is invalid, and
    otherwise at most one query, whose answer 204 means merged, 404 not merged and
    anything else an error. *)
Theorem merged_iff_github_says_so ref s tr o :
  runs (IsMerged tp BaseURL ref s) tr o ->
  ((sink_URL ref = "" \/ sink_Type ref <> "pr") /\ tr = [] /\ o = Done (s, Ok false)) \/
  (sink_URL ref <> "" /\ sink_Type ref = "pr" /\ (sink_Number ref <= 0 \/ sink_Repo ref = "") /\
     tr = [] /\ exists e, o = Done (s, Err e)) \/
  (sink_URL ref <> "" /\ sink_Type ref = "pr" /\ 0 < sink_Number ref /\ sink_Repo ref <> "" /\
   exists tr0 tr1 s1 got r, tr = tr0 ++ tr1 /\ runs (Token tp s) tr0 (Done (s1, got)) /\
     o = Done (s1, r) /\
     match got with
     | Err _ => tr1 = [] /\ is_ok r = false
     | Ok token => exists a, https tr1 = sent (merge_request BaseURL token ref) a /\
                   (match r with Ok b => Some b | Err _ => None end) = merge_answer a
     end).
Proof using token_total.
  revert tr o. apply wp_runs. unfold IsMerged.
  destruct (String.eqb_spec (sink_URL ref) "") as [|Hu]; cbn [orb]; [left; auto|].
  destruct (String.eqb_spec (sink_Type ref) "pr") as [Ht|]; cbn [negb]; [|left; auto].
  destruct (Z.leb_spec (sink_Number ref) 0); [right; left; naive_solver|].
  destruct (String.eqb_spec (sink_Repo ref) "") as [|Hrepo]; [right; left; naive_solver|].
  apply wp_bind, wp_runs. intros tr0 o0 H0.
  destruct (yields_runs _ _ _ _ (token_total s) H0) as ([s1 got] & -> & _).
  destruct got as [token|e].
  - apply wp_bind. eapply wp_mono; [|apply merged_with_spec]. intros tr1 o1 (a & r & -> & Hh & _ & Hm).
    right. right. do 4 (split; [done|]). exists tr0, tr1, s1, (Ok token), r. rewrite app_nil_r.
    do 3 (split; [done|]). by exists a.
  - right. right. do 4 (split; [done|]).
    by exists tr0, [], s1, (Err e), (Err (EWrap "IsMerged: getting GitHub token: " e)).
Qed.
End Sink.

(** ** Tokens *)
Section Tokens.
Context (p : GitHubAppTokenProvider).

(** In [tr] GitHub issued [tok], and it was stored at [t]. *)
Definition issued (tok : string) (t : Z) (tr : trace) : Prop :=
  exists jwt resp tr0,
    tr = tr0 ++ [Event (ans := answer) Now t] /\
    (token_request p jwt, Ok resp) ∈ https tr /\ rs_Status resp = 201 /\
    DecodeField "token" (rs_Body resp) = Some tok /\ tok <> "".

Lemma exchange_spec :
  wp (exchange p) (fun tr o => exists r, o = Done r /\
    forall tok, r = Ok tok -> tok <> "" /\ exists jwt resp,
      (token_request p jwt, Ok resp) ∈ https tr /\ rs_Status resp = 201 /\
      DecodeField "token" (rs_Body resp) = Some tok).
Proof.
  unfold exchange. cbn [bind call now]. intros t [jwt|e]; [|by eexists].
  cbv zeta. cbn [bind call]. intros [u|e]; [|by eexists]. intros [resp|e]; [|by eexists].
  destruct (Z.eqb_spec (rs_Status resp) 201) as [Hs|]; cbn [negb]; [|by eexists].
  destruct (DecodeField "token" (rs_Body resp)) as [tok|] eqn:Ed; [|by eexists].
  destruct (String.eqb_spec tok ""); [by eexists|]. eexists. split; [done|].
  intros tok' [= <-]. split; [done|]. exists jwt, resp. split; [|done].
  cbn [https omap list_omap http_of]. apply list_elem_of_here.
Qed.

Lemma renew_spec s :
  wp (renew p s) (fun tr o => exists s' r, o = Done (s', r) /\
    match r with
    | Err _ => s' = s
    | Ok tok => exists t, issued tok t tr /\ s' = {| cachedToken := tok; expiresAt := t + tokenCacheTTL |}
    end).
Proof.
  unfold renew. apply wp_bind. eapply wp_mono; [|apply exchange_spec].
  intros tr o ([tok|e] & -> & H); [|by eexists s, _].
  destruct (H tok eq_refl) as (Hne & jwt & resp & Hin & Hs & Hd).
  cbn [bind call now]. intros t. eexists _, (Ok tok). split; [done|]. exists t. split; [|done].
  exists jwt, resp, tr. split; [done|]. rewrite https_app. set_solver.
Qed.

(** The calls of a provider that starts without a token, latest first. *)
Inductive token_calls : list (trace * res string) -> TokenState -> Prop :=
| calls_none : token_calls [] no_token
| calls_one h s tr s' r :
    token_calls h s -> runs (Token (app_provider p) s) tr (Done (s', r)) ->
    token_calls ((tr, r) :: h) s'.

(** What is known of the cache after a history of calls. *)
Definition cache_of (h : list (trace * res string)) (s : TokenState) : Prop :=
  cachedToken s = "" \/
  exists t tr, (tr, Ok (cachedToken s)) ∈ h /\ issued (cachedToken s) t tr /\
    expiresAt s = t + tokenCacheTTL.

Lemma issued_later tok t tr ev : issued tok t tr -> issued tok t (ev :: tr).
Proof.
  intros (jwt & resp & tr0 & -> & Hin & H). exists jwt, resp, (ev :: tr0). split; [done|].
  split; [|done]. unfold https. cbn [omap list_omap]. fold (https (tr0 ++ [Event (ans := answer) Now t])).
  destruct (http_of ev); [by apply list_elem_of_further|done].
Qed.

(** One call: the stored token before its expiry, or a new one, or an error. *)
Lemma app_Token_spec s :
  wp (app_Token p s) (fun tr o => exists s' r, o = Done (s', r) /\
    match r with
    | Err _ => s' = s
    | Ok tok =>
        (exists t, issued tok t tr /\ s' = {| cachedToken := tok; expiresAt := t + tokenCacheTTL |}) \/
        (exists t, tr = [Event (ans := answer) Now t] /\ t < expiresAt s /\ s' = s /\
           tok = cachedToken s /\ tok <> "")
    end).
Proof.
  unfold app_Token. destruct (String.eqb_spec (cachedToken s) "") as [|Hne]; cbn [negb].
  - eapply wp_mono; [|apply renew_spec]. intros tr o (s' & r & -> & H).
    exists s', r. split; [done|]. destruct r; auto.
  - cbn [bind call now]. intros t. unfold Before. destruct (Z.ltb_spec t (expiresAt s)).
    + exists s, (Ok (cachedToken s)). split; [done|]. right. by exists t.
    + eapply wp_mono; [|apply renew_spec]. intros tr o (s' & r & -> & Hr).
      exists s', r. split; [done|]. destruct r as [tok|]; [|done].
      destruct Hr as (t' & Hi & ->). left. exists t'.
      split; [by apply issued_later|done].
Qed.

Lemma token_calls_cache h s : token_calls h s -> cache_of h s.
Proof.
  induction 1 as [|h s tr s' r _ IH Hr]; [by left|].
  destruct (runs_wp _ _ _ _ Hr (app_Token_spec s)) as (s1 & r1 & [= <- <-] & H).
  assert (cache_of h s -> cache_of ((tr, r) :: h) s) as Hold.
  { intros [?|(t & tr' & Hin & Hi)]; [by left|]. right. exists t, tr'.
    split; [by apply list_elem_of_further|done]. }
  destruct r as [tok|e]; [|subst s'; auto].
  destruct H as [(t & Hi & ->)|(t & _ & _ & -> & _)]; [|auto].
  right. exists t, tr. split; [apply list_elem_of_here|done].
Qed.

(** C33: Along any sequence of calls of the token provider, every token returned is
    non-empty and was issued by GitHub in that call, or in an earlier one that stored
    it less than 55 minutes before. *)
Theorem tokens_are_issued_and_fresh h s tr tok :
  token_calls ((tr, Ok tok) :: h) s ->
  tok <> "" /\
  ((exists t, issued tok t tr) \/
   (exists t t0 tr0, tr = [Event (ans := answer) Now t] /\ (tr0, Ok tok) ∈ h /\ issued tok t0 tr0 /\
      t < t0 + 55 * minute)).
Proof.
  intros H. inversion H as [|h' s0 tr' s' r Hh Hr]; subst.
  destruct (runs_wp _ _ _ _ Hr (app_Token_spec s0)) as (s1 & r1 & [= <- <-] & Hc).
  destruct Hc as [(t & Hi & _)|(t & -> & Hlt & _ & Htok & Hne)].
  - split; [|left; eauto]. by destruct Hi as (? & ? & ? & _ & _ & _ & _ & ?).
  - split; [done|]. right. destruct (token_calls_cache _ _ Hh) as [?|(t0 & tr0 & Hin & Hi & He)];
      [congruence|].
    exists t, t0, tr0. rewrite <- Htok in Hin, Hi. unfold tokenCacheTTL in He. rewrite He in Hlt. done.
Qed.

Lemma app_Token_yields s : yields (fun _ => True) (Token (app_provider p) s).
Proof. eapply wp_mono; [|apply app_Token_spec]. by intros tr o (s' & r & -> & _). Qed.
End Tokens.

(** ** No operation of this component touches the cluster *)
Lemma app_Token_off_cluster p s : allows only_reads (Token (app_provider p) s).
Proof. cbn [Token app_provider]. unfold app_Token, renew, exchange, now; allows_steps; auto. Qed.

Lemma Close_off_cluster {S} (tp : TokenProvider S) base rjob reason s :
  (forall s, allows only_reads (Token tp s)) -> allows only_reads (Close tp base rjob reason s).
Proof.
  intros Ht. unfold Close, close_with, isClosed, postComment, closeItem, send, RecordPRClosed, metric_inc;
    allows_steps; auto.
Qed.

Lemma IsMerged_off_cluster {S} (tp : TokenProvider S) base ref s :
  (forall s, allows only_reads (Token tp s)) -> allows only_reads (IsMerged tp base ref s).
Proof. intros Ht. unfold IsMerged, merged_with, send; allows_steps; auto. Qed.

(** ** Concrete runs *)
Module GitHubExample.
Definition app : GitHubAppTokenProvider := {| AppID := 12; InstallationID := 34; tp_BaseURL := "" |}.

Definition field (k v : string) : string := "{" +:+ dq +:+ k +:+ dq +:+ ":" +:+ dq +:+ v +:+ dq +:+ "}".

(** An open pull request; every request succeeds. *)
Definition respond (rq : http_request) : http_response :=
  if String.eqb (rq_URL rq) "https://api.github.com/app/installations/34/access_tokens"
  then {| rs_Status := 201; rs_Body := field "token" "ghs_1" |}
  else if String.eqb (rq_URL rq) "https://api.github.com/repos/o/r/pulls/7/merge"
  then {| rs_Status := 204; rs_Body := "" |}
  else if String.eqb (rq_Method rq) "GET" then {| rs_Status := 200; rs_Body := field "state" "open" |}
  else if String.eqb (rq_Method rq) "POST" then {| rs_Status := 201; rs_Body := "{}" |}
  else {| rs_Status := 200; rs_Body := "{}" |}.

Definition github (t : Z) : handler answer := fun e =>
  match e return answer e with
  | SignJWT _ _ _ => Ok "jwt"
  | NewRequest _ _ => Ok tt
  | HTTPDo rq => Ok (respond rq)
  | e => offline t e
  end.

Definition ref : SinkRef :=
  {| sink_Type := "pr"; sink_URL := "https://github.com/o/r/pull/7"; sink_Number := 7; sink_Repo := "o/r" |}.
Definition with_pr : RemediationJob :=
  {| rj_Meta := {| meta_Name := "j"; meta_Namespace := "ns"; meta_UID := "u"; meta_Labels := ∅;
                   meta_Annotations := ∅; meta_CreationTimestamp := 0; meta_Generation := 1;
                   meta_OwnerReferences := [] |};
     rj_Spec := {| spec_SourceResultRef := {| rr_Name := "web"; rr_Namespace := "shop" |};
                   spec_Fingerprint := ""; spec_SourceType := "native"; spec_SinkType := "github";
                   spec_Finding := {| fs_Kind := "Pod"; fs_Name := "web"; fs_Namespace := "shop";
                                      fs_ParentObject := "Deployment/web"; fs_Errors := "";
                                      fs_Details := ""; fs_ChainDepth := 0 |};
                   spec_GitOpsRepo := ""; spec_GitOpsManifestRoot := ""; spec_AgentImage := "";
                   spec_AgentSA := ""; spec_MaxRetries := 3; spec_Severity := "" |};
     rj_Status := {| st_Phase := PhaseSucceeded; st_JobRef := ""; st_PRRef := "";
                     st_DispatchedAt := None; st_CompletedAt := None; st_Message := "";
                     st_RetryCount := 0; st_Conditions := []; st_CorrelationGroupID := "";
                     st_SinkRef := ref; st_PRMerged := false; st_PRMergedAt := None |} |}.

Definition close_run := exec_pure (github 0) (Close (app_provider app) "" with_pr "resolved" no_token).
Definition merged_run := exec_pure (github 0) (IsMerged (app_provider app) "" ref no_token).
Definition fresh : TokenState := {| cachedToken := "ghs_1"; expiresAt := 0 + tokenCacheTTL |}.
Definition first_token := exec_pure (github 0) (Token (app_provider app) no_token).
Definition second_token := exec_pure (github minute) (Token (app_provider app) fresh).
End GitHubExample.
Import GitHubExample.

Lemma sinks_are_closed_once_witness :
  close_run.2 = Done (fresh, Ok tt) /\
  ((sink_URL ref = "" /\ close_run.1 = [] /\ close_run.2 = Done (no_token, Ok tt)) \/
   (sink_URL ref <> "" /\ (sink_Number ref <= 0 \/ sink_Repo ref = "") /\ close_run.1 = [] /\
      exists e, close_run.2 = Done (no_token, Err e)) \/
   (sink_URL ref <> "" /\ 0 < sink_Number ref /\ sink_Repo ref <> "" /\
    exists tr0 tr1 s1 got r, close_run.1 = tr0 ++ tr1 /\
      runs (Token (app_provider app) no_token) tr0 (Done (s1, got)) /\ close_run.2 = Done (s1, r) /\
      match got with
      | Err _ => tr1 = [] /\ is_ok r = false
      | Ok token => closing "" token "resolved" ref tr1 r
      end)).
Proof.
  split; [vm_compute; reflexivity|].
  apply (sinks_are_closed_once (app_provider app) "" (app_Token_yields app) with_pr "resolved" no_token).
  apply exec_pure_runs.
Defined.

Lemma merged_iff_github_says_so_witness :
  merged_run.2 = Done (fresh, Ok true) /\
  (((sink_URL ref = "" \/ sink_Type ref <> "pr") /\ merged_run.1 = [] /\
      merged_run.2 = Done (no_token, Ok false)) \/
   (sink_URL ref <> "" /\ sink_Type ref = "pr" /\ (sink_Number ref <= 0 \/ sink_Repo ref = "") /\
      merged_run.1 = [] /\ exists e, merged_run.2 = Done (no_token, Err e)) \/
   (sink_URL ref <> "" /\ sink_Type ref = "pr" /\ 0 < sink_Number ref /\ sink_Repo ref <> "" /\
    exists tr0 tr1 s1 got r, merged_run.1 = tr0 ++ tr1 /\
      runs (Token (app_provider app) no_token) tr0 (Done (s1, got)) /\ merged_run.2 = Done (s1, r) /\
      match got with
      | Err _ => tr1 = [] /\ is_ok r = false
      | Ok token => exists a, https tr1 = sent (merge_request "" token ref) a /\
                    (match r with Ok b => Some b | Err _ => None end) = merge_answer a
      end)).
Proof.
  split; [vm_compute; reflexivity|].
  apply (merged_iff_github_says_so (app_provider app) "" (app_Token_yields app) ref no_token).
  apply exec_pure_runs.
Defined.

(** The second call is served from the cache. *)
Lemma tokens_are_issued_and_fresh_witness :
  "ghs_1" <> "" /\
  ((exists t, issued app "ghs_1" t second_token.1) \/
   (exists t t0 tr0, second_token.1 = [Event (ans := answer) Now t] /\
      (tr0, Ok "ghs_1") ∈ [(first_token.1, Ok "ghs_1")] /\ issued app "ghs_1" t0 tr0 /\
      t < t0 + 55 * minute)).
Proof.
  apply (tokens_are_issued_and_fresh app [(first_token.1, Ok "ghs_1")] fresh second_token.1 "ghs_1").
  eapply (calls_one app _ fresh).
  - eapply (calls_one app [] no_token); [apply calls_none|].
    exact (exec_pure_runs (github 0) (Token (app_provider app) no_token)).
  - exact (exec_pure_runs (github minute) (Token (app_provider app) fresh)).
Defined.
