(* ===== verification/Watcher.v ===== *)
(** * The production wiring of the providers (src/cmd/watcher/main.go)
    The second half of [main]: the readiness checkers, the GitHub sink and one
    SourceProviderReconciler per native provider.

    The caches of the checkers and the token of the GitHub App are objects that
    all reconcilers share and that other reconciles use at any time, so the
    state each of them has when a reconcile calls it is arbitrary: it is an
    argument of the wired reconciler.

    With these collaborators jobs are created only with credentials in place, a
    deleted object cancels only its unfinished jobs, and findings about the
    agent's own Jobs are chained. *)
From stdpp Require Import base list strings gmap.
From Stdlib Require Import ZArith Lia.
From S2P Require Import Prelude Prog Utf8 Regex Redact Sha256 Json K8s Types Effects Domain Fingerprint.
From S2P Require Import BoundedMap CircuitBreaker Metrics Config Provider ProviderProps.
From S2P Require Import Native NativeProps Readiness GitHub GitHubProps JobBuilder Wiring.
Import GoErr GoStr GoTime GoInt.
Open Scope string_scope.
Open Scope list_scope.
Open Scope Z_scope.
Open Scope go_scope.

(** ** Readiness (lines 159-177) *)
Record Caches := { sink_cache : Cache; llm_cache : Cache }.

Definition sink_slot : Slot Caches :=
  {| slot_get := sink_cache;
     slot_put := fun c s => {| sink_cache := c; llm_cache := llm_cache s |} |}.
Definition llm_slot : Slot Caches :=
  {| slot_get := llm_cache;
     slot_put := fun c s => {| sink_cache := sink_cache s; llm_cache := c |} |}.

Definition sinkChecker (cfg : Config) : Checker Caches :=
  if String.eqb (cfg_SinkType cfg) "github"
  then NewCachedChecker sink_slot (GitHubAppChecker (cfg_AgentNamespace cfg)) ReadinessCacheTTL
  else NopChecker "sink".

Definition llmChecker (cfg : Config) : Checker Caches :=
  NewCachedChecker llm_slot
    (OpenAIChecker (cfg_AgentNamespace cfg) (agent_type_string (cfg_AgentType cfg))) ReadinessCacheTTL.

Definition combinedChecker (cfg : Config) : Checker Caches := All [sinkChecker cfg; llmChecker cfg].

(** ** The GitHub App (lines 224-248): [key] is the outcome of reading and parsing
    the private key; an error is a start that fails. *)
Definition positive_id (Getenv : string -> string) (name : string) : res Z :=
  match Atoi (Getenv name) with
  | Some n => if n <=? 0 then Err (EMsg (name +:+ " is missing or invalid; cannot start with PR_AUTO_CLOSE=true")) else Ok n
  | None => Err (EMsg (name +:+ " is missing or invalid; cannot start with PR_AUTO_CLOSE=true"))
  end.

Definition github_app (Getenv : string -> string) (key : res unit) : res GitHubAppTokenProvider :=
  let? appID := positive_id Getenv "GITHUB_APP_ID" in
  let? installID := positive_id Getenv "GITHUB_APP_INSTALLATION_ID" in
  let? _ := key in
  Ok {| AppID := appID; InstallationID := installID; tp_BaseURL := "" |}.

(** Lines 223-255: [None] is PR_AUTO_CLOSE=false. *)
Definition sink_of (cfg : Config) (Getenv : string -> string) (key : res unit) :
    res (option GitHubAppTokenProvider) :=
  if cfg_PRAutoClose cfg then let? app := github_app Getenv key in Ok (Some app) else Ok None.

Definition sinkCloser (sink : option GitHubAppTokenProvider) (rjob : RemediationJob) (reason : string)
    (s : TokenState) : io (TokenState * res unit) :=
  match sink with
  | Some app => Close (app_provider app) "" rjob reason s
  | None => NoopClose rjob reason s
  end.

Definition prMergeChecker (sink : option GitHubAppTokenProvider) (ref : SinkRef) (s : TokenState) :
    io (TokenState * res bool) :=
  match sink with
  | Some app => IsMerged (app_provider app) "" ref s
  | None => NoopIsMerged ref s
  end.

(** ** The reconcilers (lines 209-216 and 258-270) *)
Section Wired.
Context (redactor : Redaction.Redactor) (newest_first : list EventObj -> list EventObj).

Definition constructed : list SourceProvider :=
  [podProvider redactor; deploymentProvider redactor; pvcProvider redactor newest_first;
   nodeProvider redactor; statefulSetProvider redactor; jobProvider redactor].

(** With the manager's client, which is not nil, the constructors return them. *)
Lemma constructors_return :
  [NewPodProvider redactor true; NewDeploymentProvider redactor true;
   NewPVCProvider redactor newest_first true; NewNodeProvider redactor true;
   NewStatefulSetProvider redactor true; NewJobProvider redactor true] = map Done constructed.
Proof. reflexivity. Qed.

(** The kind that is watched and the extraction. *)
Definition enabledProviders : list (string * (Object -> io extracted)) :=
  map (fun p => (ObjectType p, ExtractFinding p)) constructed.

(** The states the shared objects have when this reconcile calls them. *)
Record Shared := {
  at_check : Caches;
  at_close : RemediationJob -> string -> TokenState;
  at_merge : SinkRef -> TokenState }.

Definition result_of {S A} (p : io (S * A)) : io A := x <- p ;; Ret x.2.

Definition wired_provider (cfg : Config) (sink : option GitHubAppTokenProvider) (sh : Shared)
    (p : string * (Object -> io extracted)) : SourceProviderReconciler :=
  {| sp_Cfg := cfg; sp_ProviderName := "native"; sp_ObjectType := p.1; sp_ExtractFinding := p.2;
     sp_EventRecorder := true;
     sp_ReadinessChecker := Some (result_of (Check (combinedChecker cfg) (at_check sh)));
     sp_SinkCloser := Some (fun rjob reason => result_of (sinkCloser sink rjob reason (at_close sh rjob reason)));
     sp_PRMergeChecker := Some (fun ref => result_of (prMergeChecker sink ref (at_merge sh ref))) |}.

(** ** The collaborators only read *)
Lemma all_loop_reads {S} (cs : list (Checker S)) :
  Forall (fun c => forall s, allows only_reads (Check c s)) cs ->
  forall errs s, allows only_reads (all_loop cs errs s).
Proof.
  induction 1 as [|c cs Hc _ IH]; intros errs s; cbn [all_loop]; allows_steps; auto.
Qed.

Lemma secret_Check_reads {S} prefix ns name keys (s : S) :
  allows only_reads (secret_Check prefix ns name keys s).
Proof. unfold secret_Check. allows_steps. Qed.

Lemma cached_reads {S} (slot : Slot S) ttl inner :
  (forall s, allows only_reads (Check inner s)) ->
  forall s, allows only_reads (Check (NewCachedChecker slot inner ttl) s).
Proof.
  intros Hi s. cbn [Check NewCachedChecker]. unfold cached_Check, probe, now. allows_steps; auto.
Qed.

Lemma combined_reads cfg s : allows only_reads (Check (combinedChecker cfg) s).
Proof.
  cbn [combinedChecker All Check]. apply all_loop_reads. repeat constructor; intros s'.
  - unfold sinkChecker. destruct (String.eqb _ _); [|apply allows_ret].
    apply cached_reads. intros ?. apply secret_Check_reads.
  - unfold llmChecker. apply cached_reads. intros ?. apply secret_Check_reads.
Qed.

Lemma closer_reads_only sink rjob reason s : allows only_reads (sinkCloser sink rjob reason s).
Proof.
  unfold sinkCloser. destruct sink as [app|]; [|apply allows_ret].
  apply Close_off_cluster, app_Token_off_cluster.
Qed.

Lemma merge_reads_only sink ref s : allows only_reads (prMergeChecker sink ref s).
Proof.
  unfold prMergeChecker. destruct sink as [app|]; [|apply allows_ret].
  apply IsMerged_off_cluster, app_Token_off_cluster.
Qed.

Lemma result_allows {S A} P (p : io (S * A)) : allows P p -> allows P (result_of p).
Proof. intros H. unfold result_of. apply allows_bind; [done|]. intros x. apply allows_ret. Qed.

Lemma result_runs {S A} (p : io (S * A)) tr r :
  runs (result_of p) tr (Done r) -> exists s, runs p tr (Done (s, r)).
Proof.
  intros Hr. refine (runs_wp _ (fun tr o => forall r, o = Done r -> exists s, runs p tr (Done (s, r)))
    _ _ Hr _ r eq_refl).
  apply wp_bind, wp_runs. intros tr' [[s a]|m] Hp; [|done]. intros r' [= <-].
  exists s. by rewrite app_nil_r.
Qed.

Lemma reads_create_nothing e : only_reads e -> no_rjob e.
Proof. by destruct e. Qed.

Lemma enabled_native p : p ∈ enabledProviders -> p.2 ∈ native_providers redactor newest_first.
Proof.
  intros H. apply (list_elem_of_fmap_2 snd) in H. exact H.
Qed.

Lemma wired_quiet cfg sink sh p :
  p ∈ enabledProviders -> collaborators_quiet (wired_provider cfg sink sh p).
Proof.
  intros Hp%enabled_native. split; cbn [wired_provider sp_ExtractFinding sp_ReadinessChecker sp_SinkCloser sp_PRMergeChecker].
  - intros o. eapply allows_mono; [apply reads_create_nothing|]. by apply (native_reads redactor newest_first).
  - intros c [= <-]. eapply allows_mono; [apply reads_create_nothing|]. apply result_allows, combined_reads.
  - intros c j s [= <-]. eapply allows_mono; [apply reads_create_nothing|].
    apply result_allows, closer_reads_only.
  - intros c s [= <-]. eapply allows_mono; [apply reads_create_nothing|].
    apply result_allows, merge_reads_only.
Qed.

(** ** The deletion of a source *)
Lemma reads_no_rjob_write e : only_reads e -> rjob_write e = false.
Proof. by destruct e. Qed.
Lemma reads_no_job e : only_reads e -> creates_job e = false.
Proof. by destruct e. Qed.

(** C9: With the collaborators that main wires up, the deletion path patches only
    RemediationJobs whose source reference has the name and namespace of the deleted
    object and that are unfinished (new, Pending, Dispatched, Running or Suppressed),
    only to the phase Cancelled, deletes only such jobs, with the phase Cancelled, and
    creates nothing; assumed is that the server's answer to a status patch has the
    spec and phase that were sent. The kind of the source is not compared (see the
    findings). *)
Theorem deletion_cancels_only_its_unfinished_jobs cfg sink sh p name namespace tr o :
  runs (source_deleted (wired_provider cfg sink sh p) name namespace) tr o -> relies keeps_source tr ->
  every (cancels name namespace) tr.
Proof.
  apply source_deleted_cancels; cbn [wired_provider sp_SinkCloser]; intros c j s [= <-];
    (eapply allows_mono; [|apply result_allows, closer_reads_only]); [apply reads_no_rjob_write|apply reads_no_job].
Qed.

(** ** What a passing readiness check means *)

(** A cached probe of the Secret [name] is good in [tr]: the Secret was read with
    the required keys, or the cache held a success younger than a minute. *)
Definition secret_ready (ns name : string) (keys : list string) (c : Cache) (tr : trace) : Prop :=
  (exists sec, Event (ans := answer) (GetSecret ns name) (Ok sec) ∈ tr /\ has_keys keys sec) \/
  (lastErr c = Ok tt /\ exists t, Event (ans := answer) Now t ∈ tr /\ t - lastCheck c < 60 * second).

Lemma cached_secret_ready {S} (slot : Slot S) prefix ns name keys cname s :
  wp (Check (NewCachedChecker slot
              {| Name := cname; Check := secret_Check prefix ns name keys |} ReadinessCacheTTL) s)
    (fun tr o => exists s' r, o = Done (s', r) /\
       (r = Ok tt -> secret_ready ns name keys (slot_get slot s) tr) /\
       (exists c, s' = slot_put slot c s \/ s' = s)).
Proof.
  cbn [Check NewCachedChecker]. eapply wp_mono; [|apply cached_Check_cases, secret_Check_yields].
  intros tr o (s' & r & -> & [(t & -> & -> & Hf)|(tr0 & tr1 & t & s1 & -> & _ & Hr & ->)]).
  - exists s, r. split; [done|]. split; [|exists empty_cache; auto]. intros ->. right.
    unfold fast_path in Hf. destruct (_ && _) eqn:E; [|done]. injection Hf as Hl.
    apply andb_true_iff in E as [_ E%Z.ltb_lt]. split; [done|]. exists t.
    split; [apply list_elem_of_here|]. by apply Sub_lt_iff in E.
  - destruct (runs_wp _ _ _ _ Hr (secret_Check_spec prefix ns name keys s))
      as (got & r' & -> & [= -> ->] & Hiff).
    eexists _, r'. split; [done|]. split; [|eauto]. intros Hok%Hiff. destruct Hok as (sec & -> & Hk).
    left. exists sec. split; [set_solver|done].
Qed.
Lemma secret_ready_within ns name keys c tr tr' :
  within tr tr' -> secret_ready ns name keys c tr -> secret_ready ns name keys c tr'.
Proof.
  intros (l & rr & ->) [(sec & Hin & Hk)|(Hl & t & Hin & Ht)]; [left|right].
  - exists sec. split; [set_solver|done].
  - split; [done|]. exists t. split; [set_solver|done].
Qed.

(** The credentials that the readiness of the watcher stands for. *)
Definition credentials_ready (cfg : Config) (c : Caches) (tr : trace) : Prop :=
  secret_ready (cfg_AgentNamespace cfg) ("llm-credentials-" +:+ agent_type_string (cfg_AgentType cfg))
    ["provider-config"] (llm_cache c) tr /\
  (cfg_SinkType cfg = "github" ->
   secret_ready (cfg_AgentNamespace cfg) "github-app" ["app-id"; "installation-id"; "private-key"]
     (sink_cache c) tr).

Lemma sink_check_ready cfg s :
  wp (Check (sinkChecker cfg) s) (fun tr o => exists s' r, o = Done (s', r) /\
    llm_cache s' = llm_cache s /\
    (r = Ok tt -> cfg_SinkType cfg = "github" ->
     secret_ready (cfg_AgentNamespace cfg) "github-app" ["app-id"; "installation-id"; "private-key"]
       (sink_cache s) tr)).
Proof.
  unfold sinkChecker. destruct (String.eqb_spec (cfg_SinkType cfg) "github").
  - eapply wp_mono; [|apply cached_secret_ready]. intros tr o (s' & r & -> & Hr & c & Hs).
    exists s', r. split; [done|]. split; [by destruct Hs as [-> | ->]|]. intros ? _. by apply Hr.
  - by exists s, (Ok tt).
Qed.

Lemma llm_check_ready cfg s :
  wp (Check (llmChecker cfg) s) (fun tr o => exists s' r, o = Done (s', r) /\
    (r = Ok tt ->
     secret_ready (cfg_AgentNamespace cfg) ("llm-credentials-" +:+ agent_type_string (cfg_AgentType cfg))
       ["provider-config"] (llm_cache s) tr)).
Proof.
  eapply wp_mono; [|apply cached_secret_ready]. intros tr o (s' & r & -> & Hr & _). eauto.
Qed.

Lemma combined_total cfg c s :
  c ∈ [sinkChecker cfg; llmChecker cfg] -> yields (fun _ => True) (Check c s).
Proof.
  intros [->|[->|[]%not_elem_of_nil]%elem_of_cons]%elem_of_cons;
    (eapply wp_mono; [|apply sink_check_ready || apply llm_check_ready]);
    by intros tr o (s' & r & -> & _).
Qed.

Lemma err_of_nil {A} (r : res A) : err_of r = [] -> exists a, r = Ok a.
Proof. destruct r; [eauto|done]. Qed.

Lemma combined_ready cfg s tr s' :
  runs (Check (combinedChecker cfg) s) tr (Done (s', Ok tt)) -> credentials_ready cfg s tr.
Proof.
  intros Hr. destruct (runs_wp _ _ _ _ Hr (all_loop_ran _ [] s (combined_total cfg)))
    as (s0 & es & [= <- Hes] & Hran).
  assert (es = []) as -> by by destruct es. destruct Hran as [[_ ?]|Hran]; [done|].
  inversion Hran as [|c cs s1 s2 s3 r1 tr1 tr2 errs H1 Hran2 Eq1 Eq2 Eq3 Eq4 Eq5]; subst.
  apply app_eq_nil in Eq5 as [[u1 ->]%err_of_nil ->].
  inversion Hran2 as [|c' cs' s4 s5 s6 r2 tr3 tr4 errs' H2 Hran3 Fq1 Fq2 Fq3 Fq4 Fq5]; subst.
  apply app_eq_nil in Fq5 as [[u2 ->]%err_of_nil ->]. destruct u1, u2.
  destruct (runs_wp _ _ _ _ H1 (sink_check_ready cfg s)) as (? & ? & [= <- <-] & Hllm & Hsink).
  destruct (runs_wp _ _ _ _ H2 (llm_check_ready cfg s2)) as (? & ? & [= <- <-] & Hok).
  split.
  - rewrite <- Hllm. eapply secret_ready_within; [|by apply Hok].
    exists (Event (ans := answer) CtxErr None :: tr1 ++ [Event (ans := answer) CtxErr None]), tr4.
    cbn [app]. by rewrite <- app_assoc.
  - intros Hg. eapply secret_ready_within; [|by apply Hsink].
    by exists [Event (ans := answer) CtxErr None], (Event (ans := answer) CtxErr None :: tr3 ++ tr4).
Qed.

(** The job is about this finding. *)
Record carries (j : RemediationJob) (f : Finding) : Prop := {
  car_fingerprint : FindingFingerprint f = Ok (spec_Fingerprint (rj_Spec j));
  car_severity : spec_Severity (rj_Spec j) = f_Severity f;
  car_kind : fs_Kind (rj_Finding j) = f_Kind f;
  car_name : fs_Name (rj_Finding j) = f_Name f;
  car_namespace : fs_Namespace (rj_Finding j) = f_Namespace f;
  car_parent : fs_ParentObject (rj_Finding j) = f_ParentObject f;
  car_errors : fs_Errors (rj_Finding j) = f_Errors f }.

(** C18: With the checkers, the sink and the native providers that main wires up, a
    reconcile creates a RemediationJob only if the LLM credentials (and, for the
    GitHub sink, those of the App) were read complete in it or found complete less
    than a minute before, and only for a well-formed finding that a run of the
    provider within this reconcile extracted from the object read in it; the job
    carries that finding: fingerprint, severity, kind, name, namespace, parent and
    errors. The sort of events is assumed to rearrange them. *)
Theorem wired_watcher_creates_jobs_only_when_ready order cfg sink sh p name namespace s0 tr o j a :
  rearranges newest_first -> p ∈ enabledProviders ->
  runs (Reconcile order (wired_provider cfg sink sh p) name namespace s0) tr o ->
  Event (ans := answer) (CreateRJob j) a ∈ tr ->
  credentials_ready cfg (at_check sh) tr /\
  exists obj f tr', Event (ans := answer) (GetObject p.1 namespace name) (Ok obj) ∈ tr /\
    within tr' tr /\ runs (p.2 obj) tr' (Done (Ok (Some f))) /\ well_formed f /\ carries j f.
Proof.
  intros Hsort Hp Hr Hin.
  destruct (runs_wp _ _ _ _ Hr
    (Reconcile_creates order _ (wired_quiet cfg sink sh p Hp) name namespace s0) j a Hin)
    as (m & _ & obj & f & fp & [Hget (trx & Hin' & Hx)] & -> & Hc).
  split.
  - destruct (clear_ready _ _ _ _ (cl_clear _ _ _ _ _ _ _ Hc) _ eq_refl) as (tr' & Hw & Hrun).
    destruct (result_runs _ _ _ Hrun) as [s' Hcheck]. destruct (combined_ready _ _ _ _ Hcheck) as [H1 H2].
    split; [by eapply secret_ready_within|]. intros Hg. eapply secret_ready_within; [done|by apply H2].
  - exists obj, f, trx. do 3 (split; [assumption|]).
    destruct (yields_runs _ _ _ _ (native_yields redactor newest_first p.2 obj Hsort (enabled_native p Hp)) Hx)
      as (r & [= <-] & Hwf).
    split; [by apply Hwf|]. split; [|done..]. apply (cl_fingerprint _ _ _ _ _ _ _ Hc).
Qed.
End Wired.

(** ** The watcher's own jobs *)
Lemma built_meta PQ b rjob fs j : Build PQ b rjob fs = Done (Ok j) -> job_Meta j = job_meta b rjob.
Proof.
  unfold Build. destruct (_ <? 12); [discriminate|]. destruct (containerResources PQ b); [|discriminate].
  by intros [= <-].
Qed.

(** [job] is what has become of the Job that was created as [j]: the server has
    filled in the rest of its metadata, and other controllers have labelled it. *)
Record stored_as (j job : Job) : Prop := {
  sa_namespace : meta_Namespace (job_Meta job) = meta_Namespace (job_Meta j);
  sa_owners : meta_OwnerReferences (job_Meta job) = meta_OwnerReferences (job_Meta j);
  sa_labels : meta_Labels (job_Meta j) ⊆ meta_Labels (job_Meta job) }.

Lemma built_is_mechanic b rjob j job :
  job_Meta j = job_meta b rjob -> stored_as j job ->
  is_mechanic_job job = true /\ owner_rjob job = Some (rj_Name rjob).
Proof.
  intros Hm [_ Ho Hl]. unfold is_mechanic_job, owner_rjob. rewrite Ho, Hm. split; [|done].
  assert (meta_Labels (job_Meta job) !! "app.kubernetes.io/managed-by" = Some "mechanic-watcher") as Hk.
  { eapply lookup_weaken; [|exact Hl]. rewrite Hm. apply lookup_insert_eq. }
  unfold map_get. by rewrite Hk.
Qed.

(** C24: A finding about a failed Job that the job builder built for a RemediationJob,
    stored in its namespace with its owner and at least its labels, is recognised as
    self-remediation: its chain depth is one more than that of the owner read in the
    extraction, or 1 if the owner is gone. *)
Theorem failed_agent_jobs_are_chained redactor PQ b rjob fs j job tr f :
  Build PQ b rjob fs = Done (Ok j) -> stored_as j job ->
  runs (job_ExtractFinding redactor (ObjJob job)) tr (Done (Ok (Some f))) ->
  exists got,
    Event (ans := answer) (GetRJob (jb_AgentNamespace (b_cfg b)) (rj_Name rjob)) got ∈ tr /\
    match got with
    | Ok owner => f_ChainDepth f = fs_ChainDepth (rj_Finding owner) + 1
    | Err e => IsNotFound e = true /\ f_ChainDepth f = 1
    end.
Proof.
  intros HB Hs Hr. pose proof (built_meta _ _ _ _ _ HB) as Hj.
  destruct (built_is_mechanic _ _ _ _ Hj Hs) as [Hmech Hown].
  destruct (runs_wp _ _ _ _ Hr (job_finding redactor job) f eq_refl) as (_ & _ & _ & Hd).
  rewrite Hmech in Hd. unfold child_depth in Hd. rewrite Hown in Hd.
  rewrite (sa_namespace _ _ Hs), Hj in Hd. exact Hd.
Qed.

(** ** A watcher with credentials and a crashing pod *)
Module WatcherExample.
Definition credentials (name : string) : Secret :=
  {| secret_Meta := NativeExample.meta name "s" [];
     secret_Data := <["provider-config" := "{}"]> (<["app-id" := "1"]>
                      (<["installation-id" := "2"]> (<["private-key" := "k"]> ∅))) |}.

Definition cluster (t : Z) : handler answer := fun e =>
  match e return answer e with
  | GetObject _ _ _ => Ok (ObjPod NativeExample.web_pod)
  | GetOwner kind _ name => NativeExample.owners kind name
  | GetSecret _ name => Ok (credentials name)
  | ListRJobs _ _ => Ok []
  | CreateRJob obj => Ok obj
  | e' => offline t e'
  end.

Definition shared : Shared :=
  {| at_check := {| sink_cache := empty_cache; llm_cache := empty_cache |};
     at_close := fun _ _ => no_token; at_merge := fun _ => no_token |}.

Definition pods : string * (Object -> io extracted) :=
  ("Pod", pod_ExtractFinding Redaction.defaultRedactor).

Definition reconciler : SourceProviderReconciler := wired_provider default_config None shared pods.

Definition start : State := {| firstSeen := None; breaker := None |}.
Definition watch (t : Z) (s : State) := exec_pure (cluster t) (Reconcile map_to_list reconciler "web-0" "shop" s).
Definition seen_once : State :=
  match (watch 0 start).2 with Done (s, _) => s | Panicked _ => start end.
Definition second_look := watch (120 * second) seen_once.

(** The first creation of a trace. *)
Definition creation_of (ev : event answer) : option RemediationJob :=
  match ev_call ev with CreateRJob j => Some j | _ => None end.

Lemma creation_in tr j :
  head (omap creation_of tr) = Some j -> exists a, Event (ans := answer) (CreateRJob j) a ∈ tr.
Proof.
  intros H. assert (j ∈ omap creation_of tr) as Hin.
  { destruct (omap creation_of tr); [done|]. injection H as ->. apply list_elem_of_here. }
  apply list_elem_of_omap in Hin as ([e a] & Hin & He). destruct e; try discriminate He.
  cbn in He. injection He as ->. by exists a.
Qed.

Definition created : RemediationJob :=
  default GitHubExample.with_pr (head (omap creation_of second_look.1)).
End WatcherExample.

Lemma deletion_cancels_only_its_unfinished_jobs_witness :
  let run := exec_pure demo_server (source_deleted WatcherExample.reconciler "web" "app") in
  List.length run.1 = 4%nat /\ every (cancels "web" "app") run.1.
Proof.
  split; [vm_compute; reflexivity|].
  apply (deletion_cancels_only_its_unfinished_jobs default_config None WatcherExample.shared WatcherExample.pods)
    with (o := (exec_pure demo_server (source_deleted WatcherExample.reconciler "web" "app")).2).
  - apply exec_pure_runs.
  - apply exec_pure_relies. intros []; done.
Defined.

Lemma wired_watcher_creates_jobs_only_when_ready_witness :
  let tr := WatcherExample.second_look.1 in
  let j := WatcherExample.created in
  credentials_ready default_config (at_check WatcherExample.shared) tr /\
  exists obj f tr', Event (ans := answer) (GetObject "Pod" "shop" "web-0") (Ok obj) ∈ tr /\
    within tr' tr /\ runs (WatcherExample.pods.2 obj) tr' (Done (Ok (Some f))) /\ well_formed f /\ carries j f.
Proof.
  assert (head (omap WatcherExample.creation_of WatcherExample.second_look.1)
          = Some WatcherExample.created) as H by (vm_compute; reflexivity).
  destruct (WatcherExample.creation_in _ _ H) as [a Hin].
  apply (wired_watcher_creates_jobs_only_when_ready Redaction.defaultRedactor NativeExample.sorted_events
           map_to_list default_config None WatcherExample.shared WatcherExample.pods "web-0" "shop"
           WatcherExample.seen_once WatcherExample.second_look.1 WatcherExample.second_look.2
           WatcherExample.created a).
  - apply NativeExample.sorted_events_ok.
  - apply list_elem_of_here.
  - apply exec_pure_runs.
  - exact Hin.
Defined.

(** The Job of the example, as stored, failed; its RemediationJob has depth zero. *)
Definition failed_agent_job : Job :=
  {| job_Meta :=
       let m := job_meta demo_builder fingerprinted in
       {| meta_Name := meta_Name m; meta_Namespace := meta_Namespace m; meta_UID := "7c1e";
          meta_Labels := <["batch.kubernetes.io/controller-uid" := "7c1e"]> (meta_Labels m);
          meta_Annotations := meta_Annotations m; meta_CreationTimestamp := hour;
          meta_Generation := 1; meta_OwnerReferences := meta_OwnerReferences m |};
     job_Spec := {| js_BackoffLimit := Some 1; js_ActiveDeadlineSeconds := None;
                    js_TTLSecondsAfterFinished := None; js_Template := pod_Spec NativeExample.web_pod |};
     job_Status := {| js_Active := 0; js_Succeeded := 0; js_Failed := 2; js_CompletionTime := None;
                      js_Conditions := [] |} |}.
Definition agent_world : handler answer := fun e =>
  match e return answer e with GetRJob _ _ => Ok fingerprinted | e' => offline 0 e' end.
Definition agent_run :=
  exec_pure agent_world (job_ExtractFinding Redaction.defaultRedactor (ObjJob failed_agent_job)).
Definition agent_job_finding : Finding :=
  mk_finding "Job" "mechanic-agent-0123456789ab" "mechanic" "Job/mechanic-agent-0123456789ab"
    ["job mechanic-agent-0123456789ab: failed (2 attempts, 0 active)"] Severity.SeverityMedium 1 "".

Lemma failed_agent_jobs_are_chained_witness :
  exists got,
    Event (ans := answer) (GetRJob (jb_AgentNamespace (b_cfg demo_builder)) (rj_Name fingerprinted)) got
      ∈ agent_run.1 /\
    match got with
    | Ok owner => f_ChainDepth agent_job_finding = fs_ChainDepth (rj_Finding owner) + 1
    | Err e => IsNotFound e = true /\ f_ChainDepth agent_job_finding = 1
    end.
Proof.
  destruct (Build demo_PQ demo_builder fingerprinted []) as [[j|]|] eqn:E; [|discriminate E..].
  apply (failed_agent_jobs_are_chained Redaction.defaultRedactor demo_PQ demo_builder fingerprinted []
           j failed_agent_job agent_run.1 agent_job_finding E).
  - split; rewrite (built_meta _ _ _ _ _ E); [reflexivity..|].
    apply insert_subseteq. vm_compute. reflexivity.
  - assert (agent_run.2 = Done (Ok (Some agent_job_finding))) as <- by (vm_compute; reflexivity).
    apply exec_pure_runs.
Defined.
