(* ===== verification/Concurrency.v ===== *)
(** * Programs that run side by side
    A pool of programs over one shared world, interleaved call by call: a step
    lets one program make its next call, lets a new program start, or lets
    somebody else change the world.  [pool_invariant] is the rely-guarantee
    argument for such a pool; [pool_exec] replays a deterministic execution as
    steps of it. *)
From stdpp Require Import base list strings.
From S2P Require Import Prelude Prog.

Section Safe.
Context {E : Type} {ans : E -> Type}.

(** [safe R P Q p]: as long as the answers satisfy [R], the calls of [p] satisfy
    [P] and its value, if it gets that far, satisfies [Q].  The stepwise form of
    [ensures]. *)
Fixpoint safe {A} (R : forall e, ans e -> Prop) (P : E -> Prop) (Q : A -> Prop) (p : prog ans A) : Prop :=
  match p with
  | Ret a => Q a
  | Panic _ => True
  | Call e k => P e /\ forall r, R e r -> safe R P Q (k r)
  end.

Lemma ensures_call_inv {A} (R : forall e, ans e -> Prop) P (Q : A -> Prop) e k r :
  ensures R P Q (Call e k) -> R e r -> ensures R P Q (k r).
Proof.
  intros H Hr. apply wp_runs. intros tr o Hrun Hrel.
  destruct (runs_wp _ _ _ _ Hrun (H r) ltac:(by constructor)) as [Htr Ho].
  split; [by inversion Htr|done].
Qed.

(** An environment that meets [R] exists, so no call is reached vacuously. *)
Lemma ensures_safe {A} (R : forall e, ans e -> Prop) P (Q : A -> Prop) (h : handler ans) (p : prog ans A) :
  (forall e, R e (h e)) -> ensures R P Q p -> safe R P Q p.
Proof.
  intros Hh. induction p as [a|m|e k IH]; intros Hp; cbn [safe].
  - by destruct (Hp ltac:(constructor)).
  - exact I.
  - split; [|intros r Hr; apply IH; by eapply ensures_call_inv].
    pose proof (runs_call e k _ _ _ (exec_pure_runs h (k (h e)))) as Hrun.
    pose proof (exec_pure_relies R h (k (h e)) Hh) as Hrel.
    pose proof (ensures_runs _ _ _ _ _ _ Hp Hrun ltac:(by constructor)) as Hev.
    by inversion Hev.
Qed.

Lemma safe_mono {A} (R R' : forall e, ans e -> Prop) (P P' : E -> Prop) (Q Q' : A -> Prop) (p : prog ans A) :
  (forall e r, R' e r -> R e r) -> (forall e, P e -> P' e) -> (forall a, Q a -> Q' a) ->
  safe R P Q p -> safe R' P' Q' p.
Proof.
  intros HR HP HQ. induction p as [a|m|e k IH]; cbn [safe]; [auto|done|].
  intros [He Hk]. split; [auto|]. intros r Hr. apply IH, Hk, HR, Hr.
Qed.
End Safe.

Section Pool.
Context {E : Type} {ans : E -> Type} {W A : Type}.
(** What the world can answer to a call, and what becomes of it. *)
Context (serves : W -> forall e, ans e -> W -> Prop).
(** What others do to the world, and the programs that may start. *)
Context (others : W -> W -> Prop) (starts : prog ans A -> Prop).

Record config := { world : W; pool : list (prog ans A) }.

Inductive step : config -> config -> Prop :=
| step_start w ps p : starts p -> step {| world := w; pool := ps |} {| world := w; pool := p :: ps |}
| step_call w w' ps qs e k r :
    serves w e r w' ->
    step {| world := w; pool := ps ++ Call e k :: qs |} {| world := w'; pool := ps ++ k r :: qs |}
| step_others w w' ps :
    others w w' -> step {| world := w; pool := ps |} {| world := w'; pool := ps |}.

Inductive reachable (w0 : W) : config -> Prop :=
| reach_init : reachable w0 {| world := w0; pool := [] |}
| reach_step c c' : reachable w0 c -> step c c' -> reachable w0 c'.

(** ** Rely and guarantee *)
Section Invariant.
Context (Inv : W -> Prop) (R : forall e, ans e -> Prop) (P : E -> Prop).
Hypothesis starts_safe : forall p, starts p -> safe R P (fun _ => True) p.
Hypothesis serves_inv : forall w e r w', Inv w -> P e -> serves w e r w' -> Inv w' /\ R e r.
Hypothesis others_inv : forall w w', Inv w -> others w w' -> Inv w'.

Lemma pool_invariant w0 c :
  Inv w0 -> reachable w0 c -> Inv (world c) /\ Forall (safe R P (fun _ => True)) (pool c).
Proof using All.
  intros H0. induction 1 as [|c c' _ [Hw Hp] Hs]; [split; [done|constructor]|].
  destruct Hs as [w ps p Hstart|w w' ps qs e k r Hserve|w w' ps Hoth]; cbn [world pool] in *.
  - split; [done|]. constructor; auto.
  - apply Forall_app in Hp as [Hps Hqs]. apply Forall_cons in Hqs as [Hc Hqs].
    destruct Hc as [He Hk].
    destruct (serves_inv _ _ _ _ Hw He Hserve) as [Hw' Hr]. split; [done|].
    apply Forall_app. split; [done|]. constructor; auto.
  - split; [eauto|done].
Qed.
End Invariant.

(** ** Deterministic executions *)
Lemma pool_exec (h : forall e, W -> ans e * W) (p : prog ans A) w0 w ps :
  (forall e w, serves w e (h e w).1 (h e w).2) ->
  reachable w0 {| world := w; pool := p :: ps |} ->
  exists q, reachable w0 {| world := (exec h p w).2; pool := q :: ps |}.
Proof.
  intros Hh. revert w. induction p as [a|m|e k IH]; intros w Hr; cbn [exec snd]; [eauto..|].
  specialize (Hh e w). destruct (h e w) as [r w1] eqn:Hx. cbn [fst snd] in Hh.
  assert (reachable w0 {| world := w1; pool := k r :: ps |}) as H1.
  { eapply reach_step; [exact Hr|]. by apply (step_call w w1 [] ps e k r). }
  destruct (IH r w1 H1) as [q Hq]. destruct (exec h (k r) w1) as [[tr o] w2]. by exists q.
Qed.

(** Start [p] and let it run to its end. *)
Lemma pool_run (h : forall e, W -> ans e * W) (p : prog ans A) w0 w ps :
  (forall e w, serves w e (h e w).1 (h e w).2) -> starts p ->
  reachable w0 {| world := w; pool := ps |} ->
  exists ps', reachable w0 {| world := (exec h p w).2; pool := ps' |}.
Proof.
  intros Hh Hp Hr. destruct (pool_exec h p w0 w ps Hh) as [q Hq].
  - eapply reach_step; [exact Hr|]. by apply step_start.
  - eauto.
Qed.
End Pool.

Arguments config {E} ans W A.

(** ** Worlds that only grow
    When every step leads to a larger world, the steps to a configuration stay
    below its world. *)
Section Growth.
Context {E : Type} {ans : E -> Type} {W A : Type}.
Context (serves : W -> forall e, ans e -> W -> Prop) (others : W -> W -> Prop) (starts : prog ans A -> Prop).
Context (le : W -> W -> Prop) `{!PreOrder le}.
Hypothesis serves_grow : forall w e r w', serves w e r w' -> le w w'.
Hypothesis others_grow : forall w w', others w w' -> le w w'.

Definition serves_below (top : W) (w : W) (e : E) (r : ans e) (w' : W) : Prop :=
  serves w e r w' /\ le w' top.
Definition others_below (top : W) (w w' : W) : Prop := others w w' /\ le w' top.

Lemma step_grows c c' : step serves others starts c c' -> le (world c) (world c').
Proof using All. intros [w ps p ?|w w' ps qs e k r ?|w w' ps ?]; cbn [world]; [reflexivity|eauto..]. Qed.

Lemma reachable_mono (S S' : W -> forall e, ans e -> W -> Prop) (O O' : W -> W -> Prop) w0 c :
  (forall w e r w', S w e r w' -> S' w e r w') -> (forall w w', O w w' -> O' w w') ->
  reachable S O starts w0 c -> reachable S' O' starts w0 c.
Proof.
  intros HS HO. induction 1 as [|c c' _ IH Hs]; [constructor|].
  eapply reach_step; [exact IH|].
  destruct Hs as [w ps p ?|w w' ps qs e k r ?|w w' ps ?]; constructor; auto.
Qed.

Lemma reachable_below w0 c :
  reachable serves others starts w0 c ->
  reachable (serves_below (world c)) (others_below (world c)) starts w0 c.
Proof using All.
  induction 1 as [|c c' _ IH Hs]; [constructor|].
  pose proof (step_grows _ _ Hs) as Hle.
  eapply reach_step.
  - eapply reachable_mono; [..|exact IH]; unfold serves_below, others_below;
      intros; destruct_and!; (split; [done|by etrans]).
  - destruct Hs as [w ps p ?|w w' ps qs e k r ?|w w' ps ?]; cbn [world] in *; constructor;
      [done|split; [done|reflexivity]..].
Qed.
End Growth.
