(* ===== verification/Origin.v ===== *)
(** * What the reconcilers write, and on whose behalf
    If every RemediationJob the API server hands out satisfies a predicate
    [made] of its identity (spec, name and namespace), then the controller
    changes no identity, creates no RemediationJob, and builds every Job for a
    RemediationJob that satisfies [made].  These are the guarantees that the two
    reconcilers give each other in System.v. *)
From stdpp Require Import base list strings gmap.
From Stdlib Require Import ZArith Lia Ascii.
From S2P Require Import Prelude Prog Utf8 Regex Redact K8s Types Effects Domain Metrics.
From S2P Require Import Sha256 Json Fingerprint BoundedMap CircuitBreaker Correlator Config Provider ProviderProps.
From S2P Require Import Controller ControllerProps.
Import GoErr GoStr GoTime GoInt.
Open Scope string_scope.
Open Scope list_scope.
Open Scope Z_scope.
Open Scope go_scope.

(** What a patch leaves alone. *)
Definition same_identity (o o' : RemediationJob) : Prop :=
  rj_Spec o = rj_Spec o' /\ rj_Name o = rj_Name o' /\ rj_Namespace o = rj_Namespace o'.

#[global] Instance same_identity_equiv : Equivalence same_identity.
Proof.
  split.
  - by intros o.
  - intros o o' (? & ? & ?). done.
  - intros o1 o2 o3 (H1 & H2 & H3) (H4 & H5 & H6). unfold same_identity. split_and!; congruence.
Qed.

Section Controller.
Context `{ConditionLib} (error_text : error -> string) (r : RemediationJobReconciler).
Hypothesis rules_read_only : forall c, r_Correlator r = Some c -> Forall RuleReadOnly (Rules c).
Context (made : RemediationJob -> Prop).
Hypothesis made_identity : Proper (same_identity ==> iff) made.

(** The answers: every RemediationJob in them satisfies [made]. *)
Definition genuine (e : req) : answer e -> Prop :=
  match e return answer e -> Prop with
  | GetRJob _ _ | CreateRJob _ | StatusPatchRJob _ _ | PatchRJob _ _ => fun a =>
      match a with Ok o => made o | Err _ => True end
  | ListRJobs _ _ => fun a => match a with Ok l => Forall made l | Err _ => True end
  | _ => fun _ => True
  end.

(** The calls. *)
Definition controller_call (e : req) : Prop :=
  match e with
  | StatusPatchRJob obj base | PatchRJob obj base => same_identity obj base
  | CreateJob j => exists rjob fs, made rjob /\ r_Build r rjob fs = Done (Ok j)
  | CreateRJob _ => False
  | _ => True
  end.

Abbreviation ok := (ensures genuine controller_call).

Ltac walk :=
  repeat (ensures_step; try exact I; try (cbn [controller_call]; reflexivity || done)).

Lemma metric_origin m : ok (fun _ => True) (metric_inc m).
Proof. unfold metric_inc. walk. Qed.
Lemma recorded_origin t a m : ok (fun _ => True) (recorded r t a m).
Proof. unfold recorded. walk. Qed.

Lemma count_active_origin l : ok (fun _ => True) (count_active l).
Proof.
  induction l as [|j l IH]; cbn [count_active]; [by apply ensures_ret|].
  eapply ensures_bind with (S := fun _ => True); [unfold isJobActive, now; walk|]. intros b _.
  eapply ensures_bind; [exact IH|]. intros n _. by apply ensures_ret.
Qed.

Lemma concurrencyGate_origin : ok (fun _ => True) (concurrencyGate r).
Proof.
  unfold concurrencyGate. walk.
  eapply ensures_bind; [apply count_active_origin|]. intros n _.
  unfold SetActiveJobs, SetPendingJobs, metric_inc. walk.
Qed.

Lemma dispatch_origin rjob fs : made rjob -> ok (fun _ => True) (dispatch r rjob fs).
Proof using made_identity.
  intros Hm. unfold dispatch, suppress_injected, adopt_existing, recorded, now. walk.
  all: try (by exists rjob, fs).
  all: cbn [controller_call]; by repeat case_match.
Qed.

Lemma dispatched_origin rjob fs : made rjob -> ok (fun _ => True) (dispatched r rjob fs).
Proof using made_identity.
  intros Hm. unfold dispatched. eapply ensures_bind; [by apply dispatch_origin|].
  intros d _. by apply ensures_ret.
Qed.

Lemma gated_dispatch_origin rjob fs : made rjob -> ok (fun _ => True) (gated_dispatch r rjob fs).
Proof using made_identity.
  intros Hm. unfold gated_dispatch. eapply ensures_bind; [apply concurrencyGate_origin|].
  intros g _. walk. by apply dispatched_origin.
Qed.

Lemma suppressCorrelatedPeers_origin l g : ok (fun _ => True) (suppressCorrelatedPeers l g).
Proof.
  induction l as [|p l IH]; cbn [suppressCorrelatedPeers]; [by apply ensures_ret|].
  destruct (negb _); [exact IH|].
  eapply ensures_bind with (S := fun _ => True);
    [unfold transitionSuppressed, RecordSuppressed, metric_inc, now; walk|].
  intros [?|e] _; [exact IH|by apply ensures_ret].
Qed.

Lemma dispatch_primary_origin rjob peers g :
  ok (fun _ => True) (dispatch_primary r rjob peers g).
Proof using made_identity.
  unfold dispatch_primary. eapply ensures_bind; [apply suppressCorrelatedPeers_origin|].
  intros s _. walk. by apply dispatched_origin.
Qed.

Lemma recover_or_dispatch_origin rjob :
  made rjob -> ok (fun _ => True) (recover_or_dispatch r rjob).
Proof using made_identity.
  intros Hm. unfold recover_or_dispatch, recover_group. walk; by apply gated_dispatch_origin.
Qed.

Lemma rule_call_origin e : rule_call e -> controller_call e.
Proof. by destruct e. Qed.

Lemma correlate_origin c rjob :
  r_Correlator r = Some c -> made rjob -> ok (fun _ => True) (correlate r c rjob).
Proof using made_identity rules_read_only.
  intros Hc Hm. unfold correlate.
  eapply ensures_bind with (S := fun _ => True); [unfold pendingPeers; walk|].
  intros [peers|e] _; [|by apply ensures_ret].
  eapply ensures_bind.
  { apply ensures_allows. eapply allows_mono; [apply rule_call_origin|].
    apply evaluate_rules_ro, rules_read_only, Hc. }
  intros [[g|]|e] _; [|by apply recover_or_dispatch_origin|by apply ensures_ret].
  destruct (negb _); [|apply dispatch_primary_origin].
  eapply ensures_bind with (S := fun _ => True); [unfold hold_for_primary, now; walk|].
  intros [[]|e] _; [by apply ensures_ret|by apply recover_or_dispatch_origin|by apply ensures_ret].
Qed.

Lemma reconcile_pending_origin rjob :
  made rjob -> ok (fun _ => True) (reconcile_pending r rjob).
Proof using made_identity rules_read_only.
  intros Hm. unfold reconcile_pending, now.
  destruct (r_Correlator r) as [c|] eqn:Hc in |- *; [|by apply gated_dispatch_origin].
  walk; by apply correlate_origin.
Qed.

(** Code that ends a job changes only its status. *)
Lemma finish_origin rjob p :
  ok (fun o => same_identity o rjob) (finish rjob (set_Phase p rjob) p).
Proof.
  unfold finish, mark_complete, mark_failed, mark_completed_at, ObserveJobDuration, metric_inc, now.
  cbv zeta. walk; repeat case_match; done.
Qed.

Lemma sync_owned_origin rjob j : ok (fun _ => True) (sync_owned error_text r rjob j).
Proof.
  unfold sync_owned. eapply ensures_bind; [apply finish_origin|]. intros r1 H1. cbv zeta.
  eapply ensures_bind with (S := fun o => same_identity o rjob).
  - unfold fetchDryRunReport. walk; case_match; (etransitivity; [|exact H1]); done.
  - intros r3 H3. walk. unfold record_outcome, recorded. walk.
Qed.

Lemma reconcile_phase_origin rjob :
  made rjob -> ok (fun _ => True) (reconcile_phase error_text r rjob).
Proof using made_identity rules_read_only.
  intros Hm. unfold reconcile_phase, init_phase, reconcile_active, reconcile_succeeded,
    stamp_completed, expire, now.
  walk; try apply sync_owned_origin; by apply reconcile_pending_origin.
Qed.

Lemma record_pr_origin rjob : made rjob -> ok made (record_pr rjob).
Proof using made_identity.
  intros Hm. unfold record_pr, RecordPROpened, metric_inc, now. walk.
  case_match; [done|]. by eapply made_identity; [|exact Hm].
Qed.

Lemma Reconcile_origin namespace name : ok (fun _ => True) (Reconcile error_text r namespace name).
Proof using made_identity rules_read_only.
  unfold Reconcile. walk. eapply ensures_bind; [by apply record_pr_origin|].
  intros rjob Hm. by apply reconcile_phase_origin.
Qed.
End Controller.

(** ** The provider
    Its collaborators only read.  It creates a RemediationJob only for a finding
    that it extracted and that passed its filters, and it creates no Job. *)
Section Provider.
Context (order : gmap string Z -> list (string * Z)) (r : SourceProviderReconciler).

Record collaborators_read : Prop := {
  extract_reads : forall o, allows only_reads (sp_ExtractFinding r o);
  ready_reads : forall c, sp_ReadinessChecker r = Some c -> allows only_reads c;
  closer_reads : forall c j s, sp_SinkCloser r = Some c -> allows only_reads (c j s);
  merge_reads : forall c s, sp_PRMergeChecker r = Some c -> allows only_reads (c s) }.

Hypothesis reads : collaborators_read.

Lemma reads_quiet : collaborators_quiet r.
Proof using reads.
  destruct reads. split; intros; (eapply allows_mono; [|eauto]); by intros [].
Qed.

(** Writes other than creations of RemediationJobs. *)
Definition provider_write (e : req) : Prop :=
  match e with
  | StatusPatchRJob obj base | PatchRJob obj base => same_identity obj base
  | CreateJob _ => False
  | _ => True
  end.

Lemma reads_write_nothing {A} (p : io A) : allows only_reads p -> allows provider_write p.
Proof. apply allows_mono. by intros []. Qed.

Abbreviation fine := (allows provider_write).

Ltac look := unfold sp_event, now, suppressed, RecordSuppressed, RecordDispatched, metric_inc; allows_steps; try done.

Lemma closers_fine c name namespace items :
  sp_SinkCloser r = Some c -> fine (autoCloseSucceededSinks c name namespace items).
Proof using reads.
  intros Hc. induction items as [|j l IH]; cbn [autoCloseSucceededSinks]; look; try exact IH;
    by eapply reads_write_nothing, closer_reads.
Qed.

Lemma cancel_all_fine name namespace items : fine (cancel_all r name namespace items).
Proof using reads.
  induction items as [|j l IH]; cbn [cancel_all]; unfold cancel_one, close_sink;
    look; try exact IH; by eapply reads_write_nothing, closer_reads.
Qed.

Lemma source_deleted_fine name namespace : fine (source_deleted r name namespace).
Proof using reads.
  unfold source_deleted. look; try apply cancel_all_fine; by apply closers_fine.
Qed.

Lemma finding_cleared_fine name namespace : fine (finding_cleared r name namespace).
Proof using reads. unfold finding_cleared. look; by apply closers_fine. Qed.

Lemma dedup_fine fp items : fine (dedup r fp items).
Proof using reads.
  induction items as [|j l IH]; cbn [dedup]; unfold dedup_one, tombstone, duplicate, dedup_event,
    merged_now, expired_tombstone; look; try exact IH; by eapply reads_write_nothing, merge_reads.
Qed.

Lemma gates_fine fp f : fine (gates r fp f).
Proof using reads.
  unfold gates, dedup_gate, hierarchy_gate, readiness_gate. look; try apply dedup_fine;
    by eapply reads_write_nothing, ready_reads.
Qed.

Lemma handle_finding_fine name namespace obj f m s :
  fine (handle_finding order r name namespace obj f m s).
Proof using reads.
  unfold handle_finding, filters, injection_gate, namespace_gate, severity_gate, self_gate,
    RecordCircuitBreakerActivation, ShouldAllow, allow.
  look. unfold admit_finding, stabilisation_gate, create_rjob, Get, Set_, SetWithTime, cleanupIfNeeded,
    needsCleanup. look; apply gates_fine.
Qed.

Lemma Reconcile_fine name namespace s0 : fine (Provider.Reconcile order r name namespace s0).
Proof using reads.
  unfold Provider.Reconcile, initFirstSeen, NewBoundedMap, Clear. look;
    auto using source_deleted_fine, finding_cleared_fine, handle_finding_fine.
  by apply reads_write_nothing, extract_reads.
Qed.

(** [job] was made for a finding that the provider extracted and let pass. *)
Definition stems (f : Finding) (job : RemediationJob) : Prop :=
  exists name namespace obj tr fp,
    runs (sp_ExtractFinding r obj) tr (Done (Ok (Some f))) /\
    FindingFingerprint f = Ok fp /\ admissible r f /\ shallow r f /\
    job = new_rjob r name namespace fp f.

Definition provider_call (e : req) : Prop :=
  match e with
  | CreateRJob j => exists f, stems f j
  | _ => provider_write e
  end.

Lemma provider_origin name namespace s0 :
  allows provider_call (Provider.Reconcile order r name namespace s0).
Proof using reads.
  apply wp_runs. intros tr o Hr.
  pose proof (allows_runs _ _ _ _ (Reconcile_fine name namespace s0) Hr) as Hw.
  pose proof (runs_wp _ _ _ _ Hr (Reconcile_creates order r reads_quiet name namespace s0)) as Hc.
  unfold every in *. rewrite !Forall_forall in *. intros [e a] Hin. cbn [ev_call].
  specialize (Hw _ Hin). cbn [ev_call] in Hw. destruct e; try exact Hw.
  destruct (Hc _ _ Hin) as (m & _ & ob & f & fp & [_ (tr' & _ & Hx)] & -> & [H1 H2 _ H3 _ _ _]).
  exists f, name, namespace, ob, tr', fp. eauto.
Qed.
End Provider.
