(* ===== verification/System.v ===== *)
(** * The watcher and the API server
    Both reconcilers of one watcher at work at the same time, against a store of
    RemediationJobs and Jobs that other clients change too.  Any number of
    reconciles of any object is under way; they interleave call by call.

    [serves] is what Kubernetes documents of its API server: a create fails when
    the name is taken, a merge patch changes what the two objects differ in, a
    request that is reported as failed may have taken effect.  Reads are served
    from a cache: they return any version that was ever stored.  [others] is
    what anybody else does: the agent and kubectl change a status, the garbage
    collector and users delete, the Job controller moves its Jobs, and other
    controllers have Jobs of their own. *)
From stdpp Require Import base list strings gmap.
From Stdlib Require Import ZArith Lia.
From S2P Require Import Prelude Prog Concurrency Utf8 Regex Redact Sha256 Json K8s Types Effects Domain Fingerprint.
From S2P Require Import BoundedMap CircuitBreaker Metrics Correlator Config Controller ControllerProps Provider ProviderProps.
From S2P Require Import Native NativeProps Readiness GitHub GitHubProps JobBuilder Wiring Watcher Origin.
Import GoErr GoStr GoTime GoInt.
Open Scope string_scope.
Open Scope list_scope.
Open Scope Z_scope.
Open Scope go_scope.

(** ** The store *)
Abbreviation key := (string * string)%type.

Record Store := {
  rjobs : gmap key RemediationJob;
  jobs : gmap key Job;
  (** every version of a RemediationJob that was ever stored *)
  past : list RemediationJob }.

Abbreviation store := Concurrency.world.

Definition empty_store : Store := {| rjobs := ∅; jobs := ∅; past := [] |}.

Definition rjob_key (o : RemediationJob) : key := (rj_Namespace o, rj_Name o).
Definition job_key (j : Job) : key := (meta_Namespace (job_Meta j), meta_Name (job_Meta j)).

Definition put_rjob (o : RemediationJob) (w : Store) : Store :=
  {| rjobs := <[rjob_key o := o]> (rjobs w); jobs := jobs w; past := o :: past w |}.
Definition del_rjob (k : key) (w : Store) : Store :=
  {| rjobs := delete k (rjobs w); jobs := jobs w; past := past w |}.
Definition put_job (j : Job) (w : Store) : Store :=
  {| rjobs := rjobs w; jobs := <[job_key j := j]> (jobs w); past := past w |}.
Definition del_job (k : key) (w : Store) : Store :=
  {| rjobs := rjobs w; jobs := delete k (jobs w); past := past w |}.

(** The Jobs that carry the watcher's label. *)
Definition managed (j : Job) : Prop := selects managed_by (meta_Labels (job_Meta j)).

#[global] Instance managed_dec j : Decision (managed j).
Proof. apply Forall_dec. intros kv. apply _. Defined.

(** What the life of a Job leaves alone.  Controllers add labels of their own. *)
Record job_kept (j j' : Job) : Prop := {
  kept_key : job_key j' = job_key j;
  kept_spec : job_Spec j' = job_Spec j;
  kept_owners : meta_OwnerReferences (job_Meta j') = meta_OwnerReferences (job_Meta j);
  kept_labels : meta_Labels (job_Meta j) ⊆ meta_Labels (job_Meta j');
  kept_managed : managed j' -> managed j }.

Lemma job_kept_trans j1 j2 j3 : job_kept j1 j2 -> job_kept j2 j3 -> job_kept j1 j3.
Proof.
  intros [? ? ? ? ?] [? ? ? ? ?]. split; [congruence..|by etrans|auto].
Qed.

(** ** The server *)
Definition failed {A} (a : res A) : Prop := match a with Ok _ => False | Err _ => True end.

(** The reply to a write that took effect: the object stored, or an error. *)
Definition reply {A} (a : res A) (o : A) : Prop := match a with Ok o' => o' = o | Err _ => True end.

(** A merge patch of the differences between [obj] and [base]. *)
Definition patches (w : Store) (obj base : RemediationJob) (a : res RemediationJob) (w' : Store) : Prop :=
  (w' = w /\ failed a) \/
  exists cur o, rjobs w !! rjob_key obj = Some cur /\ rjob_key o = rjob_key cur /\
    (rj_Spec obj = rj_Spec base -> rj_Spec o = rj_Spec cur) /\ w' = put_rjob o w /\ reply a o.

Definition serves (w : Store) (e : req) : answer e -> Store -> Prop :=
  match e return answer e -> Store -> Prop with
  | GetRJob ns name => fun a w' =>
      w' = w /\ match a with Ok o => o ∈ past w /\ rjob_key o = (ns, name) | Err _ => True end
  | ListRJobs _ _ => fun a w' =>
      w' = w /\ match a with Ok l => Forall (fun o => o ∈ past w) l | Err _ => True end
  | CreateRJob obj => fun a w' =>
      (w' = w /\ failed a) \/
      exists o, rjobs w !! rjob_key obj = None /\ same_identity o obj /\ w' = put_rjob o w /\ reply a o
  | StatusPatchRJob obj base => fun a w' => patches w obj base a w'
  | PatchRJob obj base => fun a w' => patches w obj base a w'
  | DeleteRJob obj => fun _ w' => w' = w \/ w' = del_rjob (rjob_key obj) w
  | CreateJob obj => fun a w' =>
      (w' = w /\ failed a) \/
      exists j, jobs w !! job_key obj = None /\ job_kept obj j /\ w' = put_job j w /\ reply a j
  | _ => fun _ w' => w' = w
  end.

(** ** Everybody else *)
Inductive others (w : Store) : Store -> Prop :=
| others_status k cur o : rjobs w !! k = Some cur -> same_identity o cur -> others w (put_rjob o w)
| others_delete k : others w (del_rjob k w)
| others_job k j j' : jobs w !! k = Some j -> job_kept j j' -> others w (put_job j' w)
| others_job_delete k : others w (del_job k w)
| others_job_create j : jobs w !! job_key j = None -> ~ managed j -> others w (put_job j w).

(** The versions of a store stay in its successors. *)
Definition older (w w' : Store) : Prop := past w ⊆ past w'.

#[global] Instance older_preorder : PreOrder older.
Proof. split; [intros w; unfold older; done|intros w1 w2 w3; unfold older; set_solver]. Qed.

Lemma patches_older w obj base a w' : patches w obj base a w' -> older w w'.
Proof. unfold older. intros [[-> _]|(cur & o & _ & _ & _ & -> & _)]; set_solver. Qed.

Lemma serves_older w e a w' : serves w e a w' -> older w w'.
Proof.
  unfold older. destruct e; cbn [serves]; try (by intros ->); try (by intros [-> _]);
    try apply patches_older; [intros [[-> _]|(o & _ & _ & -> & _)]|intros [-> | ->]
    |intros [[-> _]|(o & _ & _ & -> & _)]]; set_solver.
Qed.

Lemma others_older w w' : others w w' -> older w w'.
Proof. unfold older. intros []; set_solver. Qed.

(** ** The watcher *)
Section System.
Context `{ConditionLib} (error_text : error -> string).
Context (redactor : Redaction.Redactor) (newest_first : list EventObj -> list EventObj).
Context (order : gmap string Z -> list (string * Z)).
Context (PQ : string -> option Quantity).
Context (cfg : Config) (b : Builder) (corr : option Correlator) (sink : option GitHubAppTokenProvider).
Hypothesis sorted : rearranges newest_first.
Hypothesis built : JobBuilder.New (builder_config cfg) = Ok b.
Hypothesis correlated : buildCorrelator cfg = Ok corr.

Abbreviation providers := (enabledProviders redactor newest_first).

(** A reconcile of either controller.  The provider's own state is arbitrary, so
    that nothing depends on what earlier reconciles left in memory: a restart
    may come at any time. *)
Inductive starts : io unit -> Prop :=
| start_controller namespace name :
    starts (Controller.Reconcile error_text (wired_reconciler PQ cfg b corr) namespace name ;;; Ret tt)
| start_provider sh p name namespace s :
    p ∈ providers ->
    starts (Provider.Reconcile order (wired_provider cfg sink sh p) name namespace s ;;; Ret tt).

Definition reaches (c : config answer Store unit) : Prop :=
  reachable serves others starts empty_store c.

(** ** What holds of the store *)

(** [o] has the identity of a RemediationJob made for a finding of a provider. *)
Definition made (o : RemediationJob) : Prop :=
  exists sh p f job, p ∈ providers /\ well_formed f /\
    stems (wired_provider cfg sink sh p) f job /\ same_identity o job.

(** [j] goes back to a Job built for [rjob]. *)
Definition built_for (rjob : RemediationJob) (j : Job) : Prop :=
  exists fs j0, Build PQ b rjob fs = Done (Ok j0) /\ job_kept j0 j.

Lemma built_for_kept rjob j j' : job_kept j j' -> built_for rjob j -> built_for rjob j'.
Proof. intros Hk (fs & j0 & HB & H0). exists fs, j0. split; [done|]. by eapply job_kept_trans. Qed.

#[local] Instance made_proper : Proper (same_identity ==> iff) made.
Proof.
  intros o o' E. split; intros (sh & p & f & job & Hp & Hw & Hs & Hi); exists sh, p, f, job;
    (split_and!; [done..|]); (etrans; [|exact Hi]); [by symmetry|done].
Qed.

Lemma same_key o o' : same_identity o o' -> rjob_key o = rjob_key o'.
Proof. intros (_ & Hn & Hs). unfold rjob_key. by rewrite Hn, Hs. Qed.

Lemma key_spec_identity o o' :
  rjob_key o = rjob_key o' -> rj_Spec o = rj_Spec o' -> same_identity o o'.
Proof. intros [= Hs Hn] Hspec. done. Qed.

(** *** The way to the store [final] *)
Section Final.
Context (final : Store).

(** [o] is, up to status and labels, a version stored on the way to [final]. *)
Definition known (o : RemediationJob) : Prop :=
  made o /\ exists o', o' ∈ past final /\ same_identity o o'.

#[local] Instance known_proper : Proper (same_identity ==> iff) known.
Proof.
  assert (forall o o', same_identity o o' -> known o -> known o') as Hk.
  { intros o o' E (Hm & x & Hx & Hi). split; [by apply (made_proper _ _ E)|].
    exists x. split; [done|]. etrans; [|exact Hi]. by symmetry. }
  intros o o' E. split; apply Hk; [done|by symmetry].
Qed.

Record Inv (w : Store) : Prop := {
  inv_rjobs : forall k o, rjobs w !! k = Some o -> rjob_key o = k /\ o ∈ past w;
  inv_past : forall o, o ∈ past w -> made o;
  inv_below : older w final;
  inv_jobs : forall k j, jobs w !! k = Some j ->
    job_key j = k /\ (managed j -> exists rjob, known rjob /\ built_for rjob j) }.

Lemma inv_made w k o : Inv w -> rjobs w !! k = Some o -> made o.
Proof. intros Hw [_ Ho]%(inv_rjobs w Hw). by apply (inv_past w Hw). Qed.

Lemma past_known w o : Inv w -> o ∈ past w -> known o.
Proof. intros Hw Ho. split; [by apply (inv_past w Hw)|]. exists o. split; [by apply (inv_below w Hw)|done]. Qed.

Lemma empty_inv : Inv empty_store.
Proof.
  split; cbn; [intros ? ?|intros ? ?%elem_of_nil|apply list_subseteq_nil|intros ? ?];
    by rewrite ?lookup_empty.
Qed.

Lemma put_rjob_inv o w : Inv w -> made o -> older (put_rjob o w) final -> Inv (put_rjob o w).
Proof.
  intros [Hr Hp Hb Hj] Hm Hl. split; cbn [rjobs jobs past put_rjob]; [|intros o' [-> | ?]%elem_of_cons; auto|done..].
  intros k o'. rewrite lookup_insert_Some, elem_of_cons. intros [[<- <-]|[_ Hk%Hr]]; [by auto|].
  destruct Hk; auto.
Qed.

Lemma del_rjob_inv k w : Inv w -> Inv (del_rjob k w).
Proof.
  intros [Hr Hp Hb Hj]. split; [|done..]. cbn [rjobs del_rjob].
  intros k' o. rewrite lookup_delete_Some. intros [_ Hk]. auto.
Qed.

Lemma put_job_inv j w :
  Inv w -> (managed j -> exists rjob, known rjob /\ built_for rjob j) -> Inv (put_job j w).
Proof.
  intros [Hr Hp Hb Hj] Hm. split; [done..|]. cbn [jobs put_job].
  intros k j'. rewrite lookup_insert_Some. intros [[<- <-]|[_ Hk]]; auto.
Qed.

Lemma del_job_inv k w : Inv w -> Inv (del_job k w).
Proof.
  intros [Hr Hp Hb Hj]. split; [done..|]. cbn [jobs del_job].
  intros k' j. rewrite lookup_delete_Some. intros [_ Hk]. auto.
Qed.

Lemma others_inv w w' : Inv w -> others_below others older final w w' -> Inv w'.
Proof.
  intros Hw [[k cur o Hk Hi|k|k j j' Hk Hi|k|j Hk Hn] Hl];
    auto using del_rjob_inv, del_job_inv.
  - apply put_rjob_inv; [done| |done]. apply (made_proper _ _ Hi). by eapply inv_made.
  - apply put_job_inv; [done|]. intros Hm%(kept_managed j j' Hi).
    destruct (inv_jobs w Hw k j Hk) as [_ Hj]. destruct (Hj Hm) as (rjob & ? & ?).
    eauto using built_for_kept.
  - by apply put_job_inv.
Qed.

(** ** The calls of the watcher *)
Definition watcher_call (e : req) : Prop :=
  match e with
  | StatusPatchRJob obj base | PatchRJob obj base => same_identity obj base
  | CreateRJob o => made o
  | CreateJob j => exists rjob fs, known rjob /\ Build PQ b rjob fs = Done (Ok j)
  | _ => True
  end.

(** A version that a write stored is known. *)
Lemma stored_known w o (a : res RemediationJob) :
  Inv w -> made o -> older (put_rjob o w) final -> reply a o ->
  Inv (put_rjob o w) /\ match a with Ok o' => known o' | Err _ => True end.
Proof.
  intros Hw Hm Hl Ha. pose proof (put_rjob_inv o w Hw Hm Hl) as Hw'. split; [done|].
  destruct a; [|done]. cbn in Ha. subst. apply (past_known _ _ Hw'), list_elem_of_here.
Qed.

Lemma patches_inv w obj base a w' :
  Inv w -> same_identity obj base -> patches w obj base a w' -> older w' final ->
  Inv w' /\ match a with Ok o => known o | Err _ => True end.
Proof.
  intros Hw Hi [[-> Ha]|(cur & o & Hk & Hkey & Hs & -> & Ha)] Hl; [split; [done|by destruct a]|].
  apply stored_known; [done| |done|done].
  apply (made_proper o cur); [|by eapply inv_made].
  apply key_spec_identity; [done|]. apply Hs, Hi.
Qed.

Lemma serves_inv w e a w' :
  Inv w -> watcher_call e -> serves_below serves older final w e a w' -> Inv w' /\ genuine known e a.
Proof.
  intros Hw He [Hs Hl]. destruct e; cbn [serves genuine watcher_call] in *; try (by subst).
  - destruct Hs as [-> Ha]. split; [done|]. destruct a; [|done]. apply (past_known w _ Hw), Ha.
  - destruct Hs as [-> Ha]. split; [done|]. destruct a; [|done].
    eapply Forall_impl; [exact Ha|]. intros o. by apply past_known.
  - destruct Hs as [[-> Ha]|(o & _ & Hi & -> & Ha)]; [split; [done|by destruct a]|].
    apply stored_known; [done| |done|done]. by apply (made_proper _ _ Hi).
  - by eapply patches_inv.
  - by eapply patches_inv.
  - split; [|done]. destruct Hs as [-> | ->]; [done|by apply del_rjob_inv].
  - split; [|done]. destruct Hs as [[-> Ha]|(j & _ & Hk & -> & _)]; [done|].
    apply put_job_inv; [done|]. intros _. destruct He as (rjob & fs & Hm & HB).
    exists rjob. split; [done|]. by exists fs, obj.
Qed.

Lemma controller_call_watcher e :
  controller_call (wired_reconciler PQ cfg b corr) known e -> watcher_call e.
Proof.
  by destruct e.
Qed.

Lemma wired_rules c :
  r_Correlator (wired_reconciler PQ cfg b corr) = Some c -> Forall RuleReadOnly (Rules c).
Proof using correlated. intros Hc. exact (proj1 (buildCorrelator_rules cfg corr c correlated Hc)). Qed.

Lemma wired_reads sh p : p ∈ providers -> collaborators_read (wired_provider cfg sink sh p).
Proof.
  intros Hp%enabled_native. split; cbn [wired_provider sp_ExtractFinding sp_ReadinessChecker sp_SinkCloser sp_PRMergeChecker].
  - intros o. by apply (native_reads redactor newest_first).
  - intros c [= <-]. apply result_allows, combined_reads.
  - intros c j s [= <-]. apply result_allows, closer_reads_only.
  - intros c s [= <-]. apply result_allows, merge_reads_only.
Qed.

Lemma provider_call_watcher sh p e :
  p ∈ providers -> provider_call (wired_provider cfg sink sh p) e -> watcher_call e.
Proof using sorted.
  intros Hp. destruct e; try done. cbn [provider_call watcher_call]. intros [f Hs].
  exists sh, p, f, obj. split; [done|]. split; [|by split].
  destruct Hs as (name & namespace & ob & tr & fp & Hx & _).
  destruct (yields_runs _ _ _ _ (native_yields redactor newest_first p.2 ob sorted (enabled_native _ _ p Hp)) Hx)
    as (r & [= <-] & Hwf). by apply Hwf.
Qed.

Lemma offline_genuine t e : genuine known e (offline t e).
Proof. by destruct e. Qed.

Lemma starts_safe p : starts p -> safe (genuine known) watcher_call (fun _ => True) p.
Proof using sorted correlated.
  intros [namespace name|sh q name namespace s Hq];
    (apply (ensures_safe _ _ _ (offline 0)); [apply offline_genuine|]).
  - eapply ensures_bind with (S := fun _ => True); [|intros ? _; by apply ensures_ret].
    eapply ensures_mono; [apply controller_call_watcher|done|].
    apply Reconcile_origin; [apply wired_rules|apply known_proper].
  - eapply ensures_bind; [|intros ? _; by apply ensures_ret].
    apply ensures_allows. eapply allows_mono; [intros e; by apply (provider_call_watcher sh q)|].
    by apply provider_origin, wired_reads.
Qed.
End Final.

(** On the way to [c'], which [c] comes before, the invariant and the guarantees hold. *)
Lemma reaches_before (c c' : config answer Store unit) :
  reaches c -> older (store c) (store c') ->
  Inv (store c') (store c) /\
  Forall (safe (genuine (known (store c'))) (watcher_call (store c')) (fun _ => True))
    (pool c).
Proof using sorted correlated.
  intros Hc Hle. apply (reachable_below serves others starts older serves_older others_older) in Hc.
  eapply (pool_invariant (serves_below serves older (store c'))
            (others_below others older (store c')) starts);
    [apply starts_safe|apply serves_inv|apply others_inv|apply empty_inv|].
  eapply reachable_mono; [..|exact Hc]; intros;
    unfold serves_below, others_below in *; destruct_and!; (split; [done|by etrans]).
Qed.

Lemma reaches_inv c : reaches c -> Inv (store c) (store c).
Proof using sorted correlated. intros Hc. by apply (reaches_before c c Hc). Qed.

(** ** Names *)
Definition fp12 (o : RemediationJob) : string := take 12 (spec_Fingerprint (rj_Spec o)).
Definition rkey (p : string) : key := (cfg_AgentNamespace cfg, "mechanic-" +:+ p).
Definition jkey (p : string) : key := (cfg_AgentNamespace cfg, "mechanic-agent-" +:+ p).

#[global] Instance rkey_inj : Inj (=) (=) rkey.
Proof. by intros p q [= H']. Qed.
#[global] Instance jkey_inj : Inj (=) (=) jkey.
Proof. by intros p q [= H']. Qed.

Lemma made_key o : made o -> rjob_key o = rkey (fp12 o).
Proof.
  intros (sh & p & f & job & _ & _ & (name & ns & ob & tr & fp & _ & _ & _ & _ & ->) & Hs & Hn & Hns).
  unfold rjob_key, rkey, fp12. by rewrite Hs, Hn, Hns.
Qed.

Lemma identity_fp12 o o' : same_identity o o' -> fp12 o = fp12 o'.
Proof. intros [Hs _]. unfold fp12. by rewrite Hs. Qed.

Lemma built_namespace : jb_AgentNamespace (b_cfg b) = cfg_AgentNamespace cfg.
Proof using built.
  revert built. unfold JobBuilder.New. destruct (String.eqb _ ""); [discriminate|]. by intros [= <-].
Qed.

(** The name of the RemediationJob that a Job works for. *)
Definition works_for (j : Job) : option string :=
  meta_Labels (job_Meta j) !! "remediation.mechanic.io/remediation-job".

Lemma built_for_facts rjob j :
  built_for rjob j -> job_key j = jkey (fp12 rjob) /\ managed j /\ works_for j = Some (rj_Name rjob) /\
  pod_wf (js_Template (job_Spec j)).
Proof using built.
  intros (fs & j0 & HB & [Hk Hs _ Hl _]). pose proof (built_meta _ _ _ _ _ HB) as Hm.
  pose proof (job_labels_selected b rjob) as Hsel. rewrite <- Hm in Hsel.
  unfold selects in Hsel. rewrite Forall_app in Hsel. destruct Hsel as [Hs1 Hs2%Forall_inv].
  split; [|split; [|split]].
  - rewrite Hk. unfold job_key, jkey. by rewrite Hm, <- built_namespace.
  - eapply Forall_impl; [exact Hs1|]. intros kv Hkv. cbn beta in *. exact (lookup_weaken _ _ _ _ Hkv Hl).
  - exact (lookup_weaken _ _ _ _ Hs2 Hl).
  - rewrite Hs. revert HB. unfold Build. destruct (_ <? 12); [discriminate|].
    destruct (containerResources PQ b); [|discriminate]. intros [= <-]. apply pod_wf_built.
Qed.

(** C1: Both reconcilers run concurrently, call by call, on stale caches, with lost
    replies and restarts, while other clients change statuses and delete objects;
    still, in every reachable store, two RemediationJobs with the same 12 fingerprint
    digits are the same object, and two agent Jobs that work for the same
    RemediationJob name are the same Job. Of the other clients it is assumed that they
    create no RemediationJobs and no Jobs labelled as the watcher's, and change no
    specs. *)
Theorem one_investigation_per_fingerprint c :
  reaches c ->
  (forall k1 k2 o1 o2,
     rjobs (store c) !! k1 = Some o1 -> rjobs (store c) !! k2 = Some o2 ->
     fp12 o1 = fp12 o2 -> k1 = k2) /\
  (forall k1 k2 j1 j2,
     jobs (store c) !! k1 = Some j1 -> jobs (store c) !! k2 = Some j2 ->
     managed j1 -> managed j2 -> works_for j1 = works_for j2 -> k1 = k2).
Proof using sorted correlated built.
  intros Hw%reaches_inv. split.
  - intros k1 k2 o1 o2 H1 H2 Hfp.
    destruct (inv_rjobs _ _ Hw _ _ H1) as [<- _], (inv_rjobs _ _ Hw _ _ H2) as [<- _].
    rewrite !made_key, Hfp by eauto using inv_made. done.
  - intros k1 k2 j1 j2 H1 H2 M1 M2 Hl.
    destruct (inv_jobs _ _ Hw _ _ H1) as [<- J1], (inv_jobs _ _ Hw _ _ H2) as [<- J2].
    destruct (J1 M1) as (r1 & [[m1 _] B1%built_for_facts]), (J2 M2) as (r2 & [[m2 _] B2%built_for_facts]).
    destruct B1 as (-> & _ & L1 & _), B2 as (-> & _ & L2 & _).
    rewrite L1, L2 in Hl. injection Hl as Hn. f_equal.
    apply made_key in m1 as [= _ N1], m2 as [= _ N2]. rewrite N1, N2 in Hn. by injection Hn.
Qed.

(** C3: Every agent Job in a reachable store of the concurrent system was built by
    Build for a RemediationJob that had been stored and that a native provider made
    from a well-formed finding, with its fingerprint; its pod meets the security and
    well-formedness requirements. *)
Theorem agent_jobs_have_an_origin c k j :
  reaches c -> jobs (store c) !! k = Some j -> managed j ->
  exists rjob o, built_for rjob j /\ same_identity rjob o /\ o ∈ past (store c) /\ made o /\
    pod_wf (js_Template (job_Spec j)).
Proof using sorted correlated built.
  intros Hw%reaches_inv Hk Hm. destruct (inv_jobs _ _ Hw _ _ Hk) as [_ Hj].
  destruct (Hj Hm) as (rjob & (Hr & o & Ho & Hi) & Hb). exists rjob, o.
  split; [done|]. split; [done|]. split; [done|]. split; [by apply (inv_past _ _ Hw)|].
  by destruct (built_for_facts _ _ Hb) as (_ & _ & _ & ?).
Qed.
End System.

(** ** One pod, one investigation, one agent *)
Module SystemExample.
Open Scope go_scope.
Definition t : Z := 120 * second.

(** A server that does what [serves] allows, with every write taking effect. *)
Definition with_status (s : RemediationJobStatus) (o : RemediationJob) : RemediationJob :=
  {| rj_Meta := rj_Meta o; rj_Spec := rj_Spec o; rj_Status := s |}.

Definition serve (e : req) (w : Store) : answer e * Store :=
  match e return answer e * Store with
  | GetRJob ns name =>
      (match list_find (fun o => rjob_key o = (ns, name)) (past w) with
       | Some (_, o) => Ok o
       | None => Err (EApi NotFound)
       end, w)
  | ListRJobs _ _ => (Ok [], w)
  | CreateRJob obj =>
      match rjobs w !! rjob_key obj with
      | None => (Ok obj, put_rjob obj w)
      | Some _ => (Err (EApi AlreadyExists), w)
      end
  | StatusPatchRJob obj base =>
      match rjobs w !! rjob_key obj with
      | Some cur => let o := with_status (rj_Status obj) cur in (Ok o, put_rjob o w)
      | None => (Err (EApi NotFound), w)
      end
  | PatchRJob _ _ => (Err (EApi NotFound), w)
  | DeleteRJob _ => (Ok tt, w)
  | CreateJob obj =>
      match jobs w !! job_key obj with
      | None => (Ok obj, put_job obj w)
      | Some _ => (Err (EApi AlreadyExists), w)
      end
  | ListJobs _ _ => (Ok [], w)
  | e' => (WatcherExample.cluster t e', w)
  end.

Lemma serve_serves e w : serves w e (serve e w).1 (serve e w).2.
Proof.
  destruct e; cbn [serve serves fst snd]; try done.
  - split; [done|]. destruct (list_find _ _) as [[i o]|] eqn:E; [|done].
    apply list_find_Some in E as (Hi & Hk & _). split; [by eapply list_elem_of_lookup_2|done].
  - destruct (rjobs w !! rjob_key obj) eqn:E; [by left|]. right. by exists obj.
  - destruct (rjobs w !! rjob_key obj) as [cur|] eqn:E; [|by left]. right.
    by exists cur, (with_status (rj_Status obj) cur).
  - by left.
  - by left.
  - destruct (jobs w !! job_key obj) eqn:E; [by left|]. right. exists obj. by split_and!.
Qed.

Abbreviation app := (@starts ListConditions.lib Example.text Redaction.defaultRedactor
  NativeExample.sorted_events map_to_list demo_PQ default_config demo_builder demo_correlator None).
Abbreviation reached := (@reaches ListConditions.lib Example.text Redaction.defaultRedactor
  NativeExample.sorted_events map_to_list demo_PQ default_config demo_builder demo_correlator None).

Definition provider_pass : io unit :=
  Provider.Reconcile map_to_list (wired_provider default_config None WatcherExample.shared WatcherExample.pods)
    "web-0" "shop" WatcherExample.seen_once ;;; Ret tt.
Definition controller_pass (k : key) : io unit :=
  @Controller.Reconcile ListConditions.lib Example.text
    (wired_reconciler demo_PQ default_config demo_builder demo_correlator) k.1 k.2 ;;; Ret tt.

Definition found : Store := (exec serve provider_pass empty_store).2.
Definition the_key : key := default ("", "") (fst <$> head (map_to_list (rjobs found))).
Definition pending : Store := (exec serve (controller_pass the_key) found).2.
Definition dispatched_store : Store := (exec serve (controller_pass the_key) pending).2.

Lemma dispatched_reached : exists ps, reached {| Concurrency.world := dispatched_store; pool := ps |}.
Proof.
  destruct (pool_run serves others app serve provider_pass empty_store empty_store []) as [ps1 H1];
    [apply serve_serves|apply start_provider, list_elem_of_here|apply reach_init|].
  destruct (pool_run serves others app serve (controller_pass the_key) empty_store found ps1) as [ps2 H2];
    [apply serve_serves|apply start_controller|exact H1|].
  destruct (pool_run serves others app serve (controller_pass the_key) empty_store pending ps2) as [ps3 H3];
    [apply serve_serves|apply start_controller|exact H2|].
  by exists ps3.
Qed.

Lemma dispatched_sizes :
  map fst (map_to_list (rjobs dispatched_store)) = [the_key] /\
  map fst (map_to_list (jobs dispatched_store)) = [("mechanic", "mechanic-agent-" +:+ drop 9 the_key.2)].
Proof. vm_compute. done. Qed.

Lemma dispatched_agent :
  exists j, jobs dispatched_store !! jkey default_config (drop 9 the_key.2) = Some j /\ managed j.
Proof.
  assert (match jobs dispatched_store !! jkey default_config (drop 9 the_key.2) with
          | Some j => bool_decide (managed j)
          | None => false
          end = true) as Hj by (vm_compute; reflexivity).
  destruct (jobs dispatched_store !! jkey default_config (drop 9 the_key.2)) as [j|]; [|done].
  exists j. split; [done|]. by apply bool_decide_eq_true in Hj.
Qed.
End SystemExample.

Lemma one_investigation_per_fingerprint_witness :
  exists c, SystemExample.reached c /\
    (forall k1 k2 o1 o2,
       rjobs (store c) !! k1 = Some o1 -> rjobs (store c) !! k2 = Some o2 -> fp12 o1 = fp12 o2 -> k1 = k2) /\
    (forall k1 k2 j1 j2,
       jobs (store c) !! k1 = Some j1 -> jobs (store c) !! k2 = Some j2 ->
       managed j1 -> managed j2 -> works_for j1 = works_for j2 -> k1 = k2) /\
    map fst (map_to_list (rjobs (store c))) = [SystemExample.the_key].
Proof.
  destruct SystemExample.dispatched_reached as [ps Hr]. eexists. split; [exact Hr|].
  destruct (one_investigation_per_fingerprint Example.text Redaction.defaultRedactor
    NativeExample.sorted_events map_to_list demo_PQ default_config demo_builder demo_correlator None
    (proj1 NativeExample.sorted_events_ok) eq_refl eq_refl _ Hr) as [H1 H2].
  split; [exact H1|]. split; [exact H2|]. apply SystemExample.dispatched_sizes.
Defined.

Lemma agent_jobs_have_an_origin_witness :
  exists c k j, SystemExample.reached c /\ jobs (store c) !! k = Some j /\
  exists rjob o, built_for demo_PQ demo_builder rjob j /\ same_identity rjob o /\ o ∈ past (store c) /\
    made Redaction.defaultRedactor NativeExample.sorted_events default_config None o /\
    pod_wf (js_Template (job_Spec j)).
Proof.
  destruct SystemExample.dispatched_reached as [ps Hr].
  destruct SystemExample.dispatched_agent as (j & Hj & Hm).
  eexists _, _, j. split; [exact Hr|]. split; [exact Hj|].
  apply (agent_jobs_have_an_origin Example.text Redaction.defaultRedactor
    NativeExample.sorted_events map_to_list demo_PQ default_config demo_builder demo_correlator None
    (proj1 NativeExample.sorted_events_ok) eq_refl eq_refl _ _ j Hr Hj Hm).
Defined.
