(* ===== verification/Board.v ===== *)
(** * The watcher as a board of investigations
    An abstract view of System.v.  The board knows the fingerprints (in their 12
    digits) for which an investigation was ever opened, those with an open one,
    and those for which an agent runs.  An investigation is opened only when none
    is open, an agent is started only for an opened investigation and only when
    none runs.  Every step of the watcher, of the server and of the other
    clients is at most one move on the board. *)
From stdpp Require Import base list strings gmap propset.
From Stdlib Require Import ZArith Lia.
From S2P Require Import Prelude Prog Concurrency Utf8 Regex Redact Sha256 Json K8s Types Effects Domain Fingerprint.
From S2P Require Import BoundedMap CircuitBreaker Metrics Correlator Config Controller ControllerProps Provider ProviderProps.
From S2P Require Import Native NativeProps Readiness GitHub GitHubProps JobBuilder Wiring Watcher Origin System.
Import GoErr GoStr GoTime GoInt.
Open Scope string_scope.
Open Scope list_scope.

(** ** The specification *)
Record Board := {
  opened : propset string;
  open : propset string;
  running : propset string }.

#[global] Instance board_equiv : Equiv Board := fun B B' =>
  opened B ≡ opened B' /\ open B ≡ open B' /\ running B ≡ running B'.

Inductive moves_to (B B' : Board) : Prop :=
| stays : B' ≡ B -> moves_to B B'
| opens p :
    p ∉ open B ->
    B' ≡ {| opened := {[p]} ∪ opened B; open := {[p]} ∪ open B; running := running B |} -> moves_to B B'
| closes p :
    B' ≡ {| opened := opened B; open := open B ∖ {[p]}; running := running B |} -> moves_to B B'
| runs_agent p :
    p ∈ opened B -> p ∉ running B ->
    B' ≡ {| opened := opened B; open := open B; running := {[p]} ∪ running B |} -> moves_to B B'
| ends_agent p :
    B' ≡ {| opened := opened B; open := open B; running := running B ∖ {[p]} |} -> moves_to B B'.

Definition empty_board : Board := {| opened := ∅; open := ∅; running := ∅ |}.

(** ** The abstraction *)
Lemma kept_managed_iff j j' : job_kept j j' -> managed j' <-> managed j.
Proof.
  intros Hk. split; [apply (kept_managed _ _ Hk)|]. intros Hm.
  eapply Forall_impl; [exact Hm|]. intros kv Hkv. cbn beta in *.
  exact (lookup_weaken _ _ _ _ Hkv (kept_labels _ _ Hk)).
Qed.

Section Board.
Context (cfg : Config).

Definition board (w : Store) : Board :=
  {| opened := {[ p | exists o, o ∈ past w /\ fp12 o = p ]};
     open := {[ p | is_Some (rjobs w !! rkey cfg p) ]};
     running := {[ p | exists j, jobs w !! jkey cfg p = Some j /\ managed j ]} |}.

Lemma board_same w w' :
  (forall p, (exists o, o ∈ past w' /\ fp12 o = p) <-> exists o, o ∈ past w /\ fp12 o = p) ->
  (forall p, is_Some (rjobs w' !! rkey cfg p) <-> is_Some (rjobs w !! rkey cfg p)) ->
  (forall p, (exists j, jobs w' !! jkey cfg p = Some j /\ managed j) <->
             exists j, jobs w !! jkey cfg p = Some j /\ managed j) ->
  moves_to (board w) (board w').
Proof. intros H1 H2 H3. apply stays. split_and!; intros p; cbn; rewrite !elem_of_PropSet; auto. Qed.

(** A version of a stored object leaves the board as it is. *)
Lemma update_moves w k cur o :
  rjobs w !! k = Some cur -> cur ∈ past w -> rjob_key o = k -> fp12 o = fp12 cur ->
  moves_to (board w) (board (put_rjob o w)).
Proof.
  intros Hk Hp Hkey Hfp. apply board_same; cbn [past rjobs jobs put_rjob]; [..|done]; intros p.
  - setoid_rewrite elem_of_cons. naive_solver.
  - rewrite Hkey. destruct (decide (rkey cfg p = k)) as [E|E].
    + rewrite E, lookup_insert_eq, Hk. split; eauto.
    + by rewrite lookup_insert_ne by done.
Qed.

Lemma open_moves w o :
  rjobs w !! rjob_key o = None -> rjob_key o = rkey cfg (fp12 o) ->
  moves_to (board w) (board (put_rjob o w)).
Proof.
  intros Hn Hkey. apply (opens _ _ (fp12 o)).
  - cbn. rewrite elem_of_PropSet, <- Hkey, Hn. by intros [].
  - split_and!; intros p; cbn [opened open running board past rjobs jobs put_rjob].
    + rewrite elem_of_union, elem_of_singleton, !elem_of_PropSet. setoid_rewrite elem_of_cons. naive_solver.
    + rewrite elem_of_union, elem_of_singleton, !elem_of_PropSet, Hkey.
      destruct (decide (p = fp12 o)) as [->|E]; [rewrite lookup_insert_eq; split; eauto|].
      rewrite lookup_insert_ne by (intros ?%(inj (rkey cfg)); congruence). naive_solver.
    + done.
Qed.

Lemma close_moves w k :
  (forall o, rjobs w !! k = Some o -> exists p, k = rkey cfg p) ->
  moves_to (board w) (board (del_rjob k w)).
Proof.
  intros Hk. destruct (rjobs w !! k) as [o|] eqn:E.
  - destruct (Hk o eq_refl) as [p ->]. apply (closes _ _ p).
    split_and!; intros q; cbn [opened open running board past rjobs jobs del_rjob]; [done| |done].
    rewrite elem_of_difference, elem_of_singleton, !elem_of_PropSet.
    destruct (decide (q = p)) as [->|Hne]; [rewrite lookup_delete_eq; split; [by intros []|naive_solver]|].
    rewrite lookup_delete_ne by (intros ?%(inj (rkey cfg)); congruence). naive_solver.
  - apply board_same; cbn [past rjobs jobs del_rjob]; [done| |done]. intros p. by rewrite delete_id.
Qed.

(** Agents *)
Lemma job_update_moves w k j j' :
  jobs w !! k = Some j -> job_key j = k -> job_kept j j' -> moves_to (board w) (board (put_job j' w)).
Proof.
  intros Hk Hkey Hj. apply board_same; cbn [past rjobs jobs put_job]; [done..|]. intros p.
  rewrite (kept_key _ _ Hj), Hkey. destruct (decide (jkey cfg p = k)) as [E|E].
  - rewrite E, lookup_insert_eq, Hk. pose proof (kept_managed_iff _ _ Hj).
    split; intros (x & [= <-] & ?); eexists; (split; [done|tauto]).
  - by rewrite lookup_insert_ne by done.
Qed.

Lemma unmanaged_moves w j :
  jobs w !! job_key j = None -> ~ managed j -> moves_to (board w) (board (put_job j w)).
Proof.
  intros Hn Hm. apply board_same; cbn [past rjobs jobs put_job]; [done..|]. intros p.
  destruct (decide (jkey cfg p = job_key j)) as [->|E].
  - rewrite lookup_insert_eq, Hn. naive_solver.
  - by rewrite lookup_insert_ne by done.
Qed.

Lemma run_moves w j p :
  jobs w !! job_key j = None -> job_key j = jkey cfg p -> managed j ->
  (exists o, o ∈ past w /\ fp12 o = p) -> moves_to (board w) (board (put_job j w)).
Proof.
  intros Hn Hkey Hm Hp. apply (runs_agent _ _ p); [done|..].
  - cbn. rewrite elem_of_PropSet, <- Hkey, Hn. by intros (? & ? & _).
  - split_and!; intros q; cbn [opened open running board past rjobs jobs put_job]; [done..|].
    rewrite elem_of_union, elem_of_singleton, !elem_of_PropSet, Hkey.
    destruct (decide (q = p)) as [->|E]; [rewrite lookup_insert_eq; split; eauto|].
    rewrite lookup_insert_ne by (intros ?%(inj (jkey cfg)); congruence). naive_solver.
Qed.

Lemma end_moves w k :
  (forall j, jobs w !! k = Some j -> managed j -> exists p, k = jkey cfg p) ->
  moves_to (board w) (board (del_job k w)).
Proof.
  intros Hk.
  assert ((exists j, jobs w !! k = Some j /\ managed j) \/ ~ exists j, jobs w !! k = Some j /\ managed j)
    as [(j & Hj & Hm)|Hn].
  { destruct (jobs w !! k) as [j|]; [destruct (decide (managed j))|]; naive_solver. }
  - destruct (Hk j Hj Hm) as [p ->]. apply (ends_agent _ _ p).
    split_and!; intros q; cbn [opened open running board past rjobs jobs del_job]; [done..|].
    rewrite elem_of_difference, elem_of_singleton, !elem_of_PropSet.
    destruct (decide (q = p)) as [->|Hne]; [rewrite lookup_delete_eq; naive_solver|].
    rewrite lookup_delete_ne by (intros ?%(inj (jkey cfg)); congruence). naive_solver.
  - apply board_same; cbn [past rjobs jobs del_job]; [done..|]. intros p.
    destruct (decide (jkey cfg p = k)) as [->|E]; [rewrite lookup_delete_eq; naive_solver|].
    by rewrite lookup_delete_ne by done.
Qed.
End Board.

(** The boards that the moves lead to. *)
Inductive plays : Board -> Prop :=
| plays_empty B : B ≡ empty_board -> plays B
| plays_move B B' : plays B -> moves_to B B' -> plays B'.

(** ** The simulation *)
Section Simulation.
Context `{ConditionLib} (error_text : error -> string).
Context (redactor : Redaction.Redactor) (newest_first : list EventObj -> list EventObj).
Context (order : gmap string Z -> list (string * Z)) (PQ : string -> option Quantity).
Context (cfg : Config) (b : Builder) (corr : option Correlator) (sink : option GitHubAppTokenProvider).
Hypothesis sorted : rearranges newest_first.
Hypothesis built : JobBuilder.New (builder_config cfg) = Ok b.
Hypothesis correlated : buildCorrelator cfg = Ok corr.

Abbreviation starts := (System.starts error_text redactor newest_first order PQ cfg b corr sink).
Abbreviation reaches := (System.reaches error_text redactor newest_first order PQ cfg b corr sink).
Abbreviation Inv := (System.Inv redactor newest_first PQ cfg b sink).
Abbreviation watcher_call := (System.watcher_call redactor newest_first PQ cfg b sink).
Abbreviation built_for := (System.built_for PQ b).

Lemma patch_moves final w obj base a w' :
  Inv final w -> same_identity obj base -> patches w obj base a w' ->
  moves_to (board cfg w) (board cfg w').
Proof.
  intros Hw Hi [[-> _]|(cur & o & Hk & Hkey & Hs & -> & _)]; [by apply stays|].
  destruct (inv_rjobs _ _ _ _ _ _ _ _ Hw _ _ Hk) as [Hcur Hp].
  apply (update_moves cfg w (rjob_key obj) cur o); [done..|congruence|].
  apply identity_fp12, key_spec_identity; [done|]. apply Hs, Hi.
Qed.

Lemma serve_moves final w e a w' :
  Inv final w -> watcher_call final e -> serves w e a w' -> older final w' ->
  moves_to (board cfg w) (board cfg w').
Proof using built.
  intros Hw He Hs Hl. destruct e; cbn [serves System.watcher_call] in *;
    try (subst; by apply stays); try (destruct Hs as [-> _]; by apply stays);
    try (by eapply patch_moves).
  - destruct Hs as [[-> _]|(o & Hn & Hi & -> & _)]; [by apply stays|].
    assert (made redactor newest_first cfg sink o) as Hm by (apply (made_proper _ _ _ _ _ _ Hi); done).
    apply open_moves; [|by eapply made_key]. by rewrite (same_key _ _ Hi).
  - destruct Hs as [-> | ->]; [by apply stays|]. apply close_moves. intros o Ho.
    destruct (inv_rjobs _ _ _ _ _ _ _ _ Hw _ _ Ho) as [<- _]. eexists.
    eapply made_key, inv_made; eauto.
  - destruct Hs as [[-> _]|(j & Hn & Hk & -> & _)]; [by apply stays|].
    destruct He as (rjob & fs & (Hm & o & Ho & Hi) & HB).
    destruct (built_for_facts PQ cfg b built rjob j) as (Hkey & Hman & _); [by exists fs, obj|].
    apply (run_moves cfg w j (fp12 rjob)); [|done..|].
    + by rewrite (kept_key _ _ Hk).
    + exists o. split; [|symmetry; by apply identity_fp12]. by apply Hl in Ho.
Qed.

Lemma others_moves final w w' :
  Inv final w -> others w w' -> moves_to (board cfg w) (board cfg w').
Proof using built.
  intros Hw [k cur o Hk Hi|k|k j j' Hk Hj|k|j Hn Hm].
  - destruct (inv_rjobs _ _ _ _ _ _ _ _ Hw _ _ Hk) as [Hcur Hp].
    apply (update_moves cfg w k cur o); [done..| |by apply identity_fp12].
    by rewrite (same_key _ _ Hi).
  - apply close_moves. intros o Ho. destruct (inv_rjobs _ _ _ _ _ _ _ _ Hw _ _ Ho) as [<- _]. eexists.
    eapply made_key, inv_made; eauto.
  - destruct (inv_jobs _ _ _ _ _ _ _ _ Hw _ _ Hk) as [Hkey _]. by eapply job_update_moves.
  - apply end_moves. intros j Hj Hm. destruct (inv_jobs _ _ _ _ _ _ _ _ Hw _ _ Hj) as [<- Hr].
    destruct (Hr Hm) as (rjob & _ & Hb). exists (fp12 rjob).
    by destruct (built_for_facts PQ cfg b built rjob j Hb).
  - by apply unmanaged_moves.
Qed.

Lemma step_moves c c' :
  reaches c -> step serves others starts c c' ->
  moves_to (board cfg (store c)) (board cfg (store c')).
Proof using sorted built correlated.
  intros Hc Hs. pose proof (step_grows serves others starts older serves_older others_older _ _ Hs) as Hle.
  destruct (reaches_before error_text redactor newest_first order PQ cfg b corr sink sorted correlated
              c c' Hc Hle) as [Hw Hp].
  destruct Hs as [w ps p Hstart|w w' ps qs e k r Hserve|w w' ps Hoth]; cbn [Concurrency.world pool] in *.
  - by apply stays.
  - apply Forall_app in Hp as [_ Hq]. apply Forall_cons in Hq as [Hq _]. destruct Hq as [He _].
    by eapply serve_moves.
  - by eapply others_moves.
Qed.

(** C2: The concurrent system refines an abstract board of investigations: from the
    empty board, every step of a reconcile, of the server or of another client is no
    move or one move of the board, which opens an investigation only if none is open
    for its fingerprint and starts an agent only for an opened fingerprint with no
    agent running. *)
Theorem watcher_refines_the_board c :
  reaches c ->
  plays (board cfg (store c)) /\
  forall c', step serves others starts c c' -> moves_to (board cfg (store c)) (board cfg (store c')).
Proof using sorted built correlated.
  intros Hc. split; [|intros c'; by apply step_moves].
  induction Hc as [|c c' Hc IH Hs]; [|by eapply plays_move, step_moves].
  apply plays_empty. split_and!; intros p; cbn; rewrite elem_of_PropSet; [set_solver|..];
    setoid_rewrite lookup_empty; split; [by intros []|done|naive_solver|done].
Qed.
End Simulation.

(** On a board, only opened investigations are open or run. *)
Lemma plays_consistent B : plays B -> open B ⊆ opened B /\ running B ⊆ opened B.
Proof.
  induction 1 as [B (H1 & H2 & H3)|B B' _ [IH1 IH2] [H|p _ H|p H|p Hp _ H|p H]];
    [set_solver|..]; destruct H as (H1 & H2 & H3); cbn in *; set_solver.
Qed.

Lemma watcher_refines_the_board_witness :
  exists c, SystemExample.reached c /\ plays (board default_config (store c)) /\
    drop 9 SystemExample.the_key.2 ∈ running (board default_config (store c)).
Proof.
  destruct SystemExample.dispatched_reached as [ps Hr]. eexists. split; [exact Hr|]. split.
  - apply (watcher_refines_the_board Example.text Redaction.defaultRedactor
      NativeExample.sorted_events map_to_list demo_PQ default_config demo_builder demo_correlator None
      (proj1 NativeExample.sorted_events_ok) eq_refl eq_refl _ Hr).
  - cbn [Concurrency.world running board]. rewrite elem_of_PropSet. exact SystemExample.dispatched_agent.
Defined.
