(* ===== verification/Liveness.v ===== *)
(** * What becomes of a finding
    The provider accounts for every finding it extracts: it asks the server for a
    RemediationJob, or returns an error or asks to be called again, or has a
    reason, visible in the metrics (or in the namespace configuration), that
    holds of the finding. *)
From stdpp Require Import base list strings gmap.
From Stdlib Require Import ZArith Lia Ascii.
From S2P Require Import Prelude Prog Utf8 Regex Redact Sha256 Json K8s Types Effects Domain.
From S2P Require Import Fingerprint BoundedMap CircuitBreaker Config Metrics Provider ProviderProps Watcher.
Import GoErr GoStr GoTime GoInt.
Open Scope string_scope.
Open Scope list_scope.
Open Scope Z_scope.
Open Scope go_scope.

Lemma now_runs tr t : runs now tr (Done t) -> tr = [Event (ans := answer) Now t].
Proof.
  intros Hr. refine (runs_wp _ (fun tr o => forall t, o = Done t -> tr = [Event (ans := answer) Now t]) _ _ Hr _ t eq_refl).
  by intros t' t'' [= <-].
Qed.

Lemma init_starts r s0 tr s m :
  runs (initFirstSeen r s0) tr (Done (s, m)) -> starts_from s0 m /\ breaker s = breaker s0.
Proof.
  intros Hr. refine (runs_wp _ (fun _ o => forall s m, o = Done (s, m) -> starts_from s0 m /\ breaker s = breaker s0)
    _ _ Hr _ s m eq_refl).
  unfold initFirstSeen, starts_from. destruct (firstSeen s0) as [m0|] eqn:E; [intros s1 m1 [= <- <-]; auto|].
  unfold NewBoundedMap, now. cbn [bind call]. intros t s1 m1 [= <- <-]. auto.
Qed.

Section Accounting.
Context (order : gmap string Z -> list (string * Z)) (r : SourceProviderReconciler).

(** A job was listed in the trace. *)
Definition listed (j : RemediationJob) (tr : trace) : Prop :=
  exists sel items, Event (ans := answer) (ListRJobs (cfg_AgentNamespace (sp_Cfg r)) sel) (Ok items) ∈ tr /\
    j ∈ items.

(** The circuit breaker is open: less than its cooldown has passed since the last
    self-remediation it allowed. *)
Definition cooling (cb : option CircuitBreaker) (tr : trace) : Prop :=
  exists c t, cb = Some c /\ cb_lastAllowed c <> zero_time /\ t ∈ clocks tr /\
    Sub t (cb_lastAllowed c) < cb_cooldown c.

(** The finding is not stable yet: its fingerprint has not been seen, or was seen so
    long ago that the entry has expired, or was first seen less than a window ago. *)
Definition settling (m : BoundedMap) (fp : string) (tr : trace) : Prop :=
  bm_data m !! fp = None \/
  exists t0 t, bm_data m !! fp = Some t0 /\ t ∈ clocks tr /\
    (bm_ttl m < Sub t t0 \/ Sub t t0 < cfg_StabilisationWindow (sp_Cfg r)).

Lemma cooling_within cb tr tr' : within tr tr' -> cooling cb tr -> cooling cb tr'.
Proof. intros Hw (c & t & ? & ? & ? & ?). exists c, t. eauto with traces. Qed.

Lemma settling_within m fp tr tr' : within tr tr' -> settling m fp tr -> settling m fp tr'.
Proof. intros Hw [?|(t0 & t & ? & ? & ?)]; [by left|right]. exists t0, t. eauto with traces. Qed.

Lemma breaker_cools c tr c' remaining :
  runs (ShouldAllow c) tr (Done (c', (false, remaining))) -> cooling (Some c) tr.
Proof.
  intros Hr. refine (runs_wp _ (fun tr o => forall c' x, o = Done (c', (false, x)) -> cooling (Some c) tr)
    _ _ Hr _ c' remaining eq_refl).
  unfold ShouldAllow, allow, now, IsZero. destruct (Z.eqb_spec (cb_lastAllowed c) zero_time); cbn [negb bind call].
  { by intros t c1 x [=]. }
  intros t. destruct (Z.ltb_spec (Sub t (cb_lastAllowed c)) (cb_cooldown c)); [|by intros t2 c1 x [=]].
  intros c1 x _. exists c, t. split_and!; [done..|apply list_elem_of_here|done].
Qed.

Lemma Get_seen fp m tr t0 : runs (Get fp m) tr (Done (Some t0)) -> bm_data m !! fp = Some t0.
Proof.
  intros Hr. refine (runs_wp _ (fun _ o => forall t0, o = Done (Some t0) -> bm_data m !! fp = Some t0)
    _ _ Hr _ t0 eq_refl).
  unfold Get, needsCleanup, now. destruct (bm_ttl m <=? 0); cbn [bind call andb]; [by intros t1 [= ->]|].
  intros t. destruct (_ && _); [|by intros t1 [= ->]].
  destruct (bm_data m !! fp) as [ts|]; [|done]. intros t'. by destruct (bm_ttl m <? _); intros t1 [= <-].
Qed.

Lemma Get_unseen fp m tr : runs (Get fp m) tr (Done None) -> settling m fp tr.
Proof.
  intros Hr. refine (runs_wp _ (fun tr o => o = Done None -> settling m fp tr) _ _ Hr _ eq_refl).
  unfold Get, needsCleanup, now. destruct (bm_ttl m <=? 0); cbn [bind call andb]; [intros [= ?]; by left|].
  intros t. destruct (_ && _); [|intros [= ?]; by left].
  destruct (bm_data m !! fp) as [ts|] eqn:E; [|by left]. intros t'.
  destruct (Z.ltb_spec (bm_ttl m) (Sub t' ts)) as [Hlt|]; [|done]. intros _. right. exists ts, t'.
  split; [done|]. split; [apply list_elem_of_further, list_elem_of_here|by left].
Qed.

(** The state the reconcile starts from: the breaker and the first-seen times. *)
Section Gates.
Context (cb : option CircuitBreaker) (m : BoundedMap).

(** When each reason may be given. *)
Inductive justified (obj : Object) (f : Finding) (tr : trace) : string -> Prop :=
| just_injection :
    cfg_InjectionDetectionAction (sp_Cfg r) = "suppress" ->
    Injection.DetectInjection (f_Errors f) = true \/ Injection.DetectInjection (f_Details f) = true ->
    justified obj f tr ReasonInjectionDetected
| just_severity :
    Severity.MeetsSeverityThreshold (f_Severity f) (minSeverity r) = false ->
    justified obj f tr ReasonMinSeverity
| just_depth :
    0 < f_ChainDepth f -> depth_exceeded r f = true -> justified obj f tr ReasonSelfRemediationDepth
| just_breaker : 0 < f_ChainDepth f -> cooling cb tr -> justified obj f tr ReasonCircuitBreaker
| just_window fp :
    FindingFingerprint f = Ok fp -> settling m fp tr ->
    cfg_StabilisationWindow (sp_Cfg r) <> 0 ->
    map_get (meta_Annotations (obj_Meta obj)) Annotations.AnnotationPriority <> "critical" ->
    justified obj f tr ReasonStabilisationWindow
| just_duplicate j :
    listed j tr -> FindingFingerprint f = Ok (spec_Fingerprint (rj_Spec j)) ->
    rj_Phase j <> PhaseFailed -> rj_Phase j <> PhasePermanentlyFailed ->
    justified obj f tr ReasonDuplicate
| just_permanent j :
    listed j tr -> FindingFingerprint f = Ok (spec_Fingerprint (rj_Spec j)) ->
    rj_Phase j = PhasePermanentlyFailed -> justified obj f tr ReasonPermanentlyFailed
| just_parent j :
    listed j tr -> supersedes f j = true -> justified obj f tr ReasonParentHierarchy.

(** The namespace of the finding is not to be watched. *)
Definition ignored (f : Finding) (tr : trace) : Prop :=
  f_Namespace f <> "" /\
  ((cfg_WatchNamespaces (sp_Cfg r) <> [] /\ f_Namespace f ∉ cfg_WatchNamespaces (sp_Cfg r)) \/
   f_Namespace f ∈ cfg_ExcludeNamespaces (sp_Cfg r) \/
   exists o t, Event (ans := answer) (GetNamespace (f_Namespace f)) (Ok o) ∈ tr /\ t ∈ clocks tr /\
     Annotations.ShouldSkip (meta_Annotations (ns_Meta o)) t = true).

Inductive accounted (obj : Object) (f : Finding) (tr : trace) (res : reconciled) : Prop :=
| acc_requested j a :
    Event (ans := answer) (CreateRJob j) a ∈ tr ->
    FindingFingerprint f = Ok (spec_Fingerprint (rj_Spec j)) -> accounted obj f tr res
| acc_error e : res = Err e -> accounted obj f tr res
| acc_again : res = Ok requeue_now \/ res = Ok (requeue_after ReadinessCacheTTL) -> accounted obj f tr res
| acc_reason reason u :
    Event (ans := answer) (Metric (FindingsSuppressed reason)) u ∈ tr -> justified obj f tr reason ->
    accounted obj f tr res
| acc_ignored : ignored f tr -> accounted obj f tr res.

Lemma listed_within j tr tr' : within tr tr' -> listed j tr -> listed j tr'.
Proof. intros Hw (sel & items & Hin & Hj). exists sel, items. eauto with traces. Qed.

Lemma listed_here j sel items tr :
  j ∈ items -> listed j (tr ++ [Event (ans := answer) (ListRJobs (sp_ns r) sel) (Ok items)]).
Proof. intros Hj. exists sel, items. split; [|done]. apply elem_of_app. right. apply list_elem_of_here. Qed.

Lemma justified_within obj f tr tr' reason :
  within tr tr' -> justified obj f tr reason -> justified obj f tr' reason.
Proof. intros Hw []; econstructor; eauto using listed_within, cooling_within, settling_within. Qed.

Lemma accounted_within obj f tr tr' res :
  within tr tr' -> accounted obj f tr res -> accounted obj f tr' res.
Proof.
  intros Hw [j a Hin Hfp|e ->|Hres|reason u Hin Hj|(Hn & Hi)].
  - eapply acc_requested; eauto with traces.
  - by eapply acc_error.
  - by eapply acc_again.
  - eapply acc_reason; eauto using justified_within with traces.
  - apply acc_ignored. split; [done|]. destruct Hi as [?|[?|(o & t & Ho & Ht & Hs)]]; [by left|by right; left|].
    right. right. exists o, t. eauto with traces.
Qed.

(** A program accounts for the results that [view] finds in its value, after the
    calls of [tr0]. *)
Definition accounts_state {A} (obj : Object) (f : Finding) (tr0 : trace) (view : A -> option reconciled)
    (p : io A) : Prop :=
  wp p (fun tr o => match o with
                    | Done a => match view a with Some res => accounted obj f (tr0 ++ tr) res | None => True end
                    | Panicked _ => True
                    end).

Lemma accounts_seq {A B} obj f tr0 (v : A -> option reconciled) (w : B -> option reconciled)
    (p : io A) (k : A -> io B) :
  accounts_state obj f tr0 v p ->
  (forall tr a, runs p tr (Done a) ->
     (forall res, v a = Some res -> accounted obj f (tr0 ++ tr) res) ->
     accounts_state obj f (tr0 ++ tr) w (k a)) ->
  accounts_state obj f tr0 w (bind p k).
Proof.
  intros Hp Hk. apply wp_bind, wp_runs. intros tr [a|msg] Hr; [|done].
  pose proof (runs_wp _ _ _ _ Hr Hp) as Ha. cbn beta iota in Ha.
  eapply wp_mono; [|apply (Hk tr a Hr)].
  - intros tr' [b|] Hres; [|done]. destruct (w b); [|done]. by rewrite <- app_assoc in Hres.
  - intros res Hv. by rewrite Hv in Ha.
Qed.

Lemma accounts_stop {A} obj f tr0 (w : A -> option reconciled) a :
  (forall res, w a = Some res -> accounted obj f tr0 res) -> accounts_state obj f tr0 w (Ret a).
Proof.
  intros Ha. cbn [accounts_state wp]. destruct (w a); [|done]. rewrite app_nil_r. by apply Ha.
Qed.

(** Gates that account for what they stop. *)
Definition accounts (obj : Object) (f : Finding) (tr0 : trace) (p : io (option reconciled)) : Prop :=
  accounts_state obj f tr0 (fun g => g) p.

Lemma accounts_error obj f tr0 e : accounts obj f tr0 (Ret (Some (Err e))).
Proof. by eapply acc_error. Qed.

Lemma accounts_suppressed obj f tr0 reason result :
  justified obj f tr0 reason -> accounts obj f tr0 (suppressed reason result).
Proof.
  intros Hj u. eapply acc_reason; [apply elem_of_app; right; apply list_elem_of_here|].
  eapply justified_within; [apply within_app_l|exact Hj].
Qed.

Lemma accounts_bind {A} obj f tr0 (p : io A) (k : A -> io (option reconciled)) :
  (forall tr a, runs p tr (Done a) -> accounts obj f (tr0 ++ tr) (k a)) -> accounts obj f tr0 (bind p k).
Proof.
  intros Hk. apply (accounts_seq _ _ _ (fun _ => None)); [apply wp_runs; by intros tr []|].
  intros tr a Hr _. by apply Hk.
Qed.

Lemma accounts_call obj f tr0 e (k : answer e -> io (option reconciled)) :
  (forall a, accounts obj f (tr0 ++ [Event (ans := answer) e a]) (k a)) -> accounts obj f tr0 (Call e k).
Proof.
  intros Hk a. eapply wp_mono; [|apply (Hk a)]. intros tr' [[res|]|] Hres; [|done..].
  by rewrite <- app_assoc in Hres.
Qed.

Lemma duplicate_accounts obj f tr0 j s :
  justified obj f tr0 ReasonDuplicate -> accounts obj f tr0 (duplicate r j s).
Proof.
  intros Hj. apply accounts_bind. intros tr [] _. apply accounts_suppressed.
  eapply justified_within; [apply within_app_l|exact Hj].
Qed.

(** *** Gate by gate *)
Lemma injection_gate_accounts obj f tr0 : accounts obj f tr0 (injection_gate r f).
Proof.
  unfold injection_gate. destruct (_ && _) eqn:E; [|done]. apply andb_true_iff in E as [Hi Ha%String.eqb_eq].
  apply accounts_suppressed, just_injection; [done|]. by apply orb_true_iff in Hi.
Qed.

Lemma namespace_gate_accounts obj f tr0 : accounts obj f tr0 (namespace_gate r f).
Proof.
  unfold namespace_gate. destruct (String.eqb_spec (f_Namespace f) "") as [|Hn]; [done|].
  destruct (_ && negb _) eqn:Ew.
  { apply acc_ignored. split; [done|]. left. apply andb_true_iff in Ew as [Hl Hw].
    split; [by destruct (cfg_WatchNamespaces _)|].
    apply negb_true_iff in Hw. intros ?%contains_ns_spec. congruence. }
  destruct (contains_ns (cfg_ExcludeNamespaces _) _) eqn:Ee.
  { apply acc_ignored. split; [done|]. right. left. by apply contains_ns_spec. }
  apply accounts_call. intros [o|e]; cbn [bind].
  - apply accounts_call. intros t. destruct (Annotations.ShouldSkip _ t) eqn:Hs; [|done].
    apply acc_ignored. split; [done|]. right. right. exists o, t. rewrite !clocks_app.
    split; [set_solver|]. split; [set_solver|done].
  - destruct (IsNotFound e); [done|apply accounts_error].
Qed.

Lemma severity_gate_accounts obj f tr0 : accounts obj f tr0 (severity_gate r f).
Proof.
  unfold severity_gate. destruct (Severity.MeetsSeverityThreshold _ _) eqn:E; [done|].
  by apply accounts_suppressed, just_severity.
Qed.

Lemma tombstone_accounts obj f tr0 j :
  justified obj f tr0 ReasonDuplicate -> accounts obj f tr0 (tombstone r j).
Proof.
  intros Hj. unfold tombstone. destruct (st_PRMerged _); [by apply duplicate_accounts|].
  assert (forall tr, justified obj f (tr0 ++ tr) ReasonDuplicate) as Hj'
    by (intros; eapply justified_within; [apply within_app_l|exact Hj]).
  apply accounts_bind. intros tr1 [] _.
  - unfold now. cbn [bind call]. apply accounts_call. intros t. apply accounts_call. intros p.
    rewrite <- !app_assoc. by apply duplicate_accounts.
  - apply accounts_bind. intros tr2 [] _; rewrite <- app_assoc; cbn [negb]; [|by apply duplicate_accounts].
    apply accounts_call. intros [[]|e]; cbn [bind]; [by apply acc_again; left|].
    case_match; [by apply acc_again; left|apply accounts_error].
Qed.

Lemma dedup_one_accounts obj f tr0 j :
  listed j tr0 -> FindingFingerprint f = Ok (spec_Fingerprint (rj_Spec j)) ->
  accounts obj f tr0 (dedup_one r j).
Proof.
  intros Hl Hf. unfold dedup_one. destruct (rj_Phase j) eqn:Hp;
    try (apply duplicate_accounts; apply (just_duplicate _ _ _ j); by rewrite ?Hp).
  - apply tombstone_accounts, (just_duplicate _ _ _ j); by rewrite ?Hp.
  - apply accounts_call. intros [[]|e]; cbn [bind]; [done|]. case_match; [done|apply accounts_error].
  - apply accounts_bind. intros tr [] _. apply accounts_suppressed.
    apply (just_permanent _ _ _ j); [|done..]. eapply listed_within; [apply within_app_l|done].
Qed.

Lemma dedup_accounts obj f fp items tr0 :
  FindingFingerprint f = Ok fp -> (forall j, j ∈ items -> listed j tr0) ->
  accounts obj f tr0 (dedup r fp items).
Proof.
  intros Hf. revert tr0. induction items as [|j l IH]; intros tr0 Hl; cbn [dedup]; [done|].
  destruct (String.eqb_spec (spec_Fingerprint (rj_Spec j)) fp) as [E|E]; cbn [negb];
    [|apply IH; intros; apply Hl; set_solver].
  assert (accounts obj f tr0 (dedup_one r j)) as Hj
    by (apply dedup_one_accounts; [apply Hl; set_solver|congruence]).
  eapply accounts_seq; [exact Hj|]. intros tr [res|] _ Hres; [by apply accounts_stop|].
  apply IH. intros k Hk. eapply listed_within; [apply within_app_l|]. apply Hl. set_solver.
Qed.

Lemma dedup_gate_accounts obj f fp tr0 :
  FindingFingerprint f = Ok fp -> accounts obj f tr0 (dedup_gate r fp).
Proof.
  intros Hf. unfold dedup_gate. apply accounts_call. intros [items|e]; cbn [bind]; [|apply accounts_error].
  apply dedup_accounts; [done|]. intros j Hj. by apply listed_here.
Qed.

Lemma hierarchy_gate_accounts obj f tr0 : accounts obj f tr0 (hierarchy_gate r f).
Proof.
  unfold hierarchy_gate. destruct (String.eqb _ _); [done|]. apply accounts_call.
  intros [items|e]; cbn [bind]; [|apply accounts_error].
  destruct (existsb _ items) eqn:E; [|done]. apply existsb_exists in E as (p & Hp%list_elem_of_In & Hs).
  apply accounts_suppressed, (just_parent _ _ _ p); [|done]. by apply listed_here.
Qed.

Lemma readiness_gate_accounts obj f tr0 : accounts obj f tr0 (readiness_gate r).
Proof.
  unfold readiness_gate. destruct (sp_ReadinessChecker r); [|done]. apply accounts_bind.
  intros tr [u|e] _; [done|]. by apply acc_again; right.
Qed.


Lemma gates_accounts obj f fp tr0 :
  FindingFingerprint f = Ok fp -> accounts obj f tr0 (gates r fp f).
Proof.
  intros Hf. eapply accounts_seq; [by apply dedup_gate_accounts|].
  intros tr1 [res|] _ H1; [by apply accounts_stop|].
  eapply accounts_seq; [apply hierarchy_gate_accounts|].
  intros tr2 [res|] _ H2; [by apply accounts_stop|]. apply readiness_gate_accounts.
Qed.

Lemma filters_accounts obj f tr0 : accounts obj f tr0 (filters r f).
Proof.
  eapply accounts_seq; [apply injection_gate_accounts|].
  intros tr1 [res|] _ H1; [by apply accounts_stop|].
  eapply accounts_seq; [apply namespace_gate_accounts|].
  intros tr2 [res|] _ H2; [by apply accounts_stop|]. apply severity_gate_accounts.
Qed.

Abbreviation gate_view := (snd : State * option reconciled -> option reconciled).

(** A gate that also returns the state. *)
Lemma accounts_with_state obj f tr0 (p : io (option reconciled)) (s : State) :
  accounts obj f tr0 p -> accounts_state obj f tr0 gate_view (g <- p ;; Ret (s, g)).
Proof. intros Hp. eapply accounts_seq; [exact Hp|]. intros tr g _ Hg. by apply accounts_stop. Qed.

Lemma self_gate_accounts obj f s tr0 :
  breaker s = cb -> accounts_state obj f tr0 gate_view (self_gate r f s).
Proof.
  intros Hb. unfold self_gate. destruct (Z.leb_spec (f_ChainDepth f) 0); [by apply accounts_stop|].
  destruct (depth_exceeded r f) eqn:Hd; [by apply accounts_with_state, accounts_suppressed, just_depth|].
  destruct (breaker s) as [c|] eqn:Ec; [|by apply accounts_stop].
  apply (accounts_seq _ _ _ (fun _ => None)); [apply wp_runs; by intros tr []|].
  intros tr1 [c' [[] remaining]] Hr _; [by apply accounts_stop|]. apply breaker_cools in Hr. rewrite Hb in Hr.
  intros u1 u2. eapply acc_reason; [|apply just_breaker; [done|]].
  - apply elem_of_app. right. apply list_elem_of_here.
  - eapply cooling_within; [|exact Hr]. eexists tr0, _. rewrite <- app_assoc. reflexivity.
Qed.

Lemma stabilisation_gate_accounts obj f fp s tr0 :
  FindingFingerprint f = Ok fp -> accounts_state obj f tr0 gate_view (stabilisation_gate order r obj fp m s).
Proof.
  intros Hf. unfold stabilisation_gate. cbv zeta.
  destruct (String.eqb_spec (map_get (meta_Annotations (obj_Meta obj)) Annotations.AnnotationPriority)
              "critical") as [Hp|Hp]; cbn [negb andb]; [by apply accounts_stop|].
  destruct (Z.eqb_spec (cfg_StabilisationWindow (sp_Cfg r)) 0) as [Hw|Hw]; cbn [negb];
    [by apply accounts_stop|].
  assert (forall tr1 tr2, settling m fp tr2 -> justified obj f (tr1 ++ tr2) ReasonStabilisationWindow) as Hj.
  { intros tr1 tr2 Hs. apply (just_window _ _ _ fp); [done| |done..]. eapply settling_within; [|exact Hs]. segment. }
  apply (accounts_seq _ _ _ (fun _ => None)); [apply wp_runs; by intros tr []|]. intros tr1 [t0|] Hget _.
  - apply Get_seen in Hget.
    apply (accounts_seq _ _ _ (fun _ => None)); [by intros t|]. intros tr2 t Hr _.
    destruct (Z.ltb_spec (Sub t t0) (cfg_StabilisationWindow (sp_Cfg r))); [|by apply accounts_stop].
    apply accounts_with_state, accounts_suppressed. apply Hj. right. exists t0, t. split; [done|].
    split; [|by right]. apply now_runs in Hr as ->. apply list_elem_of_here.
  - apply Get_unseen in Hget.
    apply (accounts_seq _ _ _ (fun _ => None)); [apply wp_runs; by intros tr []|]. intros tr2 [m' x] _ _.
    apply accounts_with_state, accounts_suppressed. eapply justified_within; [|apply (Hj tr0 tr1 Hget)]. segment.
Qed.

Abbreviation result_view := (fun a : State * reconciled => Some (snd a)).

Lemma create_rjob_accounts obj f fp name namespace s tr0 :
  FindingFingerprint f = Ok fp ->
  accounts_state obj f tr0 result_view (c <- create_rjob r name namespace fp f ;; Ret (s, c)).
Proof.
  intros Hf. apply wp_bind. unfold create_rjob. intros a. apply wp_runs. intros tr [c|msg] _; [|done].
  apply (acc_requested _ _ _ _ (new_rjob r name namespace fp f) a); [|done]. rewrite app_nil_r.
  apply elem_of_app. right. apply list_elem_of_here.
Qed.

Lemma handle_finding_accounts obj f name namespace s tr0 :
  breaker s = cb -> accounts_state obj f tr0 result_view (handle_finding order r name namespace obj f m s).
Proof.
  intros Hb. unfold handle_finding. eapply accounts_seq; [apply filters_accounts|].
  intros tr1 [res|] _ H1; [apply accounts_stop; intros ? [= <-]; by apply H1|].
  eapply accounts_seq; [by apply self_gate_accounts|].
  intros tr2 [s1 [res|]] _ H2; [apply accounts_stop; intros ? [= <-]; by apply H2|].
  unfold admit_finding. destruct (FindingFingerprint f) as [fp|e] eqn:Hf;
    [|apply accounts_stop; intros ? [= <-]; by eapply acc_error].
  destruct (_ <? 12); [apply accounts_stop; intros ? [= <-]; by eapply acc_error|].
  eapply accounts_seq; [by apply stabilisation_gate_accounts|].
  intros tr3 [s2 [res|]] _ H3; [apply accounts_stop; intros ? [= <-]; by apply H3|].
  eapply accounts_seq; [by apply gates_accounts|].
  intros tr4 [res|] _ H4; [apply accounts_stop; intros ? [= <-]; by apply H4|].
  by apply create_rjob_accounts.
Qed.

End Gates.

(** There was nothing to account for: the object is gone or has no finding. *)
Definition nothing_found (name namespace : string) (tr : trace) : Prop :=
  (exists e, Event (ans := answer) (GetObject (sp_ObjectType r) namespace name) (Err e) ∈ tr /\
             IsNotFound e = true) \/
  (exists obj tr', Event (ans := answer) (GetObject (sp_ObjectType r) namespace name) (Ok obj) ∈ tr /\
     within tr' tr /\ runs (sp_ExtractFinding r obj) tr' (Done (Ok None))).

(** C16: Every reconcile of the provider that returns reports an error, found no
    finding, or accounts for the finding it extracted: it asks the server for a
    RemediationJob with its fingerprint, asks to be called again at once or when the
    readiness cache expires, or counts a suppression whose reason holds: an injection
    under suppress, a severity below the threshold, a depth over the limit, a circuit
    breaker within its cooldown at a clock reading of the run, a fingerprint not seen
    before, expired or seen less than a window ago, a listed job with the fingerprint,
    a listed superior; or the namespace is configured or annotated not to be watched. *)
Theorem findings_are_accounted_for name namespace s0 tr s' res :
  runs (Reconcile order r name namespace s0) tr (Done (s', res)) ->
  (exists e, res = Err e) \/ nothing_found name namespace tr \/
  exists m obj f, starts_from s0 m /\ observed r name namespace obj f tr /\
    accounted (breaker s0) m obj f tr res.
Proof.
  intros Hr. refine (runs_wp _ (fun tr o => forall s' res, o = Done (s', res) ->
    (exists e, res = Err e) \/ nothing_found name namespace tr \/
    exists m obj f, starts_from s0 m /\ observed r name namespace obj f tr /\
      accounted (breaker s0) m obj f tr res) _ _ Hr _ s' res eq_refl).
  clear tr s' res Hr. unfold Reconcile, nothing_found, observed.
  apply wp_bind, wp_runs. intros tr0 [[s m]|msg] Hinit; [|done].
  destruct (init_starts r _ _ _ _ Hinit) as [Hm Hb].
  intros [obj|e]; cbn [bind call].
  - apply wp_bind, wp_runs. intros tr1 [[[f|]|e]|msg] Hx; [..|done].
    + eapply wp_mono; [|apply (handle_finding_accounts (breaker s0) m obj f name namespace s
        (tr0 ++ Event (ans := answer) (GetObject (sp_ObjectType r) namespace name) (Ok obj) :: tr1)); exact Hb].
      intros tr2 o Ho s' res ->. right. right. exists m, obj, f. rewrite <- app_assoc in Ho.
      split; [done|]. split; [|done].
      split; [apply elem_of_app; right; apply list_elem_of_here|].
      exists tr1. split; [segment|done].
    + apply wp_runs. intros tr2 o _ s' res ->. right. left. right. exists obj, tr1.
      split; [apply elem_of_app; right; apply list_elem_of_here|]. split; [segment|done].
    + intros s' res [= <- <-]. eauto.
  - destruct (IsNotFound e) eqn:He; cbn [negb].
    + apply wp_runs. intros tr2 o _ s' res ->. right. left. left. exists e. split; [|done].
      apply elem_of_app; right; apply list_elem_of_here.
    + intros s' res [= <- <-]. eauto.
Qed.
End Accounting.

(** The crashing pod of WatcherExample, a second after it was first seen. *)
Definition early_look := WatcherExample.watch second WatcherExample.seen_once.

Lemma findings_are_accounted_for_witness :
  exists s' res, early_look.2 = Done (s', res) /\
  ((exists e, res = Err e) \/ nothing_found WatcherExample.reconciler "web-0" "shop" early_look.1 \/
   exists m obj f, starts_from WatcherExample.seen_once m /\
     observed WatcherExample.reconciler "web-0" "shop" obj f early_look.1 /\
     accounted WatcherExample.reconciler (breaker WatcherExample.seen_once) m obj f early_look.1 res).
Proof.
  destruct early_look.2 as [[s' res]|m] eqn:E; [|vm_compute in E; discriminate E].
  exists s', res. split; [done|].
  apply (findings_are_accounted_for map_to_list WatcherExample.reconciler "web-0" "shop"
           WatcherExample.seen_once early_look.1 s' res).
  rewrite <- E. apply exec_pure_runs.
Defined.
