(* ===== verification/Progress.v ===== *)
(** * A pending job that is due gets dispatched
    The controller makes progress: when the API server cooperates, a slot is
    free in the sense of the concurrency gate and no other job is Pending, the
    reconcile of a Pending job past its correlation window creates its batch/v1
    Job, with or without correlation.  The reconciler is the one main wires up. *)
From stdpp Require Import base list strings gmap.
From Stdlib Require Import ZArith Lia Ascii.
From S2P Require Import Prelude Prog Utf8 Regex Redact K8s Types Effects Domain Metrics.
From S2P Require Import Correlator Config Controller ControllerProps ControllerSafety JobBuilder Wiring.
Import GoErr GoStr GoTime GoInt.
Open Scope string_scope.
Open Scope list_scope.
Open Scope Z_scope.
Open Scope go_scope.

Section Progress.
Context `{ConditionLib} (error_text : error -> string) (r : RemediationJobReconciler).
Context (rjob : RemediationJob) (start : Z).

(** The selector of the Jobs that a RemediationJob owns. *)
Definition owned_by (o : RemediationJob) : list (string * string) :=
  [("remediation.mechanic.io/remediation-job", rj_Name o)].

(** The server serves every request, keeps the spec in its answers to patches and
    has no Job of [rjob] yet; the clock reads [start] or later, past the window of
    [rjob]; fewer Jobs than allowed occupy a slot from [start] on; no other
    RemediationJob is Pending. *)
Definition cooperative (e : req) : answer e -> Prop :=
  match e return answer e -> Prop with
  | Now => fun t => start <= t /\ window r <= Sub t (rj_Created rjob)
  | RandRead _ => fun bs => is_Some bs
  | GetPod _ _ => fun a => match a with Ok _ => True | Err e => IsNotFound e = true end
  | ListRJobs _ _ => fun a => exists l, a = Ok l /\
      forall p, p ∈ l -> rj_UID p = rj_UID rjob \/ rj_Phase p <> PhasePending
  | ListJobs _ sel => fun a => exists l, a = Ok l /\ (sel = owned_by rjob -> l = []) /\ Forall limit_ok l /\
      (cfg_MaxConcurrentJobs (r_Cfg r) = 0 \/
       forall ts n, Forall (Z.le start) ts -> counted l ts n -> n < cfg_MaxConcurrentJobs (r_Cfg r))
  | CreateJob _ => fun a => exists j, a = Ok j
  | StatusPatchRJob obj _ | PatchRJob obj _ => fun a => exists o, a = Ok o /\ rj_Spec o = rj_Spec obj
  | _ => fun _ => True
  end.

(** The program ends well, in a value that satisfies [S]. *)
Definition delivers {A} (S : A -> Prop) (p : io A) : Prop :=
  wp p (fun tr o => relies cooperative tr -> exists a, o = Done a /\ S a).

(** The program ends well, and a Job built for the RemediationJob has been created. *)
Definition created_for (tr : trace) : Prop :=
  exists o fs j j', rj_Spec o = rj_Spec rjob /\ r_Build r o fs = Done (Ok j) /\
    Event (ans := answer) (CreateJob j) (Ok j') ∈ tr.

Definition dispatches (p : io reconciled) : Prop :=
  wp p (fun tr o => relies cooperative tr -> o = Done (Ok no_requeue) /\ created_for tr).

Lemma relies_app_inv (tr1 tr2 : trace) :
  relies cooperative (tr1 ++ tr2) -> relies cooperative tr1 /\ relies cooperative tr2.
Proof. apply Forall_app. Qed.

Lemma delivers_ret {A} (S : A -> Prop) a : S a -> delivers S (Ret a).
Proof. intros Ha _. eauto. Qed.

Lemma delivers_bind {A B} (S : A -> Prop) (T : B -> Prop) (p : io A) (k : A -> io B) :
  delivers S p -> (forall a, S a -> delivers T (k a)) -> delivers T (bind p k).
Proof.
  intros Hp Hk. apply wp_bind, wp_runs. intros tr o Hr. pose proof (runs_wp _ _ _ _ Hr Hp) as Ho.
  destruct o as [a|m].
  - apply wp_runs. intros tr' o' Hr' [H1 H2]%relies_app_inv. destruct (Ho H1) as (? & [= <-] & Ha).
    exact (runs_wp _ _ _ _ Hr' (Hk a Ha) H2).
  - intros Hrel. by destruct (Ho Hrel) as (? & ? & _).
Qed.

Lemma delivers_call e (S : answer e -> Prop) :
  (forall a, cooperative e a -> S a) -> delivers S (call e).
Proof. intros Hs a Hrel. exists a. split; [done|]. apply Hs. by inversion Hrel. Qed.

Lemma delivers_next {A} (T : A -> Prop) e (k : answer e -> io A) :
  (forall a, cooperative e a -> delivers T (k a)) -> delivers T (Call e k).
Proof.
  intros Hk. apply (delivers_bind (fun a => cooperative e a) T (call e) k); [|done].
  by apply delivers_call.
Qed.

Lemma dispatches_bind {A} (S : A -> Prop) (p : io A) (k : A -> io reconciled) :
  delivers S p -> (forall a, S a -> dispatches (k a)) -> dispatches (bind p k).
Proof.
  intros Hp Hk. apply wp_bind, wp_runs. intros tr o Hr. pose proof (runs_wp _ _ _ _ Hr Hp) as Ho.
  destruct o as [a|m].
  - apply wp_runs. intros tr' o' Hr' [H1 H2]%relies_app_inv. destruct (Ho H1) as (? & [= <-] & Ha).
    destruct (runs_wp _ _ _ _ Hr' (Hk a Ha) H2) as (-> & x & fs & j & j' & Hx & Hb & Hin). split; [done|].
    exists x, fs, j, j'. split_and!; [done..|]. apply elem_of_app. by right.
  - intros Hrel. by destruct (Ho Hrel) as (? & ? & _).
Qed.

Lemma dispatches_call e (k : answer e -> io reconciled) :
  (forall a, cooperative e a -> dispatches (k a)) -> dispatches (Call e k).
Proof.
  intros Hk. apply (dispatches_bind (fun a => cooperative e a) (call e) k); [|done].
  by apply delivers_call.
Qed.

Lemma dispatches_create x fs j (k : res Job -> io reconciled) :
  rj_Spec x = rj_Spec rjob -> r_Build r x fs = Done (Ok j) ->
  (forall j', delivers (fun x => x = Ok no_requeue) (k (Ok j'))) -> dispatches (Call (CreateJob j) k).
Proof.
  intros Hx Hb Hk c. apply wp_runs. intros tr o Hr [Hc Hrel]%Forall_cons. destruct Hc as [j' Hc].
  cbn [ev_ans ev_call] in Hc. subst c. destruct (runs_wp _ _ _ _ Hr (Hk j') Hrel) as (? & -> & ->).
  split; [done|]. exists x, fs, j, j'. split_and!; [done..|]. apply list_elem_of_here.
Qed.

(** ** The gate has room *)
Lemma metric_delivers m : delivers (fun _ => True) (metric_inc m).
Proof. by apply (delivers_call (Metric m)). Qed.

Lemma cooperative_clocks tr : relies cooperative tr -> Forall (Z.le start) (clocks tr).
Proof.
  induction 1 as [|[e a] tr He _ IH]; [constructor|]. unfold clocks. csimpl.
  destruct e; try exact IH. constructor; [by destruct He|exact IH].
Qed.

Lemma count_active_delivers l :
  Forall limit_ok l ->
  delivers (fun n => exists ts, Forall (Z.le start) ts /\ counted l ts n) (count_active l).
Proof.
  intros Hl. eapply wp_mono; [|by apply count_active_counted]. intros tr o (n & -> & Hn) Hrel.
  exists n. split; [done|]. exists (clocks tr). split; [by apply cooperative_clocks|done].
Qed.

Lemma concurrencyGate_delivers : delivers (fun g => g = Ok None) (concurrencyGate r).
Proof.
  unfold concurrencyGate. destruct (Z.eqb_spec (cfg_MaxConcurrentJobs (r_Cfg r)) 0) as [|Hz]; [by apply delivers_ret|].
  eapply delivers_bind; [by apply delivers_call; intros a Ha; exact Ha|]. intros a (l & -> & _ & Hok & [?|Hl]); [done|].
  eapply delivers_bind; [by apply count_active_delivers|]. intros n (ts & Hts & Hn).
  specialize (Hl ts n Hts Hn).
  eapply delivers_bind; [apply metric_delivers|]. intros _ _.
  eapply delivers_bind; [by apply delivers_call; intros a Ha; exact Ha|]. intros a (items & -> & _).
  eapply delivers_bind; [apply metric_delivers|]. intros _ _.
  apply delivers_ret. by rewrite (proj2 (Z.leb_gt _ _)) by lia.
Qed.

(** ** The dispatch *)
Hypothesis rules_sound : forall c, r_Correlator r = Some c -> Forall RuleSound (Rules c).
Hypothesis builds : forall o fs, rj_Spec o = rj_Spec rjob -> exists j, r_Build r o fs = Done (Ok j).
Hypothesis clean : injected (rj_Finding rjob) = false.

Lemma recorded_delivers t a m : delivers (fun _ => True) (recorded r t a m).
Proof. unfold recorded. case_match; [by apply delivers_call|by apply delivers_ret]. Qed.

Lemma dispatched_dispatches o fs : rj_Spec o = rj_Spec rjob -> dispatches (dispatched r o fs).
Proof using builds clean.
  intros Hs. unfold dispatched, dispatch.
  assert (injected (rj_Finding o) = false) as -> by (unfold rj_Finding; by rewrite Hs).
  cbn [andb]. destruct (builds o fs Hs) as [j Hj]. rewrite Hj. cbn [bind call].
  apply (dispatches_create o fs); [done..|]. intros j'. unfold now.
  eapply delivers_bind with (S := fun x => x = Ok tt); [|intros ? ->; by apply delivers_ret].
  apply delivers_next. intros t _. cbn [bind]. apply delivers_next. intros a (o' & -> & _). cbn [bind].
  eapply delivers_bind; [apply recorded_delivers|]. intros _ _. by apply delivers_ret.
Qed.

Lemma gated_dispatches o fs : rj_Spec o = rj_Spec rjob -> dispatches (gated_dispatch r o fs).
Proof using builds clean.
  intros Hs. eapply dispatches_bind; [apply concurrencyGate_delivers|]. intros g ->.
  by apply dispatched_dispatches.
Qed.

Lemma dispatch_primary_dispatches g : dispatches (dispatch_primary r rjob [] g).
Proof using builds clean.
  unfold dispatch_primary. cbn [suppressCorrelatedPeers bind call].
  apply dispatches_call. intros a (r1 & -> & H1). apply dispatches_call. intros a (r2 & -> & H2).
  apply dispatched_dispatches. by rewrite H2.
Qed.

Lemma recover_or_dispatch_dispatches : dispatches (recover_or_dispatch r rjob).
Proof using builds clean.
  unfold recover_or_dispatch, recover_group. destruct (_ && _); [|by apply gated_dispatches].
  apply dispatches_call. intros a (items & -> & _). cbn [bind].
  case_match; [|by apply gated_dispatches]. apply dispatches_call. intros a (r1 & -> & H1).
  by apply gated_dispatches.
Qed.

(** With nobody around, the correlator finds no group or one of the job alone. *)
Lemma Evaluate_alone c :
  Forall RuleSound (Rules c) ->
  delivers (fun g => g = Ok None \/ exists g', g = Ok (Some g') /\ cg_PrimaryUID g' = rj_UID rjob)
    (Evaluate c rjob []).
Proof.
  intros Hs. eapply wp_mono; [|by apply evaluate_rules_sound]. intros tr o Ho Hrel.
  unfold relies in Hrel. rewrite Forall_forall in Hrel. destruct o as [[[g|]|e]|m].
  - eexists. split; [done|]. right. exists g. split; [done|]. destruct Ho as [_ Hi].
    destruct (Hi _ (or_introl eq_refl)) as (j & Hj & <-). by apply list_elem_of_singleton in Hj as ->.
  - eexists. split; [done|]. by left.
  - destruct Ho as (ns & n & e' & Hin & Hn). specialize (Hrel _ Hin). cbn in Hrel. congruence.
  - destruct Ho as (n & Hin). specialize (Hrel _ Hin). by destruct Hrel.
Qed.

Lemma correlate_dispatches c :
  Forall RuleSound (Rules c) -> dispatches (correlate r c rjob).
Proof using builds clean.
  intros Hs. unfold correlate.
  apply (dispatches_bind (fun ps => ps = Ok [])).
  { eapply delivers_bind; [by apply delivers_call; intros a Ha; exact Ha|]. intros a (items & -> & Hu).
    apply delivers_ret. f_equal. induction items as [|p items IH]; [done|]. cbn [List.filter].
    assert (negb (String.eqb (rj_UID p) (rj_UID rjob)) && phase_eqb (rj_Phase p) PhasePending = false) as ->.
    { destruct (Hu p) as [->|Hp]; [apply list_elem_of_here|by rewrite String.eqb_refl|].
      destruct (phase_eqb_spec (rj_Phase p) PhasePending); [done|]. by rewrite andb_false_r. }
    apply IH. intros q Hq. apply Hu. by apply list_elem_of_further. }
  intros ps ->. eapply dispatches_bind; [by apply Evaluate_alone|].
  intros g [-> | (g' & -> & Hp)]; [apply recover_or_dispatch_dispatches|].
  rewrite Hp, String.eqb_refl. apply dispatch_primary_dispatches.
Qed.

Lemma reconcile_pending_dispatches : dispatches (reconcile_pending r rjob).
Proof using rules_sound builds clean.
  unfold reconcile_pending. destruct (r_Correlator r) as [c|] eqn:Hc in |- *; [|by apply gated_dispatches].
  specialize (rules_sound c Hc). destruct (0 <? window r); [|by apply correlate_dispatches].
  unfold now. cbn [bind call]. apply dispatches_call. intros t [_ Ht].
  rewrite (proj2 (Z.ltb_ge _ _)) by done. by apply correlate_dispatches.
Qed.
End Progress.

Lemma pending_dispatches `{ConditionLib} error_text r rjob start tr o :
  (forall c, r_Correlator r = Some c -> Forall RuleSound (Rules c)) ->
  (forall x fs, rj_Spec x = rj_Spec rjob -> exists j, r_Build r x fs = Done (Ok j)) ->
  injected (rj_Finding rjob) = false -> rj_Phase rjob = PhasePending ->
  runs (reconcile_phase error_text r rjob) tr o -> relies (cooperative r rjob start) tr ->
  o = Done (Ok no_requeue) /\ created_for r rjob tr.
Proof.
  intros Hs Hb Hi Hp Hr.
  assert (dispatches r rjob start (reconcile_phase error_text r rjob)) as Hd; [|exact (runs_wp _ _ _ _ Hr Hd)].
  unfold reconcile_phase. rewrite Hp.
  unfold reconcile_active. rewrite Hp. apply dispatches_call. intros a (l & -> & Hl & _).
  rewrite (Hl eq_refl). by apply reconcile_pending_dispatches.
Qed.

(** C17: With the reconciler that main wires up from a valid environment: if the
    server serves every request and keeps specs, no Job of the RemediationJob exists,
    fewer than MAX_CONCURRENT_JOBS of the listed Jobs occupy a slot (finished and
    stale ones do not), and no other RemediationJob is Pending, then the reconcile of
    a Pending job with a clean finding and a fingerprint of at least 12 characters,
    past its correlation window, ends without error or requeue and has created a Job
    that Build built for its spec, with or without correlation. *)
Theorem pending_jobs_are_dispatched `{ConditionLib} error_text Compile PQ env cfg b corr rjob start tr o :
  FromEnv Compile (fun s => bool_decide (is_Some (PQ s))) env = Ok cfg ->
  JobBuilder.New (builder_config cfg) = Ok b -> buildCorrelator cfg = Ok corr ->
  (12 <= String.length (spec_Fingerprint (rj_Spec rjob)))%nat ->
  injected (rj_Finding rjob) = false -> rj_Phase rjob = PhasePending ->
  runs (reconcile_phase error_text (wired_reconciler PQ cfg b corr) rjob) tr o ->
  relies (cooperative (wired_reconciler PQ cfg b corr) rjob start) tr ->
  o = Done (Ok no_requeue) /\
  exists x fs j j', rj_Spec x = rj_Spec rjob /\ Build PQ b x fs = Done (Ok j) /\
    Event (ans := answer) (CreateJob j) (Ok j') ∈ tr.
Proof.
  intros HE Hb Hc Hfp Hi Hp Hr Hrel.
  apply (pending_dispatches error_text (wired_reconciler PQ cfg b corr) rjob start tr o); try done.
  - intros c Hcc. exact (proj2 (buildCorrelator_rules cfg corr c Hc Hcc)).
  - intros x fs Hx. pose proof (wired_build Compile PQ env cfg b x fs HE Hb) as Hw.
    cbn [wired_reconciler r_Build]. destruct (Build PQ b x fs) as [[j|e]|m]; [eauto| |done].
    rewrite Hx in Hw. lia.
Qed.

(** The witness: three Jobs are listed where three are allowed, but one of them is
    over; one peer has failed. *)
Definition due : RemediationJob := fingerprinted.
Definition quiet_server : handler answer := fun e =>
  match e return answer e with
  | ListJobs _ sel =>
      Ok (if bool_decide (sel = owned_by due) then []
          else [Example.job "over" 0 1 0; Example.job "busy" 1 0 0; Example.job "stale" 0 0 0])
  | ListRJobs _ _ => Ok [due; set_Phase PhaseFailed web_pod]
  | e' => Example.serve idle e'
  end.
Definition production_reconciler := wired_reconciler demo_PQ default_config demo_builder demo_correlator.
Definition due_run :=
  exec_pure quiet_server (@reconcile_phase ListConditions.lib Example.text production_reconciler due).

Lemma counted_le l ts n : counted l ts n -> n <= Z.of_nat (List.length l).
Proof. induction 1; cbn [List.length]; lia. Qed.

Lemma quiet_server_cooperates e : cooperative production_reconciler due hour e (quiet_server e).
Proof.
  destruct e; try done; cbn [cooperative quiet_server Example.serve]; eauto.
  - eexists. split; [done|]. intros p. rewrite !elem_of_cons, elem_of_nil. intros [->|[->|[]]]; [by left|].
    by right.
  - case_bool_decide; eexists; (split; [done|]); (split; [done|]); (split; [by repeat constructor|]); right;
      intros ts n _ Hc.
    + by inversion Hc.
    + inversion Hc as [|? ? ? ? _ Hr%counted_le|? ? ? ? Ho|? ? ? ? ? Ho|? ? ? ? ? Ho]; subst;
        [cbn in *; lia|destruct Ho; by left..].
Qed.

Lemma pending_jobs_are_dispatched_witness :
  due_run.2 = Done (Ok no_requeue) /\
  exists x fs j j', rj_Spec x = rj_Spec due /\ Build demo_PQ demo_builder x fs = Done (Ok j) /\
    Event (ans := answer) (CreateJob j) (Ok j') ∈ due_run.1.
Proof.
  apply (@pending_jobs_are_dispatched ListConditions.lib Example.text (fun _ => None) demo_PQ
           (env_get example_env) default_config demo_builder demo_correlator due hour).
  - vm_compute. reflexivity.
  - reflexivity.
  - reflexivity.
  - vm_compute. lia.
  - vm_compute. reflexivity.
  - reflexivity.
  - apply exec_pure_runs.
  - apply exec_pure_relies, quiet_server_cooperates.
Defined.
