(* ===== verification/DeepCopy.v ===== *)
(** * Deep copies (src/api/v1alpha1/remediationjob_types.go)
    The reconcilers keep a deep copy of an object as the base of a patch and go
    on changing the object.  The rest of the development treats objects as
    values; this file justifies that.  Go structs live in a heap here: a struct
    holds its strings and numbers, and refers to its times, conditions and items
    by location.  [view] reads the value a struct stands for, [foot] is the set
    of locations it reaches.

    The metadata belongs to apimachinery: its representation and its
    DeepCopyInto are an interface, with the contract of a deep copy. *)
From stdpp Require Import base list strings gmap.
From Stdlib Require Import ZArith.
From S2P Require Import Prelude K8s Types.
Open Scope list_scope.

Abbreviation loc := positive.

Record TypeMeta := { tm_Kind : string; tm_APIVersion : string }.

(** ** The contract of a deep copy
    [R] is a representation in memory of the values [V].  A copy of a valid
    struct succeeds, leaves the heap as it was, stands for the same value, and
    reaches only new locations. *)
Section Contract.
Context {C R V : Type}.
Abbreviation mem := (gmap loc C).

(** Two heaps agree on some locations. *)
Definition agree (X : gset loc) (h h' : mem) : Prop := forall l, l ∈ X -> h' !! l = h !! l.

Record deep_ops := {
  d_zero : R;
  d_view : mem -> R -> option V;
  d_foot : mem -> R -> gset loc;
  d_copy : R -> mem -> option (R * mem) }.

Record deep_laws (O : deep_ops) : Prop := {
  d_local : forall h h' x, is_Some (d_view O h x) -> agree (d_foot O h x) h h' ->
    d_view O h' x = d_view O h x /\ d_foot O h' x = d_foot O h x;
  d_valid : forall h x, is_Some (d_view O h x) -> d_foot O h x ⊆ dom h;
  d_copied : forall h x, is_Some (d_view O h x) -> exists x' h', d_copy O x h = Some (x', h') /\
    h ⊆ h' /\ d_view O h' x' = d_view O h x /\ d_foot O h' x' ## dom h }.

Lemma agree_mono X Y h h' : X ⊆ Y -> agree Y h h' -> agree X h h'.
Proof. intros HX HY l Hl. apply HY, HX, Hl. Qed.

Lemma agree_grow X h h' : h ⊆ h' -> X ⊆ dom h -> agree X h h'.
Proof.
  intros Hsub HX l Hl. apply HX in Hl. apply elem_of_dom in Hl as [c Hc]. rewrite Hc.
  by eapply lookup_weaken.
Qed.

Lemma agree_insert X h l c : l ∉ X -> agree X h (<[l := c]> h).
Proof. intros Hl k Hk. apply lookup_insert_ne. intros ->. done. Qed.
End Contract.
Arguments deep_ops C R V : clear implicits.

(** Copies of pairs, one after the other, and of structs that are built from
    copied parts [f x] and other fields of [x]. *)
Section Combine.
Context {C R1 R2 V1 V2 : Type} (O1 : deep_ops C R1 V1) (O2 : deep_ops C R2 V2).

Definition pair_ops : deep_ops C (R1 * R2) (V1 * V2) :=
  {| d_zero := (d_zero O1, d_zero O2);
     d_view := fun h x => v1 ← d_view O1 h x.1; v2 ← d_view O2 h x.2; Some (v1, v2);
     d_foot := fun h x => d_foot O1 h x.1 ∪ d_foot O2 h x.2;
     d_copy := fun x h => '(y1, h1) ← d_copy O1 x.1 h; '(y2, h2) ← d_copy O2 x.2 h1; Some ((y1, y2), h2) |}.

Lemma pair_view h x : is_Some (d_view pair_ops h x) -> is_Some (d_view O1 h x.1) /\ is_Some (d_view O2 h x.2).
Proof. intros [v Hv]. cbn in Hv. destruct (d_view O1 h x.1), (d_view O2 h x.2); by eauto. Qed.

Lemma pair_laws : deep_laws O1 -> deep_laws O2 -> deep_laws pair_ops.
Proof.
  intros L1 L2. split.
  - intros h h' x [H1 H2]%pair_view Ha. cbn in *.
    destruct (d_local _ L1 h h' x.1 H1) as [-> ->]; [eapply agree_mono, Ha; set_solver|].
    destruct (d_local _ L2 h h' x.2 H2) as [-> ->]; [eapply agree_mono, Ha; set_solver|]. done.
  - intros h x [H1%(d_valid _ L1) H2%(d_valid _ L2)]%pair_view. cbn. set_solver.
  - intros h x [H1 H2]%pair_view. cbn.
    destruct (d_copied _ L1 h x.1 H1) as (y1 & h1 & -> & G1 & E1 & F1). cbn.
    destruct (d_local _ L2 h h1 x.2 H2) as [V2' _]; [by apply agree_grow; [|apply (d_valid _ L2)]|].
    destruct (d_copied _ L2 h1 x.2) as (y2 & h2 & -> & G2 & E2 & F2); [by rewrite V2'|].
    rewrite <- E1 in H1.
    destruct (d_local _ L1 h1 h2 y1 H1) as [V1' F1']; [by apply agree_grow; [|apply (d_valid _ L1)]|].
    exists (y1, y2), h2. cbn. split; [done|]. split; [by etrans|]. rewrite V1', E1, E2, V2', F1'.
    split; [done|]. apply subseteq_dom in G1. set_solver.
Qed.
End Combine.

Lemma map_laws {C R R' V V'} (O : deep_ops C R V) (O' : deep_ops C R' V')
    (f : R' -> R) (g : R' -> R -> R') (k : R' -> V -> V') :
  (forall h x, d_view O' h x = k x <$> d_view O h (f x)) ->
  (forall h x, d_foot O' h x = d_foot O h (f x)) ->
  (forall x h, d_copy O' x h = '(y, h') ← d_copy O (f x) h; Some (g x y, h')) ->
  (forall x y, f (g x y) = y) -> (forall x y v, k (g x y) v = k x v) ->
  deep_laws O -> deep_laws O'.
Proof.
  intros Hv Hf Hc Hfg Hk HL. split.
  - intros h h' x. rewrite !Hv, !Hf, fmap_is_Some. intros Hs Ha.
    by destruct (d_local _ HL h h' (f x) Hs Ha) as [-> ->].
  - intros h x. rewrite Hv, Hf, fmap_is_Some. apply (d_valid _ HL).
  - intros h x. rewrite Hv, fmap_is_Some. intros Hs.
    destruct (d_copied _ HL h (f x) Hs) as (y & h' & Hy & G & E & F). rewrite Hc, Hy. cbn.
    exists (g x y), h'. split; [done|]. split; [done|]. rewrite Hv, Hf, Hfg, E. split; [|done].
    destruct (d_view O h (f x)); cbn; [|done]. by rewrite Hk.
Qed.

(** ** The structs, as they lie in memory
    [ss_values] are the fields of the status that hold no reference. *)
Record StatusValues := {
  sv_Phase : RemediationJobPhase;
  sv_JobRef : string;
  sv_PRRef : string;
  sv_Message : string;
  sv_RetryCount : Z;
  sv_CorrelationGroupID : string;
  sv_SinkRef : SinkRef;
  sv_PRMerged : bool }.

Record StatusStruct := {
  ss_values : StatusValues;
  ss_DispatchedAt : option loc;
  ss_CompletedAt : option loc;
  ss_Conditions : option loc;
  ss_PRMergedAt : option loc }.

Record JobStruct (M : Type) := {
  js_TypeMeta : TypeMeta;
  js_ObjectMeta : M;
  js_SpecValue : RemediationJobSpec;
  js_StatusStruct : StatusStruct }.
Arguments js_TypeMeta {M}.
Arguments js_ObjectMeta {M}.
Arguments js_SpecValue {M}.
Arguments js_StatusStruct {M}.

Record ListStruct (LM : Type) := {
  ls_TypeMeta : TypeMeta;
  ls_ListMeta : LM;
  ls_Items : option loc }.
Arguments ls_TypeMeta {LM}.
Arguments ls_ListMeta {LM}.
Arguments ls_Items {LM}.

(** The values of metav1.ListMeta. *)
Record ListMeta := { lm_ResourceVersion : string; lm_Continue : string; lm_Remaining : option Z }.

(** What a location holds: a time, the array of a slice of conditions or of
    RemediationJobs, a struct, or something that belongs to the metadata. *)
Inductive cell (M LM : Type) :=
| CTime (t : Z)
| CConditions (cs : list Condition)
| CJob (j : JobStruct M)
| CJobs (js : list (JobStruct M))
| CList (l : ListStruct LM)
| CMeta (m : ObjectMeta)
| CCount (n : Z).
Arguments CTime {M LM}.
Arguments CConditions {M LM}.
Arguments CJob {M LM}.
Arguments CJobs {M LM}.
Arguments CList {M LM}.
Arguments CMeta {M LM}.
Arguments CCount {M LM}.

(** ** The metadata *)
Class MetaLib := {
  Meta : Type;
  LMeta : Type;
  meta : deep_ops (cell Meta LMeta) Meta ObjectMeta;
  lmeta : deep_ops (cell Meta LMeta) LMeta ListMeta }.

Class MetaLaws (L : MetaLib) : Prop := {
  meta_laws : deep_laws meta;
  lmeta_laws : deep_laws lmeta }.

Section DeepCopy.
Context {L : MetaLib}.
Abbreviation memory := (gmap loc (cell Meta LMeta)).
Abbreviation job := (JobStruct Meta).

(** ** Reading a struct *)
Definition read_ref {V} (proj : cell Meta LMeta -> option V) (nil : V) (h : memory) (p : option loc) : option V :=
  match p with None => Some nil | Some l => h !! l ≫= proj end.

Definition time_in (c : cell Meta LMeta) : option (option Z) :=
  match c with CTime t => Some (Some t) | _ => None end.
Definition conditions_in (c : cell Meta LMeta) : option (list Condition) :=
  match c with CConditions cs => Some cs | _ => None end.

Definition read_time := read_ref time_in None.
(** A nil slice reads as the empty list. *)
Definition read_conditions := read_ref conditions_in [].

Definition view_status (h : memory) (s : StatusStruct) : option RemediationJobStatus :=
  d ← read_time h (ss_DispatchedAt s);
  c ← read_time h (ss_CompletedAt s);
  cs ← read_conditions h (ss_Conditions s);
  m ← read_time h (ss_PRMergedAt s);
  let v := ss_values s in
  Some {| st_Phase := sv_Phase v; st_JobRef := sv_JobRef v; st_PRRef := sv_PRRef v;
          st_DispatchedAt := d; st_CompletedAt := c; st_Message := sv_Message v;
          st_RetryCount := sv_RetryCount v; st_Conditions := cs;
          st_CorrelationGroupID := sv_CorrelationGroupID v; st_SinkRef := sv_SinkRef v;
          st_PRMerged := sv_PRMerged v; st_PRMergedAt := m |}.

Definition view (h : memory) (j : job) : option (TypeMeta * RemediationJob) :=
  m ← d_view meta h (js_ObjectMeta j);
  s ← view_status h (js_StatusStruct j);
  Some (js_TypeMeta j, {| rj_Meta := m; rj_Spec := js_SpecValue j; rj_Status := s |}).

Definition here (p : option loc) : gset loc := match p with Some l => {[l]} | None => ∅ end.

Definition foot_status (s : StatusStruct) : gset loc :=
  here (ss_DispatchedAt s) ∪ here (ss_CompletedAt s) ∪ here (ss_Conditions s) ∪ here (ss_PRMergedAt s).

Definition foot (h : memory) (j : job) : gset loc :=
  d_foot meta h (js_ObjectMeta j) ∪ foot_status (js_StatusStruct j).

(** ** The copy (lines 306-338)
    [None] is a reference to nothing, which Go does not have. *)
Definition alloc (c : cell Meta LMeta) (h : memory) : loc * memory :=
  let l := fresh (dom h) in (l, <[l := c]> h).

(** [if in.F != nil { t := *in.F; out.F = &t }], where [out] is what [*out = *in]
    left in the field; for a slice, [make] and [copy] do the same to its array. *)
Definition copy_ref {V} (proj : cell Meta LMeta -> option V) (inp out : option loc) (h : memory) :
    option (option loc * memory) :=
  match inp with
  | None => Some (out, h)
  | Some l =>
      c ← h !! l; _ ← proj c;
      let '(l', h') := alloc c h in Some (Some l', h')
  end.
Definition copy_time := copy_ref time_in.
Definition copy_conditions := copy_ref conditions_in.

Definition copy_status (s : StatusStruct) (h : memory) : option (StatusStruct * memory) :=
  (* *out = *in, then field by field *)
  let out := s in
  '(d, h1) ← copy_time (ss_DispatchedAt s) (ss_DispatchedAt out) h;
  '(c, h2) ← copy_time (ss_CompletedAt s) (ss_CompletedAt out) h1;
  '(cs, h3) ← copy_conditions (ss_Conditions s) (ss_Conditions out) h2;
  '(m, h4) ← copy_time (ss_PRMergedAt s) (ss_PRMergedAt out) h3;
  Some ({| ss_values := ss_values s; ss_DispatchedAt := d; ss_CompletedAt := c; ss_Conditions := cs;
           ss_PRMergedAt := m |}, h4).

(** What [in.DeepCopyInto(out)] leaves in [*out]. *)
Definition copy_job (j : job) (h : memory) : option (job * memory) :=
  '(m, h1) ← d_copy meta (js_ObjectMeta j) h;
  '(s, h2) ← copy_status (js_StatusStruct j) h1;
  Some ({| js_TypeMeta := js_TypeMeta j; js_ObjectMeta := m; js_SpecValue := js_SpecValue j;
           js_StatusStruct := s |}, h2).

Definition DeepCopyInto (inp out : loc) (h : memory) : option memory :=
  match h !! inp with
  | Some (CJob j) => '(j', h') ← copy_job j h; Some (<[out := CJob j']> h')
  | _ => None
  end.

Definition zero_job : job :=
  {| js_TypeMeta := {| tm_Kind := ""; tm_APIVersion := "" |}; js_ObjectMeta := d_zero meta;
     js_SpecValue :=
       {| spec_SourceResultRef := {| rr_Name := ""; rr_Namespace := "" |}; spec_Fingerprint := "";
          spec_SourceType := ""; spec_SinkType := "";
          spec_Finding := {| fs_Kind := ""; fs_Name := ""; fs_Namespace := ""; fs_ParentObject := "";
                             fs_Errors := ""; fs_Details := ""; fs_ChainDepth := 0 |};
          spec_GitOpsRepo := ""; spec_GitOpsManifestRoot := ""; spec_AgentImage := "";
          spec_AgentSA := ""; spec_MaxRetries := 0; spec_Severity := "" |};
     js_StatusStruct :=
       {| ss_values := {| sv_Phase := PhaseNone; sv_JobRef := ""; sv_PRRef := ""; sv_Message := "";
                          sv_RetryCount := 0; sv_CorrelationGroupID := ""; sv_SinkRef := empty_SinkRef;
                          sv_PRMerged := false |};
          ss_DispatchedAt := None; ss_CompletedAt := None; ss_Conditions := None; ss_PRMergedAt := None |} |}.

(** Lines 341-348; a nil receiver gives nil. *)
Definition DeepCopyObject (inp : option loc) (h : memory) : option (option loc * memory) :=
  match inp with
  | None => Some (None, h)
  | Some l =>
      let '(out, h1) := alloc (CJob zero_job) h in
      h2 ← DeepCopyInto l out h1; Some (Some out, h2)
  end.

(** ** Lists (lines 360-381) *)
Definition store_item (arr : loc) (i : nat) (j : job) (h : memory) : option memory :=
  match h !! arr with
  | Some (CJobs js) => Some (<[arr := CJobs (<[i := j]> js)]> h)
  | _ => None
  end.

(** [for i := range in.Items { in.Items[i].DeepCopyInto(&items[i]) }] *)
Fixpoint copy_items (arr : loc) (i : nat) (items : list job) (h : memory) : option memory :=
  match items with
  | [] => Some h
  | j :: rest =>
      '(j', h1) ← copy_job j h;
      h2 ← store_item arr i j' h1;
      copy_items arr (S i) rest h2
  end.

(** [if in.Items != nil { ... out.Items = items }] *)
Definition copy_slice (inp out : option loc) (h : memory) : option (option loc * memory) :=
  match inp with
  | None => Some (out, h)
  | Some p =>
      match h !! p with
      | Some (CJobs items) =>
          let '(arr, h1) := alloc (CJobs (replicate (List.length items) zero_job)) h in
          h2 ← copy_items arr 0 items h1;
          Some (Some arr, h2)
      | _ => None
      end
  end.

(** What [in.DeepCopyInto(out)] leaves in [*out]. *)
Definition copy_list (l : ListStruct LMeta) (h : memory) : option (ListStruct LMeta * memory) :=
  '(m, h1) ← d_copy lmeta (ls_ListMeta l) h;
  '(items, h2) ← copy_slice (ls_Items l) (ls_Items l) h1;
  Some ({| ls_TypeMeta := ls_TypeMeta l; ls_ListMeta := m; ls_Items := items |}, h2).

Definition List_DeepCopyInto (inp out : loc) (h : memory) : option memory :=
  match h !! inp with
  | Some (CList l) => '(l', h') ← copy_list l h; Some (<[out := CList l']> h')
  | _ => None
  end.

Definition zero_list : ListStruct LMeta :=
  {| ls_TypeMeta := {| tm_Kind := ""; tm_APIVersion := "" |}; ls_ListMeta := d_zero lmeta; ls_Items := None |}.

Definition List_DeepCopyObject (inp : option loc) (h : memory) : option (option loc * memory) :=
  match inp with
  | None => Some (None, h)
  | Some l =>
      let '(out, h1) := alloc (CList zero_list) h in
      h2 ← List_DeepCopyInto l out h1; Some (Some out, h2)
  end.

(** The value of a list; a nil slice is not an empty one. *)
Definition view_slice (h : memory) (p : option loc) : option (option (list (TypeMeta * RemediationJob))) :=
  match p with
  | None => Some None
  | Some l => match h !! l with Some (CJobs js) => Some <$> mapM (view h) js | _ => None end
  end.
Definition foot_slice (h : memory) (p : option loc) : gset loc :=
  match p with
  | None => ∅
  | Some l => {[l]} ∪ match h !! l with Some (CJobs js) => ⋃ (foot h <$> js) | _ => ∅ end
  end.
Definition view_list (h : memory) (l : ListStruct LMeta) :
    option (TypeMeta * ListMeta * option (list (TypeMeta * RemediationJob))) :=
  m ← d_view lmeta h (ls_ListMeta l);
  items ← view_slice h (ls_Items l);
  Some (ls_TypeMeta l, m, items).

Definition job_ops : deep_ops (cell Meta LMeta) job (TypeMeta * RemediationJob) :=
  {| d_zero := zero_job; d_view := view; d_foot := foot; d_copy := copy_job |}.

(** ** The copy of a RemediationJob keeps the contract *)
Lemma alloc_fresh (h : memory) : fresh (dom h) ∉ dom h.
Proof. apply is_fresh. Qed.

Lemma alloc_grows c (h : memory) : h ⊆ <[fresh (dom h) := c]> h.
Proof. apply insert_subseteq, not_elem_of_dom, alloc_fresh. Qed.

Definition ref_ops {V} (proj : cell Meta LMeta -> option V) (nil : V) : deep_ops (cell Meta LMeta) (option loc) V :=
  {| d_zero := None; d_view := read_ref proj nil; d_foot := fun _ p => here p;
     d_copy := fun p => copy_ref proj p p |}.

Lemma ref_laws {V} proj (nil : V) : deep_laws (ref_ops proj nil).
Proof.
  split; cbn; intros h.
  - intros h' [l|] _ Ha; cbn in *; [|done]. by rewrite (Ha l) by set_solver.
  - intros [l|] [v Hv]; cbn in *; [|set_solver]. destruct (h !! l) eqn:E; [|done].
    apply singleton_subseteq_l, elem_of_dom. eauto.
  - intros [l|] [v Hv]; cbn in *; [|by exists None, h; split_and!; [..|set_solver]].
    destruct (h !! l) as [c|]; [|done]. cbn in *. rewrite Hv. cbn.
    eexists _, _. split; [reflexivity|]. split; [apply alloc_grows|].
    cbn. rewrite lookup_insert_eq. split; [done|]. apply disjoint_singleton_l, alloc_fresh.
Qed.

Definition status_ops : deep_ops (cell Meta LMeta) StatusStruct RemediationJobStatus :=
  {| d_zero := js_StatusStruct zero_job; d_view := view_status; d_foot := fun _ => foot_status;
     d_copy := copy_status |}.

Lemma status_laws : deep_laws status_ops.
Proof.
  eapply (map_laws (pair_ops (ref_ops time_in None) (pair_ops (ref_ops time_in None)
            (pair_ops (ref_ops conditions_in []) (ref_ops time_in None)))) status_ops
    (fun s => (ss_DispatchedAt s, (ss_CompletedAt s, (ss_Conditions s, ss_PRMergedAt s))))
    (fun s y => {| ss_values := ss_values s; ss_DispatchedAt := y.1; ss_CompletedAt := y.2.1;
                   ss_Conditions := y.2.2.1; ss_PRMergedAt := y.2.2.2 |})
    (fun s v => let x := ss_values s in
       {| st_Phase := sv_Phase x; st_JobRef := sv_JobRef x; st_PRRef := sv_PRRef x;
          st_DispatchedAt := v.1; st_CompletedAt := v.2.1; st_Message := sv_Message x;
          st_RetryCount := sv_RetryCount x; st_Conditions := v.2.2.1;
          st_CorrelationGroupID := sv_CorrelationGroupID x; st_SinkRef := sv_SinkRef x;
          st_PRMerged := sv_PRMerged x; st_PRMergedAt := v.2.2.2 |})).
  - intros h x. cbn. unfold view_status, read_time, read_conditions.
    destruct (read_ref time_in None h (ss_DispatchedAt x)); cbn; [|done].
    destruct (read_ref time_in None h (ss_CompletedAt x)); cbn; [|done].
    destruct (read_ref conditions_in [] h (ss_Conditions x)); cbn; [|done].
    by destruct (read_ref time_in None h (ss_PRMergedAt x)).
  - intros h x. cbn. unfold foot_status. set_solver.
  - intros x h. cbn. unfold copy_status, copy_time, copy_conditions.
    destruct (copy_ref _ _ _ _) as [[? h1]|]; cbn; [|done].
    destruct (copy_ref _ _ _ _) as [[? h2]|]; cbn; [|done].
    destruct (copy_ref _ _ _ _) as [[? h3]|]; cbn; [|done].
    by destruct (copy_ref _ _ _ _) as [[? h4]|].
  - by intros x [? [? [? ?]]].
  - done.
  - repeat apply pair_laws; apply ref_laws.
Qed.

(** The metadata meets the contract, and so does the whole struct. *)
Context {Laws : MetaLaws L}.

Lemma job_laws : deep_laws job_ops.
Proof using Laws.
  eapply (map_laws (pair_ops meta status_ops) job_ops
    (fun j => (js_ObjectMeta j, js_StatusStruct j))
    (fun j y => {| js_TypeMeta := js_TypeMeta j; js_ObjectMeta := y.1; js_SpecValue := js_SpecValue j;
                   js_StatusStruct := y.2 |})
    (fun j v => (js_TypeMeta j, {| rj_Meta := v.1; rj_Spec := js_SpecValue j; rj_Status := v.2 |}))).
  - intros h x. cbn. unfold view. destruct (d_view meta h _); cbn; [|done].
    by destruct (view_status h _).
  - done.
  - intros x h. cbn. unfold copy_job. destruct (d_copy meta _ h) as [[m h1]|]; cbn; [|done].
    by destruct (copy_status _ h1) as [[s h2]|].
  - by intros x [].
  - done.
  - apply pair_laws; [apply meta_laws|apply status_laws].
Qed.

(** ** The copy of a list keeps the contract *)
Lemma job_local h h' j :
  is_Some (view h j) -> agree (foot h j) h h' -> view h' j = view h j /\ foot h' j = foot h j.
Proof using Laws. apply (d_local _ job_laws h h' j). Qed.

(** Valid jobs that do not reach [arr] are not disturbed by writes to [arr] or to
    new locations. *)
Lemma job_stable arr h h' j :
  is_Some (view h j) -> arr ∉ foot h j -> agree (dom h ∖ {[arr]}) h h' ->
  view h' j = view h j /\ foot h' j = foot h j.
Proof using Laws.
  intros Hv Ha Hag. apply job_local; [done|]. intros l Hl. apply Hag.
  pose proof (d_valid _ job_laws h j Hv l Hl). set_solver.
Qed.

Abbreviation views h := (Forall2 (fun j v => view h j = Some v)).

Lemma views_stable arr h h' js vs :
  views h js vs -> (forall j, j ∈ js -> arr ∉ foot h j) -> agree (dom h ∖ {[arr]}) h h' ->
  views h' js vs /\ (forall j, j ∈ js -> foot h' j = foot h j).
Proof using Laws.
  intros Hvs Hout Ha. induction Hvs as [|j v js vs Hv Hvs IH]; [split; [done|set_solver]|].
  destruct (job_stable arr h h' j) as [V F]; [by rewrite Hv|apply Hout; set_solver|done|].
  destruct IH as [IH1 IH2]; [intros; apply Hout; set_solver|].
  split; [constructor; [by rewrite V|done]|].
  intros k [-> | Hk]%elem_of_cons; auto.
Qed.

Lemma insert_next {A} (l r : list A) x y : <[List.length l := x]> (l ++ y :: r) = (l ++ [x]) ++ r.
Proof. induction l as [|z l IH]; [done|]. cbn. by f_equal. Qed.

(** The loop: [done] are the copies so far. *)
Lemma copy_items_spec arr items :
  forall h done vs,
  h !! arr = Some (CJobs (done ++ replicate (List.length items) zero_job)) ->
  views h items vs -> (forall j, j ∈ items -> arr ∉ foot h j) ->
  exists h' copies, copy_items arr (List.length done) items h = Some h' /\
    h' !! arr = Some (CJobs (done ++ copies)) /\ agree (dom h ∖ {[arr]}) h h' /\ dom h ⊆ dom h' /\
    views h' copies vs /\ (forall j, j ∈ copies -> foot h' j ## dom h).
Proof using Laws.
  induction items as [|j items IH]; intros h done vs Harr Hvs Hout; cbn [copy_items].
  { inversion Hvs; subst. exists h, []. split_and!; try done. set_solver. }
  inversion Hvs as [|? v ? vs' Hv Hvs']; subst.
  destruct (d_copied _ job_laws h j) as (j' & h1 & Hc & G1 & E1 & F1); [cbn; by rewrite Hv|].
  cbn in Hc, E1, F1. rewrite Hc. cbn. unfold store_item. rewrite (lookup_weaken _ _ _ _ Harr G1). cbn.
  rewrite insert_next. set (h2 := <[arr := _]> h1).
  assert (agree (dom h ∖ {[arr]}) h h2) as A2.
  { intros l Hl. unfold h2. rewrite lookup_insert_ne by set_solver.
    apply (agree_grow (dom h)); [done|done|set_solver]. }
  assert (arr ∈ dom h) as Hin by (apply elem_of_dom; eauto).
  assert (dom h2 = dom h1) as D2.
  { unfold h2. rewrite dom_insert_L. apply subseteq_dom in G1. set_solver. }
  destruct (views_stable arr h h2 items vs' Hvs') as [V2 F2]; [set_solver|done|].
  destruct (IH h2 (done ++ [j']) vs') as (h' & copies & Hcopy & H' & A' & D' & V' & F');
    [unfold h2; by rewrite lookup_insert_eq|done| |].
  { intros k Hk. rewrite F2 by done. apply Hout. set_solver. }
  rewrite length_app, Nat.add_1_r in Hcopy. exists h', (j' :: copies).
  assert (arr ∉ foot h1 j') as Hj' by set_solver.
  assert (dom h ⊆ dom h1) as D1 by by apply subseteq_dom.
  assert (is_Some (view h1 j')) as Vj by by rewrite E1, Hv.
  destruct (job_stable arr h1 h' j' Vj Hj') as [Vj' Fj'].
  { intros l Hl. rewrite (A' l) by set_solver. unfold h2. by rewrite lookup_insert_ne by set_solver. }
  split; [done|]. split; [by rewrite H', <- app_assoc|]. split; [|split; [|split]].
  - intros l Hl. rewrite (A' l) by set_solver. by apply A2.
  - set_solver.
  - constructor; [by rewrite Vj', E1|done].
  - intros k [-> | Hk]%elem_of_cons; [by rewrite Fj'|]. specialize (F' k Hk). set_solver.
Qed.

Definition slice_ops : deep_ops (cell Meta LMeta) (option loc) (option (list (TypeMeta * RemediationJob))) :=
  {| d_zero := None; d_view := view_slice; d_foot := foot_slice; d_copy := fun p => copy_slice p p |}.

Lemma view_slice_inv h l :
  is_Some (view_slice h (Some l)) ->
  exists js vs, h !! l = Some (CJobs js) /\ views h js vs /\ view_slice h (Some l) = Some (Some vs).
Proof.
  cbn. destruct (h !! l) as [[]|]; try (by intros [? ?]). rewrite fmap_is_Some. intros [vs Hvs].
  exists js, vs. rewrite Hvs. split; [done|]. split; [by apply mapM_Some|done].
Qed.

Lemma view_slice_intro h l js vs :
  h !! l = Some (CJobs js) -> views h js vs -> view_slice h (Some l) = Some (Some vs).
Proof. intros Hl Hvs%mapM_Some. cbn. by rewrite Hl, Hvs. Qed.

Lemma foot_slice_elem h l js x :
  h !! l = Some (CJobs js) -> x ∈ foot_slice h (Some l) <-> x = l \/ exists j, j ∈ js /\ x ∈ foot h j.
Proof.
  intros Hl. cbn. rewrite Hl, elem_of_union, elem_of_singleton, elem_of_union_list.
  setoid_rewrite list_elem_of_fmap. naive_solver.
Qed.

Lemma views_valid h js vs j : views h js vs -> j ∈ js -> is_Some (view h j).
Proof.
  intros Hvs. induction Hvs as [|k v js vs Hv _ IH]; [by intros ?%elem_of_nil|].
  intros [-> | Hj]%elem_of_cons; [by rewrite Hv|auto].
Qed.

Lemma slice_laws : deep_laws slice_ops.
Proof using Laws.
  split; intros h; cbn [d_view d_foot d_copy slice_ops].
  - intros h' [l|] Hs Ha; [|done].
    destruct (view_slice_inv h l Hs) as (js & vs & Hl & Hvs & ->).
    assert (h' !! l = Some (CJobs js)) as Hl' by (rewrite (Ha l); [done|]; by apply (foot_slice_elem h l js); auto).
    assert (forall j, j ∈ js -> view h' j = view h j /\ foot h' j = foot h j) as Hj.
    { intros j Hj. apply job_local; [by eapply views_valid|]. intros x Hx. apply Ha.
      apply (foot_slice_elem h l js); eauto. }
    split.
    + apply (view_slice_intro _ _ js); [done|]. clear Hs Ha Hl Hl'.
      induction Hvs as [|j v js vs Hv _ IH]; [done|]. constructor.
      * destruct (Hj j) as [-> _]; [apply list_elem_of_here|done].
      * apply IH. intros k Hk. apply Hj. by apply list_elem_of_further.
    + cbn. rewrite Hl, Hl'. f_equal. f_equal. apply list_fmap_ext. intros i j Hi.
      by destruct (Hj j) as [_ ->]; [by eapply list_elem_of_lookup_2|].
  - intros [l|] Hs x; [|set_solver]. destruct (view_slice_inv h l Hs) as (js & vs & Hl & Hvs & _).
    rewrite (foot_slice_elem h l js x Hl). intros [->|(j & Hj & Hx)]; [apply elem_of_dom; eauto|].
    eapply (d_valid _ job_laws h j); [by eapply views_valid|done].
  - intros [l|] Hs; [|exists None, h; split_and!; [done..|cbn; set_solver]].
    destruct (view_slice_inv h l Hs) as (js & vs & Hl & Hvs & ->). cbn [copy_slice]. rewrite Hl. cbn.
    set (arr := fresh (dom h)). set (h1 := <[arr := _]> h).
    assert (h ⊆ h1) as G1 by apply alloc_grows.
    assert (arr ∉ dom h) as Harr by apply alloc_fresh.
    assert (forall j, j ∈ js -> arr ∉ foot h j) as Hout.
    { intros j Hj Hx. apply Harr. eapply (d_valid _ job_laws h j); [by eapply views_valid|done]. }
    destruct (views_stable arr h h1 js vs Hvs Hout) as [V1 F1].
    { apply agree_grow; [done|set_solver]. }
    destruct (copy_items_spec arr js h1 [] vs) as (h' & copies & Hc & H' & A' & D' & V' & F');
      [by apply lookup_insert_eq|done|intros j Hj; rewrite F1 by done; auto|].
    assert (dom h1 = {[arr]} ∪ dom h) as Dh1 by apply dom_insert_L.
    cbn [List.length] in Hc. rewrite Hc. cbn. exists (Some arr), h'. split; [done|]. split; [|split].
    + apply map_subseteq_spec. intros x c Hx. assert (x ∈ dom h) by (apply elem_of_dom; eauto).
      rewrite (A' x) by set_solver. by eapply lookup_weaken.
    + by apply (view_slice_intro h' arr copies).
    + intros x Hx Hd. apply (foot_slice_elem h' arr copies x H') in Hx as [->|(j & Hj & Hx)]; [done|].
      apply (F' j Hj x); [done|]. set_solver.
Qed.

Definition list_ops : deep_ops (cell Meta LMeta) (ListStruct LMeta)
    (TypeMeta * ListMeta * option (list (TypeMeta * RemediationJob))) :=
  {| d_zero := zero_list; d_view := view_list;
     d_foot := fun h l => d_foot lmeta h (ls_ListMeta l) ∪ foot_slice h (ls_Items l); d_copy := copy_list |}.

Lemma list_laws : deep_laws list_ops.
Proof using Laws.
  eapply (map_laws (pair_ops lmeta slice_ops) list_ops
    (fun l => (ls_ListMeta l, ls_Items l))
    (fun l y => {| ls_TypeMeta := ls_TypeMeta l; ls_ListMeta := y.1; ls_Items := y.2 |})
    (fun l v => (ls_TypeMeta l, v.1, v.2))).
  - intros h x. cbn. unfold view_list. destruct (d_view lmeta h _); cbn; [|done].
    by destruct (view_slice h _).
  - done.
  - intros x h. cbn. unfold copy_list. destruct (d_copy lmeta _ h) as [[m h1]|]; cbn; [|done].
    by destruct (copy_slice _ _ h1) as [[s h2]|].
  - by intros x [].
  - done.
  - apply pair_laws; [apply lmeta_laws|apply slice_laws].
Qed.

(** ** What the callers rely on
    The struct at [inp] is copied to a new location [out].  The copy stands for
    the same value; whatever is written to new locations, the original keeps its
    value, and whatever is written to the old ones, the copy keeps its own. *)
Definition independent {R V} (O : deep_ops (cell Meta LMeta) R V) (struct : R -> cell Meta LMeta)
    (copy_object : option loc -> memory -> option (option loc * memory)) : Prop :=
  forall h inp x v, h !! inp = Some (struct x) -> d_view O h x = Some v ->
  exists out h' x', copy_object (Some inp) h = Some (Some out, h') /\ (out ∉ dom h) /\
    h' !! out = Some (struct x') /\ d_view O h' x' = Some v /\ h ⊆ h' /\
    (forall h'', agree (dom h) h' h'' -> d_view O h'' x = Some v) /\
    (forall h'', agree (dom h' ∖ dom h) h' h'' -> h'' !! out = Some (struct x') /\ d_view O h'' x' = Some v).

Lemma copies_independent {R V} (O : deep_ops (cell Meta LMeta) R V) struct copy_object :
  deep_laws O ->
  (forall h inp x, h !! inp = Some (struct x) -> copy_object (Some inp) h =
     ('(x', h') ← d_copy O x (<[fresh (dom h) := struct (d_zero O)]> h);
      Some (Some (fresh (dom h)), <[fresh (dom h) := struct x']> h'))) ->
  independent O struct copy_object.
Proof.
  intros HL Hop h inp x v Hin Hv. rewrite (Hop h inp x Hin). set (out := fresh (dom h)).
  set (h1 := <[out := _]> h). assert (out ∉ dom h) as Hout by apply alloc_fresh.
  assert (h ⊆ h1) as G1 by apply alloc_grows.
  assert (is_Some (d_view O h x)) as Hs by by rewrite Hv.
  destruct (d_local _ HL h h1 x Hs) as [V1 _]; [by apply agree_grow; [|apply (d_valid _ HL)]|].
  destruct (d_copied _ HL h1 x) as (x' & h2 & -> & G2 & E2 & F2); [by rewrite V1|]. cbn.
  assert (dom h1 = {[out]} ∪ dom h) as D1 by apply dom_insert_L.
  set (h' := <[out := struct x']> h2).
  assert (h ⊆ h') as G'.
  { apply map_subseteq_spec. intros l c Hl. unfold h'.
    rewrite lookup_insert_ne by (intros ->; apply Hout, elem_of_dom; eauto).
    eapply lookup_weaken; [|exact G2]. by eapply lookup_weaken. }
  assert (is_Some (d_view O h2 x')) as Hs2 by (rewrite E2, V1; done).
  assert (out ∉ d_foot O h2 x') as Hf by set_solver.
  destruct (d_local _ HL h2 h' x' Hs2) as [V' F']; [by apply agree_insert|].
  assert (d_view O h' x' = Some v) as Hv' by (rewrite V', E2, V1; done).
  pose proof (d_valid _ HL h2 x' Hs2) as Hd2.
  assert (dom h' = {[out]} ∪ dom h2) as D' by apply dom_insert_L.
  exists out, h', x'. split; [done|]. split; [done|]. split; [apply lookup_insert_eq|].
  split; [done|]. split; [done|]. split.
  - intros h'' Ha. assert (agree (d_foot O h x) h h'') as Hx.
    { intros l Hl. pose proof (d_valid _ HL h x Hs l Hl) as Hd. rewrite (Ha l Hd).
      by apply (agree_grow (dom h)). }
    destruct (d_local _ HL h h'' x Hs Hx) as [-> _]. done.
  - intros h'' Ha. split.
    + rewrite (Ha out) by set_solver. apply lookup_insert_eq.
    + destruct (d_local _ HL h' h'' x') as [-> _]; [by rewrite Hv'| |done].
      rewrite F'. eapply agree_mono, Ha. set_solver.
Qed.
End DeepCopy.

(** C26: On a heap of Go structs, DeepCopyObject of a RemediationJob and of a
    RemediationJobList returns a new struct that stands for the same value, changes
    nothing of the old heap, and shares nothing: later writes to old locations leave
    the copy as it is and writes to new ones the original; apimachinery copies the
    metadata under the same contract. *)
Theorem deep_copies_are_independent (L : MetaLib) (Laws : MetaLaws L) :
  independent job_ops CJob DeepCopyObject /\ independent list_ops CList List_DeepCopyObject.
Proof.
  split; apply copies_independent; [apply job_laws| |apply list_laws|]; intros h inp x Hin; cbn.
  - unfold DeepCopyInto. rewrite lookup_insert_ne.
    + rewrite Hin. by destruct (copy_job _ _) as [[]|].
    + intros E. apply (alloc_fresh h). rewrite E. apply elem_of_dom. eauto.
  - unfold List_DeepCopyInto. rewrite lookup_insert_ne.
    + rewrite Hin. by destruct (copy_list _ _) as [[]|].
    + intros E. apply (alloc_fresh h). rewrite E. apply elem_of_dom. eauto.
Qed.

(** ** Metadata that meets the contract: one location each, copied as a whole *)
Module MetaExample.
Definition meta_in (c : cell (option loc) (option loc)) : option ObjectMeta :=
  match c with CMeta m => Some m | _ => None end.
Definition list_meta_in (c : cell (option loc) (option loc)) : option ListMeta :=
  match c with CCount n => Some {| lm_ResourceVersion := ""; lm_Continue := ""; lm_Remaining := Some n |} | _ => None end.
Definition no_meta : ObjectMeta :=
  {| meta_Name := ""; meta_Namespace := ""; meta_UID := ""; meta_Labels := ∅; meta_Annotations := ∅;
     meta_CreationTimestamp := 0; meta_Generation := 0; meta_OwnerReferences := [] |}.
Definition no_list_meta : ListMeta := {| lm_ResourceVersion := ""; lm_Continue := ""; lm_Remaining := None |}.
Definition one_ref {V} (proj : cell (option loc) (option loc) -> option V) (nil : V) :
    deep_ops (cell (option loc) (option loc)) (option loc) V :=
  {| d_zero := None;
     d_view := fun h p => match p with None => Some nil | Some l => h !! l ≫= proj end;
     d_foot := fun _ p => here p;
     d_copy := fun p h => match p with
                          | None => Some (p, h)
                          | Some l => c ← h !! l; _ ← proj c;
                                      Some (Some (fresh (dom h)), <[fresh (dom h) := c]> h)
                          end |}.
#[export] Instance lib : MetaLib :=
  {| Meta := option loc; LMeta := option loc; meta := one_ref meta_in no_meta;
     lmeta := one_ref list_meta_in no_list_meta |}.
#[export] Instance laws : MetaLaws lib.
Proof. split; [exact (ref_laws (L := lib) meta_in no_meta)|exact (ref_laws (L := lib) list_meta_in no_list_meta)]. Qed.

(** A list of one dispatched job. *)
Definition status : StatusStruct :=
  {| ss_values := {| sv_Phase := PhaseDispatched; sv_JobRef := "j"; sv_PRRef := ""; sv_Message := "";
                     sv_RetryCount := 1; sv_CorrelationGroupID := ""; sv_SinkRef := empty_SinkRef;
                     sv_PRMerged := false |};
     ss_DispatchedAt := Some 1%positive; ss_CompletedAt := None; ss_Conditions := Some 2%positive;
     ss_PRMergedAt := None |}.
Definition sample_job : JobStruct Meta :=
  {| js_TypeMeta := {| tm_Kind := "RemediationJob"; tm_APIVersion := "v1alpha1" |};
     js_ObjectMeta := Some 3%positive; js_SpecValue := js_SpecValue zero_job; js_StatusStruct := status |}.
Definition one_item : ListStruct LMeta :=
  {| ls_TypeMeta := {| tm_Kind := "RemediationJobList"; tm_APIVersion := "v1alpha1" |};
     ls_ListMeta := None; ls_Items := Some 5%positive |}.
Definition memory0 : gmap loc (cell Meta LMeta) :=
  <[1%positive := CTime 7]> (<[2%positive := CConditions []]> (<[3%positive := CMeta no_meta]>
  (<[4%positive := CJob sample_job]> (<[5%positive := CJobs [sample_job]]>
  (<[6%positive := CList one_item]> ∅))))).
End MetaExample.

Lemma deep_copies_are_independent_witness :
  exists out h' l', List_DeepCopyObject (L := MetaExample.lib) (Some 6%positive) MetaExample.memory0
    = Some (Some out, h') /\ h' !! out = Some (CList l') /\
  view_list (L := MetaExample.lib) h' l' = view_list (L := MetaExample.lib) MetaExample.memory0 MetaExample.one_item.
Proof.
  destruct (proj2 (deep_copies_are_independent MetaExample.lib MetaExample.laws)
              MetaExample.memory0 6%positive MetaExample.one_item
              (default (MetaExample.one_item.(ls_TypeMeta), MetaExample.no_list_meta, None)
                 (view_list (L := MetaExample.lib) MetaExample.memory0 MetaExample.one_item)))
    as (out & h' & l' & H1 & _ & H2 & H3 & _); [reflexivity|vm_compute; reflexivity|].
  exists out, h', l'. split; [exact H1|]. split; [exact H2|].
  etransitivity; [exact H3|]. vm_compute. reflexivity.
Defined.
