(* ===== verification/Boot.v ===== *)
(** * main (src/cmd/watcher/main.go), logging.New and the scheme
    The start of the process from the command line to the running manager, as a
    program over its own effects: client-go, controller-runtime, the file system
    and golang-jwt answer.  zap's level parser and logger constructor are
    arguments.  A fatal log message ends the process with code 1; log lines that
    do not are left out. *)
From stdpp Require Import base list strings gmap.
From Stdlib Require Import ZArith Lia.
From S2P Require Import Prelude Prog Utf8 Regex Redact Json K8s Types Effects Domain.
From S2P Require Import BoundedMap CircuitBreaker Metrics Correlator Config JobBuilder Wiring Native GitHub Watcher.
Import GoErr GoStr GoInt GoTime.
Open Scope string_scope.
Open Scope list_scope.
Open Scope Z_scope.
Open Scope go_scope.

(** ** The scheme (src/api/v1alpha1) *)
Record GroupVersion_ := { gv_Group : string; gv_Version : string }.

Definition remediationGroupVersion : GroupVersion_ :=
  {| gv_Group := "remediation.mechanic.io"; gv_Version := "v1alpha1" |}.

(** [GroupVersion] of groupversion_info.go. *)
Definition GroupVersion : GroupVersion_ :=
  {| gv_Group := "remediation.mechanic.io"; gv_Version := "v1alpha1" |}.

(** A scheme as far as it is used here: the kinds registered per group version. *)
Abbreviation Scheme := (list (GroupVersion_ * string)).

(** [metav1.AddToGroupVersion] adds the option types of the API machinery. *)
Definition addRemediationTypes (AddToGroupVersion : GroupVersion_ -> Scheme -> Scheme) (s : Scheme) :
    res Scheme :=
  Ok (AddToGroupVersion remediationGroupVersion
        (s ++ [(remediationGroupVersion, "RemediationJob"); (remediationGroupVersion, "RemediationJobList")])).

Definition AddRemediationToScheme := addRemediationTypes.

(** [NewScheme] panics when the registration fails, which it cannot. *)
Definition NewScheme (AddToGroupVersion : GroupVersion_ -> Scheme -> Scheme) : outcome Scheme :=
  match AddRemediationToScheme AddToGroupVersion [] with
  | Ok s => Done s
  | Err _ => Panicked "failed to register scheme"
  end.

(** ** logging.New *)
Section Logging.
Context {Level Logger : Type} (UnmarshalText : string -> res Level) (BuildLogger : Level -> res Logger).

(** The error texts are kept without the operand of [%q]. *)
Definition logging_New (level : string) : res Logger :=
  if String.eqb level "" then Err (EMsg "logging.New: log level must not be empty")
  else
    match UnmarshalText level with
    | Err e => Err (EWrap "logging.New: invalid log level: " e)
    | Ok zapLevel =>
        match BuildLogger zapLevel with
        | Err e => Err (EWrap "logging.New: build logger: " e)
        | Ok logger => Ok logger
        end
    end.
End Logging.

(** ** The effects of main *)
(** [ctrl.Options], as far as they vary or matter. *)
Record Options := {
  opt_LeaderElection : bool;
  opt_MetricsBindAddress : string;
  opt_HealthProbeBindAddress : string;
  opt_GracefulShutdownTimeout : Z;
  opt_SecretNamespaces : list string;
  opt_DefaultNamespaces : gset string }.

Inductive boot_req :=
| Println (s : string)
| AddToScheme (group : string) (s : Scheme)
| GetConfigOrDie
| NewManager (o : Options)
| Sleep (d : Z)
| ReadFile (path : string)
| ParseRSAPrivateKeyFromPEM (pem : string)
| Setup (watches : string) (owns : list string)
| AddHealthzCheck (name : string)
| AddReadyzCheck (name : string)
| Start.

Definition boot_answer (e : boot_req) : Type :=
  match e with
  | Println _ | Sleep _ => unit
  | GetConfigOrDie => bool
  | ReadFile _ => res string
  | AddToScheme _ _ => res Scheme
  | _ => res unit
  end.

Abbreviation boot := (prog boot_answer).

(** How the process ends. *)
Record Exit := { code : Z; why : string }.
Definition fatal (msg : string) : Exit := {| code := 1; why := msg |}.

(** A step of main goes on with a value or ends the process. *)
Abbreviation stage A := (boot (Exit + A)).

Definition go_on {A} (a : A) : stage A := Ret (inr a).
Definition die {A} (msg : string) : stage A := Ret (inl (fatal msg)).

Definition and_then {A B} (p : stage A) (k : A -> stage B) : stage B :=
  x <- p ;; match x with inl e => Ret (inl e) | inr a => k a end.

(** [if err := ...; err != nil { logger.Fatal(msg) }] *)
Definition or_fatal {A} (msg : string) (r : res A) : stage A :=
  match r with Ok a => go_on a | Err _ => die msg end.

Definition Contains (s sub : string) : bool :=
  match String.index 0 sub s with Some _ => true | None => false end.

(** The controllers: [ctrl.NewControllerManagedBy(mgr).For(...).Owns(...).Complete(r)]. *)
Definition RemediationJobReconciler_SetupWithManager : boot (res unit) :=
  call (Setup "RemediationJob" ["Job"]).
Definition SourceProviderReconciler_SetupWithManager (objectType : string) : boot (res unit) :=
  call (Setup objectType []).

Section Main.
Context (Compile : string -> option (string -> Redaction.redactRule)) (PQ : string -> option Quantity).
Context (env : string -> string) (Version : string).
Context (AddToGroupVersion : GroupVersion_ -> Scheme -> Scheme).
Context {Level Logger : Type} (UnmarshalText : string -> res Level) (BuildLogger : Level -> res Logger).
(** [err.Error()] of the client library's errors. *)
Context (error_text : error -> string).

(** Lines 70-79. *)
Definition register_schemes : stage Scheme :=
  and_then (r <- call (AddToScheme "client-go" []) ;; or_fatal "failed to add client-go scheme" r) (fun s =>
  and_then (r <- call (AddToScheme "batch/v1" s) ;; or_fatal "failed to add batchv1 scheme" r) (fun s =>
  or_fatal "failed to add v1alpha1 remediation scheme" (AddRemediationToScheme AddToGroupVersion s))).

(** Lines 81-103.  [DefaultNamespaces] is a map to empty structs: a set, and nil
    when it is empty. *)
Definition manager_options (cfg : Config) : Options :=
  {| opt_LeaderElection := false; opt_MetricsBindAddress := ":8080";
     opt_HealthProbeBindAddress := ":8081"; opt_GracefulShutdownTimeout := 30 * second;
     opt_SecretNamespaces := [cfg_AgentNamespace cfg];
     opt_DefaultNamespaces := list_to_set (cfg_AgentWatchNamespaces cfg) |}.

(** Lines 109-120: [attempt] of the loop, with [left] more to come. *)
Fixpoint new_manager (opts : Options) (left : nat) : stage unit :=
  r <- call (NewManager opts) ;;
  match r with
  | Ok _ => go_on tt
  | Err e =>
      if Contains (error_text e) "Unauthorized" then
        match left with
        | S n => call (Sleep (3 * second)) ;;; new_manager opts n
        | O => die "unable to start manager"
        end
      else die "unable to start manager"
  end.

(** Lines 224-248. *)
Definition private_key : stage unit :=
  and_then (pem <- call (ReadFile "/var/run/secrets/mechanic/github-app-private-key/private-key") ;;
            or_fatal "failed to read GitHub App private key from volume" pem) (fun pem =>
  k <- call (ParseRSAPrivateKeyFromPEM pem) ;;
  or_fatal "GITHUB_APP_PRIVATE_KEY is invalid (PEM parse failed); cannot start with PR_AUTO_CLOSE=true" k).

Definition setup_sink (cfg : Config) : stage (option GitHubAppTokenProvider) :=
  if cfg_PRAutoClose cfg then
    match positive_id env "GITHUB_APP_ID" with
    | Err _ => die "GITHUB_APP_ID is missing or invalid; cannot start with PR_AUTO_CLOSE=true"
    | Ok appID =>
        match positive_id env "GITHUB_APP_INSTALLATION_ID" with
        | Err _ => die "GITHUB_APP_INSTALLATION_ID is missing or invalid; cannot start with PR_AUTO_CLOSE=true"
        | Ok installID =>
            and_then private_key (fun _ =>
            go_on (Some {| AppID := appID; InstallationID := installID; tp_BaseURL := "" |}))
        end
    end
  else go_on None.

(** Lines 258-273. *)
Fixpoint setup_providers (kinds : list string) : stage unit :=
  match kinds with
  | [] => go_on tt
  | k :: rest =>
      and_then (r <- SourceProviderReconciler_SetupWithManager k ;; or_fatal "provider setup failed" r) (fun _ => setup_providers rest)
  end.

Definition provider_kinds : list string :=
  ["Pod"; "Deployment"; "PersistentVolumeClaim"; "Node"; "StatefulSet"; "Job"].

(** What main has put together when it starts the manager. *)
Record Wired := {
  w_Cfg : Config;
  w_Builder : Builder;
  w_Redactor : Redaction.Redactor;
  w_Correlator : option Correlator;
  w_Breaker : option CircuitBreaker;
  w_Sink : option GitHubAppTokenProvider }.

(** Lines 122-273. *)
Definition assemble (cfg : Config) : stage Wired :=
  and_then (or_fatal "jobbuilder init failed" (JobBuilder.New (builder_config cfg))) (fun jb =>
  and_then (or_fatal "failed to initialise redactor" (Redaction.New Compile (cfg_ExtraRedactPatterns cfg))) (fun redactor =>
  and_then (or_fatal "buildCorrelator failed" (buildCorrelator cfg)) (fun corr =>
  and_then (r <- RemediationJobReconciler_SetupWithManager ;;
            or_fatal "RemediationJobReconciler setup failed" r) (fun _ =>
  and_then (setup_sink cfg) (fun sink =>
  and_then (setup_providers provider_kinds) (fun _ =>
  go_on {| w_Cfg := cfg; w_Builder := jb; w_Redactor := redactor; w_Correlator := corr;
           w_Breaker := build_breaker cfg; w_Sink := sink |})))))).

(** Lines 275-284.  [Start] returns when a signal asks the process to stop. *)
Definition run_manager : stage unit :=
  and_then (r <- call (AddHealthzCheck "healthz") ;; or_fatal "unable to set up health check" r) (fun _ =>
  and_then (r <- call (AddReadyzCheck "readyz") ;; or_fatal "unable to set up ready check" r) (fun _ =>
  r <- call Start ;; or_fatal "problem running manager" r)).

Definition prepare : stage Wired :=
  and_then (or_fatal "config error" (FromEnv Compile (fun s => bool_decide (is_Some (PQ s))) env)) (fun cfg =>
  and_then (or_fatal "logger init failed" (logging_New UnmarshalText BuildLogger (cfg_LogLevel cfg))) (fun _ =>
  and_then register_schemes (fun _ =>
  and_then (ok <- call GetConfigOrDie ;; if ok : bool then go_on tt else die "unable to get kubeconfig") (fun _ =>
  and_then (new_manager (manager_options cfg) 9) (fun _ =>
  assemble cfg))))).

Definition serve : stage unit := and_then prepare (fun _ => run_manager).

Definition main (args : list string) : boot Exit :=
  if existsb (fun arg => String.eqb arg "--version") args then
    call (Println Version) ;;; Ret {| code := 0; why := "" |}
  else
    x <- serve ;; Ret (match x with inl e => e | inr _ => {| code := 0; why := "" |} end).
End Main.

(** The kinds are those of the wired providers. *)
Lemma provider_kinds_wired redactor newest_first :
  provider_kinds = map fst (enabledProviders redactor newest_first).
Proof. reflexivity. Qed.

(** ** What a trace shows *)
Abbreviation btrace := (list (event boot_answer)).

(** The controllers that were set up and whether that worked, the answers of
    [NewManager], the time slept, and the calls of [Start]. *)
Definition setup_of (ev : event boot_answer) : option (string * bool) :=
  match ev with
  | Event e a => match e return boot_answer e -> option (string * bool) with
                 | Setup k _ => fun a => Some (k, is_ok a)
                 | _ => fun _ => None
                 end a
  end.
Definition attempt_of (ev : event boot_answer) : option (res unit) :=
  match ev with
  | Event e a => match e return boot_answer e -> option (res unit) with
                 | NewManager _ => fun a => Some a
                 | _ => fun _ => None
                 end a
  end.
Definition sleep_of (ev : event boot_answer) : option Z :=
  match ev_call ev with Sleep d => Some d | _ => None end.
Definition start_of (ev : event boot_answer) : option bool :=
  match ev with
  | Event e a => match e return boot_answer e -> option bool with
                 | Start => fun a => Some (is_ok a)
                 | _ => fun _ => None
                 end a
  end.

Definition setups (tr : btrace) := omap setup_of tr.
Definition attempts (tr : btrace) := omap attempt_of tr.
Definition sleeps (tr : btrace) := omap sleep_of tr.
Definition managers_started (tr : btrace) := omap start_of tr.
Definition printed (tr : btrace) : list string :=
  omap (fun ev => match ev_call ev with Println s => Some s | _ => None end) tr.

(** ** Stages
    A stage starts no manager; it ends the process with code 1, or goes on with a
    value that satisfies [S]. *)
Definition does {A} (S : btrace -> A -> Prop) (p : stage A) : Prop :=
  wp p (fun tr o => managers_started tr = [] /\
    match o with Done (inl e) => code e = 1 | Done (inr a) => S tr a | Panicked _ => False end).

Lemma does_go_on {A} (S : btrace -> A -> Prop) a : S [] a -> does S (go_on a).
Proof. done. Qed.
Lemma does_die {A} (S : btrace -> A -> Prop) msg : does S (die msg).
Proof. done. Qed.

Lemma does_and_then {A B} (S1 : btrace -> A -> Prop) (S : btrace -> B -> Prop) (p : stage A) k :
  does S1 p -> (forall tr a, S1 tr a -> does (fun tr' b => S (tr ++ tr') b) (k a)) ->
  does S (and_then p k).
Proof.
  intros Hp Hk. apply wp_bind. eapply wp_mono; [|exact Hp]. intros tr [[e|a]|m] [Hs Ha]; [..|done].
  - cbn [wp]. by rewrite app_nil_r.
  - eapply wp_mono; [|apply (Hk tr a Ha)]. intros tr' o [Hs' Ho]. split; [|done].
    unfold managers_started in *. by rewrite omap_app, Hs, Hs'.
Qed.

Lemma does_mono {A} (S S' : btrace -> A -> Prop) p :
  (forall tr a, S tr a -> S' tr a) -> does S p -> does S' p.
Proof. intros HS. apply wp_mono. intros tr [[e|a]|m] [? ?]; split; auto. Qed.

Lemma does_or_fatal {A} (S : btrace -> A -> Prop) msg r :
  (forall a, r = Ok a -> S [] a) -> does S (or_fatal msg r).
Proof. intros HS. destruct r; [by apply does_go_on, HS|apply does_die]. Qed.


Section Starts.
Context (Compile : string -> option (string -> Redaction.redactRule)) (PQ : string -> option Quantity).
Context (env : string -> string) (Version : string).
Context (AddToGroupVersion : GroupVersion_ -> Scheme -> Scheme).
Context {Level Logger : Type} (UnmarshalText : string -> res Level) (BuildLogger : Level -> res Logger).
Context (error_text : error -> string).

Abbreviation config_of := (FromEnv Compile (fun s => bool_decide (is_Some (PQ s))) env).

Lemma register_schemes_does :
  does (fun tr _ => setups tr = []) (register_schemes AddToGroupVersion).
Proof.
  unfold register_schemes. eapply (does_and_then (fun tr _ => setups tr = [])).
  { intros [s|e]; by split. }
  intros tr s Hs. eapply (does_and_then (fun tr _ => setups tr = [])).
  { intros [s'|e]; by split. }
  intros tr' s' Hs'. apply does_or_fatal. intros s'' _. unfold setups in *.
  by rewrite app_nil_r, omap_app, Hs, Hs'.
Qed.

Lemma new_manager_does opts n : does (fun tr _ => setups tr = []) (new_manager error_text opts n).
Proof.
  induction n as [|n IH]; cbn [new_manager]; intros [u|e]; cbn [bind]; try done;
    destruct (Contains _ _); try done. intros u. eapply wp_mono; [|exact IH].
  by intros tr [[x|a]|m] [Hs Ha].
Qed.

Lemma setup_providers_does ks :
  does (fun tr _ => setups tr = map (fun k => (k, true)) ks) (setup_providers ks).
Proof.
  induction ks as [|k ks IH]; [by apply does_go_on|]. cbn [setup_providers map].
  eapply (does_and_then (fun tr _ => setups tr = [(k, true)])); [by intros [u|e]|].
  intros tr u Hs. eapply does_mono; [|exact IH]. intros tr' u' Hs'.
  unfold setups in *. by rewrite omap_app, Hs, Hs'.
Qed.

Lemma setup_sink_does cfg :
  does (fun tr sink => setups tr = [] /\ sink_of cfg env (Ok tt) = Ok sink) (setup_sink env cfg).
Proof.
  unfold setup_sink, sink_of, github_app. destruct (cfg_PRAutoClose cfg); [|by apply does_go_on].
  destruct (positive_id env "GITHUB_APP_ID"); [|apply does_die].
  destruct (positive_id env "GITHUB_APP_INSTALLATION_ID"); [|apply does_die].
  eapply (does_and_then (fun tr _ => setups tr = [])).
  - unfold private_key. eapply (does_and_then (fun tr _ => setups tr = [])); [by intros [p|e]|].
    intros tr pem Hs. intros [u|e]; [|done]. split; [done|]. cbn. unfold setups in *.
    by rewrite omap_app, Hs.
  - intros tr u Hs. apply does_go_on. rewrite app_nil_r. done.
Qed.

(** Everything that main constructs is what the other files call wired. *)
Record wiring_ok (w : Wired) : Prop := {
  wo_config : config_of = Ok (w_Cfg w);
  wo_builder : JobBuilder.New (builder_config (w_Cfg w)) = Ok (w_Builder w);
  wo_redactor : Redaction.New Compile (cfg_ExtraRedactPatterns (w_Cfg w)) = Ok (w_Redactor w);
  wo_correlator : buildCorrelator (w_Cfg w) = Ok (w_Correlator w);
  wo_breaker : w_Breaker w = build_breaker (w_Cfg w);
  wo_sink : sink_of (w_Cfg w) env (Ok tt) = Ok (w_Sink w) }.

Definition all_controllers : list string := "RemediationJob" :: provider_kinds.

Lemma assemble_does cfg :
  config_of = Ok cfg ->
  does (fun tr w => setups tr = map (fun k => (k, true)) all_controllers /\ wiring_ok w)
    (assemble Compile env cfg).
Proof.
  intros Hcfg. unfold assemble.
  eapply (does_and_then (fun tr b => tr = [] /\ JobBuilder.New (builder_config cfg) = Ok b));
    [by apply does_or_fatal|]. intros ? b [-> Hb].
  eapply (does_and_then (fun tr x => tr = [] /\ Redaction.New Compile (cfg_ExtraRedactPatterns cfg) = Ok x));
    [by apply does_or_fatal|]. intros ? rd [-> Hrd].
  eapply (does_and_then (fun tr x => tr = [] /\ buildCorrelator cfg = Ok x));
    [by apply does_or_fatal|]. intros ? corr [-> Hcorr].
  eapply (does_and_then (fun tr _ => setups tr = [("RemediationJob", true)])); [by intros [u|e]|].
  intros tr1 u Hs1. eapply does_and_then; [apply setup_sink_does|]. intros tr2 sink [Hs2 Hsink].
  eapply does_and_then; [apply setup_providers_does|]. intros tr3 u' Hs3.
  apply does_go_on. split; [|by split].
  unfold setups in *. cbn [app]. by rewrite app_nil_r, !omap_app, Hs1, Hs2, Hs3.
Qed.

Lemma prepare_does :
  does (fun tr w => setups tr = map (fun k => (k, true)) all_controllers /\ wiring_ok w)
    (prepare Compile PQ env AddToGroupVersion UnmarshalText BuildLogger error_text).
Proof.
  unfold prepare. eapply (does_and_then (fun tr c => tr = [] /\ config_of = Ok c));
    [by apply does_or_fatal|]. intros ? cfg [-> Hcfg].
  eapply (does_and_then (fun tr _ => tr = [])); [by apply does_or_fatal|]. intros ? lg ->.
  eapply does_and_then; [apply register_schemes_does|]. intros tr1 sc Hs1.
  eapply (does_and_then (fun tr _ => setups tr = [])); [by intros []|]. intros tr2 u2 Hs2.
  eapply does_and_then; [apply new_manager_does|]. intros tr3 u3 Hs3.
  eapply does_mono; [|by apply assemble_does]. intros tr4 w [Hs4 Hw]. split; [|done].
  unfold setups in *. cbn [app]. by rewrite !omap_app, Hs1, Hs2, Hs3, Hs4.
Qed.

Abbreviation main_of := (main Compile PQ env Version AddToGroupVersion UnmarshalText BuildLogger error_text).

(** ** The retries *)
Definition unauthorized (r : res unit) : Prop :=
  match r with Ok _ => False | Err e => Contains (error_text e) "Unauthorized" = true end.

(** At most [n] retries, each after an Unauthorized error and three seconds. *)
Definition retried (n : nat) (tr : btrace) : Prop :=
  exists failures last, attempts tr = failures ++ [last] /\ Forall unauthorized failures /\
    (List.length failures <= n)%nat /\ sleeps tr = replicate (List.length failures) (3 * second).

Definition no_retry (tr : btrace) : Prop := attempts tr = [] /\ sleeps tr = [].

Lemma new_manager_retries opts n : wp (new_manager error_text opts n) (fun tr _ => retried n tr).
Proof.
  induction n as [|n IH]; intros [u|e]; cbn [bind];
    try (by eexists [], _; split_and!; [reflexivity|constructor|cbn; lia|]).
  - destruct (Contains _ _); by eexists [], _; split_and!; [reflexivity|constructor|cbn; lia|].
  - destruct (Contains (error_text e) "Unauthorized") eqn:E;
      [|by eexists [], _; split_and!; [reflexivity|constructor|cbn; lia|]].
    intros u. eapply wp_mono; [|exact IH]. intros tr o (fs & l & Ha & Hf & Hn & Hs).
    exists (Err e :: fs), l. unfold attempts, sleeps in *. cbn. rewrite Ha, Hs.
    split_and!; [done|by constructor|lia|done].
Qed.

(** Calls outside the loop. *)
Definition steady (e : boot_req) : Prop :=
  match e with NewManager _ | Sleep _ | Println _ => False | _ => True end.

Lemma steady_no_retry tr : every steady tr -> no_retry tr.
Proof.
  induction 1 as [|[e a] tr He _ [IH1 IH2]]; [done|]. unfold no_retry, attempts, sleeps in *.
  cbn. destruct e; try done; by rewrite IH1, IH2.
Qed.

(** The loop runs at most once: before it and after it the calls are steady. *)
Definition fine {A} (p : boot A) : Prop := wp p (fun tr _ => no_retry tr \/ retried 9 tr).

Lemma fine_steady {A} (p : boot A) : allows steady p -> fine p.
Proof. apply wp_mono. intros tr _ H. left. by apply steady_no_retry. Qed.

Lemma fine_after {A B} (p : boot A) (k : A -> boot B) :
  allows steady p -> (forall a, fine (k a)) -> fine (bind p k).
Proof.
  intros Hp Hk. apply wp_bind. eapply wp_mono; [|exact Hp]. intros tr [a|m] [H1 H2]%steady_no_retry; [|by left].
  eapply wp_mono; [|apply (Hk a)]. unfold no_retry, retried, attempts, sleeps in *.
  intros tr' _. by rewrite !omap_app, H1, H2.
Qed.

Lemma fine_before {A B} (p : boot A) (k : A -> boot B) :
  fine p -> (forall a, allows steady (k a)) -> fine (bind p k).
Proof.
  intros Hp Hk. apply wp_bind. eapply wp_mono; [|exact Hp]. intros tr [a|m] Hr; [|done].
  eapply wp_mono; [|apply (Hk a)]. intros tr' _ [H1 H2]%steady_no_retry.
  unfold no_retry, retried, attempts, sleeps in *. by rewrite !omap_app, H1, H2, !app_nil_r.
Qed.

Ltac calm :=
  unfold and_then, or_fatal, go_on, die, SourceProviderReconciler_SetupWithManager,
    RemediationJobReconciler_SetupWithManager; allows_steps;
  try match goal with x : (_ + _)%type |- _ => destruct x end; allows_steps.

Lemma setup_providers_steady ks : allows steady (setup_providers ks).
Proof. induction ks as [|k ks IH]; cbn [setup_providers]; calm; exact IH. Qed.

Lemma setup_sink_steady cfg : allows steady (setup_sink env cfg).
Proof. unfold setup_sink, private_key. calm. Qed.

Lemma assemble_steady cfg : allows steady (assemble Compile env cfg).
Proof. unfold assemble. calm; try apply setup_sink_steady; try apply setup_providers_steady; calm. Qed.

Lemma run_manager_steady : allows steady run_manager.
Proof. unfold run_manager. calm. Qed.

(** Without a request for it the version is not printed. *)
Definition mute (e : boot_req) : Prop := match e with Println _ => False | _ => True end.

Lemma steady_mute {A} (p : boot A) : allows steady p -> allows mute p.
Proof. apply allows_mono. by intros []. Qed.

Lemma new_manager_mute opts n : allows mute (new_manager error_text opts n).
Proof. induction n as [|n IH]; cbn [new_manager]; calm; exact IH. Qed.

Lemma serve_mute : allows mute (serve Compile PQ env AddToGroupVersion UnmarshalText BuildLogger error_text).
Proof.
  unfold serve, prepare, register_schemes.
  calm; try apply new_manager_mute; try apply steady_mute, assemble_steady; try apply steady_mute, run_manager_steady; calm.
Qed.

(** How main ends without a request for the version: it does not get as far as the
    manager, or the manager, started last and once, stops with or without an error. *)
Inductive served (tr : btrace) : Z -> Prop :=
| served_not : managers_started tr = [] -> served tr 1
| served_once tr' a w : tr = tr' ++ [Event (ans := boot_answer) Start a] -> managers_started tr' = [] ->
    wiring_ok w -> setups tr' = map (fun k => (k, true)) all_controllers ->
    served tr (if is_ok a then 0 else 1).

(** How a served process ends. *)
Lemma serve_ends :
  wp (serve Compile PQ env AddToGroupVersion UnmarshalText BuildLogger error_text) (fun tr o =>
    exists x, o = Done x /\ served tr (match x with inl e => code e | inr _ => 0 end)).
Proof.
  apply wp_bind. eapply wp_mono; [|apply prepare_does]. intros tr [[e|w]|m] [Hs Hp]; [..|done].
  { eexists. split; [done|]. rewrite app_nil_r, Hp. by apply served_not. }
  destruct Hp as [Hset Hw].
  assert (forall u1 u2, managers_started (tr ++ [Event (ans := boot_answer) (AddHealthzCheck "healthz") u1;
      Event (ans := boot_answer) (AddReadyzCheck "readyz") u2]) = [] /\
    setups (tr ++ [Event (ans := boot_answer) (AddHealthzCheck "healthz") u1;
      Event (ans := boot_answer) (AddReadyzCheck "readyz") u2]) = map (fun k => (k, true)) all_controllers) as Hall.
  { intros. unfold managers_started, setups in *. rewrite !omap_app, Hs, Hset. cbn. by rewrite ?app_nil_r. }
  intros [u|e].
  2: { eexists. split; [done|]. apply served_not. unfold managers_started in *. by rewrite omap_app, Hs. }
  intros [u'|e].
  2: { eexists. split; [done|]. apply served_not. unfold managers_started in *. by rewrite omap_app, Hs. }
  intros a. destruct (Hall (Ok u) (Ok u')) as [H1 H2].
  assert (served (tr ++ [Event (ans := boot_answer) (AddHealthzCheck "healthz") (Ok u);
      Event (ans := boot_answer) (AddReadyzCheck "readyz") (Ok u'); Event (ans := boot_answer) Start a])
      (if is_ok a then 0 else 1)) as Hserved.
  { eapply served_once; [|exact H1|exact Hw|exact H2]. by rewrite <- app_assoc. }
  destruct a; eexists; (split; [done|exact Hserved]).
Qed.

Lemma mute_prints tr : every mute tr -> printed tr = [].
Proof. induction 1 as [|[e a] tr He _ IH]; [done|]. unfold printed in *. cbn. by destruct e. Qed.

(** C27: main always ends, without a panic. With --version it only prints the version
    and ends with code 0. Otherwise it prints nothing, and either never starts the
    manager and ends with 1, or starts it once, as its last call, after a valid
    configuration was read, the builder, redactor, correlator, breaker and sink were
    made from it and all controllers were set up, in order, with success; then it ends
    with 0 exactly if the manager stopped without an error, and with 1 otherwise. *)
Theorem process_serves_only_when_wired args tr o :
  runs (main_of args) tr o ->
  exists x, o = Done x /\
  (("--version" ∈ args /\ tr = [Event (ans := boot_answer) (Println Version) tt] /\ code x = 0) \/
   (("--version" ∉ args) /\ printed tr = [] /\ served tr (code x))).
Proof.
  revert tr o. apply (proj1 (wp_runs _ _)). unfold main. destruct (existsb _ args) eqn:E.
  - apply existsb_exists in E as (a & Ha%list_elem_of_In & ->%String.eqb_eq).
    intros []. eexists. split; [done|]. by left.
  - assert ("--version" ∉ args) as Hv.
    { intros Hin. apply not_true_iff_false in E. apply E, existsb_exists. exists "--version".
      by rewrite <- list_elem_of_In. }
    apply wp_bind, wp_runs. intros tr o Hr.
    pose proof (mute_prints _ (runs_wp _ _ _ _ Hr serve_mute)) as Hp.
    destruct (runs_wp _ _ _ _ Hr serve_ends) as (x & -> & Hx). eexists. split; [done|]. right.
    rewrite app_nil_r. by destruct x.
Qed.

(** C28: main asks for a manager at most ten times: every attempt but the last failed
    with an Unauthorized error and was followed by a pause of three seconds, and there
    is no other pause. *)
Theorem start_up_retries_are_bounded args tr o :
  runs (main_of args) tr o -> no_retry tr \/ retried 9 tr.
Proof.
  revert tr o. apply (proj1 (wp_runs _ _)). change (fine (main_of args)). unfold main.
  destruct (existsb _ args); [intros u; by left|].
  apply fine_before; [|intros; apply allows_ret]. apply fine_before; [|intros []; [apply allows_ret|apply run_manager_steady]].
  apply fine_after; [calm|]. intros [?|cfg]; [by left|].
  apply fine_after; [calm|]. intros [?|lg]; [by left|].
  apply fine_after; [unfold register_schemes; calm|]. intros [?|sc]; [by left|].
  apply fine_after; [calm|]. intros [?|u]; [by left|].
  apply fine_before; [|intros []; [apply allows_ret|apply assemble_steady]].
  eapply wp_mono; [|apply new_manager_retries]. by right.
Qed.
End Starts.

(** ** A start with two refusals *)
Module BootExample.
Definition getenv (name : string) : string :=
  if String.eqb name "GITHUB_APP_ID" then "1"
  else if String.eqb name "GITHUB_APP_INSTALLATION_ID" then "2" else env_get example_env name.

Definition text (e : error) : string := match e with EMsg m => m | _ => "error" end.

(** The token arrives after two attempts. *)
Definition answer_boot (e : boot_req) (n : nat) : boot_answer e * nat :=
  match e return boot_answer e * nat with
  | Println _ => (tt, n)
  | Sleep _ => (tt, n)
  | GetConfigOrDie => (true, n)
  | ReadFile _ => (Ok "pem", n)
  | AddToScheme _ s => (Ok s, n)
  | NewManager _ => if (n <? 2)%nat then (Err (EMsg "Unauthorized"), S n) else (Ok tt, n)
  | ParseRSAPrivateKeyFromPEM _ => (Ok tt, n)
  | Setup _ _ => (Ok tt, n)
  | AddHealthzCheck _ => (Ok tt, n)
  | AddReadyzCheck _ => (Ok tt, n)
  | Start => (Ok tt, n)
  end.

Definition program : boot Exit :=
  main (fun _ => None) demo_PQ getenv "dev" (fun _ s => s) (Level := string) (Logger := unit)
    (fun s => Ok s) (fun _ => Ok tt) text [].
Definition tr : btrace := (exec answer_boot program 0%nat).1.1.
Definition out : outcome Exit := (exec answer_boot program 0%nat).1.2.

Lemma program_runs : runs program tr out.
Proof.
  unfold tr, out. destruct (exec answer_boot program 0%nat) as [[t o] w] eqn:E.
  by apply exec_runs in E.
Qed.
End BootExample.

Lemma process_serves_only_when_wired_witness :
  managers_started BootExample.tr = [true] /\
  exists x, BootExample.out = Done x /\
  (("--version" ∈ [] /\ BootExample.tr = [Event (ans := boot_answer) (Println "dev") tt] /\ code x = 0) \/
   (("--version" ∉ []) /\ printed BootExample.tr = [] /\
    served (fun _ => None) demo_PQ BootExample.getenv BootExample.tr (code x))).
Proof.
  split; [vm_compute; reflexivity|].
  apply (process_serves_only_when_wired (fun _ => None) demo_PQ BootExample.getenv "dev" (fun _ s => s)
           (Level := string) (Logger := unit) (fun s => Ok s) (fun _ => Ok tt) BootExample.text).
  apply BootExample.program_runs.
Defined.

Lemma start_up_retries_are_bounded_witness :
  sleeps BootExample.tr = [3 * second; 3 * second] /\
  (no_retry BootExample.tr \/ retried BootExample.text 9 BootExample.tr).
Proof.
  split; [vm_compute; reflexivity|].
  apply (start_up_retries_are_bounded (fun _ => None) demo_PQ BootExample.getenv "dev" (fun _ s => s)
           (Level := string) (Logger := unit) (fun s => Ok s) (fun _ => Ok tt) BootExample.text []
           BootExample.tr BootExample.out).
  apply BootExample.program_runs.
Defined.
