(* ===== verification/Names.v ===== *)
(** * The names and labels the watcher creates
    Kubernetes refuses an object whose name is no DNS label (RFC 1123: at most 63
    lower-case letters, digits and dashes, with no dash at the ends) or whose
    label values are malformed.  What the watcher creates is always accepted. *)
From stdpp Require Import base list strings gmap.
From Stdlib Require Import ZArith Lia Ascii.
From S2P Require Import Prelude Prog Utf8 Regex Redact Sha256 Json K8s Types Effects Domain Fingerprint.
From S2P Require Import BoundedMap CircuitBreaker Metrics Correlator Config Controller ControllerProps Provider ProviderProps.
From S2P Require Import Native NativeProps GitHub JobBuilder Wiring Watcher Origin System.
Import GoErr GoStr GoTime GoInt.
Open Scope string_scope.
Open Scope list_scope.
Open Scope Z_scope.
Open Scope go_scope.

(** ** The rules of Kubernetes *)
Definition code_of (c : ascii) : Z := Z.of_nat (nat_of_ascii c).
Definition between (lo hi : Z) (c : ascii) : bool := (lo <=? code_of c) && (code_of c <=? hi).
Definition lower_or_digit (c : ascii) : bool := between 97 122 c || between 48 57 c.
Definition letter_or_digit (c : ascii) : bool := lower_or_digit c || between 65 90 c.

Fixpoint all_chars (P : ascii -> bool) (s : string) : bool :=
  match s with EmptyString => true | String c s' => P c && all_chars P s' end.

Fixpoint last_char (s : string) : option ascii :=
  match s with
  | EmptyString => None
  | String c EmptyString => Some c
  | String _ s' => last_char s'
  end.
Definition first_char (s : string) : option ascii :=
  match s with EmptyString => None | String c _ => Some c end.

Definition ends_in (P : ascii -> bool) (s : string) : bool :=
  match first_char s, last_char s with Some c, Some d => P c && P d | _, _ => false end.

Definition dns_label (s : string) : bool :=
  (String.length s <=? 63)%nat && all_chars (fun c => lower_or_digit c || (code_of c =? 45)) s
  && ends_in lower_or_digit s.

(** A label value may be empty, and has dots and underscores too. *)
Definition label_value (s : string) : bool :=
  String.eqb s "" ||
  ((String.length s <=? 63)%nat
   && all_chars (fun c => letter_or_digit c || (code_of c =? 45) || (code_of c =? 46) || (code_of c =? 95)) s
   && ends_in letter_or_digit s).

(** ** Hexadecimal suffixes *)
Lemma hex_lower c : is_hex_digit c = true -> lower_or_digit c = true.
Proof.
  unfold is_hex_digit, lower_or_digit, between, code_of. rewrite !orb_true_iff, !andb_true_iff, !Z.leb_le. lia.
Qed.

Lemma all_chars_app P s t : all_chars P (s +:+ t) = all_chars P s && all_chars P t.
Proof. induction s as [|c s IH]; cbn; [done|]. by rewrite IH, andb_assoc. Qed.

Lemma all_chars_mono (P Q : ascii -> bool) s :
  (forall c, P c = true -> Q c = true) -> all_chars P s = true -> all_chars Q s = true.
Proof.
  intros HPQ. induction s as [|c s IH]; cbn; [done|]. rewrite !andb_true_iff. intros [? ?]. auto.
Qed.

Lemma all_hex_chars s : all_hex s = all_chars is_hex_digit s.
Proof. induction s as [|c s IH]; cbn; congruence. Qed.

Lemma last_char_app s t : t <> "" -> last_char (s +:+ t) = last_char t.
Proof.
  intros Ht. induction s as [|c s IH]; [done|]. cbn [String.append]. rewrite <- IH. cbn.
  destruct (s +:+ t) eqn:E; [|done]. destruct s; [by destruct t|done].
Qed.

Lemma last_char_all P s c : all_chars P s = true -> last_char s = Some c -> P c = true.
Proof.
  induction s as [|d s IH]; [done|]. cbn. rewrite andb_true_iff. intros [Hd Hs].
  destruct s; [by intros [= <-]|]. by apply IH.
Qed.

Lemma last_char_some s : s <> "" -> exists c, last_char s = Some c.
Proof.
  induction s as [|d s IH]; [done|]. intros _. cbn. destruct s as [|e s]; [eauto|]. by apply IH.
Qed.

(** A prefix of legal characters that starts well, and then digits. *)
Lemma dns_label_hex pre p :
  (1 <= String.length pre)%nat -> (String.length pre + String.length p <= 63)%nat ->
  p <> "" -> all_hex p = true ->
  all_chars (fun c => lower_or_digit c || (code_of c =? 45)) pre = true ->
  (forall c, first_char pre = Some c -> lower_or_digit c = true) -> dns_label (pre +:+ p) = true.
Proof.
  intros Hpre Hlen Hp Hhex Hall Hfirst. rewrite all_hex_chars in Hhex. unfold dns_label, ends_in.
  rewrite length_append, all_chars_app, Hall, last_char_app by done.
  destruct (last_char_some p Hp) as [d Hd]. rewrite Hd.
  pose proof (last_char_all _ _ _ Hhex Hd) as Hd'. apply hex_lower in Hd'. rewrite Hd'.
  destruct pre as [|c pre]; [cbn in Hpre; lia|]. cbn [String.append first_char].
  rewrite (Hfirst c eq_refl), (proj2 (Nat.leb_le _ _)) by done. cbn [andb].
  rewrite (all_chars_mono is_hex_digit _ p); [done| |done]. intros x Hx%hex_lower. by rewrite Hx.
Qed.

Lemma dns_label_value s : dns_label s = true -> label_value s = true.
Proof.
  unfold dns_label, label_value, ends_in. rewrite !andb_true_iff. intros [[-> Ha] He].
  rewrite orb_true_iff. right.
  rewrite !andb_true_iff. split; [split; [done|]|].
  - eapply all_chars_mono, Ha. intros c. unfold letter_or_digit. rewrite !orb_true_iff. tauto.
  - destruct (first_char s), (last_char s); try done. rewrite andb_true_iff in *. unfold letter_or_digit.
    destruct He as [-> ->]. done.
Qed.

(** ** The kinds of findings *)
Definition finding_kinds : list string :=
  ["Pod"; "Deployment"; "PersistentVolumeClaim"; "Node"; "StatefulSet"; "Job"].

Definition known_kind (x : extracted) : Prop := forall f, x = Ok (Some f) -> f_Kind f ∈ finding_kinds.

Abbreviation ends := (ensures (@Prog.anything req answer) (fun _ => True)).

Lemma ends_any {A} (p : io A) : ends (fun _ => True) p.
Proof. apply wp_runs. intros tr [a|m] _ _; split; try done; by apply Forall_true. Qed.

Lemma ends_kind_none : ends known_kind (Ret (Ok None)).
Proof. by apply ensures_ret. Qed.
Lemma ends_kind_err e : ends known_kind (Ret (Err e)).
Proof. by apply ensures_ret. Qed.
Lemma ends_kind_finding kind name ns parent errors sev depth node :
  kind ∈ finding_kinds ->
  ends known_kind (Ret (Ok (Some (mk_finding kind name ns parent errors sev depth node)))).
Proof. intros Hk. apply ensures_ret. by intros f [= <-]. Qed.

Ltac kinds :=
  repeat match goal with
  | |- ends _ (Ret (Ok None)) => apply ends_kind_none
  | |- ends _ (Ret (Err _)) => apply ends_kind_err
  | |- ends _ (Ret (Ok (Some _))) => apply ends_kind_finding; unfold finding_kinds; set_solver
  | |- ends _ (bind _ _) => eapply ensures_bind; [apply ends_any|intros ? _]
  | |- ends _ (if ?b then _ else _) => destruct b
  | |- ends _ (match ?x with _ => _ end) => destruct x
  end.

Lemma native_kinds redactor newest_first extract obj :
  extract ∈ native_providers redactor newest_first -> ends known_kind (extract obj).
Proof.
  intros Hin. unfold native_providers in Hin.
  repeat (apply elem_of_cons in Hin as [->|Hin]); [..|set_solver];
    unfold pod_ExtractFinding, deployment_ExtractFinding, pvc_ExtractFinding, node_ExtractFinding,
      statefulset_ExtractFinding, job_ExtractFinding; kinds.
Qed.

(** ** What is created *)
Lemma kind_label k : k ∈ finding_kinds -> label_value k = true.
Proof.
  unfold finding_kinds. intros Hk.
  repeat (apply elem_of_cons in Hk as [->|Hk]; [vm_compute; reflexivity|]). set_solver.
Qed.

Lemma take_hex n s : all_hex s = true -> all_hex (take n s) = true.
Proof.
  unfold take. revert n. induction s as [|c s IH]; intros [|n]; cbn; try done.
  rewrite !andb_true_iff. intros [? ?]. auto.
Qed.

Lemma take12_hex fp :
  String.length fp = 64%nat -> all_hex fp = true ->
  String.length (take 12 fp) = 12%nat /\ all_hex (take 12 fp) = true /\ take 12 fp <> "".
Proof.
  intros Hl Hh. assert (String.length (take 12 fp) = 12%nat) as H12 by (apply take_length; lia).
  split; [done|]. split; [by apply take_hex|]. intros E. by rewrite E in H12.
Qed.

Lemma named pre p :
  String.length p = 12%nat -> all_hex p = true -> p <> "" ->
  (1 <= String.length pre <= 51)%nat ->
  all_chars (fun c => lower_or_digit c || (code_of c =? 45)) pre = true ->
  match first_char pre with Some c => lower_or_digit c | None => false end = true ->
  dns_label (pre +:+ p) = true.
Proof.
  intros Hl Hh Hne Hpre Hall Hf. apply dns_label_hex; try done; [lia|lia|].
  intros c Hc. by rewrite Hc in Hf.
Qed.

(** The label values of an object. *)
Definition labels_ok (m : ObjectMeta) : Prop :=
  map_Forall (fun _ v => label_value v = true) (meta_Labels m).

Lemma hex_label p : String.length p = 12%nat -> all_hex p = true -> p <> "" -> label_value p = true.
Proof.
  intros Hl Hh Hne. apply dns_label_value. destruct p as [|c p]; [done|].
  change (String c p) with ((String c "") +:+ p). cbn in Hl, Hh. apply andb_true_iff in Hh as [Hc Hp].
  apply hex_lower in Hc. apply dns_label_hex; try done; [cbn; lia..| | |].
  - by destruct p.
  - cbn. by rewrite Hc.
  - by intros ? [= <-].
Qed.

Section Created.
Context (redactor : Redaction.Redactor) (newest_first : list EventObj -> list EventObj).
Context (cfg : Config) (sink : option GitHubAppTokenProvider).

Ltac legal := vm_compute; reflexivity.

Lemma labels_insert k v (m : gmap string string) :
  label_value v = true -> map_Forall (fun _ v => label_value v = true) m ->
  map_Forall (fun _ v => label_value v = true) (<[k := v]> m).
Proof. intros. by apply map_Forall_insert_2. Qed.

(** C29: The names and labels of every RemediationJob that a wired provider creates,
    and of every Job and report ConfigMap that belong to it, are legal in Kubernetes:
    DNS labels of at most 63 characters and label values within their length and
    alphabet. *)
Theorem created_objects_are_accepted sh p f job rjob PQ b fs j :
  p ∈ enabledProviders redactor newest_first -> stems (wired_provider cfg sink sh p) f job ->
  same_identity rjob job -> Build PQ b rjob fs = Done (Ok j) ->
  dns_label (rj_Name job) = true /\ labels_ok (rj_Meta job) /\
  dns_label (meta_Name (job_Meta j)) = true /\ labels_ok (job_Meta j) /\
  dns_label (DryRunCMName (spec_Fingerprint (rj_Spec rjob))) = true.
Proof.
  intros Hp%enabled_native (name & ns & ob & tr & fp & Hx & Hfp & _ & _ & ->) (Hs & Hn & _) HB.
  destruct (fingerprint_shape f fp Hfp) as [Hlen Hhex].
  destruct (take12_hex fp Hlen Hhex) as (H12 & Hh & Hne).
  assert (f_Kind f ∈ finding_kinds) as Hk.
  { destruct (runs_wp _ _ _ _ Hx (native_kinds redactor newest_first p.2 ob Hp)) as [_ H];
      [apply relies_anything|]. by apply H. }
  rewrite (built_meta _ _ _ _ _ HB). unfold labels_ok. cbn [job_meta meta_Name meta_Labels]. rewrite Hs, Hn.
  assert (spec_Fingerprint (rj_Spec (new_rjob (wired_provider cfg sink sh p) name ns fp f)) = fp) as -> by done.
  assert (dns_label ("mechanic-" +:+ take 12 fp) = true) as Hname by (apply named; [done..|cbn; lia|legal|legal]).
  split; [exact Hname|]. split; [|split; [|split]].
  - repeat apply labels_insert; [by apply hex_label|legal|apply map_Forall_empty].
  - apply named; [done..|cbn; lia|legal|legal].
  - repeat apply labels_insert; [legal|by apply hex_label|by apply dns_label_value| |apply map_Forall_empty].
    unfold rj_Finding. rewrite Hs. by apply kind_label.
  - unfold DryRunCMName. rewrite Hlen. apply named; [done..|cbn; lia|legal|legal].
Qed.
End Created.

(** The job that SystemExample dispatches. *)
Lemma created_objects_are_accepted_witness :
  exists rjob fs j, Build demo_PQ demo_builder rjob fs = Done (Ok j) /\
  exists job, dns_label (rj_Name job) = true /\ labels_ok (rj_Meta job) /\
  dns_label (meta_Name (job_Meta j)) = true /\ labels_ok (job_Meta j) /\
  dns_label (DryRunCMName (spec_Fingerprint (rj_Spec rjob))) = true.
Proof.
  destruct SystemExample.dispatched_reached as [ps Hr].
  destruct SystemExample.dispatched_agent as (j & Hj & Hm).
  pose proof (reaches_inv Example.text Redaction.defaultRedactor NativeExample.sorted_events map_to_list
    demo_PQ default_config demo_builder demo_correlator None (proj1 NativeExample.sorted_events_ok)
    eq_refl _ Hr) as Hw.
  destruct (proj2 (inv_jobs _ _ _ _ _ _ _ _ Hw _ _ Hj) Hm) as (rjob & [Hmade _] & fs & j0 & HB & _).
  destruct Hmade as (sh & p & f & job & Hp & _ & Hst & Hi).
  exists rjob, fs, j0. split; [exact HB|]. exists job.
  exact (created_objects_are_accepted Redaction.defaultRedactor NativeExample.sorted_events default_config
           None sh p f job rjob demo_PQ demo_builder fs j0 Hp Hst Hi HB).
Defined.
